(* ===== verification/_CoqProject ===== *)
-Q . S2P
Prelude.v
GoStd.v
GoStrings.v
Floats.v
Auth.v
Caches.v
Similarity.v
Graph.v
Semantic.v
Vector.v
Memory.v
Consolidate.v
Metrics.v
Analytics.v
Providers.v
Backends.v
Glob.v
Eviction.v
Shard.v
Store.v
StoreHash.v
StoreList.v
StoreSet.v
StoreZSet.v
ShardSpec.v
StoreSpec.v
EngineSpec.v
EngineProofs.v
EngineMulti.v
KeySpace.v
KeyScan.v
EvictionSpec.v
Ttl.v
RespCodec.v
PubSub.v
Server.v
HandlersKV.v
HandlersData.v
Calls.v
HandlersCache.v
HandlersVector.v
HandlersMemory.v
HandlersPubSub.v
Mcp.v
McpSpec.v
FrontDoors.v
Session.v
SessionSpec.v
SessionRun.v
Engine.v
CommandSpec.v
TxSpec.v
Confine.v
TenantStores.v
Isolation.v
Startup.v
Listener.v
Effects.v
Regions.v
Programs.v
Scripts.v
OneCall.v
Cluster.v
ClusterSpec.v
Interleave.v
InterleaveSpec.v
InterleaveIso.v
Json.v
McpTools.v
Http.v
HttpSpec.v
Dashboard.v
