(* ===== verification/Prelude.v ===== *)
(** * Cache-Pot: a verification development

    Cache-Pot (cmd/cachepotd) is a cache and memory server for agents.  One
    process serves a Redis-compatible key space, semantic and exact caches, a
    vector store, agent memory with consolidation, and a knowledge graph,
    through two front doors, the RESP listener (internal/server/resp) and the
    MCP listener (internal/mcp), and reports on itself over HTTP
    (internal/observability).  This library models the whole path from a
    client's bytes to the stores and back, and proves what each part promises.

    ** How the program is modelled

    Definitions keep the source's names; [Module]s carry the Go package's name
    where two packages share one.  Go structs are records, maps are [gmap]s,
    sets [gset]s, slices lists, [[]byte] is [GoStd.gobytes] (nil and empty
    slices differ on the wire), int64 is Z with [wrap64] written out wherever
    the code computes, float64 is IEEE-754 double precision through
    [SpecFloat].  A method is a function in a state monad on the state its
    receiver guards; a method that holds a mutex throughout is one atomic
    step.  What the run-time chooses (the clock's readings, the order in which
    a map is ranged over) is an argument, the class [Server.Runtime] for the
    handlers, so the theorems hold for every choice.  A Go panic is a value
    ([None] of the handler monad, [Panic] of [outcome]).  Code outside the
    repository (encoding/json, net/http, the Unicode tables, decimal texts of
    doubles, math/rand, the OpenAI service, random identifiers) enters as
    classes: [Providers.Services] and [Encoding], [GoStd.UnicodeTables],
    [HandlersData.FloatText], [Caches.KeyCodec], [Backends.RandSource] and
    [Transport], [Json.NumberText], [McpTools.Float32Text] and [Validator].
    Their laws are separate classes, stated only where a theorem needs them and
    instantiated by the witnesses.

    ** The files

    - Groundwork: Prelude.v (results, the state monad, lists, map loops),
      GoStd.v, GoStrings.v, Floats.v (the standard library).
    - Key space (internal/storage, memstore, eviction, ttl): Shard.v, Store.v
      and one file per kind of value (StoreHash.v, StoreList.v, StoreSet.v,
      StoreZSet.v) are the code; Glob.v and Eviction.v its helpers.
      ShardSpec.v and StoreSpec.v state what a keyed operation promises as a
      function on the abstract content of one key, with a rule per shape of
      method; EngineSpec.v, EngineProofs.v, EngineMulti.v, KeySpace.v,
      KeyScan.v and EvictionSpec.v apply them; Engine.v collects the results
      for the whole interface.  Ttl.v is the reaper against the interface
      [Sweepable], which the store implements.
    - Agent stores: Caches.v (tool and prompt cache behind [ExactCache]),
      Similarity.v and Semantic.v, Vector.v, Memory.v, Graph.v, Consolidate.v.
    - Services: Metrics.v, Analytics.v, Providers.v (instrumentation and
      argument encodings), Backends.v (the mock and OpenAI providers).
    - RESP: RespCodec.v (types.go, errors.go), PubSub.v, Server.v (client.go,
      dispatch.go), the handlers in HandlersKV.v, HandlersData.v,
      HandlersCache.v, HandlersVector.v, HandlersMemory.v, HandlersPubSub.v
      over the calls of Calls.v; Session.v closes the loop (EXEC dispatches
      again) and is the loop of a connection.  SessionSpec.v, SessionRun.v,
      CommandSpec.v and TxSpec.v are its theorems.
    - MCP: Mcp.v (the fifteen tools), McpSpec.v, FrontDoors.v (both doors),
      McpTools.v (their registration, with the documents of their arguments
      and results).
    - Isolation of workspaces: Auth.v, Confine.v (engine calls), TenantStores.v
      (agent stores), Isolation.v (whole connections).
    - Process: Startup.v (.env file, flags, credentials, construction of the
      parts, up to the listeners), Listener.v (accepting, connection slots,
      the shutdown of both listeners), Effects.v (what a command or a tool call
      does, as a sequence of calls of the components), Cluster.v (connections,
      forwarders, tool calls and the reaper as events on the shared state) and
      ClusterSpec.v (what clients of one process can rely on).  There a command
      is one event; Regions.v has what the engine does under one lock, Programs.v
      says what a program of calls is, Scripts.v gives every command and tool
      its program, Interleave.v lets connections and tool calls take turns
      between any two calls, with EXEC's mutex, OneCall.v finds the commands
      that make one call, and InterleaveSpec.v and InterleaveIso.v prove what
      holds then.
    - Operators: Json.v (encoding and decoding of documents by struct tags),
      Http.v and HttpSpec.v (/metrics, /stats, the view of /dashboard),
      Dashboard.v (its page).

    ** What the theorems show

    - Refinement: every engine method is the abstract operation on the content
      of its key, for every schedule of clock readings and range orders
      ([Engine.engine_refines]), up to one victim of maximal score when
      eviction is on ([engine_refines_evicting], [evictIfNeeded_outcome]); the
      exact caches answer like a log of their writes
      ([Caches.caches_refine_log]); racing latency recorders leave what
      sequential recording leaves ([Metrics.latency_concurrent]).
    - Invariants: reachable stores are well-formed with exact counts
      ([reachable_inv]), memories agree with their history and index
      ([memory_invariant]), the expensive-entry list is a true top
      ([top_expensive_spec]), no more connections than slots
      ([Listener.connections_bounded]).
    - Concurrency: in any interleaving of the calls that connections and tool
      calls make, with pushes, sweeps, arrivals and departures, nothing panics
      and the state stays sound ([interleaving_never_crashes], from [main] on);
      nobody is stuck ([no_deadlock]); a command that makes one call is
      linearizable ([linearizable]); no client reaches a workspace whose
      password it does not know ([interleaved_isolation]); the runs of Cluster.v
      are among these ([process_is_interleaved]).  Concrete runs show what is
      not atomic: INCR, MSET, and EXEC between its check and its mutex.
    - The process, a command being one event: it never crashes
      ([server_never_crashes]); EXEC runs what was queued only if the watched
      keys are as they were ([optimistic_locking]); workspaces stay apart
      ([process_isolation]); subscribers are sent what is published, in order
      ([pubsub_fifo]); run alone, a connection of the process is the connection
      loop ([process_refines_connection]).
    - Composition: a pipelined client receives exactly the replies of its
      commands in order, or a beginning of them when writing fails
      ([SessionRun.session_pipeline]); dispatch never panics
      on any argument list ([dispatch_never_panics]); a connection changes
      only workspaces it authenticated for ([workspace_isolation]); an MCP
      call and the RESP command that spells it have the same effect and
      answer ([mcp_matches_resp]); what start-up builds satisfies the
      invariants the rest assumes ([startup_spec]).
    - Functional behaviour on every branch: EXEC and WATCH, SCAN, glob
      matching, publishing, semantic lookup, vector and memory search, graph
      traversal and extraction, deduplication, INCR and EXPIRE at the ends of
      64 bits, the embedding client.
    - Round trips: commands, replies, workspace credentials, the arguments and
      results of MCP tools ([tools_call_roundtrip]), the text of /metrics, the
      cells of /dashboard, whose markup no client can change
      ([dashboard_reads_back]).  Termination: reading a stream of commands, SCAN, shutdown.
    - Errors the code has: allocation panics in the parser, replies lost on a
      framing error or split by quoted line ends, lost updates of EXEC and
      INCR, SUMMARY.CREATE outside the isolation, /stats silenced by an
      infinite cost, a send on a closed channel, MCP requests abandoned at
      shutdown, and others, each by a theorem or a concrete run.

    ** Fuel and bounds

    [Session.Handle] takes 2: EXEC dispatches queued commands and EXEC itself
    is never queued ([Handle_2_replies] shows that 2 suffices).
    [Session.conn_loop], [RespCodec.readArgs], [RespCodec.decode] and
    [Glob.globMatchBytes] take fuel bounded by the bytes still to read, each
    step consuming at least one; [KeyScan.scan_pages] takes more pages than
    there are keys; [GoStd.format_digits] takes twenty, which holds every
    64-bit magnitude.  The theorems on them say that this much fuel gives the
    result.

    ** Not modelled

    Logging (observability/log.go) and process exit; package flag's parsing
    and the reading of files; TCP and bufio, of which [Session.Network] keeps
    when bytes arrive, when the write buffer spills and when writing fails;
    the HTTP server and the MCP SDK's transport; mutexes, other than by
    what is one event in Interleave.v: what the engine does under one lock, a
    tick of the reaper, a whole method of another component (the finer
    interleavings of metrics, publish against close, cache refresh against
    eviction and the accept loop have theorems of their own); fused
    multiply-add, which Go allows on some platforms; monotonic clock readings.  These are input and output, generated code or
    third-party code, or a matter of the platform. *)

From stdpp Require Export base gmap sets list strings sorting.
From Stdlib Require Export Ascii ZArith Lia.

#[export] Set Default Goal Selector "!".
#[export] Set Warnings "-clear-no-such-hyp".

(** ** Results of fallible Go calls

    A Go function returning [(v, err)] is modelled by [result]: the engine's
    error values are the constructors of [goerr]
    (internal/storage/engine.go).  Every error return of the modelled code
    returns zero values beside the error, so nothing is lost. *)

Inductive goerr : Type :=
  | ErrWrongType
  | ErrNotInteger
  | ErrNotFloat
  | ErrIndexOutOfRange
  | ErrNoSuchKey.

#[export] Instance goerr_eq_dec : EqDecision goerr.
Proof. solve_decision. Defined.

Inductive result (A : Type) : Type :=
  | Ok (a : A)
  | Error (e : goerr).
Arguments Ok {A} a.
Arguments Error {A} e.

#[export] Instance result_eq_dec `{EqDecision A} : EqDecision (result A).
Proof. solve_decision. Defined.

(** A call that may also panic: the packages outside the engine return plain
    errors, whose texts are not modelled. *)
Inductive outcome (A : Type) : Type :=
  | Return (a : A)
  | Fail
  | Panic.
Arguments Return {A} a.
Arguments Fail {A}.
Arguments Panic {A}.

(** ** The state monad the store's operations are written in *)

Definition ST (S A : Type) : Type := S → A * S.

Definition ret {S A} (a : A) : ST S A := λ s, (a, s).
Definition bind {S A B} (m : ST S A) (k : A → ST S B) : ST S B :=
  λ s, let '(a, s') := m s in k a s'.
Definition gets {S A} (f : S → A) : ST S A := λ s, (f s, s).
Definition modify {S} (f : S → S) : ST S unit := λ s, (tt, f s).

Declare Scope go_scope.
Delimit Scope go_scope with go.
Notation "'let!' x ':=' m 'in' k" := (bind m (λ x, k))
  (at level 10, x binder, m at level 200, k at level 200) : go_scope.
Notation "m ';;' k" := (bind m (λ _, k))
  (at level 100, k at level 200, right associativity) : go_scope.

(** ** Tactics *)

Create HintDb go.
Create HintDb lists.
Create Rewrite HintDb go.
#[export] Hint Unfold ret bind gets modify : go.

(** Reduces the monad's plumbing, nothing else. *)
Ltac go_step := cbn [ret bind gets modify fst snd] in *.

(** Case analysis on every [decide] and boolean test in sight. *)
Ltac crush_tests :=
  repeat (case_decide || case_match); simplify_eq/=.

(** Splits conjunctions in hypotheses and goal. *)
Ltac split_all := repeat match goal with
  | H : _ ∧ _ |- _ => destruct H
  | |- _ ∧ _ => split
  end.

(** ** Lists *)

Section lists.
Context {A : Type}.
Implicit Types l : list A.

Lemma filter_length_le (P : A → Prop) `{∀ x, Decision (P x)} l :
  length (filter P l) ≤ length l.
Proof. induction l as [|x l IH]; [done|]. rewrite filter_cons. case_decide; simpl; lia. Qed.

Lemma filter_id_Forall (P : A → Prop) `{∀ x, Decision (P x)} l :
  Forall P l → filter P l = l.
Proof. induction 1; [done|]. by rewrite filter_cons_True, IHForall. Qed.

Lemma filter_nil_Forall (P : A → Prop) `{∀ x, Decision (P x)} l :
  Forall (λ x, ¬ P x) l → filter P l = [].
Proof. induction 1; [done|]. by rewrite filter_cons_False. Qed.

Lemma filter_reverse (P : A → Prop) `{∀ x, Decision (P x)} l :
  filter P (reverse l) = reverse (filter P l).
Proof.
  induction l as [|x l IH]; [done|].
  rewrite reverse_cons, filter_app, IH, (filter_cons P x l), (filter_cons P x []).
  case_decide; [by rewrite reverse_cons|]. by rewrite filter_nil, app_nil_r.
Qed.

Lemma filter_sorted (R : A → A → Prop) (P : A → Prop) `{∀ x, Decision (P x)} l :
  StronglySorted R l → StronglySorted R (filter P l).
Proof.
  induction 1 as [|x l _ IH Hx]; [constructor|]. rewrite filter_cons. case_decide; [|done].
  constructor; [done|]. rewrite !Forall_forall in *. intros y [_ Hy]%list_elem_of_filter. by apply Hx.
Qed.

(** Local sortedness is global where the relation is transitive. *)
Lemma Sorted_strong_on (R : A → A → Prop) (P : A → Prop) l :
  (∀ x y z, P x → P y → P z → R x y → R y z → R x z) →
  Forall P l → Sorted R l → StronglySorted R l.
Proof.
  intros HT HP HS. induction HS as [|x l HS IH Hx]; [constructor|].
  apply Forall_cons in HP as [Px HP]. specialize (IH HP). constructor; [done|].
  destruct Hx as [|y l Rxy]; [constructor|]. apply Forall_cons in HP as [Py HP].
  apply StronglySorted_inv in IH as [_ Hy]. constructor; [done|].
  rewrite Forall_forall in *. intros z Hz. eapply (HT x y z); eauto.
Qed.

(** In a sorted list no element of the tail beats one of the front. *)
Lemma sorted_take_drop (R : A → A → Prop) n l x y :
  StronglySorted R l → x ∈ take n l → y ∈ drop n l → R x y.
Proof. rewrite <- (take_drop n l) at 1. apply StronglySorted_app_1_elem_of. Qed.

Lemma take_app_split n l : take n l ++ drop n l = l.
Proof. apply take_drop. Qed.
End lists.
#[export] Hint Resolve filter_length_le filter_id_Forall : lists.

(** Sums of a numeric measure over a list. *)
Definition sum_map {A} (f : A → Z) (l : list A) : Z := foldr (λ x z, (f x + z)%Z) 0%Z l.

Lemma sum_map_insert {A} (f : A → Z) (l : list A) i x y :
  l !! i = Some x → sum_map f (<[i:=y]> l) = (sum_map f l - f x + f y)%Z.
Proof.
  revert i. induction l as [|z l IH]; intros [|i] Hi; simplify_eq/=; [lia|].
  rewrite IH by done. lia.
Qed.

Lemma sum_map_app {A} (f : A → Z) (l1 l2 : list A) :
  sum_map f (l1 ++ l2) = (sum_map f l1 + sum_map f l2)%Z.
Proof. induction l1 as [|x l1 IH]; simpl; [done|]. rewrite IH. lia. Qed.

Lemma sum_map_replicate {A} (f : A → Z) n x :
  sum_map f (replicate n x) = (Z.of_nat n * f x)%Z.
Proof. induction n as [|n IH]; simpl; [done|]. rewrite IH. lia. Qed.

(** ** Strings *)

(** [strings.HasPrefix] followed by slicing: the rest of [s] after [p]. *)
Fixpoint strip_prefix (p s : string) : option string :=
  match p, s with
  | EmptyString, _ => Some s
  | String c p, String d s => if Ascii.eqb c d then strip_prefix p s else None
  | String _ _, EmptyString => None
  end.

Lemma str_app_nil (r : string) : ("" +:+ r) = r.
Proof. reflexivity. Qed.
Lemma str_app_cons c (p r : string) : (String c p +:+ r) = String c (p +:+ r).
Proof. reflexivity. Qed.
#[export] Hint Rewrite str_app_nil str_app_cons : go.

Lemma length_app_str (a b : string) : String.length (a +:+ b) = (String.length a + String.length b)%nat.
Proof. induction a as [|c a IH]; autorewrite with go; cbn; [done|]. by rewrite IH. Qed.
Lemma strip_prefix_Some p s r : strip_prefix p s = Some r ↔ s = (p +:+ r).
Proof.
  revert s. induction p as [|c p IH]; intros s; autorewrite with go; simpl.
  - split; congruence.
  - destruct s as [|d s]; [split; congruence|].
    destruct (Ascii.eqb_spec c d); [|split; congruence].
    subst. rewrite IH. split; congruence.
Qed.

Lemma str_app_assoc (a b c : string) : ((a +:+ b) +:+ c) = (a +:+ (b +:+ c)).
Proof. induction a; autorewrite with go; congruence. Qed.

Lemma str_app_nil_r (a : string) : (a +:+ "") = a.
Proof. induction a; autorewrite with go; congruence. Qed.

(** Fields joined by a NUL byte: [a + "\x00" + b]. *)
Definition NUL : ascii := "000".
Fixpoint has_NUL (w : string) : bool :=
  match w with EmptyString => false | String c w => Ascii.eqb c NUL || has_NUL w end.

Lemma nul_join_inj w1 w2 k1 k2 : has_NUL w1 = false → has_NUL w2 = false →
  (w1 +:+ String NUL k1) = (w2 +:+ String NUL k2) → w1 = w2 ∧ k1 = k2.
Proof.
  revert w2. induction w1 as [|c w1 IH]; intros [|d w2]; autorewrite with go.
  - intros _ _ [= ->]. done.
  - intros _ H2 [= <- _]. simpl in H2. discriminate.
  - intros H1 _ [= -> _]. simpl in H1. discriminate.
  - simpl. intros H1 H2 [= -> H]. apply orb_false_iff in H1 as [_ H1], H2 as [_ H2].
    destruct (IH w2 H1 H2 H) as [-> ->]. done.
Qed.

(** Go's [<] on strings is [String.ltb]. *)
Lemma ltb_false a b : String.ltb b a = false ↔ String.le a b.
Proof.
  unfold String.le, String.ltb, String.leb. rewrite (String.compare_antisym b a).
  by destruct (String.compare a b).
Qed.
Lemma ltb_asym a b : String.ltb a b = true → String.ltb b a = false.
Proof. unfold String.ltb. rewrite (String.compare_antisym a b). by destruct (String.compare b a). Qed.
Lemma ltb_negtrans a b c : String.ltb b a = false → String.ltb c b = false → String.ltb c a = false.
Proof. rewrite !ltb_false. apply transitivity. Qed.

(** ** Loops over Go maps

    [for k, v := range kvs { if _, ok := m[k]; !ok { added++ }; m[k] = g(v) }]
    and [for _, k := range ks { if _, ok := m[k]; ok { delete(m, k); removed++ } }]. *)

Section map_loops.
Context {A B : Type} (g : A → B).
Implicit Types (m : gmap string B).
Local Open Scope Z_scope.

Fixpoint put_loop (kvs : list (string * A)) (m : gmap string B) (added : Z) : gmap string B * Z :=
  match kvs with
  | [] => (m, added)
  | (k, v) :: kvs =>
      put_loop kvs (<[k := g v]> m) (match m !! k with None => added + 1 | Some _ => added end)
  end.

Fixpoint remove_loop (ks : list string) (m : gmap string B) (removed : Z) : gmap string B * Z :=
  match ks with
  | [] => (m, removed)
  | k :: ks =>
      match m !! k with
      | Some _ => remove_loop ks (delete k m) (removed + 1)
      | None => remove_loop ks m removed
      end
  end.

Lemma put_loop_spec (kvs : list (string * A)) m added : NoDup kvs.*1 →
  put_loop kvs m added =
  ((g <$> list_to_map kvs) ∪ m,
   added + Z.of_nat (size (filter (λ kv, m !! kv.1 = None) (list_to_map kvs : gmap string A)))).
Proof.
  revert m added. induction kvs as [|[k v] kvs IH]; intros m added Hnd; simpl.
  - rewrite fmap_empty, map_filter_empty, map_size_empty. f_equal; [by rewrite (left_id_L ∅ (∪))|lia].
  - apply NoDup_cons in Hnd as [Hk Hnd]. rewrite IH by done. clear IH.
    assert (HM : (list_to_map kvs : gmap string A) !! k = None) by (by apply not_elem_of_list_to_map_1).
    clear Hk Hnd. set (M := list_to_map kvs : gmap string A) in *.
    assert (HF : filter (λ kv, <[k:=g v]> m !! kv.1 = None) M = filter (λ kv, m !! kv.1 = None) M).
    { apply map_filter_ext. intros i x Hi. simpl. rewrite lookup_insert_ne; [done|]. intros ->. congruence. }
    rewrite HF. f_equal.
    + rewrite fmap_insert, <- insert_union_l, insert_union_r; [done|].
      by rewrite lookup_fmap, HM.
    + destruct (m !! k) eqn:E.
      * rewrite map_filter_insert_False by (simpl; congruence). by rewrite delete_id.
      * rewrite map_filter_insert_True by done. rewrite map_size_insert_None; [lia|].
        apply map_lookup_filter_None. by left.
Qed.

Lemma remove_loop_spec (ks : list string) m removed :
  remove_loop ks m removed =
  (filter (λ kv, kv.1 ∉ ks) m,
   removed + (Z.of_nat (size m) - Z.of_nat (size (filter (λ kv, kv.1 ∉ ks) m)))).
Proof.
  revert m removed. induction ks as [|k ks IH]; intros m removed; simpl.
  - rewrite map_filter_id; [f_equal; lia|]. intros. apply not_elem_of_nil.
  - assert (HF : filter (λ kv, kv.1 ∉ k :: ks) m = filter (λ kv, kv.1 ∉ ks) (delete k m)).
    { apply map_eq. intros i. apply option_eq. intros x.
      rewrite !map_lookup_filter_Some. simpl. rewrite not_elem_of_cons, lookup_delete_Some.
      split; [intros (?&?&?)|intros ((?&?)&?)]; split_and!; congruence. }
    destruct (m !! k) eqn:E; rewrite IH, HF.
    + f_equal. rewrite map_size_delete_Some by eauto.
      assert (size m ≠ 0%nat); [|lia].
      intros Hz%map_size_empty_inv. subst. by rewrite lookup_empty in E.
    + rewrite delete_id by done. done.
Qed.

(** Removing nothing leaves the map alone. *)
Lemma remove_loop_zero (ks : list string) m removed :
  (remove_loop ks m removed).2 ≤ removed → (remove_loop ks m removed).1 = m.
Proof.
  rewrite remove_loop_spec. simpl. intros Hle.
  apply map_eq. intros i. apply option_eq. intros x. rewrite map_lookup_filter_Some. simpl.
  split; [by intros [? _]|]. intros Hi. split; [done|]. intros Hin.
  assert (size (filter (λ kv : string * B, kv.1 ∉ ks) m) < size m)%nat; [|lia].
  apply map_subset_size. split; [apply map_filter_subseteq|]. intros Hsub.
  pose proof (lookup_weaken _ _ _ _ Hi Hsub) as Hf.
  apply map_lookup_filter_Some in Hf as [_ Hf]. by apply Hf.
Qed.
End map_loops.

(** ** Sets *)
Lemma size_insert_disjoint (x : string) (X : gset string) :
  x ∉ X → size ({[x]} ∪ X) = S (size X).
Proof. intros Hx. rewrite size_union by set_solver. by rewrite size_singleton. Qed.
