(* ===== verification/GoStd.v ===== *)
(** * The Go runtime and standard library, as far as the server uses them

    64-bit integers with wrap-around, byte slices (where [nil] and an empty
    slice differ), instants and durations, [strconv]'s integer conversions,
    [strings]' ASCII paths, the FNV-1a hash, [sort] and IEEE-754 doubles
    (through Stdlib's executable [SpecFloat]). *)

From S2P Require Import Prelude.
From Stdlib Require Import SpecFloat.

Open Scope Z_scope.

(** ** Machine integers *)

Definition maxInt64 : Z := 2 ^ 63 - 1.
Definition minInt64 : Z := - 2 ^ 63.

(** The value of an [int64] (or [int]) operation whose exact result is [z]. *)
Definition wrap64 (z : Z) : Z := (z + 2 ^ 63) `mod` 2 ^ 64 - 2 ^ 63.
Definition wrapu64 (z : Z) : Z := z `mod` 2 ^ 64.
Definition wrapu32 (z : Z) : Z := z `mod` 2 ^ 32.

Definition int64_range (z : Z) : Prop := minInt64 ≤ z ≤ maxInt64.
#[export] Instance int64_range_dec z : Decision (int64_range z).
Proof. unfold int64_range. apply _. Defined.

Lemma wrap64_id z : int64_range z → wrap64 z = z.
Proof.
  unfold int64_range, minInt64, maxInt64, wrap64. intros.
  rewrite Z.mod_small; lia.
Qed.

Lemma wrap64_range z : int64_range (wrap64 z).
Proof.
  unfold int64_range, minInt64, maxInt64, wrap64.
  pose proof (Z.mod_pos_bound (z + 2 ^ 63) (2 ^ 64)). lia.
Qed.

(** The slice length [len(xs)] as an [int]. *)
Definition len {A} (l : list A) : Z := Z.of_nat (length l).
Definition slen (s : string) : Z := Z.of_nat (String.length s).

(** ** Byte slices

    [None] is the nil slice, [Some s] a non-nil slice holding the bytes of
    [s]; the two print differently on the wire when [s] is empty. *)
Definition gobytes : Type := option string.
Definition nilb : gobytes := None.
(** Reading the bytes: a nil slice reads as empty. *)
Definition bytes_of (b : gobytes) : string := default "" b.
(** The conversion [[]byte(s)], never nil. *)
Definition to_bytes (s : string) : gobytes := Some s.
(** [append([]byte(nil), b...)]: nil when there is nothing to append. *)
Definition clone (b : gobytes) : gobytes :=
  match bytes_of b with EmptyString => None | s => Some s end.
(** [bytes.Equal] *)
Definition bytes_equal (a b : gobytes) : bool := String.eqb (bytes_of a) (bytes_of b).

Lemma bytes_of_clone b : bytes_of (clone b) = bytes_of b.
Proof. unfold clone. by destruct (bytes_of b). Qed.
Lemma clone_clone b : clone (clone b) = clone b.
Proof. unfold clone at 1. rewrite bytes_of_clone. reflexivity. Qed.
Lemma clone_to_bytes s : s ≠ "" → clone (to_bytes s) = to_bytes s.
Proof. by destruct s. Qed.
#[export] Hint Rewrite bytes_of_clone clone_clone : go.

(** ** Instants and durations

    A [time.Time] is the number of nanoseconds since the zero time, so that
    [IsZero] is [= 0]; a [time.Duration] is an [int64] of nanoseconds. *)
Definition time : Type := Z.
Definition duration : Type := Z.
Definition Nanosecond : duration := 1.
Definition Millisecond : duration := 1000000.
Definition Second : duration := 1000000000.

Definition time_Add (t : time) (d : duration) : time := t + d.
(** [Sub] saturates at the ends of the duration range. *)
Definition time_Sub (t u : time) : duration := Z.max minInt64 (Z.min maxInt64 (t - u)).
Definition time_After (t u : time) : bool := u <? t.
Definition IsZero (t : time) : bool := t =? 0.
(** Seconds since 1970; the zero time is 62135596800 s before. *)
Definition time_Unix (t : time) : Z := t / Second - 62135596800.

(** ** strconv *)

Definition digit_char (d : Z) : ascii := ascii_of_N (Z.to_N (48 + d)).
Definition digit_val (c : ascii) : option Z :=
  let n := Z.of_N (N_of_ascii c) in
  if (48 <=? n) && (n <=? 57) then Some (n - 48) else None.

(** [formatBits]: digits are produced from the least significant one. *)
Fixpoint format_digits (fuel : nat) (n : Z) (acc : string) : string :=
  match fuel with
  | O => acc
  | S fuel =>
      let acc := String (digit_char (n `mod` 10)) acc in
      if n / 10 =? 0 then acc else format_digits fuel (n / 10) acc
  end.

(** Twenty digits hold every 64-bit magnitude. *)
Definition FormatUint (n : Z) : string := format_digits 20 n "".
Definition FormatInt (n : Z) : string :=
  if n <? 0 then String "-" (FormatUint (- n)) else FormatUint n.

Fixpoint parse_digits (v : Z) (s : string) : option Z :=
  match s with
  | EmptyString => Some v
  | String c s =>
      match digit_val c with
      | Some d => parse_digits (v * 10 + d) s
      | None => None
      end
  end.

(** [strconv.ParseUint(s, 10, 64)]; [None] for any error. *)
Definition ParseUint (s : string) : option Z :=
  match s with
  | EmptyString => None
  | _ => match parse_digits 0 s with
         | Some v => if v <? 2 ^ 64 then Some v else None
         | None => None
         end
  end.

(** [strconv.ParseInt(s, 10, 64)]; [None] for any error. *)
Definition ParseInt (s : string) : option Z :=
  match s with
  | EmptyString => None
  | String "+" s' =>
      match ParseUint s' with
      | Some v => if v <? 2 ^ 63 then Some v else None
      | None => None
      end
  | String "-" s' =>
      match ParseUint s' with
      | Some v => if v <=? 2 ^ 63 then Some (- v) else None
      | None => None
      end
  | _ =>
      match ParseUint s with
      | Some v => if v <? 2 ^ 63 then Some v else None
      | None => None
      end
  end.

(** [int] has 64 bits, so [strconv.Atoi] accepts what [ParseInt] accepts. *)
Definition Atoi (s : string) : option Z := ParseInt s.
Definition Itoa (n : Z) : string := FormatInt n.

Lemma digit_val_char d : 0 ≤ d ≤ 9 → digit_val (digit_char d) = Some d.
Proof.
  intros Hd. assert (Hc : d = 0 ∨ d = 1 ∨ d = 2 ∨ d = 3 ∨ d = 4 ∨ d = 5 ∨ d = 6 ∨ d = 7 ∨ d = 8 ∨ d = 9) by lia.
  repeat destruct Hc as [->|Hc]; [reflexivity..|subst; reflexivity].
Qed.

Lemma parse_format_digits fuel n acc :
  0 ≤ n < 10 ^ Z.of_nat fuel → fuel ≠ 0%nat →
  parse_digits 0 (format_digits fuel n acc) = parse_digits n acc.
Proof.
  revert n acc. induction fuel as [|fuel IH]; intros n acc Hn Hf; [done|].
  cbn [format_digits]. pose proof (Z.mod_pos_bound n 10).
  pose proof (Z.div_mod n 10).
  assert (Hval : ∀ v, parse_digits v (String (digit_char (n `mod` 10)) acc)
                      = parse_digits (v * 10 + n `mod` 10) acc).
  { intros v. cbn [parse_digits]. rewrite digit_val_char by lia. done. }
  destruct (Z.eqb_spec (n / 10) 0) as [Hz|Hz].
  - rewrite Hval. f_equal. lia.
  - assert (fuel ≠ 0%nat).
    { intros ->. change (Z.of_nat 1) with 1 in Hn. apply Hz. apply Z.div_small. lia. }
    rewrite IH; [rewrite Hval; f_equal; lia| |done].
    rewrite Nat2Z.inj_succ, Z.pow_succ_r in Hn by lia.
    split; [apply Z.div_pos; lia|]. apply Z.div_lt_upper_bound; lia.
Qed.

Lemma format_digits_cons fuel n acc :
  fuel ≠ 0%nat → ∃ c s, format_digits fuel n acc = String c s.
Proof.
  revert n acc. induction fuel as [|fuel IH]; intros n acc Hf; [done|].
  cbn [format_digits]. case_match; [eauto|].
  destruct fuel; [simpl; eauto|]. by apply IH.
Qed.

Lemma ParseUint_FormatUint n : 0 ≤ n < 2 ^ 64 → ParseUint (FormatUint n) = Some n.
Proof.
  intros Hn. unfold ParseUint, FormatUint.
  destruct (format_digits_cons 20 n "") as (c & s & E); [done|].
  rewrite E, <- E, parse_format_digits; [|lia|done]. cbn.
  by rewrite (proj2 (Z.ltb_lt n _)) by lia.
Qed.

(** A decimal numeral never starts with a sign. *)
Lemma parse_digits_head v c s z :
  parse_digits v (String c s) = Some z → c ≠ "+"%char ∧ c ≠ "-"%char.
Proof. intros H; split; intros ->; discriminate. Qed.

Lemma ParseInt_FormatInt n : int64_range n → ParseInt (FormatInt n) = Some n.
Proof.
  unfold int64_range, minInt64, maxInt64, FormatInt. intros Hn.
  destruct (Z.ltb_spec n 0).
  - cbn [ParseInt]. rewrite ParseUint_FormatUint by lia.
    rewrite (proj2 (Z.leb_le _ _)) by lia. f_equal. lia.
  - pose proof (ParseUint_FormatUint n) as HP. specialize (HP ltac:(lia)).
    destruct (format_digits_cons 20 n "") as (c & s & E); [done|].
    unfold FormatUint in *. rewrite E in *.
    assert (Hhd : c ≠ "+"%char ∧ c ≠ "-"%char).
    { unfold ParseUint in HP. destruct (parse_digits 0 (String c s)) eqn:Ep; [|done].
      by eapply parse_digits_head. }
    destruct Hhd as [Hp Hm]. unfold ParseInt. rewrite HP.
    rewrite (proj2 (Z.ltb_lt _ _)) by lia.
    destruct c as [[] [] [] [] [] [] [] []]; try reflexivity; congruence.
Qed.

Lemma ParseInt_range s n : ParseInt s = Some n → int64_range n.
Proof.
  assert (HU : ∀ s v, ParseUint s = Some v → 0 ≤ v).
  { assert (HP : ∀ s v w, 0 ≤ v → parse_digits v s = Some w → 0 ≤ w).
    { clear. induction s as [|c s IH]; intros v w Hv; simpl; [congruence|].
      unfold digit_val. destruct (48 <=? Z.of_N (N_of_ascii c)) eqn:E; simpl; [|done].
      destruct (_ <=? 57); [|done]. apply Z.leb_le in E. apply IH. lia. }
    intros s' v. unfold ParseUint. destruct s' as [|c s']; [done|].
    destruct (parse_digits 0 (String c s')) as [w|] eqn:E; [|done].
    apply HP in E; [|lia]. case_match; naive_solver. }
  assert (HA : ∀ s n, match ParseUint s with
      | Some v => if v <? 2 ^ 63 then Some v else None | None => None end = Some n → int64_range n).
  { intros s' n'. unfold int64_range, minInt64, maxInt64. destruct (ParseUint s') as [v|] eqn:E; [|done].
    apply HU in E. destruct (Z.ltb_spec v (2 ^ 63)); intros; simplify_eq. lia. }
  unfold ParseInt. destruct s as [|c s]; [done|].
  destruct c as [[] [] [] [] [] [] [] []]; try apply HA.
  destruct (ParseUint s) as [v|] eqn:E; [|done]. apply HU in E.
  unfold int64_range, minInt64, maxInt64.
  destruct (Z.leb_spec v (2 ^ 63)); intros; simplify_eq. lia.
Qed.

(** ** strings

    [strings.ToUpper], [ToLower], [EqualFold] and [Fields] have a byte-wise
    path for ASCII arguments; the Unicode tables behind the other path are
    kept abstract. *)
Class UnicodeTables := {
  uni_to_upper : string → string;
  uni_to_lower : string → string;
  uni_equal_fold : string → string → bool;
  uni_fields : string → list string;
  uni_trim_space : string → string;
  uni_quote : string → string;
}.

(** Tables that leave non-ASCII text alone, to run examples with. *)
Definition ascii_only : UnicodeTables := {|
  uni_to_upper := λ s, s; uni_to_lower := λ s, s; uni_equal_fold := String.eqb;
  uni_fields := λ s, [s]; uni_trim_space := λ s, s; uni_quote := λ s, s
|}.

Definition code (c : ascii) : Z := Z.of_N (N_of_ascii c).
Fixpoint is_ascii (s : string) : bool :=
  match s with EmptyString => true | String c s => (code c <? 128) && is_ascii s end.
Fixpoint smap (f : ascii → ascii) (s : string) : string :=
  match s with EmptyString => EmptyString | String c s => String (f c) (smap f s) end.
Definition upper (c : ascii) : ascii :=
  if (97 <=? code c) && (code c <=? 122) then ascii_of_N (Z.to_N (code c - 32)) else c.
Definition lower (c : ascii) : ascii :=
  if (65 <=? code c) && (code c <=? 90) then ascii_of_N (Z.to_N (code c + 32)) else c.
Definition is_space (c : ascii) : bool :=
  ((9 <=? code c) && (code c <=? 13)) || (code c =? 32).

Fixpoint fields_go (cur : string) (s : string) : list string :=
  let flush := match cur with EmptyString => [] | _ => [cur] end in
  match s with
  | EmptyString => flush
  | String c s => if is_space c then flush ++ fields_go "" s
                  else fields_go (cur +:+ String c "") s
  end.

Section strings.
Context `{UnicodeTables}.

Definition ToUpper (s : string) : string :=
  if is_ascii s then smap upper s else uni_to_upper s.
Definition ToLower (s : string) : string :=
  if is_ascii s then smap lower s else uni_to_lower s.
Definition EqualFold (s t : string) : bool :=
  if is_ascii s && is_ascii t then String.eqb (smap lower s) (smap lower t)
  else uni_equal_fold s t.
Definition Fields (s : string) : list string :=
  if is_ascii s then fields_go "" s else uni_fields s.
Fixpoint trim_left (s : string) : string :=
  match s with
  | String c s' => if is_space c then trim_left s' else s
  | EmptyString => EmptyString
  end.
Fixpoint trim_right (s : string) : string :=
  match s with
  | EmptyString => EmptyString
  | String c s =>
      match trim_right s with
      | EmptyString => if is_space c then EmptyString else String c EmptyString
      | t => String c t
      end
  end.
Definition TrimSpace (s : string) : string :=
  if is_ascii s then trim_right (trim_left s) else uni_trim_space s.

(** [fmt]'s percent-q verb ([strconv.Quote]). *)
Definition hex_digit (d : Z) : ascii :=
  ascii_of_N (Z.to_N (if d <? 10 then 48 + d else 87 + d)).
Definition quote_char (c : ascii) : string :=
  let n := code c in
  let esc (e : ascii) := String "\"%char (String e "") in
  if n =? 34 then esc c else if n =? 92 then esc c
  else if n =? 7 then esc "a"%char else if n =? 8 then esc "b"%char else if n =? 12 then esc "f"%char
  else if n =? 10 then esc "n"%char else if n =? 13 then esc "r"%char else if n =? 9 then esc "t"%char
  else if n =? 11 then esc "v"%char
  else if (n <? 32) || (n =? 127) then
    String "\"%char (String "x"%char (String (hex_digit (n / 16)) (String (hex_digit (n `mod` 16)) "")))
  else String c "".
Fixpoint quote_go (s : string) : string :=
  match s with EmptyString => EmptyString | String c s => quote_char c +:+ quote_go s end.
Definition Quote (s : string) : string :=
  if is_ascii s then String "034" (quote_go s +:+ String "034" "") else uni_quote s.
End strings.

(** ** hash/fnv: FNV-1a, 32 bits *)
Fixpoint fnv32a_go (h : Z) (s : string) : Z :=
  match s with
  | EmptyString => h
  | String c s => fnv32a_go (wrapu32 (Z.lxor h (code c) * 16777619)) s
  end.
Definition fnv32a (s : string) : Z := fnv32a_go 2166136261 s.

Lemma fnv32a_range s : 0 ≤ fnv32a s < 2 ^ 32.
Proof.
  unfold fnv32a. assert (0 ≤ 2166136261 < 2 ^ 32) as Hh by lia.
  revert Hh. generalize 2166136261. induction s as [|c s IH]; intros h Hh; simpl; [done|].
  apply IH. unfold wrapu32. apply Z.mod_pos_bound. lia.
Qed.

(** ** sort *)

(** [sort.Strings]: byte-wise lexicographic order. *)
Definition sort_Strings (l : list string) : list string := merge_sort String.le l.

Lemma sort_Strings_perm l : sort_Strings l ≡ₚ l.
Proof. apply merge_sort_Permutation. Qed.
Lemma sort_Strings_sorted l : StronglySorted String.le (sort_Strings l).
Proof. apply StronglySorted_merge_sort; apply _. Qed.

(** [sort.Slice] with a [less] function: on a strict weak order without ties
    every sorting algorithm returns the same slice. *)
Definition slice_le {A} (less : A → A → bool) (x y : A) : Prop := less y x = false.
#[export] Instance slice_le_dec {A} (less : A → A → bool) : RelDecision (slice_le less).
Proof. intros x y. unfold slice_le. apply _. Defined.
Definition sort_Slice {A} (less : A → A → bool) (l : list A) : list A :=
  merge_sort (slice_le less) l.
Lemma sort_Slice_perm {A} (less : A → A → bool) l : sort_Slice less l ≡ₚ l.
Proof. apply merge_sort_Permutation. Qed.

(** ** float64 *)
Definition float64 : Type := spec_float.
Definition prec64 : Z := 53.
Definition emax64 : Z := 1024.
Definition f64_zero : float64 := S754_zero false.
Definition f64_NaN : float64 := S754_nan.
Definition f64_Inf (neg : bool) : float64 := S754_infinity neg.
Definition f64_add : float64 → float64 → float64 := SFadd prec64 emax64.
Definition f64_sub : float64 → float64 → float64 := SFsub prec64 emax64.
Definition f64_mul : float64 → float64 → float64 := SFmul prec64 emax64.
Definition f64_div : float64 → float64 → float64 := SFdiv prec64 emax64.
Definition f64_sqrt : float64 → float64 := SFsqrt prec64 emax64.
Definition f64_lt : float64 → float64 → bool := SFltb.
Definition f64_le : float64 → float64 → bool := SFleb.
Definition f64_eq : float64 → float64 → bool := SFeqb.
Definition IsNaN (f : float64) : bool := negb (f64_eq f f).
(** [float64(n)] for an integer. *)
Definition f64_of_Z (n : Z) : float64 := binary_normalize prec64 emax64 n 0 false.
(** The decimal literal [m / d], rounded to nearest even. *)
Definition f64_lit (m d : Z) : float64 := f64_div (f64_of_Z m) (f64_of_Z d).
Definition f64_one : float64 := f64_of_Z 1.

(** [time.Duration.Seconds] *)
Definition Seconds (d : duration) : float64 :=
  f64_add (f64_of_Z (Z.quot d Second))
          (f64_div (f64_of_Z (Z.rem d Second)) (f64_of_Z 1000000000)).
