(* ===== verification/GoStrings.v ===== *)
(** * Package strings: cutting and splitting at one byte

    [strings.Cut], [Split] and [Trim] as the configuration reads them, and the
    lemmas that invert them. *)

From S2P Require Import Prelude.
From S2P Require Import GoStd.

Open Scope Z_scope.

(** [strings.Cut] at a one-byte separator. *)
Fixpoint Cut (sep : ascii) (s : string) : option (string * string) :=
  match s with
  | EmptyString => None
  | String c s' =>
      if Ascii.eqb c sep then Some ("", s')
      else match Cut sep s' with Some (before, after) => Some (String c before, after) | None => None end
  end.
(** [strings.Split] at a one-byte separator: never empty. *)
Fixpoint Split (sep : ascii) (s : string) : list string :=
  match s with
  | EmptyString => [""]
  | String c s' =>
      if Ascii.eqb c sep then "" :: Split sep s'
      else match Split sep s' with part :: parts => String c part :: parts | [] => [String c ""] end
  end.
Fixpoint contains (c : ascii) (s : string) : bool :=
  match s with EmptyString => false | String d s => Ascii.eqb d c || contains c s end.
(** [strings.Trim] with a cutset of ASCII characters. *)
Fixpoint cut_left (cutset : string) (s : string) : string :=
  match s with String c s' => if contains c cutset then cut_left cutset s' else s | EmptyString => "" end.
Fixpoint cut_right (cutset : string) (s : string) : string :=
  match s with
  | EmptyString => ""
  | String c s =>
      match cut_right cutset s with
      | EmptyString => if contains c cutset then "" else String c ""
      | t => String c t
      end
  end.
Definition Trim (s cutset : string) : string := cut_right cutset (cut_left cutset s).

Definition newline : ascii := "010".
Definition quotes : string := String "034" (String "039" "").

(** ** Inverting them *)

Lemma contains_app c a b : contains c (a +:+ b) = contains c a || contains c b.
Proof. induction a as [|d a IH]; [done|]. autorewrite with go. cbn. rewrite IH. by rewrite orb_assoc. Qed.

Lemma Cut_Some sep s a b : Cut sep s = Some (a, b) ↔ s = a +:+ String sep b ∧ contains sep a = false.
Proof.
  revert a. induction s as [|c s IH]; intros a; cbn [Cut].
  - split; [done|]. intros [E _]. by destruct a.
  - destruct (Ascii.eqb_spec c sep) as [->|Hne].
    + split; [by intros [= <- <-]|]. intros [E Hc]. destruct a as [|d a]; [by injection E as <-|].
      injection E as <- _. cbn in Hc. by rewrite Ascii.eqb_refl in Hc.
    + destruct (Cut sep s) as [[x y]|] eqn:E.
      * split.
        -- intros [= <- <-]. destruct (proj1 (IH x) eq_refl) as [-> Hx]. split; [done|]. cbn. rewrite Hx.
           by rewrite (proj2 (Ascii.eqb_neq _ _) Hne).
        -- intros [Es Hc]. destruct a as [|d a]; [injection Es as Es1 _; congruence|]. injection Es as <- ->. cbn in Hc.
           apply orb_false_iff in Hc as [_ Hc]. pose proof (proj2 (IH a) (conj eq_refl Hc)) as Hx. by injection Hx as -> ->.
      * split; [done|]. intros [Es Hc]. destruct a as [|d a]; [injection Es as Es1 _; congruence|]. injection Es as <- ->. cbn in Hc.
        apply orb_false_iff in Hc as [_ Hc]. by pose proof (proj2 (IH a) (conj eq_refl Hc)).
Qed.

Lemma Split_nonempty sep s : Split sep s ≠ [].
Proof. destruct s as [|c s]; cbn; [done|]. repeat case_match; done. Qed.
Lemma Split_part sep a : contains sep a = false → Split sep a = [a].
Proof.
  induction a as [|c a IH]; cbn; [done|]. intros [Hc Ha]%orb_false_iff. by rewrite Hc, IH.
Qed.
Lemma Split_app sep a rest : contains sep a = false → Split sep (a +:+ String sep rest) = a :: Split sep rest.
Proof.
  induction a as [|c a IH]; autorewrite with go; cbn; [by rewrite Ascii.eqb_refl|].
  intros [Hc Ha]%orb_false_iff. by rewrite Hc, IH.
Qed.
Lemma Split_concat sep s : String.concat (String sep "") (Split sep s) = s ∧ Forall (λ p, contains sep p = false) (Split sep s).
Proof.
  induction s as [|c s [IH HF]]; [by split; [|repeat constructor]|]. cbn [Split].
  destruct (Ascii.eqb_spec c sep) as [->|Hne].
  - split; [|by constructor]. pose proof (Split_nonempty sep s). destruct (Split sep s); [done|]. cbn in *. rewrite IH. by autorewrite with go.
  - pose proof (Split_nonempty sep s) as Hn. destruct (Split sep s) as [|p ps]; [done|]. apply Forall_cons in HF as [Hp HF]. split.
    + destruct ps; cbn in *; rewrite <- IH; by autorewrite with go.
    + constructor; [|done]. cbn. rewrite Hp. by rewrite (proj2 (Ascii.eqb_neq _ _) Hne).
Qed.
