(* ===== verification/Floats.v ===== *)
(** * The order on doubles, and sorting by it

    [SpecFloat]'s comparison as a partial order (NaN is unordered), and what
    sorting with a [less] function guarantees. *)

From S2P Require Import Prelude.
From S2P Require Import GoStd.
From Stdlib Require Import SpecFloat.

Open Scope Z_scope.

(** The order on floats is transitive, NaN included. *)
Lemma SFcompare_Lt_trans x y z :
  SFcompare x y = Some Lt → SFcompare y z = Some Lt → SFcompare x z = Some Lt.
Proof.
  destruct x as [sx|sx| |sx mx ex], y as [sy|sy| |sy my ey], z as [sz|sz| |sz mz ez];
    try destruct sx; try destruct sy; try destruct sz; simpl; try congruence;
    (destruct (Z.compare_spec ex ey), (Z.compare_spec ey ez); simpl; try congruence;
     destruct (Z.compare_spec ex ez); try lia; simpl; try congruence;
     repeat match goal with |- context [Pos.compare_cont Eq ?a ?b] => change (Pos.compare_cont Eq a b) with (Pos.compare a b) end;
     destruct (Pos.compare_spec mx my), (Pos.compare_spec my mz); simpl; try congruence;
     destruct (Pos.compare_spec mx mz); simpl; try congruence; try lia).
Qed.

Lemma f64_lt_trans x y z : f64_lt x y = true → f64_lt y z = true → f64_lt x z = true.
Proof.
  unfold f64_lt, SFltb. destruct (SFcompare x y) as [[]|] eqn:E1; try done.
  destruct (SFcompare y z) as [[]|] eqn:E2; try done.
  by rewrite (SFcompare_Lt_trans _ _ _ E1 E2).
Qed.

Lemma f64_lt_irrefl x : f64_lt x x = false.
Proof.
  destruct x as [sx|sx| |sx mx ex]; try destruct sx; unfold f64_lt, SFltb; simpl; try done;
    rewrite ?Z.compare_refl; change (Pos.compare_cont Eq mx mx) with (Pos.compare mx mx);
    by rewrite Pos.compare_refl.
Qed.

Lemma f64_lt_asym x y : f64_lt x y = true → f64_lt y x = false.
Proof.
  intros H. destruct (f64_lt y x) eqn:E; [|done]. pose proof (f64_lt_trans _ _ _ H E) as C.
  by rewrite f64_lt_irrefl in C.
Qed.


Definition not_nan (x : float64) : Prop := IsNaN x = false.

Lemma not_nan_NaN : ¬ not_nan f64_NaN.
Proof. done. Qed.
Lemma IsNaN_nan x : IsNaN x = true → x = f64_NaN.
Proof.
  unfold IsNaN, f64_eq, SFeqb. destruct x as [[]|[]| |[] m e]; simpl; try done;
    rewrite Z.compare_refl; change (Pos.compare_cont Eq m m) with (Pos.compare m m);
    by rewrite Pos.compare_refl.
Qed.

(** On numbers the order is total, up to the sign of zero. *)
Lemma f64_lt_negtrans x y z : not_nan y → f64_lt x y = false → f64_lt y z = false → f64_lt x z = false.
Proof.
  intros Hy H1 H2. destruct (f64_lt x z) eqn:E; [|done]. revert H1 H2 E Hy.
  unfold not_nan, IsNaN, f64_eq, SFeqb, f64_lt, SFltb.
  destruct x as [sx|sx| |sx mx ex], y as [sy|sy| |sy my ey], z as [sz|sz| |sz mz ez];
    try destruct sx; try destruct sy; try destruct sz; simpl; try congruence;
    (destruct (Z.compare_spec ex ey), (Z.compare_spec ey ez); simpl; try congruence;
     destruct (Z.compare_spec ex ez); try lia; simpl; try congruence;
     repeat match goal with |- context [Pos.compare_cont Eq ?a ?b] => change (Pos.compare_cont Eq a b) with (Pos.compare a b) end;
     destruct (Pos.compare_spec mx my), (Pos.compare_spec my mz); simpl; try congruence;
     destruct (Pos.compare_spec mx mz); simpl; try congruence; try lia).
Qed.

Lemma f64_le_lt_trans x y z : not_nan x → f64_lt y x = false → f64_lt y z = true → f64_lt x z = true.
Proof.
  intros Hx H1 H2. destruct (f64_lt x z) eqn:E; [done|].
  by rewrite (f64_lt_negtrans y x z Hx H1 E) in H2.
Qed.

Lemma f64_eq_lt x y : not_nan x → not_nan y →
  f64_eq x y = negb (f64_lt x y) && negb (f64_lt y x).
Proof.
  unfold not_nan, IsNaN, f64_eq, SFeqb, f64_lt, SFltb.
  destruct x as [sx|sx| |sx mx ex], y as [sy|sy| |sy my ey];
    try destruct sx; try destruct sy; simpl; try congruence;
    intros _ _; rewrite (Z.compare_antisym ex ey); destruct (Z.compare_spec ex ey); simpl; try done;
    change (Pos.compare_cont Eq mx my) with (Pos.compare mx my);
    change (Pos.compare_cont Eq my mx) with (Pos.compare my mx);
    rewrite (Pos.compare_antisym mx my); by destruct (Pos.compare mx my).
Qed.

Lemma f64_lt_le_trans x y z : not_nan z → f64_lt x y = true → f64_lt z y = false → f64_lt x z = true.
Proof.
  intros Hz H1 H2. destruct (f64_lt x z) eqn:E; [done|].
  by rewrite (f64_lt_negtrans x z y Hz E H2) in H1.
Qed.

Lemma f64_eq_not_lt x y : f64_eq x y = true → f64_lt x y = false.
Proof. unfold f64_eq, f64_lt, SFeqb, SFltb. by destruct (SFcompare x y) as [[]|]. Qed.

Lemma f64_eq_sym x y : f64_eq x y = f64_eq y x.
Proof.
  destruct (IsNaN x) eqn:Hx; [apply IsNaN_nan in Hx; subst; by destruct y|].
  destruct (IsNaN y) eqn:Hy; [apply IsNaN_nan in Hy; subst; by destruct x|].
  rewrite (f64_eq_lt x y), (f64_eq_lt y x) by done. apply andb_comm.
Qed.

(** ** [sort.Slice]

    With an asymmetric [less] the result is sorted; on elements where [less]
    is a strict weak order every pair is in order. *)
Section sort_slice.
Context {A : Type} (less : A → A → bool).
Context (Hasym : ∀ x y, less x y = true → less y x = false).

#[local] Instance slice_le_total : Total (slice_le less).
Proof.
  intros x y. unfold slice_le. destruct (less y x) eqn:E; [right; by apply Hasym|by left].
Qed.

Lemma sort_Slice_sorted (P : A → Prop) l :
  (∀ x y z, P x → P y → P z → less y x = false → less z y = false → less z x = false) →
  Forall P l → StronglySorted (slice_le less) (sort_Slice less l).
Proof.
  intros HT HP. apply (Sorted_strong_on _ P).
  - intros x y z Hx Hy Hz H1 H2. by apply (HT x y z).
  - rewrite Forall_forall in *. intros x Hx. apply HP. by rewrite <- (sort_Slice_perm less l).
  - apply Sorted_merge_sort. apply _.
Qed.
End sort_slice.
