(* ===== verification/Auth.v ===== *)
(** * Authentication (internal/auth/auth.go) *)

From S2P Require Import Prelude.
From S2P Require Import GoStd.

Module auth.

Record Credential := mkCredential { Workspace : string; Password : string }.

Record Authenticator := mkAuthenticator {
  password : string;
  multiWorkspace : bool;
  byPassword : gmap string string;
}.

Definition New (password : string) : Authenticator := mkAuthenticator password false ∅.

Fixpoint byPassword_loop (creds : list Credential) (m : gmap string string) : gmap string string :=
  match creds with
  | [] => m
  | c :: creds => byPassword_loop creds (<[Password c := Workspace c]> m)
  end.
Definition NewMultiWorkspace (creds : list Credential) : Authenticator :=
  mkAuthenticator "" true (byPassword_loop creds ∅).

Definition MultiWorkspace (a : Authenticator) : bool := multiWorkspace a.

Definition WorkspaceForPassword (a : Authenticator) (pw : string) : option string :=
  if negb (multiWorkspace a) then None else byPassword a !! pw.

Definition Required (a : Authenticator) : bool :=
  if multiWorkspace a then true else negb (String.eqb (password a) "").

Definition Check_ (a : Authenticator) (pw : string) : bool :=
  if multiWorkspace a then bool_decide (is_Some (byPassword a !! pw))
  else if String.eqb (password a) "" then true
  else String.eqb pw (password a).

End auth.

Import auth.

Lemma byPassword_loop_spec creds m pw :
  byPassword_loop creds m !! pw =
  match list_find (λ c, Password c = pw) (reverse creds) with
  | Some (_, c) => Some (Workspace c)
  | None => m !! pw
  end.
Proof.
  revert m. induction creds as [|c creds IH]; intros m; cbn [byPassword_loop]; [done|].
  rewrite IH, reverse_cons. destruct (list_find _ (reverse creds)) as [[i c']|] eqn:E.
  - by rewrite (list_find_app_l _ _ _ _ _ E).
  - rewrite list_find_app_r by done. cbn. destruct (decide (Password c = pw)) as [<-|Hne]; simpl.
    + by rewrite lookup_insert_eq.
    + by rewrite lookup_insert_ne.
Qed.

(** In multi-workspace mode a password is accepted exactly when some
    configured credential has it, the workspace it selects is that of the last
    such credential, and authentication is always required; in single-password
    mode the configured password and nothing else is accepted, and
    authentication is required exactly when one is configured. *)
Theorem auth_spec creds pw0 pw :
  Required (NewMultiWorkspace creds) = true ∧
  (Check_ (NewMultiWorkspace creds) pw = true ↔ ∃ c, c ∈ creds ∧ Password c = pw) ∧
  WorkspaceForPassword (NewMultiWorkspace creds) pw =
    (λ x, Workspace x.2) <$> list_find (λ c, Password c = pw) (reverse creds) ∧
  (Required (New pw0) = true ↔ pw0 ≠ "") ∧
  (Check_ (New pw0) pw = true ↔ pw0 = "" ∨ pw = pw0) ∧
  WorkspaceForPassword (New pw0) pw = None.
Proof.
  assert (HW : byPassword_loop creds ∅ !! pw =
               (λ x, Workspace x.2) <$> list_find (λ c, Password c = pw) (reverse creds)).
  { rewrite byPassword_loop_spec. by destruct (list_find _ _) as [[]|]. }
  unfold Check_, Required, WorkspaceForPassword; simpl. split_and!; try done.
  - rewrite bool_decide_eq_true, HW, fmap_is_Some. split.
    + intros [[i c] (Hi & Hp & _)%list_find_Some]. exists c. split; [|done].
      apply elem_of_reverse. by eapply list_elem_of_lookup_2.
    + intros (c & Hc & Hp). apply (list_find_elem_of _ _ c); [by apply elem_of_reverse|done].
  - destruct (String.eqb_spec pw0 ""); split; done.
  - destruct (String.eqb_spec pw0 ""); [tauto|]. rewrite String.eqb_eq. tauto.
Qed.
