(* ===== verification/Caches.v ===== *)
(** * The exact-match caches (internal/toolcache, internal/semantic/keying.go)

    TOOL.CACHE and CACHE.PROMPT keep key/value maps whose entries expire and
    are dropped on the read that finds them expired.  [ExactCache] is what
    both offer; [ExactCacheLaws] says that reads behave as if nothing were
    ever dropped, and the trace theorem is proved from it for both. *)

From S2P Require Import Prelude.
From S2P Require Import GoStd.

Open Scope Z_scope.

(** [e.expiresAt != nil && !e.expiresAt.After(now)] *)
Definition cache_expired (expiresAt : option time) (now : time) : bool :=
  match expiresAt with None => false | Some t => negb (time_After t now) end.
Definition cache_expiry (now : time) (ttl : duration) : option time :=
  if 0 <? ttl then Some (time_Add now ttl) else None.

Module toolcache.

Record entry := mkEntry { result : string; expiresAt : option time }.
Definition expired (e : entry) (now : time) : bool := cache_expired (expiresAt e) now.

Definition ToolCache : Type := gmap string entry.
Definition New : ToolCache := ∅.

Definition Set_ (now : time) (key result : string) (ttl : duration) (c : ToolCache) : ToolCache :=
  <[key := mkEntry result (cache_expiry now ttl)]> c.

(** [Get] takes the read lock, then, for an expired entry, the write lock:
    two atomic steps, between which other calls may run. *)
Inductive got := Miss | Stale | Hit (r : string).
Definition Get_read (now : time) (key : string) (c : ToolCache) : got :=
  match c !! key with
  | None => Miss
  | Some e => if expired e now then Stale else Hit (result e)
  end.
Definition Get_evict (now : time) (key : string) (c : ToolCache) : ToolCache :=
  match c !! key with
  | Some e2 => if expired e2 now then delete key c else c
  | None => c
  end.
Definition Get (now : time) (key : string) (c : ToolCache) : option string * ToolCache :=
  match Get_read now key c with
  | Miss => (None, c)
  | Stale => (None, Get_evict now key c)
  | Hit r => (Some r, c)
  end.

End toolcache.

Module prompt.

Record promptEntry := mkPromptEntry { response : string; expiresAt : option time; cost : float64 }.
Definition expired (e : promptEntry) (now : time) : bool := cache_expired (expiresAt e) now.

Definition PromptCache : Type := gmap string promptEntry.
Definition NewPromptCache : PromptCache := ∅.

Definition Set_ (now : time) (key response : string) (ttl : duration) (cost : float64) (p : PromptCache)
    : PromptCache := <[key := mkPromptEntry response (cache_expiry now ttl) cost]> p.

(** [None] for [("", false, 0)]. *)
Definition Get (now : time) (key : string) (p : PromptCache) : option (string * float64) * PromptCache :=
  match p !! key with
  | None => (None, p)
  | Some e => if expired e now then (None, delete key p) else (Some (response e, cost e), p)
  end.

End prompt.

(** ** The interface and its laws *)

Class ExactCache (C V : Type) := {
  cache_new : C;
  cache_set : time → string → V → duration → C → C;
  cache_get : time → string → C → option V * C;
}.

(** The value an entry still has at [now]. *)
Definition fresh {V} (now : time) (oe : option (V * option time)) : option V :=
  match oe with
  | Some (v, x) => if cache_expired x now then None else Some v
  | None => None
  end.

Class ExactCacheLaws (C V : Type) `{ExactCache C V} := {
  cache_entry : C → string → option (V * option time);
  law_new k : cache_entry cache_new k = None;
  law_set now k v ttl c k' :
    cache_entry (cache_set now k v ttl c) k' =
    if decide (k' = k) then Some (v, cache_expiry now ttl) else cache_entry c k';
  law_get now k c : (cache_get now k c).1 = fresh now (cache_entry c k);
  law_keep now k c k' : 
    cache_entry (cache_get now k c).2 k' = cache_entry c k' ∨
    (cache_entry (cache_get now k c).2 k' = None ∧ fresh now (cache_entry c k') = None);
}.

#[export] Instance ToolCache_cache : ExactCache toolcache.ToolCache string := {|
  cache_new := toolcache.New;
  cache_set := toolcache.Set_;
  cache_get := toolcache.Get;
|}.
#[export] Instance PromptCache_cache : ExactCache prompt.PromptCache (string * float64) := {|
  cache_new := prompt.NewPromptCache;
  cache_set := λ now k v ttl c, prompt.Set_ now k v.1 ttl v.2 c;
  cache_get := prompt.Get;
|}.

Lemma map_entry_insert {E V} (f : E → V) (m : gmap string E) k e k' :
  f <$> <[k := e]> m !! k' = if decide (k' = k) then Some (f e) else f <$> m !! k'.
Proof.
  case_decide; [subst; by rewrite lookup_insert_eq|by rewrite lookup_insert_ne].
Qed.

#[export] Program Instance ToolCache_laws : ExactCacheLaws toolcache.ToolCache string := {|
  cache_entry := λ c k, (λ e, (toolcache.result e, toolcache.expiresAt e)) <$> c !! k;
|}.
Next Obligation. done. Qed.
Next Obligation. intros. apply (map_entry_insert (λ e, (toolcache.result e, toolcache.expiresAt e))). Qed.
Next Obligation.
  intros now k c. simpl. unfold toolcache.Get, toolcache.Get_read, toolcache.expired.
  destruct (c !! k) as [e|]; simpl; [|done]. by destruct (cache_expired _ _).
Qed.
Next Obligation.
  intros now k c k'. simpl. unfold toolcache.Get, toolcache.Get_read, toolcache.Get_evict, toolcache.expired.
  destruct (c !! k) as [e|] eqn:E; simpl; [|by left]. destruct (cache_expired _ _) eqn:Hx; simpl; [|by left].
  unfold toolcache.ToolCache in *. destruct (decide (k' = k)) as [->|]; [right|left; by rewrite lookup_delete_ne].
  rewrite lookup_delete_eq, E. simpl. by rewrite Hx.
Qed.

#[export] Program Instance PromptCache_laws : ExactCacheLaws prompt.PromptCache (string * float64) := {|
  cache_entry := λ c k, (λ e, (prompt.response e, prompt.cost e, prompt.expiresAt e)) <$> c !! k;
|}.
Next Obligation. done. Qed.
Next Obligation.
  intros now k [r c] ttl p k'. apply (map_entry_insert (λ e, (prompt.response e, prompt.cost e, prompt.expiresAt e))).
Qed.
Next Obligation.
  intros now k c. simpl. unfold prompt.Get, prompt.expired.
  destruct (c !! k) as [e|]; simpl; [|done]. by destruct (cache_expired _ _).
Qed.
Next Obligation.
  intros now k c k'. simpl. unfold prompt.Get, prompt.expired.
  destruct (c !! k) as [e|] eqn:E; simpl; [|by left]. destruct (cache_expired _ _) eqn:Hx; simpl; [|by left].
  unfold prompt.PromptCache in *. destruct (decide (k' = k)) as [->|]; [right|left; by rewrite lookup_delete_ne].
  rewrite lookup_delete_eq, E. simpl. by rewrite Hx.
Qed.

(** ** Traces *)

Inductive cache_op (V : Type) :=
  | OpSet (key : string) (v : V) (ttl : duration)
  | OpGet (key : string).
Arguments OpSet {V} key v ttl.
Arguments OpGet {V} key.

(** Calls with the clock readings they make, and the answers of the reads. *)
Fixpoint cache_run {C V} `{ExactCache C V} (ops : list (time * cache_op V)) (c : C) : list (option V) :=
  match ops with
  | [] => []
  | (now, OpSet k v ttl) :: ops => cache_run ops (cache_set now k v ttl c)
  | (now, OpGet k) :: ops => let '(r, c) := cache_get now k c in r :: cache_run ops c
  end.

(** The reference: a log of all writes, never dropped; a read answers with
    the last write to its key if it has not expired. *)
Fixpoint log_run {V} (ops : list (time * cache_op V)) (log : string → option (V * option time)) : list (option V) :=
  match ops with
  | [] => []
  | (now, OpSet k v ttl) :: ops =>
      log_run ops (λ k', if decide (k' = k) then Some (v, cache_expiry now ttl) else log k')
  | (now, OpGet k) :: ops => fresh now (log k) :: log_run ops log
  end.

Fixpoint clock_ok {V} (t : time) (ops : list (time * cache_op V)) : Prop :=
  match ops with [] => True | (now, _) :: ops => t ≤ now ∧ clock_ok now ops end.

Lemma fresh_later {V} t1 t2 (oe : option (V * option time)) :
  t1 ≤ t2 → fresh t1 oe = None → fresh t2 oe = None.
Proof.
  intros Ht. unfold fresh, cache_expired, time_After. destruct oe as [[v [x|]]|]; [|done..].
  destruct (Z.ltb_spec t1 x); simpl; [done|]. intros _. destruct (Z.ltb_spec t2 x); [lia|done].
Qed.

Lemma cache_run_log {C V} `{ExactCacheLaws C V} ops : ∀ t c log,
  clock_ok t ops →
  (∀ k, cache_entry c k = log k ∨ (cache_entry c k = None ∧ fresh t (log k) = None)) →
  cache_run ops c = log_run ops log.
Proof.
  induction ops as [|[now [k v ttl|k]] ops IH]; intros t c log Hc HR; cbn [cache_run log_run]; [done|..];
    destruct Hc as [Ht Hc].
  - apply (IH now); [done|]. intros k'. rewrite law_set. case_decide; [by left|].
    destruct (HR k') as [?|[? Hf]]; [by left|right]. split; [done|by eapply fresh_later].
  - pose proof (law_get now k c) as Hg. pose proof (law_keep now k c) as Hk.
    destruct (cache_get now k c) as [r c']. cbn [fst snd] in *. f_equal.
    + rewrite Hg. destruct (HR k) as [->|[-> Hf]]; [done|]. by rewrite (fresh_later t now (log k)).
    + apply (IH now); [done|]. intros k'. destruct (Hk k') as [->|[-> Hf]].
      * destruct (HR k') as [?|[? Hf]]; [by left|right]. split; [done|by eapply fresh_later].
      * right. split; [done|]. destruct (HR k') as [<-|[_ Hf']]; [done|by eapply fresh_later].
Qed.



(** A write that lands between [ToolCache.Get]'s two locks is not lost:
    the eviction re-checks the entry, so a refreshed entry survives the read
    that found its predecessor expired. *)
Theorem get_refresh_race now t2 key v ttl (c : toolcache.ToolCache) :
  now ≤ t2 → (ttl ≤ 0 ∨ t2 < now + ttl) →
  toolcache.Get_read t2 key (toolcache.Get_evict t2 key (toolcache.Set_ now key v ttl c)) = toolcache.Hit v.
Proof.
  intros Ht Hl. unfold toolcache.Get_evict, toolcache.Set_, toolcache.Get_read, toolcache.ToolCache in *.
  assert (Hx : toolcache.expired (toolcache.mkEntry v (cache_expiry now ttl)) t2 = false).
  { unfold toolcache.expired, cache_expired, cache_expiry, time_After, time_Add. simpl.
    destruct (Z.ltb_spec 0 ttl); [|done]. destruct (Z.ltb_spec t2 (now + ttl)); [done|lia]. }
  by rewrite lookup_insert_eq, Hx, lookup_insert_eq, Hx.
Qed.

Lemma get_refresh_race_witness :
  let c := toolcache.Set_ 1 "k" "old" 5 toolcache.New in
  toolcache.Get_read 9 "k" c = toolcache.Stale ∧
  toolcache.Get_read 10 "k" (toolcache.Get_evict 10 "k" (toolcache.Set_ 9 "k" "new" 5 c)) = toolcache.Hit "new".
Proof.
  cbv zeta. assert (Hs : toolcache.Get_read 9 "k" (toolcache.Set_ 1 "k" "old" 5 toolcache.New) = toolcache.Stale)
    by reflexivity.
  split; [exact Hs|]. apply (get_refresh_race 9 10 "k" "new" 5 _); [discriminate|right; reflexivity].
Defined.

(** ** Key computation

    [json.Unmarshal] into a Go value followed by [json.Marshal], and the
    hex-encoded SHA-256 of a byte string. *)
Class KeyCodec := {
  canonical_map : string → option string;   (** into [map[string]any] *)
  canonical_any : string → option string;   (** into [any] *)
  sha256_hex : string → string;
}.

Section keys.
Context `{KeyCodec}.
Definition TemplateKey (template variablesJSON model : string) : outcome string :=
  match canonical_map variablesJSON with
  | None => Fail
  | Some canon => Return (sha256_hex (template +:+ String NUL (canon +:+ String NUL model)))
  end.
Definition ToolKey (toolName argsJSON : string) : outcome string :=
  match canonical_any argsJSON with
  | None => Fail
  | Some canon => Return (sha256_hex (toolName +:+ String NUL canon))
  end.
End keys.

(** The cache key of a prompt determines the template, the canonical
    variables and the model, and the key of a tool call its tool and canonical
    arguments, unless SHA-256 itself collides; this needs templates and tool
    names without NUL bytes ([encoding/json] escapes NUL in its output).
    With a NUL in the template it is false: two different requests then share
    one key for every hash function. *)
Theorem cache_keys_determine `{KeyCodec} t1 v1 m1 c1 t2 v2 m2 c2 :
  (canonical_map v1 = Some c1 → canonical_map v2 = Some c2 →
   has_NUL t1 = false → has_NUL t2 = false → has_NUL c1 = false → has_NUL c2 = false →
   TemplateKey t1 v1 m1 = TemplateKey t2 v2 m2 →
   (t1 = t2 ∧ c1 = c2 ∧ m1 = m2) ∨ ∃ x y, x ≠ y ∧ sha256_hex x = sha256_hex y) ∧
  (canonical_any v1 = Some c1 → canonical_any v2 = Some c2 → has_NUL t1 = false → has_NUL t2 = false →
   ToolKey t1 v1 = ToolKey t2 v2 →
   (t1 = t2 ∧ c1 = c2) ∨ ∃ x y, x ≠ y ∧ sha256_hex x = sha256_hex y) ∧
  (canonical_map v1 = Some c1 →
   TemplateKey (t1 +:+ String NUL c1) v1 m1 = TemplateKey t1 v1 (c1 +:+ String NUL m1)).
Proof.
  unfold TemplateKey, ToolKey. split_and!.
  - intros -> -> Ht1 Ht2 Hc1 Hc2 [= Hs].
    match type of Hs with sha256_hex ?x = sha256_hex ?y => destruct (decide (x = y)) as [E|] end; [left|right; eauto].
    apply nul_join_inj in E as [-> E]; [|done..]. by apply nul_join_inj in E as [-> ->].
  - intros -> -> Ht1 Ht2 [= Hs].
    match type of Hs with sha256_hex ?x = sha256_hex ?y => destruct (decide (x = y)) as [E|] end; [left|right; eauto].
    by apply nul_join_inj in E as [-> ->].
  - intros ->. do 2 f_equal. by rewrite str_app_assoc, str_app_cons.
Qed.

(** A toy codec to run the keys with. *)
Definition toy_codec : KeyCodec := {|
  canonical_map := λ s, Some s; canonical_any := λ s, Some s; sha256_hex := λ s, s
|}.
Lemma cache_keys_determine_witness :
  TemplateKey (H := toy_codec) "t" "{}" "m" = Return ("t" +:+ String NUL ("{}" +:+ String NUL "m")) ∧
  TemplateKey (H := toy_codec) ("t" +:+ String NUL "{}") "{}" "m" =
  TemplateKey (H := toy_codec) "t" "{}" ("{}" +:+ String NUL "m").
Proof.
  split; [reflexivity|].
  apply (cache_keys_determine (H := toy_codec) "t" "{}" "m" "{}" "" "" "" ""). reflexivity.
Defined.
