(* ===== verification/Similarity.v ===== *)
(** * Vector similarity and the embedding seam (internal/embed)

    A [float32] is modelled by the double it converts to ([float64(x)] is
    exact), a vector by the list of its components.  The embedding provider is
    a value of the Go interface, hence an argument. *)

From S2P Require Import Prelude.
From S2P Require Import GoStd.
From S2P Require Import Floats.
From Stdlib Require Import SpecFloat.

Open Scope Z_scope.

Definition float32 : Type := float64.
Definition vec : Type := list float32.

Module embed.

(** One pass accumulating [dot], [normA] and [normB]. *)
Fixpoint Cosine_loop (a b : vec) (dot normA normB : float64) : float64 * float64 * float64 :=
  match a, b with
  | ai :: a, bi :: b =>
      Cosine_loop a b (f64_add dot (f64_mul ai bi)) (f64_add normA (f64_mul ai ai))
                      (f64_add normB (f64_mul bi bi))
  | _, _ => (dot, normA, normB)
  end.
Definition Cosine (a b : vec) : float64 :=
  if negb (len a =? len b) || (len a =? 0) then f64_NaN
  else
    let '(dot, normA, normB) := Cosine_loop a b f64_zero f64_zero f64_zero in
    if f64_eq normA f64_zero || f64_eq normB f64_zero then f64_NaN
    else f64_div dot (f64_mul (f64_sqrt normA) (f64_sqrt normB)).

Fixpoint Dot_loop (a b : vec) (dot : float64) : float64 :=
  match a, b with
  | ai :: a, bi :: b => Dot_loop a b (f64_add dot (f64_mul ai bi))
  | _, _ => dot
  end.
Definition Dot (a b : vec) : float64 :=
  if negb (len a =? len b) || (len a =? 0) then f64_NaN else Dot_loop a b f64_zero.

Fixpoint Euclidean_loop (a b : vec) (sumSq : float64) : float64 :=
  match a, b with
  | ai :: a, bi :: b => let d := f64_sub ai bi in Euclidean_loop a b (f64_add sumSq (f64_mul d d))
  | _, _ => sumSq
  end.
Definition Euclidean (a b : vec) : float64 :=
  if negb (len a =? len b) || (len a =? 0) then f64_NaN else f64_sqrt (Euclidean_loop a b f64_zero).

(** The [Provider] interface and its optional [UsageEmbedder] capability;
    [None] is an error. *)
Record Provider := mkProvider {
  Embed : string → option vec;
  EmbedBatchWithUsage : option (list string → option (list vec * Z));
}.

(** [vecs[0]] panics on an empty batch. *)
Definition EmbedOne (p : Provider) (text : string) : outcome vec :=
  match EmbedBatchWithUsage p with
  | Some up =>
      match up [text] with
      | None => Fail
      | Some (vecs, _) => match vecs with v :: _ => Return v | [] => Panic end
      end
  | None => match Embed p text with Some v => Return v | None => Fail end
  end.

End embed.

(** ** Symmetry *)

Lemma f64_mul_comm x y : f64_mul x y = f64_mul y x.
Proof.
  unfold f64_mul, SFmul. destruct x as [sx|sx| |sx mx ex], y as [sy|sy| |sy my ey];
    rewrite ?(xorb_comm sx sy); try done. by rewrite (Pos.mul_comm mx my), (Z.add_comm ex ey).
Qed.

Lemma Cosine_loop_comm a : ∀ b d na nb,
  embed.Cosine_loop b a d nb na = (let '(d', na', nb') := embed.Cosine_loop a b d na nb in (d', nb', na')).
Proof.
  induction a as [|x a IH]; intros [|y b] d na nb; try done. cbn [embed.Cosine_loop].
  by rewrite (f64_mul_comm y x), IH.
Qed.

Lemma Dot_loop_comm a : ∀ b d, embed.Dot_loop b a d = embed.Dot_loop a b d.
Proof.
  induction a as [|x a IH]; intros [|y b] d; try done. cbn [embed.Dot_loop].
  by rewrite (f64_mul_comm y x), IH.
Qed.

Lemma Cosine_loop_zero b : ∀ d nb,
  (embed.Cosine_loop (replicate (length b) f64_zero) b d f64_zero nb).1.2 = f64_zero.
Proof. induction b as [|y b IH]; intros d nb; [reflexivity|]. apply IH. Qed.

(** Cosine similarity and the dot product are symmetric bit for bit, and
    undefined (NaN) exactly on vectors of different lengths or without
    components; cosine also when a norm is zero. *)
Theorem similarity_symmetric a b :
  embed.Cosine a b = embed.Cosine b a ∧ embed.Dot a b = embed.Dot b a ∧
  (len a ≠ len b ∨ len a = 0 →
     embed.Cosine a b = f64_NaN ∧ embed.Dot a b = f64_NaN ∧ embed.Euclidean a b = f64_NaN) ∧
  embed.Cosine (replicate (length b) f64_zero) b = f64_NaN.
Proof.
  unfold embed.Cosine, embed.Dot, embed.Euclidean. split_and!.
  - rewrite (Cosine_loop_comm a b). destruct (embed.Cosine_loop a b _ _ _) as [[d na] nb].
    destruct (Z.eqb_spec (len a) (len b)) as [E|E]; rewrite (Z.eqb_sym (len b)).
    + rewrite E, Z.eqb_refl. by rewrite (orb_comm (f64_eq na _)), (f64_mul_comm (f64_sqrt na)).
    + by destruct (Z.eqb_spec (len a) (len b)).
  - rewrite (Dot_loop_comm b a).
    destruct (Z.eqb_spec (len a) (len b)) as [E|E]; rewrite (Z.eqb_sym (len b)).
    + by rewrite E, Z.eqb_refl.
    + by destruct (Z.eqb_spec (len a) (len b)).
  - intros E. assert (negb (len a =? len b) || (len a =? 0) = true) as ->; [|done].
    destruct (Z.eqb_spec (len a) (len b)), (Z.eqb_spec (len a) 0); simpl; done || lia.
  - destruct (_ || _); [done|].
    pose proof (Cosine_loop_zero b f64_zero f64_zero) as HZ. destruct (embed.Cosine_loop _ _ _ _ _) as [[d na] nb]. simpl in HZ.
    by rewrite HZ.
Qed.

Lemma similarity_symmetric_witness :
  embed.Cosine [f64_one] [f64_one; f64_one] = f64_NaN ∧
  embed.Cosine [f64_of_Z 2; f64_one] [f64_one; f64_of_Z 3] = embed.Cosine [f64_one; f64_of_Z 3] [f64_of_Z 2; f64_one].
Proof.
  destruct (similarity_symmetric [f64_one] [f64_one; f64_one]) as (_ & _ & H & _).
  destruct (similarity_symmetric [f64_of_Z 2; f64_one] [f64_one; f64_of_Z 3]) as (H2 & _).
  split; [apply H; left; discriminate|exact H2].
Defined.
