(* ===== verification/Graph.v ===== *)
(** * The knowledge graph (internal/graph)

    A directed labelled graph per workspace; [Related] is a breadth-first
    traversal that reads edges in both directions, [Extract] records what a
    completion provider found in a memory. *)

From S2P Require Import Prelude.
From S2P Require Import GoStd.

Open Scope Z_scope.

Module graph.

(** ** graph.go *)

Record Node := mkNode { ID : string; Label : string; Metadata : gmap string string }.
Record Edge := mkEdge { FromID : string; ToID : string; EdgeLabel : string; Weight : float64 }.

(** [edgeKey{from, to, label}] *)
Definition edgeKey : Type := string * string * string.
Definition keyOf (e : Edge) : edgeKey := (FromID e, ToID e, EdgeLabel e).

Record workspaceGraph := mkWorkspaceGraph {
  nodes : gmap string Node;
  edges : gmap edgeKey Edge;
}.
Definition Store : Type := gmap string workspaceGraph.
Definition New : Store := ∅.

Definition getOrCreate (workspace : string) (s : Store) : workspaceGraph :=
  default (mkWorkspaceGraph ∅ ∅) (s !! workspace).

Definition UpsertNode (workspace : string) (n : Node) (s : Store) : Store :=
  let ws := getOrCreate workspace s in
  <[workspace := mkWorkspaceGraph (<[ID n := n]> (nodes ws)) (edges ws)]> s.

Definition UpsertEdge (workspace : string) (e : Edge) (s : Store) : Store :=
  let ws := getOrCreate workspace s in
  <[workspace := mkWorkspaceGraph (nodes ws) (<[keyOf e := e]> (edges ws))]> s.

Definition GetNode (workspace id : string) (s : Store) : option Node :=
  match s !! workspace with
  | None => None
  | Some ws => nodes ws !! id
  end.

Record RelatedNode := mkRelatedNode { rn_Node : Node; rn_Edge : Edge; rn_Hops : Z }.

(** The other end of [e] seen from [id]; [None] is the [continue]. *)
Definition other_end (e : Edge) (id : string) : option string :=
  if String.eqb (FromID e) id then Some (ToID e)
  else if String.eqb (ToID e) id then Some (FromID e)
  else None.

Record bfs := mkBfs { visited : gset string; next : list string; out : list RelatedNode }.

(** The body of the innermost loop. *)
Definition visit (ws : workspaceGraph) (hop : Z) (e : Edge) (st : bfs) (id : string) : bfs :=
  match other_end e id with
  | None => st
  | Some other =>
      if decide (other ∈ visited st) then st
      else
        match nodes ws !! other with
        | None => mkBfs ({[other]} ∪ visited st) (next st) (out st)
        | Some n => mkBfs ({[other]} ∪ visited st) (next st ++ [other]) (out st ++ [mkRelatedNode n e hop])
        end
  end.

(** One hop: every edge, in the runtime's range order, against every node of
    the frontier. *)
Definition scan_edges (ws : workspaceGraph) (hop : Z) (es : list Edge) (frontier : list string) (st : bfs) : bfs :=
  foldl (λ st e, foldl (visit ws hop e) st frontier) st es.

(** The loop over hops; [order hop] is the range order of that hop. *)
Fixpoint hops (ws : workspaceGraph) (order : Z → gmap edgeKey Edge → list Edge) (remaining : nat) (hop : Z)
    (frontier : list string) (vis : gset string) (acc : list RelatedNode) : list RelatedNode :=
  match remaining with
  | O => acc
  | S remaining =>
      match frontier with
      | [] => acc
      | _ =>
          let st := scan_edges ws hop (order hop (edges ws)) frontier (mkBfs vis [] acc) in
          hops ws order remaining (hop + 1) (next st) (visited st) (out st)
      end
  end.

Definition Related (order : Z → gmap edgeKey Edge → list Edge) (workspace nodeID : string) (depth : Z) (s : Store)
    : list RelatedNode :=
  let depth := if depth <=? 0 then 1 else depth in
  match s !! workspace with
  | None => []
  | Some ws =>
      match nodes ws !! nodeID with
      | None => []
      | Some _ => hops ws order (Z.to_nat depth) 1 [nodeID] {[nodeID]} []
      end
  end.

(** ** extract.go *)

Record extractedEntity := mkEntity { ent_ID : string; ent_Label : string }.
Record extractedRelation := mkRelation { rel_From : string; rel_To : string; rel_Label : string }.
Record extractionResponse := mkResponse {
  Entities : list extractedEntity;
  Relations : list extractedRelation;
}.

Definition memoryNodeID (memoryID : string) : string := "memory:" +:+ memoryID.

Fixpoint add_entities (workspaceID : string) (es : list extractedEntity) (s : Store) (added : Z) : Store * Z :=
  match es with
  | [] => (s, added)
  | e :: es =>
      if String.eqb (ent_ID e) "" then add_entities workspaceID es s added
      else add_entities workspaceID es (UpsertNode workspaceID (mkNode (ent_ID e) (ent_Label e) ∅) s) (added + 1)
  end.
Fixpoint add_relations (workspaceID : string) (rs : list extractedRelation) (s : Store) (added : Z) : Store * Z :=
  match rs with
  | [] => (s, added)
  | r :: rs =>
      if String.eqb (rel_From r) "" || String.eqb (rel_To r) "" then add_relations workspaceID rs s added
      else add_relations workspaceID rs
             (UpsertEdge workspaceID (mkEdge (rel_From r) (rel_To r) (rel_Label r) f64_zero) s) (added + 1)
  end.
Fixpoint add_mentions (workspaceID memNodeID : string) (es : list extractedEntity) (s : Store) : Store :=
  match es with
  | [] => s
  | e :: es =>
      if String.eqb (ent_ID e) "" then add_mentions workspaceID memNodeID es s
      else add_mentions workspaceID memNodeID es
             (UpsertEdge workspaceID (mkEdge memNodeID (ent_ID e) "mentions" f64_zero) s)
  end.

(** What [Extract] calls: the completion provider ([None] is its error) and
    [json.Unmarshal] into an [extractionResponse]. *)
Class Extractor := {
  Complete : string → option string;      (** the user prompt; the system prompt is fixed *)
  Unmarshal : string → option extractionResponse;
}.

Definition Extract `{Extractor} (workspaceID memoryID memoryContent : string) (s : Store)
    : outcome (Z * Z) * Store :=
  match Complete memoryContent with
  | None => (Fail, s)
  | Some raw =>
      match Unmarshal raw with
      | None => (Return (0, 0), s)
      | Some parsed =>
          if len (Entities parsed) =? 0 then (Return (0, 0), s)
          else
            let '(s, entitiesAdded) := add_entities workspaceID (Entities parsed) s 0 in
            let '(s, relationsAdded) := add_relations workspaceID (Relations parsed) s 0 in
            if entitiesAdded =? 0 then (Return (0, relationsAdded), s)
            else
              let memNodeID := memoryNodeID memoryID in
              let s := UpsertNode workspaceID (mkNode memNodeID "memory" ∅) s in
              let s := add_mentions workspaceID memNodeID (Entities parsed) s in
              (Return (entitiesAdded, relationsAdded), s)
      end
  end.

End graph.

Import graph.

Lemma Extract_no_panic `{Extractor} ws id content s : (Extract ws id content s).1 ≠ Panic.
Proof. unfold Extract. by repeat case_match. Qed.

(** ** Breadth-first search *)

Section bfs_spec.
Context (ws : workspaceGraph).
Context (Hid : ∀ k n, nodes ws !! k = Some n → ID n = k).

Definition is_node (x : string) : Prop := is_Some (nodes ws !! x).
(** Some stored edge joins [x] and [y], in either direction. *)
Definition adjacent (x y : string) : Prop :=
  ∃ k e, edges ws !! k = Some e ∧ (FromID e = x ∧ ToID e = y ∨ FromID e = y ∧ ToID e = x).

Context (start : string).
(** Walks of [n] steps from the start through stored nodes. *)
Inductive walk : nat → string → Prop :=
  | walk_0 : walk 0 start
  | walk_S n x y : walk n x → adjacent x y → is_node y → walk (S n) y.
(** [y] is at distance [n]. *)
Definition distance (n : nat) (y : string) : Prop := walk n y ∧ ∀ m, (m < n)%nat → ¬ walk m y.

Lemma other_end_adjacent k e x y : edges ws !! k = Some e → other_end e x = Some y → adjacent x y.
Proof using Type.
  intros He. unfold other_end, adjacent. destruct (String.eqb_spec (FromID e) x) as [<-|]; [intros [= <-]; exists k, e; auto|].
  destruct (String.eqb_spec (ToID e) x) as [<-|]; [intros [= <-]; exists k, e; auto|done].
Qed.
Lemma adjacent_other_end x y : adjacent x y → x ≠ y → ∃ k e, edges ws !! k = Some e ∧ other_end e x = Some y.
Proof using Type.
  intros (k & e & He & H) Hne. exists k, e. split; [done|]. unfold other_end.
  destruct H as [[<- <-]|[<- <-]]; [by rewrite String.eqb_refl|].
  destruct (String.eqb_spec (FromID e) (ToID e)); [congruence|]. by rewrite String.eqb_refl.
Qed.

(** The pairs one hop looks at. *)
Definition reaches (ps : list (Edge * string)) (y : string) : Prop :=
  ∃ e id, (e, id) ∈ ps ∧ other_end e id = Some y.

Record hop_inv (h : Z) (V0 : gset string) (out0 : list RelatedNode) (ps : list (Edge * string)) (st : bfs) : Prop := {
  hi_visited : ∀ y, y ∈ visited st ↔ y ∈ V0 ∨ reaches ps y;
  hi_next : ∀ y, y ∈ next st ↔ y ∉ V0 ∧ is_node y ∧ reaches ps y;
  hi_nodup : NoDup (next st);
  hi_out : ∃ news, out st = out0 ++ news ∧ (λ r, ID (rn_Node r)) <$> news = next st ∧
    ∀ r, r ∈ news → nodes ws !! ID (rn_Node r) = Some (rn_Node r) ∧ rn_Hops r = h ∧
      ∃ id, (rn_Edge r, id) ∈ ps ∧ other_end (rn_Edge r) id = Some (ID (rn_Node r));
}.

Lemma reaches_snoc ps e id y : reaches (ps ++ [(e, id)]) y ↔ reaches ps y ∨ other_end e id = Some y.
Proof using Type.
  unfold reaches. setoid_rewrite elem_of_app. setoid_rewrite list_elem_of_singleton. naive_solver.
Qed.

Lemma visit_inv h V0 out0 ps st e id :
  hop_inv h V0 out0 ps st → hop_inv h V0 out0 (ps ++ [(e, id)]) (visit ws h e st id).
Proof using Hid.
  intros [HV HN HD (news & HO1 & HO2 & HO3)]. unfold visit.
  assert (HO3' : ∀ r, r ∈ news → nodes ws !! ID (rn_Node r) = Some (rn_Node r) ∧ rn_Hops r = h ∧
      ∃ id', (rn_Edge r, id') ∈ ps ++ [(e, id)] ∧ other_end (rn_Edge r) id' = Some (ID (rn_Node r))).
  { intros r Hr. destruct (HO3 r Hr) as (? & ? & id' & ? & ?). split_and!; [done|done|].
    exists id'. split; [|done]. apply elem_of_app. by left. }
  destruct (other_end e id) as [o|] eqn:Eo; [case_decide as Hin; [|destruct (nodes ws !! o) as [n|] eqn:En]|].
  - rewrite HV in Hin. split; [| |done|by exists news]; intros y; rewrite reaches_snoc, ?HV, ?HN, Eo.
    + split; [tauto|]. intros [?|[?|[= <-]]]; tauto.
    + split; [tauto|]. intros (? & ? & [?|[= <-]]); tauto.
  - assert (Ho : o ∉ V0 ∧ ¬ reaches ps o) by (rewrite HV in Hin; tauto). destruct Ho as [Ho1 Ho2].
    split; cbn [visited next out].
    + intros y. rewrite reaches_snoc, elem_of_union, elem_of_singleton, HV, Eo.
      split; [intros [->|[?|?]]; tauto|intros [?|[?|[= <-]]]; tauto].
    + intros y. rewrite reaches_snoc, elem_of_app, list_elem_of_singleton, HN, Eo.
      split; [intros [?| ->]; [tauto|by split_and!; [|exists n|right]]|].
      intros (? & ? & [?|[= <-]]); tauto.
    + apply NoDup_app. split_and!; [done| |apply NoDup_singleton].
      intros y Hy ->%list_elem_of_singleton. apply HN in Hy as (_ & _ & ?). done.
    + exists (news ++ [mkRelatedNode n e h]). rewrite HO1, (assoc_L (++)), fmap_app, HO2. cbn.
      rewrite (Hid o n En). split_and!; [done..|].
      intros r [Hr| ->%list_elem_of_singleton]%elem_of_app; [by apply HO3'|]. cbn. rewrite (Hid o n En).
      split_and!; [done|done|]. exists id. split; [|done]. apply elem_of_app. right. by apply list_elem_of_singleton.
  - split; cbn [visited next out]; [| |done|by exists news].
    + intros y. rewrite reaches_snoc, elem_of_union, elem_of_singleton, HV, Eo.
      split; [intros [->|[?|?]]; tauto|intros [?|[?|[= <-]]]; tauto].
    + intros y. rewrite reaches_snoc, HN, Eo. split; [tauto|].
      intros (? & [n Hn] & [?|[= <-]]); [by split_and!; [|exists n|]|congruence].
  - split; [| |done|by exists news]; intros y; rewrite reaches_snoc, ?HV, ?HN, Eo.
    + split; [tauto|]. by intros [?|[?|?]]; auto.
    + split; [tauto|]. by intros (? & ? & [?|?]).
Qed.

Lemma inner_inv h V0 out0 e ids : ∀ ps st, hop_inv h V0 out0 ps st →
  hop_inv h V0 out0 (ps ++ ((λ id, (e, id)) <$> ids)) (foldl (visit ws h e) st ids).
Proof using Hid.
  induction ids as [|id ids IH]; intros ps st HI; cbn [foldl fmap list_fmap]; [by rewrite app_nil_r|].
  replace (ps ++ (e, id) :: ((λ id, (e, id)) <$> ids)) with ((ps ++ [(e, id)]) ++ ((λ id, (e, id)) <$> ids))
    by (by rewrite <- (assoc_L (++))).
  apply IH. by apply visit_inv.
Qed.

Lemma scan_inv h V0 out0 frontier es : ∀ ps st, hop_inv h V0 out0 ps st →
  hop_inv h V0 out0 (ps ++ (es ≫= (λ e, (λ id, (e, id)) <$> frontier))) (scan_edges ws h es frontier st).
Proof using Hid.
  unfold scan_edges. induction es as [|e es IH]; intros ps st HI; cbn [foldl mbind list_bind]; [by rewrite app_nil_r|].
  rewrite (assoc_L (++)). apply IH. by apply inner_inv.
Qed.

(** ** The whole traversal *)

Context (Hstart : is_node start).
Context (order : Z → gmap edgeKey Edge → list Edge).
Context (Ho : ∀ h m, order h m ≡ₚ snd <$> map_to_list m).

Lemma walk_node n y : walk n y → is_node y.
Proof using Hstart. by destruct 1. Qed.
Lemma distance_pred n y : distance (S n) y → ∃ x, distance n x ∧ adjacent x y.
Proof using Type.
  intros [Hw Hmin]. inversion Hw as [|n' x y' Hx Ha Hy]; subst. exists x. split; [|done]. split; [done|].
  intros m Hm Hwx. apply (Hmin (S m)); [lia|]. by eapply walk_S.
Qed.
Lemma distance_unique n m y : distance n y → distance m y → n = m.
Proof using Type.
  intros [Hn Hn'] [Hm Hm']. destruct (Nat.lt_trichotomy n m) as [?|[?|?]]; [|done|].
  - by destruct (Hm' n).
  - by destruct (Hn' m).
Qed.
Lemma distance_below n m y : (n ≤ m)%nat → distance m y → ∃ x, distance n x.
Proof using Type.
  intros Hle. revert y. induction Hle as [|m Hle IH]; intros y Hy; [eauto|].
  destruct (distance_pred _ _ Hy) as (x & Hx & _). by eapply IH.
Qed.

(** A reported node is a stored one at its distance from the start, reached
    over a stored edge from a node one step nearer. *)
Definition reported (r : RelatedNode) (d : nat) : Prop :=
  rn_Hops r = Z.of_nat d ∧ nodes ws !! ID (rn_Node r) = Some (rn_Node r) ∧ distance d (ID (rn_Node r)) ∧
  ∃ k x, edges ws !! k = Some (rn_Edge r) ∧ other_end (rn_Edge r) x = Some (ID (rn_Node r)) ∧ distance (pred d) x.

Record bfs_inv (h : nat) (frontier : list string) (vis : gset string) (acc : list RelatedNode) : Prop := {
  bi_vis : ∀ y, is_node y → y ∈ vis ↔ ∃ d, (d < h)%nat ∧ walk d y;
  bi_old : ∀ y, is_node y → y ∈ vis → y ∈ frontier ∨ ∃ d, (d < pred h)%nat ∧ walk d y;
  bi_frontier : ∀ y, y ∈ frontier ↔ distance (pred h) y;
  bi_nodup : NoDup ((λ r, ID (rn_Node r)) <$> acc);
  bi_sound : ∀ r, r ∈ acc → ∃ d, (1 ≤ d < h)%nat ∧ reported r d;
  bi_complete : ∀ y d, (1 ≤ d < h)%nat → distance d y → ∃ r, r ∈ acc ∧ ID (rn_Node r) = y;
}.

Lemma scan_reaches h frontier y :
  reaches (order h (edges ws) ≫= (λ e, (λ id, (e, id)) <$> frontier)) y ↔
  ∃ k e x, edges ws !! k = Some e ∧ x ∈ frontier ∧ other_end e x = Some y.
Proof using Ho.
  unfold reaches. split.
  - intros (e & id & (e' & Hin & He)%list_elem_of_bind & Hoe).
    apply list_elem_of_fmap in Hin as (id' & [= <- <-] & Hid').
    rewrite Ho in He. apply list_elem_of_fmap in He as ([k e''] & -> & Hk%elem_of_map_to_list). eauto 10.
  - intros (k & e & x & Hk & Hx & Hoe). exists e, x. split; [|done]. apply list_elem_of_bind. exists e. split.
    + by apply list_elem_of_fmap_2.
    + rewrite Ho. apply list_elem_of_fmap. exists (k, e). split; [done|]. by apply elem_of_map_to_list.
Qed.

(** One level: what an edge from the frontier reaches is what a walk of one
    more step reaches and was not visited before. *)
Section level.
Context (h : nat) (frontier : list string) (vis : gset string) (acc : list RelatedNode).
Context (Hh : (1 ≤ h)%nat) (BI : bfs_inv h frontier vis acc).
Let ps := order (Z.of_nat h) (edges ws) ≫= (λ e, (λ id, (e, id)) <$> frontier).

Lemma level_start : hop_inv (Z.of_nat h) vis acc [] (mkBfs vis [] acc).
Proof using Type.
  split; cbn.
  - intros y. split; [by left|]. intros [?|(e & id & ?%elem_of_nil & _)]; done.
  - intros y. rewrite elem_of_nil. split; [done|]. by intros (_ & _ & e & id & ?%elem_of_nil & _).
  - constructor.
  - exists []. rewrite app_nil_r. split_and!; [done|done|]. by intros r ?%elem_of_nil.
Qed.
Lemma reaches_walk y : is_node y → reaches ps y → walk h y.
Proof using All.
  intros Hy (k & e & x & Hk & Hx & Hoe)%scan_reaches. apply (bi_frontier _ _ _ _ BI) in Hx as [Hx _].
  replace h with (S (pred h)) by lia. eapply walk_S; [done| |done]. by eapply other_end_adjacent.
Qed.
Lemma walk_reaches y : walk h y → y ∉ vis → reaches ps y.
Proof using All.
  intros Hy Hnv. unfold ps. destruct h as [|h']; [lia|]. inversion Hy as [|n x y' Hx Ha Hny]; subst. simpl in *.
  assert (Hnx : is_node x) by by eapply walk_node. pose proof (bi_vis _ _ _ _ BI) as BV.
  destruct (decide (x ∈ frontier)) as [Hf|Hf].
  - assert (x ≠ y) by (intros ->; apply Hnv, BV; [done|]; exists h'; split; [lia|done]).
    destruct (adjacent_other_end x y) as (k & e & Hk & Hoe); [done..|]. apply scan_reaches. eauto 10.
  - exfalso. apply Hnv, BV; [done|]. destruct (bi_old _ _ _ _ BI x Hnx) as [?|(d & Hd & Hwd)].
    + apply BV; [done|]. exists h'. split; [lia|done].
    + done.
    + exists (S d). split; [simpl in Hd; lia|]. by eapply walk_S.
Qed.
End level.

Lemma bfs_step h frontier vis acc : (1 ≤ h)%nat → bfs_inv h frontier vis acc →
  let st := scan_edges ws (Z.of_nat h) (order (Z.of_nat h) (edges ws)) frontier (mkBfs vis [] acc) in
  bfs_inv (S h) (next st) (visited st) (out st).
Proof using Ho Hid Hstart.
  intros Hh BI. cbv zeta. pose proof (reaches_walk h frontier vis acc Hh BI) as Hw.
  pose proof (walk_reaches h frontier vis acc Hh BI) as Hr2. destruct BI as [BV BO BF BN BS BC].
  pose proof (level_start h vis acc) as H0.
  apply (scan_inv _ _ _ frontier (order (Z.of_nat h) (edges ws))) in H0. cbn [app] in H0.
  set (st := scan_edges _ _ _ _ _) in *. destruct H0 as [HV HN HD (news & HO1 & HO2 & HO3)].
  set (ps := order _ _ ≫= _) in *.
  assert (Hdist : ∀ y, y ∈ next st ↔ distance h y).
  { intros y. rewrite HN. split.
    - intros (Hnv & Hny & Hre). split; [by apply Hw|]. intros m Hm Hwm. apply Hnv, BV; [done|]. eauto.
    - intros [Hwy Hmin]. assert (Hny : is_node y) by by eapply walk_node.
      assert (y ∉ vis) by (intros (d & Hd & Hwd)%BV; [by apply (Hmin d)|done]). split_and!; auto. }
  split.
  - intros y Hy. rewrite HV, BV by done. split.
    + intros [(d & ? & ?)|Hre]; [exists d; split; [lia|done]|]. exists h. split; [lia|by apply Hw].
    + intros (d & Hd & Hwd). destruct (decide (y ∈ vis)) as [Hin|Hin]; [left; by apply BV|].
      destruct (decide (d = h)) as [->|]; [right; by apply Hr2|left]. exists d. split; [lia|done].
  - intros y Hy. rewrite HV. intros Hin. destruct (decide (y ∈ vis)) as [Hv|Hv].
    + right. by apply BV in Hv.
    + left. apply HN. split_and!; [done|done|tauto].
  - exact Hdist.
  - rewrite HO1, fmap_app, HO2. apply NoDup_app. split_and!; [done| |done].
    intros y (r & -> & Hr)%list_elem_of_fmap Hy%Hdist. destruct (BS r Hr) as (d & Hd & _ & _ & Hdy & _).
    pose proof (distance_unique _ _ _ Hdy Hy). lia.
  - intros r. rewrite HO1. intros [Hr|Hr]%elem_of_app.
    + destruct (BS r Hr) as (d & ? & ?). exists d. split; [lia|done].
    + exists h. split; [lia|]. destruct (HO3 r Hr) as (Hn & Hhop & id & Hin & Hoe).
      assert (Hnx : ID (rn_Node r) ∈ next st) by (rewrite <- HO2; by apply (list_elem_of_fmap_2 (λ r, ID (rn_Node r)))).
      split_and!; [done|done|by apply Hdist|].
      apply list_elem_of_bind in Hin as (e & Hin & He). apply list_elem_of_fmap in Hin as (id' & [= <- <-] & Hid').
      rewrite Ho in He. apply list_elem_of_fmap in He as ([k e'] & He' & Hk%elem_of_map_to_list). cbn in He'. subst e'.
      exists k, id. split_and!; [done|done|by apply BF].
  - intros y d Hd Hy. rewrite HO1. setoid_rewrite elem_of_app. destruct (decide (d = h)) as [->|Hne].
    + apply Hdist in Hy. rewrite <- HO2 in Hy. apply list_elem_of_fmap in Hy as (r & -> & Hr). eauto.
    + destruct (BC y d) as (r & ? & ?); [lia|done|]. eauto.
Qed.

Lemma hops_ok remaining : ∀ h frontier vis acc, (1 ≤ h)%nat → bfs_inv h frontier vis acc →
  let res := hops ws order remaining (Z.of_nat h) frontier vis acc in
  NoDup ((λ r, ID (rn_Node r)) <$> res) ∧
  (∀ r, r ∈ res → ∃ d, (1 ≤ d < h + remaining)%nat ∧ reported r d) ∧
  (∀ y d, (1 ≤ d < h + remaining)%nat → distance d y → ∃ r, r ∈ res ∧ ID (rn_Node r) = y).
Proof using Ho Hid Hstart.
  induction remaining as [|n IH]; intros h frontier vis acc Hh HB; cbn [hops]; cbv zeta.
  - destruct HB as [_ _ _ BN BS BC]. rewrite Nat.add_0_r. done.
  - destruct frontier as [|x frontier].
    + destruct HB as [_ _ BF BN BS BC]. split_and!; [done| |].
      * intros r Hr. destruct (BS r Hr) as (d & ? & ?). exists d. split; [lia|done].
      * intros y d Hd Hy. destruct (decide (d < h)%nat); [apply (BC y d); [lia|done]|].
        destruct (distance_below (pred h) d y) as [z Hz]; [lia|done|]. apply BF in Hz. by apply elem_of_nil in Hz.
    + pose proof (bfs_step h _ vis acc Hh HB) as HB'. cbv zeta in HB'.
      replace (Z.of_nat h + 1) with (Z.of_nat (S h)) by lia.
      destruct (IH (S h) _ _ _ ltac:(lia) HB') as (H1 & H2 & H3).
      replace (h + S n)%nat with (S h + n)%nat by lia. done.
Qed.

Lemma bfs_init : bfs_inv 1 [start] {[start]} [].
Proof using Hstart.
  split.
  - intros y Hy. rewrite elem_of_singleton. split; [intros ->; exists 0%nat; split; [lia|constructor]|].
    intros (d & Hd & Hw). replace d with 0%nat in Hw by lia. by inversion Hw.
  - intros y Hy ->%elem_of_singleton. left. by left.
  - intros y. rewrite list_elem_of_singleton. simpl. split.
    + intros ->. split; [constructor|]. lia.
    + intros [Hw _]. by inversion Hw.
  - constructor.
  - by intros r ?%elem_of_nil.
  - lia.
Qed.
End bfs_spec.

(** ** The contract of the graph *)

(** Nodes and edges are stored under their own identities. *)
Definition graph_ok (ws : workspaceGraph) : Prop :=
  (∀ k n, nodes ws !! k = Some n → ID n = k) ∧ (∀ k e, edges ws !! k = Some e → keyOf e = k).
Definition graph_inv (s : Store) : Prop := ∀ w ws, s !! w = Some ws → graph_ok ws.

Inductive greach : Store → Prop :=
  | gr_new : greach New
  | gr_node w n s : greach s → greach (UpsertNode w n s)
  | gr_edge w e s : greach s → greach (UpsertEdge w e s).

Lemma getOrCreate_ok w s : graph_inv s → graph_ok (getOrCreate w s).
Proof.
  intros I. unfold getOrCreate. destruct (s !! w) as [ws|] eqn:E; [by apply (I w)|].
  split; intros k x Hx; cbn in Hx; by rewrite lookup_empty in Hx.
Qed.

Lemma UpsertNode_inv w n s : graph_inv s → graph_inv (UpsertNode w n s).
Proof.
  intros I. unfold graph_inv, Store, UpsertNode in *. intros w' ws' [[<- <-]|[_ ?]]%lookup_insert_Some; [|by eapply I].
  destruct (getOrCreate_ok w s I) as [H1 H2]. split; cbn; [|done].
  intros k n' [[<- <-]|[_ ?]]%lookup_insert_Some; auto.
Qed.
Lemma UpsertEdge_inv w e s : graph_inv s → graph_inv (UpsertEdge w e s).
Proof.
  intros I. unfold graph_inv, Store, UpsertEdge in *. intros w' ws' [[<- <-]|[_ ?]]%lookup_insert_Some; [|by eapply I].
  destruct (getOrCreate_ok w s I) as [H1 H2]. split; cbn; [done|].
  intros k n' [[<- <-]|[_ ?]]%lookup_insert_Some; auto.
Qed.
Lemma greach_inv s : greach s → graph_inv s.
Proof. induction 1; [by intros w' ws' H|by apply UpsertNode_inv|by apply UpsertEdge_inv]. Qed.

(** Extraction only upserts. *)
Lemma Extract_inv `{Extractor} ws id content s : graph_inv s → graph_inv (Extract ws id content s).2.
Proof.
  assert (HE : ∀ es s a, graph_inv s → graph_inv (add_entities ws es s a).1).
  { induction es as [|e es IH]; intros s1 a I; cbn [add_entities]; [done|]. case_match; apply IH; [done|by apply UpsertNode_inv]. }
  assert (HR : ∀ rs s a, graph_inv s → graph_inv (add_relations ws rs s a).1).
  { induction rs as [|r rs IH]; intros s1 a I; cbn [add_relations]; [done|]. case_match; apply IH; [done|by apply UpsertEdge_inv]. }
  assert (HM : ∀ m es s, graph_inv s → graph_inv (add_mentions ws m es s)).
  { intros m. induction es as [|e es IH]; intros s1 I; cbn [add_mentions]; [done|]. case_match; apply IH; [done|by apply UpsertEdge_inv]. }
  intros I. unfold Extract. destruct (Complete content) as [raw|]; [|done]. destruct (Unmarshal raw) as [p|]; [|done].
  case_match; [done|]. pose proof (HE (Entities p) s 0 I) as I1. destruct (add_entities ws (Entities p) s 0) as [s1 a].
  pose proof (HR (Relations p) s1 0 I1) as I2. destruct (add_relations ws (Relations p) s1 0) as [s2 r]. cbn [fst] in *.
  case_match; [done|]. apply HM. by apply UpsertNode_inv.
Qed.

(** C27: [Related] is breadth-first search.  It reports every stored node whose
    distance from the start (over stored nodes, edges read in both
    directions) is between 1 and the depth, each exactly once, at exactly
    that distance, with a stored edge from a node one step nearer; and
    nothing else.  A depth of zero or less means one; the runtime's map order
    makes no difference to the nodes and distances; the traversal ends. *)
Theorem related_spec order w start depth s ws :
  greach s → s !! w = Some ws → is_node ws start → (∀ h m, order h m ≡ₚ snd <$> map_to_list m) →
  let k := Z.to_nat (if depth <=? 0 then 1 else depth) in
  let res := Related order w start depth s in
  NoDup ((λ r, ID (rn_Node r)) <$> res) ∧
  (∀ r, r ∈ res → ∃ d, (1 ≤ d ≤ k)%nat ∧ reported ws start r d) ∧
  (∀ y d, (1 ≤ d ≤ k)%nat → distance ws start d y → ∃ r, r ∈ res ∧ ID (rn_Node r) = y ∧ rn_Hops r = Z.of_nat d).
Proof.
  intros HR Hw Hst Ho. cbv zeta. destruct (greach_inv s HR w ws Hw) as [Hid _].
  unfold Related. rewrite Hw. destruct Hst as [n Hn]. rewrite Hn.
  assert (Hst : is_node ws start) by (by exists n).
  destruct (hops_ok ws Hid start Hst order Ho (Z.to_nat (if depth <=? 0 then 1 else depth)) 1 _ _ _ ltac:(lia)
              (bfs_init ws start Hst)) as (H1 & H2 & H3).
  split_and!; [done| |].
  - intros r Hr. destruct (H2 r Hr) as (d & ? & ?). exists d. split; [lia|done].
  - intros y d Hd Hy. destruct (H3 y d ltac:(lia) Hy) as (r & Hr & Hy'). exists r. split_and!; [done|done|].
    destruct (H2 r Hr) as (d' & _ & Hh & _ & Hd' & _). rewrite Hy' in Hd'.
    rewrite Hh. f_equal. by eapply distance_unique.
Qed.

Definition gnode (i : string) : Node := mkNode i i ∅.
Definition gedge (a b l : string) : Edge := mkEdge a b l f64_zero.
Definition g1 : Store :=
  UpsertEdge "w" (gedge "alice" "project" "maintains") (UpsertEdge "w" (gedge "redis" "project" "used_by")
    (UpsertNode "w" (gnode "alice") (UpsertNode "w" (gnode "project") (UpsertNode "w" (gnode "redis") New)))).
Definition gorder (_ : Z) (m : gmap edgeKey Edge) : list Edge := snd <$> map_to_list m.

Lemma related_spec_witness :
  (λ r, (ID (rn_Node r), rn_Hops r)) <$> Related gorder "w" "redis" 2 g1 = [("project", 1); ("alice", 2)] ∧
  NoDup ((λ r, ID (rn_Node r)) <$> Related gorder "w" "redis" 2 g1).
Proof.
  split; [vm_compute; reflexivity|].
  destruct (g1 !! "w") as [ws|] eqn:E; [|vm_compute in E; discriminate].
  refine (proj1 (related_spec gorder "w" "redis" 2 g1 ws _ E _ (λ _ m, reflexivity _))).
  - repeat constructor.
  - vm_compute in E. injection E as <-. vm_compute. eauto.
Defined.

(** ** Extraction *)

Definition node_at (s : Store) (w id : string) : option Node := nodes (getOrCreate w s) !! id.
Definition edge_at (s : Store) (w : string) (k : edgeKey) : option Edge := edges (getOrCreate w s) !! k.

Lemma UpsertNode_at w n s w' id :
  node_at (UpsertNode w n s) w' id = if decide (w' = w ∧ id = ID n) then Some n else node_at s w' id.
Proof.
  unfold node_at, getOrCreate, UpsertNode, Store in *. destruct (decide (w' = w)) as [->|Hw].
  - rewrite lookup_insert_eq. cbn. destruct (decide (id = ID n)) as [->|Hi].
    + rewrite lookup_insert_eq, decide_True by done. done.
    + rewrite lookup_insert_ne, decide_False by tauto || done. done.
  - rewrite lookup_insert_ne, decide_False by tauto || done. done.
Qed.
Lemma UpsertNode_edge w n s w' k : edge_at (UpsertNode w n s) w' k = edge_at s w' k.
Proof.
  unfold edge_at, getOrCreate, UpsertNode, Store in *. destruct (decide (w' = w)) as [->|Hw].
  - by rewrite lookup_insert_eq.
  - by rewrite lookup_insert_ne.
Qed.
Lemma UpsertEdge_at w e s w' k :
  edge_at (UpsertEdge w e s) w' k = if decide (w' = w ∧ k = keyOf e) then Some e else edge_at s w' k.
Proof.
  unfold edge_at, getOrCreate, UpsertEdge, Store in *. destruct (decide (w' = w)) as [->|Hw].
  - rewrite lookup_insert_eq. cbn. destruct (decide (k = keyOf e)) as [->|Hi].
    + rewrite lookup_insert_eq, decide_True by done. done.
    + rewrite lookup_insert_ne, decide_False by tauto || done. done.
  - rewrite lookup_insert_ne, decide_False by tauto || done. done.
Qed.
Lemma UpsertEdge_node w e s w' id : node_at (UpsertEdge w e s) w' id = node_at s w' id.
Proof.
  unfold node_at, getOrCreate, UpsertEdge, Store in *. destruct (decide (w' = w)) as [->|Hw].
  - by rewrite lookup_insert_eq.
  - by rewrite lookup_insert_ne.
Qed.

(** [s'] has, beyond [s], the nodes named by [N] and the edges keyed by [K] of
    workspace [w], all present, and is otherwise [s]. *)
Record grows (w : string) (N : list string) (E : list Edge) (s s' : Store) : Prop := {
  gw_nodes : ∀ id, id ∈ N → is_Some (node_at s' w id);
  gw_edges : ∀ e, e ∈ E → edge_at s' w (keyOf e) = Some e;
  gw_node_frame : ∀ w' id, w' ≠ w ∨ id ∉ N → node_at s' w' id = node_at s w' id;
  gw_edge_frame : ∀ w' k, w' ≠ w ∨ k ∉ keyOf <$> E → edge_at s' w' k = edge_at s w' k;
}.

(** All edges [Extract] writes have the zero weight, so equal keys mean equal
    edges. *)
Definition plain (E : list Edge) : Prop := ∀ e, e ∈ E → Weight e = f64_zero.
Lemma plain_key E e1 e2 : plain E → e1 ∈ E → e2 ∈ E → keyOf e1 = keyOf e2 → e1 = e2.
Proof.
  intros HP H1 H2. pose proof (HP _ H1). pose proof (HP _ H2).
  destruct e1, e2. unfold keyOf. simpl in *. intros [= -> -> ->]. congruence.
Qed.

Lemma grows_refl w s : grows w [] [] s s.
Proof. split; [by intros ? ?%elem_of_nil|by intros ? ?%elem_of_nil|done|done]. Qed.

Lemma grows_node w N E s s' n : grows w N E s s' → grows w (N ++ [ID n]) E s (UpsertNode w n s').
Proof.
  intros [G1 G2 G3 G4]. split.
  - intros id Hid. rewrite UpsertNode_at. case_decide; [eauto|].
    apply elem_of_app in Hid as [Hid|Hid%list_elem_of_singleton]; [by apply G1|tauto].
  - intros e He. rewrite UpsertNode_edge. by apply G2.
  - intros w' id Hn. rewrite UpsertNode_at, decide_False; [apply G3|];
      rewrite elem_of_app, list_elem_of_singleton in Hn; tauto.
  - intros w' k Hk. rewrite UpsertNode_edge. by apply G4.
Qed.

Lemma grows_edge w N E s s' e : plain (E ++ [e]) → grows w N E s s' → grows w N (E ++ [e]) s (UpsertEdge w e s').
Proof.
  intros HP [G1 G2 G3 G4]. split.
  - intros id Hid. rewrite UpsertEdge_node. by apply G1.
  - intros e' He'. rewrite UpsertEdge_at. case_decide as D.
    + f_equal. eapply (plain_key (E ++ [e])); [done| |done|by destruct D].
      apply elem_of_app. right. by apply list_elem_of_singleton.
    + apply elem_of_app in He' as [He'|He'%list_elem_of_singleton]; [by apply G2|]. subst. tauto.
  - intros w' id Hn. rewrite UpsertEdge_node. by apply G3.
  - intros w' k Hk. rewrite UpsertEdge_at. rewrite fmap_app, elem_of_app in Hk. cbn in Hk.
    rewrite list_elem_of_singleton in Hk. rewrite decide_False by tauto. apply G4. tauto.
Qed.

Definition named (e : extractedEntity) : Prop := ent_ID e ≠ "".
Definition linked (r : extractedRelation) : Prop := rel_From r ≠ "" ∧ rel_To r ≠ "".
Definition rel_edge (r : extractedRelation) : Edge := mkEdge (rel_From r) (rel_To r) (rel_Label r) f64_zero.
Definition mention (m : string) (e : extractedEntity) : Edge := mkEdge m (ent_ID e) "mentions" f64_zero.

Lemma add_entities_ok w es : ∀ s0 s a N E, grows w N E s0 s →
  (add_entities w es s a).2 = a + len (filter named es) ∧
  grows w (N ++ (ent_ID <$> filter named es)) E s0 (add_entities w es s a).1.
Proof.
  induction es as [|e es IH]; intros s0 s a N E G; cbn [add_entities].
  - cbn. rewrite app_nil_r. split; [unfold len; simpl; lia|done].
  - rewrite filter_cons. destruct (String.eqb_spec (ent_ID e) "") as [He|He].
    + rewrite decide_False by (unfold named; tauto). by apply IH.
    + rewrite decide_True by done. cbn [fmap list_fmap].
      destruct (IH s0 _ (a + 1) _ _ (grows_node w N E s0 s (mkNode (ent_ID e) (ent_Label e) ∅) G)) as [-> G'].
      split; [unfold len; simpl; lia|]. by rewrite <- (assoc_L (++)) in G'.
Qed.

Lemma add_relations_ok w rs : ∀ s0 s a N E, plain E → grows w N E s0 s →
  (add_relations w rs s a).2 = a + len (filter linked rs) ∧
  plain (E ++ (rel_edge <$> filter linked rs)) ∧
  grows w N (E ++ (rel_edge <$> filter linked rs)) s0 (add_relations w rs s a).1.
Proof.
  induction rs as [|r rs IH]; intros s0 s a N E HP G; cbn [add_relations].
  - cbn. rewrite app_nil_r. split; [unfold len; simpl; lia|done].
  - rewrite filter_cons.
    destruct (String.eqb_spec (rel_From r) ""), (String.eqb_spec (rel_To r) ""); cbn [orb];
      [rewrite decide_False by (unfold linked; tauto); by apply IH..|].
    rewrite decide_True by done. cbn [fmap list_fmap].
    assert (HP' : plain (E ++ [rel_edge r])).
    { intros e [?| ->%list_elem_of_singleton]%elem_of_app; [by apply HP|done]. }
    destruct (IH s0 _ (a + 1) N _ HP' (grows_edge w N E s0 s (rel_edge r) HP' G)) as (HA & HP2 & G').
    rewrite <- (assoc_L (++)) in HP2, G'. split; [|done]. etransitivity; [exact HA|]. unfold len. simpl. lia.
Qed.

Lemma add_mentions_ok w m es : ∀ s0 s N E, plain E → grows w N E s0 s →
  grows w N (E ++ (mention m <$> filter named es)) s0 (add_mentions w m es s).
Proof.
  induction es as [|e es IH]; intros s0 s N E HP G; cbn [add_mentions]; [by rewrite app_nil_r|].
  rewrite filter_cons. destruct (String.eqb_spec (ent_ID e) "") as [He|He].
  - rewrite decide_False by (unfold named; tauto). by apply IH.
  - rewrite decide_True by done. cbn [fmap list_fmap].
    assert (HP' : plain (E ++ [mention m e])).
    { intros e' [?| ->%list_elem_of_singleton]%elem_of_app; [by apply HP|done]. }
    pose proof (IH s0 _ N _ HP' (grows_edge w N E s0 s (mention m e) HP' G)) as G'.
    by rewrite <- (assoc_L (++)) in G'.
Qed.

(** C28: extraction fails only when the completion provider does, and leaves
    the graph untouched when the answer is not the requested JSON or names no
    entity.  Otherwise it counts the entities and relations with non-empty
    identifiers; each such entity is then a node, each such relation an edge,
    and a provenance node for the memory has a "mentions" edge to each of
    these entities (if there is one); nothing else of this or any other
    workspace changes. *)
Theorem extract_spec `{Extractor} w mem txt s :
  let '(r, s') := Extract w mem txt s in
  match Complete txt with
  | None => r = Fail ∧ s' = s
  | Some raw =>
      match Unmarshal raw with
      | None => r = Return (0, 0) ∧ s' = s
      | Some parsed =>
          let ents := filter named (Entities parsed) in
          let rels := filter linked (Relations parsed) in
          let prov := if decide (ents = []) then [] else [memoryNodeID mem] in
          (Entities parsed = [] → r = Return (0, 0) ∧ s' = s) ∧
          (Entities parsed ≠ [] → r = Return (len ents, len rels) ∧
             grows w ((ent_ID <$> ents) ++ prov)
                     ((rel_edge <$> rels) ++ (mention (memoryNodeID mem) <$> ents)) s s')
      end
  end.
Proof.
  unfold Extract. destruct (Complete txt) as [raw|]; [|done]. destruct (Unmarshal raw) as [[es rs]|]; [|done].
  cbn [Entities Relations]. destruct es as [|e0 es0]; [done|]. change (len (e0 :: es0) =? 0) with false. cbv iota.
  set (es := e0 :: es0).
  destruct (add_entities_ok w es s s 0 [] [] (grows_refl w s)) as [H1 G1].
  destruct (add_entities w es s 0) as [s1 n1]. cbn [fst snd app] in *.
  destruct (add_relations_ok w rs s s1 0 _ [] ltac:(by intros e ?%elem_of_nil) G1) as (H2 & HP & G2).
  destruct (add_relations w rs s1 0) as [s2 n2]. cbn [fst snd app] in *.
  rewrite !Z.add_0_l in *. subst n1 n2.
  destruct (Z.eqb_spec (len (filter named es)) 0) as [Hz|Hz].
  - assert (Hn : filter named es = []) by (apply nil_length_inv; unfold len in Hz; lia).
    split; [done|]. intros _. rewrite Hn in *. rewrite decide_True by done. split; [done|].
    cbn in *. by rewrite app_nil_r.
  - split; [done|]. intros _. rewrite decide_False by (intros Hn; apply Hz; by rewrite Hn). split; [done|].
    apply add_mentions_ok; [done|].
    apply (grows_node w _ _ s s2 (mkNode (memoryNodeID mem) "memory" ∅) G2).
Qed.

(** A provider whose answer is [txt] itself and a decoder of two answers. *)
#[local] Instance toy_extractor : Extractor := {|
  Complete := λ txt, if String.eqb txt "" then None else Some txt;
  Unmarshal := λ raw, if String.eqb raw "{" then None else
    Some (mkResponse [mkEntity "a" "person"; mkEntity "" "x"; mkEntity raw "tool"]
            [mkRelation "a" raw "uses"; mkRelation "a" "" "?"]) |}.

Lemma extract_spec_witness :
  (Extract "w" "m" "t" New).1 = Return (2, 1) ∧ (Extract "w" "m" "{" New).1 = Return (0, 0) ∧
  (Extract "w" "m" "" New).1 = Fail ∧
  is_Some (node_at (Extract "w" "m" "t" New).2 "w" (memoryNodeID "m")).
Proof.
  split; [vm_compute; reflexivity|]. split; [vm_compute; reflexivity|]. split; [vm_compute; reflexivity|].
  pose proof (extract_spec "w" "m" "t" New) as H.
  destruct (Extract "w" "m" "t" New) as [r s']. cbn [Complete toy_extractor Unmarshal String.eqb Ascii.eqb Bool.eqb] in H.
  destruct H as [_ H]. refine (gw_nodes _ _ _ _ _ (proj2 (H _)) _ _); [discriminate|]. vm_compute.
  do 2 apply list_elem_of_further. apply list_elem_of_here.
Defined.
