(* ===== verification/Semantic.v ===== *)
(** * The semantic cache (internal/semantic/cache.go)

    Entries are grouped in partitions by model and temperature; a read embeds
    the prompt, drops the expired entries of its partition and answers with
    the most similar one left if it reaches the threshold.  The embedding
    provider is the argument [p]; its calls happen before the lock is taken. *)

From S2P Require Import Prelude.
From S2P Require Import GoStd.
From S2P Require Import Floats.
From S2P Require Import Similarity.
From S2P Require Import Caches.
From Stdlib Require Import SpecFloat.

Open Scope Z_scope.

Module semantic.

Record semanticEntry := mkSemanticEntry {
  prompt : string;
  embedding : vec;
  response : string;
  expiresAt : option time;
  cost : float64;
}.
Definition expired (e : semanticEntry) (now : time) : bool := cache_expired (expiresAt e) now.

Definition SemanticCache : Type := gmap string (list semanticEntry).
Definition New : SemanticCache := ∅.

Definition partitionKey (model temp : string) : string := model +:+ String NUL temp.

Definition Set_ (p : embed.Provider) (now : time) (prompt model temp response : string) (ttl : duration)
    (cost : float64) (c : SemanticCache) : outcome unit * SemanticCache :=
  match embed.EmbedOne p prompt with
  | Fail => (Fail, c)
  | Panic => (Panic, c)
  | Return v =>
      let e := mkSemanticEntry prompt v response (cache_expiry now ttl) cost in
      let key := partitionKey model temp in
      (Return tt, <[key := default [] (c !! key) ++ [e]]> c)
  end.

(** The scan: [kept], [bestIdx] and [bestScore] as the loop updates them. *)
Fixpoint Get_loop (now : time) (v : vec) (entries kept : list semanticEntry) (bestIdx : Z) (bestScore : float64)
    : list semanticEntry * Z * float64 :=
  match entries with
  | [] => (kept, bestIdx, bestScore)
  | e :: entries =>
      if expired e now then Get_loop now v entries kept bestIdx bestScore
      else
        let kept := kept ++ [e] in
        let score := embed.Cosine v (embedding e) in
        if IsNaN score then Get_loop now v entries kept bestIdx bestScore
        else if f64_lt bestScore score then Get_loop now v entries kept (len kept - 1) score
        else Get_loop now v entries kept bestIdx bestScore
  end.

(** [Return None] for [("", false, 0, nil)]; [kept[bestIdx]] is in range
    whenever [bestIdx] is not negative, or else would panic. *)
Definition Get (p : embed.Provider) (now : time) (prompt model temp : string) (threshold : float64)
    (c : SemanticCache) : outcome (option (string * float64)) * SemanticCache :=
  match embed.EmbedOne p prompt with
  | Fail => (Fail, c)
  | Panic => (Panic, c)
  | Return v =>
      let key := partitionKey model temp in
      let entries := default [] (c !! key) in
      let '(kept, bestIdx, bestScore) := Get_loop now v entries [] (-1) (f64_Inf true) in
      let c := <[key := kept]> c in
      if (bestIdx <? 0) || f64_lt bestScore threshold then (Return None, c)
      else match kept !! Z.to_nat bestIdx with
           | Some e => (Return (Some (response e, cost e)), c)
           | None => (Panic, c)
           end
  end.

End semantic.

Import semantic.

(** ** The scan finds a best entry *)

Definition similarity (v : vec) (e : semanticEntry) : float64 := embed.Cosine v (embedding e).
Definition alive (now : time) (e : semanticEntry) : Prop := expired e now = false.

#[export] Instance alive_dec now e : Decision (alive now e).
Proof. unfold alive. apply _. Defined.

(** What the accumulator means after the entries [kept] were looked at. *)
Record best_of (v : vec) (kept : list semanticEntry) (bestIdx : Z) (bestScore : float64) : Prop := {
  bo_num : not_nan bestScore;
  bo_idx : bestIdx < 0 ∧ bestScore = f64_Inf true ∨
           ∃ e, 0 ≤ bestIdx ∧ kept !! Z.to_nat bestIdx = Some e ∧ similarity v e = bestScore;
  bo_max : ∀ e, e ∈ kept → f64_lt bestScore (similarity v e) = false;
}.

Lemma best_of_snoc v kept idx s e :
  best_of v kept idx s →
  let sc := similarity v e in
  let kept' := kept ++ [e] in
  best_of v kept' (if IsNaN sc then idx else if f64_lt s sc then len kept' - 1 else idx)
    (if IsNaN sc then s else if f64_lt s sc then sc else s).
Proof.
  intros [Hn Hi Hm]. cbv zeta. set (sc := similarity v e).
  assert (Hold : ∀ idx', (idx' = idx) → idx' < 0 ∧ s = f64_Inf true ∨
           ∃ e', 0 ≤ idx' ∧ (kept ++ [e]) !! Z.to_nat idx' = Some e' ∧ similarity v e' = s).
  { intros idx' ->. destruct Hi as [?|(e' & ? & He & ?)]; [by left|right]. exists e'. split_and!; [done| |done].
    by apply lookup_app_l_Some. }
  assert (Hlast : ∀ x, f64_lt x sc = false → (∀ e', e' ∈ kept → f64_lt x (similarity v e') = false) →
     ∀ e', e' ∈ kept ++ [e] → f64_lt x (similarity v e') = false).
  { intros x Hx Hk e' [?| ->%list_elem_of_singleton]%elem_of_app; [by apply Hk|done]. }
  destruct (IsNaN sc) eqn:Hnan; [|destruct (f64_lt s sc) eqn:Hlt].
  - split; [done|by apply Hold|]. apply Hlast; [|done]. apply IsNaN_nan in Hnan. rewrite Hnan. by destruct s.
  - split; [done| |].
    + right. exists e. unfold len. rewrite length_app. simpl.
      replace (Z.to_nat (Z.of_nat (length kept + 1) - 1)) with (length kept) by lia.
      split_and!; [lia| |done]. by apply list_lookup_middle.
    + apply Hlast; [apply f64_lt_irrefl|]. intros e' He'.
      destruct (f64_lt sc (similarity v e')) eqn:E; [|done].
      specialize (Hm e' He'). by rewrite (f64_lt_trans _ _ _ Hlt E) in Hm.
  - split; [done|by apply Hold|]. by apply Hlast.
Qed.

Lemma Get_loop_spec now v entries : ∀ kept idx s, best_of v kept idx s →
  ∃ idx' s', Get_loop now v entries kept idx s = (kept ++ filter (alive now) entries, idx', s') ∧
  best_of v (kept ++ filter (alive now) entries) idx' s'.
Proof.
  induction entries as [|e entries IH]; intros kept idx s HB; cbn [Get_loop].
  - exists idx, s. by rewrite filter_nil, app_nil_r.
  - rewrite filter_cons. destruct (expired e now) eqn:Hx.
    + rewrite decide_False by (unfold alive; congruence). by apply IH.
    + rewrite decide_True by done. pose proof (best_of_snoc v kept idx s e HB) as HB'. cbv zeta in HB'.
      fold (similarity v e).
      replace (kept ++ e :: filter (alive now) entries) with ((kept ++ [e]) ++ filter (alive now) entries)
        by (by rewrite <- (assoc_L (++))).
      destruct (IsNaN (similarity v e)); [by apply IH|].
      destruct (f64_lt s (similarity v e)); by apply IH.
Qed.

Lemma best_of_nil v : best_of v [] (-1) (f64_Inf true).
Proof. split; [done|by left|]. by intros e ?%elem_of_nil. Qed.

(** C23: a semantic-cache read never fails once the prompt is embedded.  It
    answers with an entry of its own (model, temperature) partition that has
    not expired, reaches the threshold and is at least as similar as every
    other live entry of the partition; it misses only when no live entry with
    a defined, finite similarity reaches the threshold; it forgets the expired
    entries of that partition and leaves the others alone. *)
Theorem semantic_get_spec p now pr model temp threshold c v :
  embed.EmbedOne p pr = Return v → not_nan threshold →
  let key := partitionKey model temp in
  let live := filter (alive now) (default [] (c !! key)) in
  let '(r, c') := Get p now pr model temp threshold c in
  c' = <[key := live]> c ∧
  match r with
  | Return (Some (resp, co)) =>
      ∃ e, e ∈ live ∧ response e = resp ∧ cost e = co ∧ f64_lt (similarity v e) threshold = false ∧
           ∀ e', e' ∈ live → f64_lt (similarity v e) (similarity v e') = false
  | Return None =>
      ∀ e, e ∈ live → IsNaN (similarity v e) = true ∨ f64_lt (f64_Inf true) (similarity v e) = false ∨
                       f64_lt (similarity v e) threshold = true
  | _ => False
  end.
Proof.
  intros He Ht. cbv zeta. unfold Get. rewrite He.
  destruct (Get_loop_spec now v (default [] (c !! partitionKey model temp)) [] (-1) (f64_Inf true) (best_of_nil v))
    as (idx & s & -> & [Hn Hi Hm]). cbn [app] in *.
  destruct (Z.ltb_spec idx 0) as [Hneg|Hpos]; cbn [orb].
  - split; [done|]. intros e Hin. right; left. destruct Hi as [[_ ->]|(? & ? & _)]; [|lia]. by apply Hm.
  - destruct Hi as [[? _]|(e & _ & Hk & Hs)]; [lia|]. destruct (f64_lt s threshold) eqn:Hth.
    + split; [done|]. intros e' Hin. destruct (IsNaN (similarity v e')) eqn:E; [by left|right; right].
      eapply f64_le_lt_trans; [done|by apply Hm|done].
    + rewrite Hk. split; [done|]. exists e. rewrite Hs. split_and!; try done. by eapply list_elem_of_lookup_2.
Qed.

(** The index the scan found is in range. *)
Lemma Get_no_panic p now pr model temp threshold c : embed.EmbedOne p pr ≠ Panic →
  (Get p now pr model temp threshold c).1 ≠ Panic.
Proof.
  intros He. unfold Get. destruct (embed.EmbedOne p pr) as [v| |] eqn:E; [|done|done].
  destruct (Get_loop_spec now v (default [] (c !! partitionKey model temp)) [] (-1) (f64_Inf true) (best_of_nil v))
    as (idx & s & -> & [Hn Hi Hm]). cbn [app] in *.
  destruct (Z.ltb_spec idx 0); cbn [orb]; [done|]. destruct (f64_lt s threshold); [done|].
  destruct Hi as [[? _]|(e & _ & -> & _)]; [lia|done].
Qed.
Lemma Set_no_panic p now pr model temp resp ttl co c : embed.EmbedOne p pr ≠ Panic →
  (Set_ p now pr model temp resp ttl co c).1 ≠ Panic.
Proof. intros He. unfold Set_. by destruct (embed.EmbedOne p pr). Qed.

(** Entries of different models or temperatures never answer for each
    other (for model names without NUL bytes): a write to one partition leaves
    every other partition as it was. *)
Theorem semantic_isolated p now pr model temp resp ttl co c model' temp' :
  has_NUL model = false → has_NUL model' = false → (model', temp') ≠ (model, temp) →
  (Set_ p now pr model temp resp ttl co c).2 !! partitionKey model' temp' = c !! partitionKey model' temp'.
Proof.
  intros H1 H2 Hne. unfold Set_. destruct (embed.EmbedOne p pr) as [v| |]; [|done..]. cbn [snd].
  unfold SemanticCache in *. rewrite lookup_insert_ne; [done|]. intros E. apply Hne.
  by destruct (nul_join_inj _ _ _ _ H1 H2 E) as [-> ->].
Qed.

(** A provider that embeds every text alike. *)
Definition flat_provider : embed.Provider := embed.mkProvider (λ _, Some [f64_one; f64_of_Z 2]) None.
Definition sc0 : SemanticCache := (Set_ flat_provider 5 "hi" "m" "0" "hello" 10 f64_zero New).2.

Lemma semantic_get_spec_witness :
  embed.EmbedOne flat_provider "hey" = Return [f64_one; f64_of_Z 2] ∧
  (Get flat_provider 7 "hey" "m" "0" (f64_lit 9 10) sc0).1 = Return (Some ("hello", f64_zero)) ∧
  (Get flat_provider 15 "hey" "m" "0" (f64_lit 9 10) sc0).1 = Return None ∧
  (Get flat_provider 15 "hey" "m" "0" (f64_lit 9 10) sc0).2 !! partitionKey "m" "0" = Some [].
Proof.
  split; [reflexivity|]. split; [vm_compute; reflexivity|]. split; [vm_compute; reflexivity|].
  pose proof (semantic_get_spec flat_provider 15 "hey" "m" "0" (f64_lit 9 10) sc0 _ eq_refl
                ltac:(vm_compute; reflexivity)) as H. cbv zeta in H.
  destruct (Get flat_provider 15 "hey" "m" "0" (f64_lit 9 10) sc0) as [r c'].
  destruct H as [-> _]. unfold SemanticCache. cbn [snd]. rewrite lookup_insert_eq. vm_compute. reflexivity.
Defined.

Lemma semantic_isolated_witness :
  (Set_ flat_provider 6 "hi" "m" "1" "x" 0 f64_zero sc0).2 !! partitionKey "m" "0" = sc0 !! partitionKey "m" "0".
Proof. apply semantic_isolated; [reflexivity|reflexivity|discriminate]. Defined.
