(* ===== verification/Vector.v ===== *)
(** * The vector store (internal/vector)

    A flat index per namespace.  [Upsert] and [Delete] run under the write
    lock; [Search] copies the namespace's entries under the read lock, in the
    runtime's range order ([order]), and ranks them. *)

From S2P Require Import Prelude.
From S2P Require Import GoStd.
From S2P Require Import Floats.
From S2P Require Import Similarity.

Open Scope Z_scope.

Module vector.

Inductive DistanceMetric := Cosine | Dot | Euclidean.

Record vecEntry := mkVecEntry {
  vector : vec;
  metadata : gmap string string;
  text : string;
}.
Record Result := mkResult { ID : string; Score : float64 }.
Record HybridOpts := mkHybridOpts { QueryText : string; Alpha : float64 }.

Definition Store : Type := gmap string (gmap string vecEntry).
Definition New : Store := ∅.

Definition Upsert (namespace id : string) (v : vec) (md : gmap string string) (txt : string) (s : Store) : Store :=
  let ns := default ∅ (s !! namespace) in
  <[namespace := <[id := mkVecEntry v md txt]> ns]> s.

Definition Delete (namespace id : string) (s : Store) : bool * Store :=
  match s !! namespace with
  | None => (false, s)
  | Some ns =>
      match ns !! id with
      | None => (false, s)
      | Some _ => (true, <[namespace := delete id ns]> s)
      end
  end.

(** [rawScore]: [None] for [ok = false]. *)
Definition rawScore (a b : vec) (metric : DistanceMetric) : option float64 :=
  let v := match metric with
           | Dot => embed.Dot a b
           | Euclidean => embed.Euclidean a b
           | Cosine => embed.Cosine a b
           end in
  if IsNaN v then None else Some v.

Definition normalizeForBlend (score : float64) (metric : DistanceMetric) : float64 :=
  match metric with
  | Euclidean => f64_div f64_one (f64_add f64_one score)
  | _ => score
  end.

(** The loop returns false at the first pair that fails, so the order in
    which it ranges over [filter] does not matter. *)
Definition matchesFilter (md filter : gmap string string) : bool :=
  forallb (λ '(k, v), match md !! k with Some mv => String.eqb mv v | None => false end)
          (map_to_list filter).

Section search.
Context `{UnicodeTables}.

Definition tokenize (s : string) : gset string := list_to_set (Fields (ToLower s)).

Definition keywordScore (query txt : string) : float64 :=
  let qTokens := tokenize query in
  if decide (size qTokens = 0%nat) then f64_zero
  else
    let tTokens := tokenize txt in
    if decide (size tTokens = 0%nat) then f64_zero
    else f64_div (f64_of_Z (Z.of_nat (size (qTokens ∩ tTokens)))) (f64_of_Z (Z.of_nat (size qTokens))).

(** The body of the ranking loop for one candidate. *)
Definition scoreOne (v : vec) (metric : DistanceMetric) (filter : gmap string string)
    (hybrid : option HybridOpts) (c : string * vecEntry) : option Result :=
  let '(id, e) := c in
  if negb (matchesFilter (metadata e) filter) then None
  else if negb (len (vector e) =? len v) then None
  else
    match rawScore v (vector e) metric with
    | None => None
    | Some score =>
        let score :=
          match hybrid with
          | None => score
          | Some h =>
              let vecScore := normalizeForBlend score metric in
              let kwScore := keywordScore (QueryText h) (text e) in
              f64_add (f64_mul (Alpha h) vecScore) (f64_mul (f64_sub f64_one (Alpha h)) kwScore)
          end in
        Some (mkResult id score)
    end.

Definition is_Euclidean (m : DistanceMetric) : bool := match m with Euclidean => true | _ => false end.
Definition result_less (higherIsBetter : bool) (a b : Result) : bool :=
  if negb (f64_eq (Score a) (Score b)) then
    if higherIsBetter then f64_lt (Score b) (Score a) else f64_lt (Score a) (Score b)
  else String.ltb (ID a) (ID b).

Definition Search (order : gmap string vecEntry → list (string * vecEntry)) (namespace : string) (v : vec)
    (k : Z) (metric : DistanceMetric) (filter : gmap string string) (hybrid : option HybridOpts) (s : Store)
    : list Result :=
  if k <=? 0 then []
  else
    let ns := default ∅ (s !! namespace) in
    let results := omap (scoreOne v metric filter hybrid) (order ns) in
    let higherIsBetter := (if hybrid is Some _ then true else false) || negb (is_Euclidean metric) in
    let results := sort_Slice (result_less higherIsBetter) results in
    if k <? len results then take (Z.to_nat k) results else results.
End search.

End vector.

Import vector.

(** ** The ranking order *)

Definition proper_score (r : Result) : Prop := not_nan (Score r).

Lemma result_less_asym hib a b : result_less hib a b = true → result_less hib b a = false.
Proof.
  unfold result_less. rewrite (f64_eq_sym (Score b)).
  destruct (f64_eq (Score a) (Score b)); simpl; [apply ltb_asym|].
  destruct hib; intros H; by apply f64_lt_asym.
Qed.

(** On proper scores: a better score, or an equal one and a smaller ID. *)
Lemma result_less_alt hib a b : proper_score a → proper_score b →
  result_less hib a b =
  let '(x, y) := if hib : bool then (Score b, Score a) else (Score a, Score b) in
  f64_lt x y || (negb (f64_lt y x) && String.ltb (ID a) (ID b)).
Proof.
  intros Ha Hb. unfold result_less. rewrite (f64_eq_lt (Score a) (Score b)) by done.
  destruct hib; destruct (f64_lt (Score a) (Score b)) eqn:E1, (f64_lt (Score b) (Score a)) eqn:E2; try done;
    by rewrite (f64_lt_asym _ _ E1) in E2.
Qed.

Lemma result_less_negtrans hib x y z : proper_score x → proper_score y → proper_score z →
  result_less hib y x = false → result_less hib z y = false → result_less hib z x = false.
Proof.
  intros Hx Hy Hz. rewrite !result_less_alt by done.
  destruct hib; cbv beta iota; rewrite !orb_false_iff, !andb_false_iff, !negb_false_iff;
    intros [A1 A2] [B1 B2]; (split; [by apply (f64_lt_negtrans _ (Score y))|]).
  - destruct A2 as [A2|A2]; [left; by apply (f64_le_lt_trans _ (Score y))|].
    destruct B2 as [B2|B2]; [left; by apply (f64_lt_le_trans _ (Score y))|].
    right. by eapply ltb_negtrans.
  - destruct A2 as [A2|A2]; [left; by apply (f64_lt_le_trans _ (Score y))|].
    destruct B2 as [B2|B2]; [left; by apply (f64_le_lt_trans _ (Score y))|].
    right. by eapply ltb_negtrans.
Qed.

(** For cosine and dot: in ranking order no score beats an earlier one. *)
Lemma result_worse_score a b : slice_le (result_less true) a b → f64_lt (Score a) (Score b) = false.
Proof.
  unfold slice_le, result_less. rewrite (f64_eq_sym (Score b)).
  destruct (f64_eq (Score a) (Score b)) eqn:E; simpl; [|done]. intros _. by apply f64_eq_not_lt.
Qed.

(** ** What a search returns *)

Lemma matchesFilter_spec md filter : matchesFilter md filter = true ↔ filter ⊆ md.
Proof.
  unfold matchesFilter. rewrite forallb_forall, map_subseteq_spec. split.
  - intros H k x Hx. specialize (H (k, x) ltac:(apply list_elem_of_In; by apply elem_of_map_to_list)).
    simpl in H. destruct (md !! k) as [y|]; [|done]. by apply String.eqb_eq in H as ->.
  - intros H [k x] Hx%list_elem_of_In%elem_of_map_to_list. rewrite (H k x Hx). apply String.eqb_refl.
Qed.

(** An entry of the namespace that a pure vector search must rank. *)
Definition candidate (s : Store) (namespace : string) (v : vec) (metric : DistanceMetric)
    (filter : gmap string string) (r : Result) : Prop :=
  ∃ e, default ∅ (s !! namespace) !! ID r = Some e ∧ filter ⊆ metadata e ∧
       len (vector e) = len v ∧ rawScore v (vector e) metric = Some (Score r).

Lemma scoreOne_pure `{UnicodeTables} v metric filter id e r :
  scoreOne v metric filter None (id, e) = Some r ↔
  ID r = id ∧ filter ⊆ metadata e ∧ len (vector e) = len v ∧ rawScore v (vector e) metric = Some (Score r).
Proof.
  unfold scoreOne. pose proof (matchesFilter_spec (metadata e) filter) as HM.
  destruct (matchesFilter _ _); simpl; [|split; [done|intros (_ & ?%HM & _); done]].
  destruct (Z.eqb_spec (len (vector e)) (len v)); simpl; [|split; [done|by intros (_ & _ & ? & _)]].
  destruct (rawScore _ _ _) as [sc|]; [|split; [done|by intros (_ & _ & _ & ?)]].
  split; [intros [= <-]; simpl; split_and!; try done; by apply HM|].
  intros (<- & _ & _ & [= ->]). by destruct r.
Qed.

Lemma rawScore_not_nan a b m x : rawScore a b m = Some x → not_nan x.
Proof. unfold rawScore, not_nan. destruct (IsNaN _) eqn:E; [done|]. by intros [= <-]. Qed.

Lemma omap_NoDup_fst {A B} (f : string * A → option B) (g : B → string) (l : list (string * A)) :
  (∀ k a b, f (k, a) = Some b → g b = k) → NoDup l.*1 → NoDup (g <$> omap f l).
Proof.
  intros Hf. induction l as [|[k a] l IH]; [constructor|]. intros [Hk Hnd]%NoDup_cons.
  cbn. destruct (f (k, a)) as [b|] eqn:E; [|by apply IH]. cbn. apply NoDup_cons. split; [|by apply IH].
  rewrite (Hf _ _ _ E), list_elem_of_fmap. intros (b' & -> & ([k' a'] & Hin & E')%list_elem_of_omap).
  apply Hk. cbn. rewrite (Hf _ _ _ E'). by apply (list_elem_of_fmap_2 fst _ (k', a')).
Qed.

Section search_spec.
Context `{UnicodeTables} (order : gmap string vecEntry → list (string * vecEntry)).
Context (Ho : ∀ m, order m ≡ₚ map_to_list m).
Context (namespace : string) (v : vec) (metric : DistanceMetric) (filter : gmap string string) (s : Store).

Definition ranked : list Result :=
  sort_Slice (result_less (negb (is_Euclidean metric)))
    (omap (scoreOne v metric filter None) (order (default ∅ (s !! namespace)))).

Lemma Search_ranked k :
  Search order namespace v k metric filter None s = take (Z.to_nat k) ranked.
Proof.
  unfold Search. fold ranked. destruct (Z.leb_spec k 0).
  - by replace (Z.to_nat k) with 0%nat by lia.
  - change (false || negb (is_Euclidean metric))%bool with (negb (is_Euclidean metric)). fold ranked.
    destruct (Z.ltb_spec k (len ranked)); [done|]. rewrite take_ge; [done|]. unfold len in *. lia.
Qed.

Lemma ranked_elem r : r ∈ ranked ↔ candidate s namespace v metric filter r.
Proof using Ho.
  unfold ranked, candidate. rewrite (sort_Slice_perm _ _), list_elem_of_omap. split.
  - intros ([id e] & Hin & (<- & ? & ? & ?)%scoreOne_pure). exists e. split; [|done].
    apply elem_of_map_to_list. by rewrite <- Ho.
  - intros (e & He & ? & ? & ?). exists (ID r, e). rewrite scoreOne_pure. split; [|done].
    rewrite Ho. by apply elem_of_map_to_list.
Qed.

Lemma ranked_sorted : StronglySorted (slice_le (result_less (negb (is_Euclidean metric)))) ranked.
Proof using Ho.
  apply (sort_Slice_sorted _ (result_less_asym _) proper_score).
  - intros x y z Hx Hy Hz. by apply result_less_negtrans.
  - rewrite Forall_forall. intros r Hr. assert (Hc : r ∈ ranked) by (unfold ranked; by rewrite (sort_Slice_perm _ _)).
    apply ranked_elem in Hc as (e & _ & _ & _ & Hs). by eapply rawScore_not_nan.
Qed.

Lemma ranked_NoDup : NoDup (ID <$> ranked).
Proof using Ho.
  unfold ranked. rewrite (sort_Slice_perm _ _). apply omap_NoDup_fst.
  - intros k a b Hb. by apply scoreOne_pure in Hb as [? _].
  - rewrite Ho. apply NoDup_fst_map_to_list.
Qed.
End search_spec.

Lemma search_facts `{UnicodeTables} order namespace v k metric filter s :
  (∀ m, order m ≡ₚ map_to_list m) →
  let rs := Search order namespace v k metric filter None s in
  let worse := result_less (negb (is_Euclidean metric)) in
  len rs ≤ Z.max 0 k ∧ NoDup (ID <$> rs) ∧ StronglySorted (slice_le worse) rs ∧
  (∀ r, r ∈ rs → candidate s namespace v metric filter r) ∧
  (∀ r, candidate s namespace v metric filter r → 
     r ∈ rs ∨ (len rs = Z.max 0 k ∧ ∀ r', r' ∈ rs → worse r r' = false)).
Proof.
  intros Ho. cbv zeta. rewrite Search_ranked.
  pose proof (ranked_sorted order Ho namespace v metric filter s) as HS.
  pose proof (ranked_elem order Ho namespace v metric filter s) as HE.
  pose proof (ranked_NoDup order Ho namespace v metric filter s) as HN.
  revert HS HE HN. generalize (ranked order namespace v metric filter s). intros l HS HE HN. split_and!.
  - unfold len. rewrite length_take. lia.
  - rewrite fmap_take. rewrite <- (take_drop (Z.to_nat k) (ID <$> l)) in HN. by apply NoDup_app in HN as [? _].
  - rewrite <- (take_drop (Z.to_nat k) l) in HS. by apply StronglySorted_app_1_l in HS.
  - intros r Hr. apply HE. by apply (subseteq_take (Z.to_nat k)).
  - intros r Hr%HE. rewrite <- (take_drop (Z.to_nat k) l) in Hr. apply elem_of_app in Hr as [Hr|Hr]; [by left|right].
    split.
    + unfold len. rewrite length_take. assert (Z.to_nat k < length l)%nat; [|lia].
      destruct (decide (Z.to_nat k < length l)%nat); [done|]. rewrite drop_ge in Hr by lia. by apply elem_of_nil in Hr.
    + intros r' Hr'. by apply (sorted_take_drop _ (Z.to_nat k) l r' r HS).
Qed.

Lemma ranked_search `{UnicodeTables} order (Ho : ∀ m, order m ≡ₚ map_to_list m) namespace v k metric filter s :
  0 < k →
  let rs := Search order namespace v k metric filter None s in
  len rs ≤ k ∧ NoDup (ID <$> rs) ∧ StronglySorted (slice_le (result_less (negb (is_Euclidean metric)))) rs ∧
  (∀ r, r ∈ rs → candidate s namespace v metric filter r) ∧
  (Z.of_nat (size (default ∅ (s !! namespace))) ≤ k → ∀ r, candidate s namespace v metric filter r → r ∈ rs).
Proof.
  intros Hk. cbv zeta. destruct (search_facts order namespace v k metric filter s Ho) as (H1 & H2 & H3 & H4 & H5).
  split_and!; [lia|done..|]. intros Hsz r Hr. destruct (H5 r Hr) as [?|[Hl Hw]]; [done|].
  destruct (decide (ID r ∈ ID <$> Search order namespace v k metric filter None s)) as [Hin|Hin].
  - apply list_elem_of_fmap in Hin as (r' & Hid & Hr'). pose proof (H4 r' Hr') as (e' & He' & _ & _ & Hs').
    destruct Hr as (e & He & _ & _ & Hs). destruct r as [id sc], r' as [id' sc']. simpl in *. subst id'.
    congruence.
  - exfalso. set (rs := Search _ _ _ _ _ _ _ _) in *. set (ns := default ∅ (s !! namespace)) in *.
    assert (Hsub : list_to_set (ID r :: (ID <$> rs)) ⊆ dom ns).
    { intros id. rewrite elem_of_list_to_set, elem_of_cons, list_elem_of_fmap, elem_of_dom.
      intros [->|(r' & -> & Hr')]; [destruct Hr as (e & He & _)|destruct (H4 r' Hr') as (e & He & _)];
        unfold ns; rewrite He; eauto. }
    apply subseteq_size in Hsub. rewrite size_dom, size_list_to_set in Hsub by (by apply NoDup_cons).
    simpl in Hsub. rewrite length_fmap in Hsub. unfold len in Hl. lia.
Qed.


Definition vs0 : Store :=
  Upsert "ns" "b" [f64_zero; f64_one] ∅ "" (Upsert "ns" "a" [f64_one; f64_zero] ∅ "" New).
