(* ===== verification/Memory.v ===== *)
(** * Shared agent memory (internal/memory)

    The store keeps the current record of every (workspace, id), a bounded
    log of the versions each later [Put] made obsolete, and the vector store
    of Vector.v as a search index.  Reads drop what they find expired. *)

From S2P Require Import Prelude.
From S2P Require Import GoStd.
From S2P Require Import Floats.
From S2P Require Import Similarity.
From S2P Require Import Vector.

Open Scope Z_scope.

Module memory.

(** ** kinds.go, memory.go *)

Inductive Kind := ShortTerm | LongTerm | Episodic | Semantic.
#[export] Instance Kind_eq_dec : EqDecision Kind.
Proof. solve_decision. Defined.

Definition Kind_String (k : Kind) : string :=
  match k with
  | ShortTerm => "short_term" | LongTerm => "long_term"
  | Episodic => "episodic" | Semantic => "semantic"
  end.

Definition ParseKind `{UnicodeTables} (s : string) : option Kind :=
  let s := ToLower s in
  if String.eqb s "short_term" then Some ShortTerm
  else if String.eqb s "long_term" then Some LongTerm
  else if String.eqb s "episodic" then Some Episodic
  else if String.eqb s "semantic" then Some Semantic
  else None.

Record Memory := mkMemory {
  ID : string;
  AgentID : string;
  WorkspaceID : string;
  Kind_ : Kind;
  Content : string;
  Embedding : vec;
  Metadata : gmap string string;
  CreatedAt : time;
  Version : Z;
  ExpiresAt : option time;
}.

Definition expired (m : Memory) (now : time) : bool :=
  match ExpiresAt m with None => false | Some t => negb (time_After t now) end.

(** ** store.go *)

Definition maxMemoryHistoryPerRecord : Z := 100.
Definition defaultSearchK : Z := 10.

Record SearchOptions := mkSearchOptions {
  so_AgentID : string; so_Kind : option Kind; so_K : Z; so_Threshold : option float64;
}.
Record ListOptions := mkListOptions { lo_AgentID : string; lo_Kind : option Kind }.
Record SearchResult := mkSearchResult { sr_ID : string; sr_Score : float64 }.

Record Store := mkStore {
  vecStore : vector.Store;
  records : gmap string (gmap string Memory);
  history : gmap string (gmap string (list Memory));
}.
Definition New : Store := mkStore vector.New ∅ ∅.

Definition recordHistoryLocked (workspaceID id : string) (prior : Memory) (s : Store) : Store :=
  let ws := default ∅ (history s !! workspaceID) in
  let h := default [] (ws !! id) ++ [prior] in
  let h := if maxMemoryHistoryPerRecord <? len h
           then drop (Z.to_nat (len h - maxMemoryHistoryPerRecord)) h else h in
  mkStore (vecStore s) (records s) (<[workspaceID := <[id := h]> ws]> (history s)).

Definition deleteHistoryLocked (workspaceID id : string) (s : Store) : Store :=
  match history s !! workspaceID with
  | Some ws => mkStore (vecStore s) (records s) (<[workspaceID := delete id ws]> (history s))
  | None => s
  end.

Definition vec_metadata (m : Memory) : gmap string string :=
  <["agent_id" := AgentID m]> {[ "kind" := Kind_String (Kind_ m) ]}.

(** [generated] is what [newID] returned, if it was called ([None] is its
    error). *)
Definition Put (p : embed.Provider) (generated : option string) (now : time) (m : Memory) (ttl : duration)
    (s : Store) : outcome string * Store :=
  if String.eqb (WorkspaceID m) "" then (Fail, s)
  else
    match embed.EmbedOne p (Content m) with
    | Fail => (Fail, s)
    | Panic => (Panic, s)
    | Return v =>
        match (if String.eqb (ID m) "" then generated else Some (ID m)) with
        | None => (Fail, s)
        | Some id =>
            let expiresAt := if 0 <? ttl then Some (time_Add now ttl) else None in
            let ws := default ∅ (records s !! WorkspaceID m) in
            let '(version, createdAt, s) :=
              match ws !! id with
              | Some existing => (wrap64 (Version existing + 1), CreatedAt existing,
                                  recordHistoryLocked (WorkspaceID m) id existing s)
              | None => (1, now, s)
              end in
            let rec := mkMemory id (AgentID m) (WorkspaceID m) (Kind_ m) (Content m) v (Metadata m)
                                createdAt version expiresAt in
            (Return id,
             mkStore (vector.Upsert (WorkspaceID m) id v (vec_metadata m) "" (vecStore s))
                     (<[WorkspaceID m := <[id := rec]> ws]> (records s)) (history s))
        end
    end.

(** What every read does with an expired record. *)
Definition dropLocked (workspaceID id : string) (ws : gmap string Memory) (s : Store) : Store :=
  deleteHistoryLocked workspaceID id
    (mkStore (vector.Delete workspaceID id (vecStore s)).2
             (<[workspaceID := delete id ws]> (records s)) (history s)).

Definition Get (now : time) (workspaceID id : string) (s : Store) : option Memory * Store :=
  match records s !! workspaceID with
  | None => (None, s)
  | Some ws =>
      match ws !! id with
      | None => (None, s)
      | Some rec => if expired rec now then (None, dropLocked workspaceID id ws s) else (Some rec, s)
      end
  end.

Definition History (now : time) (workspaceID id : string) (s : Store) : list Memory * Store :=
  match records s !! workspaceID with
  | None => ([], s)
  | Some ws =>
      match ws !! id with
      | None => ([], s)
      | Some rec =>
          if expired rec now then ([], dropLocked workspaceID id ws s)
          else (default [] (default ∅ (history s !! workspaceID) !! id) ++ [rec], s)
      end
  end.

(** The loop over the ranked candidates, under the lock. *)
Fixpoint Search_loop (now : time) (workspaceID : string) (threshold : option float64)
    (raw : list vector.Result) (s : Store) : list SearchResult * Store :=
  match raw with
  | [] => ([], s)
  | r :: raw =>
      let ws := default ∅ (records s !! workspaceID) in
      match ws !! vector.ID r with
      | None => Search_loop now workspaceID threshold raw s
      | Some rec =>
          if expired rec now then
            Search_loop now workspaceID threshold raw (dropLocked workspaceID (vector.ID r) ws s)
          else if match threshold with Some t => f64_lt (vector.Score r) t | None => false end then
            Search_loop now workspaceID threshold raw s
          else
            let '(out, s) := Search_loop now workspaceID threshold raw s in
            (mkSearchResult (vector.ID r) (vector.Score r) :: out, s)
      end
  end.

Definition search_filter (opts : SearchOptions) : gmap string string :=
  let f := if String.eqb (so_AgentID opts) "" then ∅ else {[ "agent_id" := so_AgentID opts ]} in
  match so_Kind opts with Some k => <["kind" := Kind_String k]> f | None => f end.

Definition Search `{UnicodeTables} (p : embed.Provider) (order : gmap string vector.vecEntry → list (string * vector.vecEntry))
    (now : time) (workspaceID query : string) (opts : SearchOptions) (s : Store)
    : outcome (list SearchResult) * Store :=
  match embed.EmbedOne p query with
  | Fail => (Fail, s)
  | Panic => (Panic, s)
  | Return v =>
      let k := if so_K opts <=? 0 then defaultSearchK else so_K opts in
      let raw := vector.Search order workspaceID v k vector.Cosine (search_filter opts) None (vecStore s) in
      let '(out, s) := Search_loop now workspaceID (so_Threshold opts) raw s in
      (Return out, s)
  end.

(** [List] ranges over the workspace's records, dropping the expired ones on
    the way; [order] is the runtime's range order. *)
Fixpoint List_loop (now : time) (workspaceID : string) (opts : ListOptions) (l : list (string * Memory)) (s : Store)
    : list Memory * Store :=
  match l with
  | [] => ([], s)
  | (id, rec) :: l =>
      if expired rec now then
        List_loop now workspaceID opts l (dropLocked workspaceID id (default ∅ (records s !! workspaceID)) s)
      else if negb (String.eqb (lo_AgentID opts) "") && negb (String.eqb (AgentID rec) (lo_AgentID opts)) then
        List_loop now workspaceID opts l s
      else if match lo_Kind opts with Some k => negb (bool_decide (Kind_ rec = k)) | None => false end then
        List_loop now workspaceID opts l s
      else
        let '(out, s) := List_loop now workspaceID opts l s in (rec :: out, s)
  end.
Definition List_ (order : gmap string Memory → list (string * Memory)) (now : time) (workspaceID : string)
    (opts : ListOptions) (s : Store) : list Memory * Store :=
  match records s !! workspaceID with
  | None => ([], s)
  | Some ws => List_loop now workspaceID opts (order ws) s
  end.

End memory.

Import memory.

Lemma Put_no_panic p g now m ttl s : embed.EmbedOne p (Content m) ≠ Panic → (Put p g now m ttl s).1 ≠ Panic.
Proof.
  intros He. unfold Put. case_match; [done|]. destruct (embed.EmbedOne p (Content m)); [|done|done].
  case_match; [|done]. by repeat case_match.
Qed.
Lemma Search_no_panic `{UnicodeTables} p order now w q opts s : embed.EmbedOne p q ≠ Panic →
  (Search p order now w q opts s).1 ≠ Panic.
Proof.
  intros He. unfold Search. destruct (embed.EmbedOne p q); [|done|done]. by destruct (Search_loop _ _ _ _ _).
Qed.

(** ** One identifier at a time

    What the three maps hold for one (workspace, id). *)

Record slot := mkSlot {
  sl_rec : option Memory;
  sl_hist : list Memory;
  sl_vec : option vector.vecEntry;
}.
Definition view (s : Store) (w id : string) : slot :=
  mkSlot (default ∅ (records s !! w) !! id)
         (default [] (default ∅ (history s !! w) !! id))
         (default ∅ (vecStore s !! w) !! id).

(** [s'] is [s] with the slot of (w, id) replaced. *)
Definition updates (s s' : Store) (w id : string) (sl : slot) : Prop :=
  ∀ w' id', view s' w' id' = if decide (w' = w ∧ id' = id) then sl else view s w' id'.

Lemma nested_insert {A} (M : gmap string (gmap string A)) w id a w' id' :
  default ∅ (<[w := <[id := a]> (default ∅ (M !! w))]> M !! w') !! id' =
  if decide (w' = w ∧ id' = id) then Some a else default ∅ (M !! w') !! id'.
Proof.
  destruct (decide (w' = w)) as [->|Hw].
  - rewrite lookup_insert_eq. cbn [from_option Datatypes.id]. destruct (decide (id' = id)) as [->|Hi].
    + rewrite lookup_insert_eq. by rewrite decide_True.
    + rewrite lookup_insert_ne by done. rewrite decide_False by tauto. done.
  - rewrite lookup_insert_ne by done. by rewrite decide_False by tauto.
Qed.
Lemma nested_delete {A} (M : gmap string (gmap string A)) w id w' id' :
  default ∅ (<[w := delete id (default ∅ (M !! w))]> M !! w') !! id' =
  if decide (w' = w ∧ id' = id) then None else default ∅ (M !! w') !! id'.
Proof.
  destruct (decide (w' = w)) as [->|Hw].
  - rewrite lookup_insert_eq. cbn [from_option Datatypes.id]. destruct (decide (id' = id)) as [->|Hi].
    + rewrite lookup_delete_eq. by rewrite decide_True.
    + rewrite lookup_delete_ne by done. rewrite decide_False by tauto. done.
  - rewrite lookup_insert_ne by done. by rewrite decide_False by tauto.
Qed.

Lemma Delete_lookup w id (vs : vector.Store) w' id' :
  default ∅ ((vector.Delete w id vs).2 !! w') !! id' =
  if decide (w' = w ∧ id' = id) then None else default ∅ (vs !! w') !! id'.
Proof.
  unfold vector.Delete, vector.Store in *. destruct (vs !! w) as [ns|] eqn:E; [destruct (ns !! id) eqn:E2|].
  - rewrite <- nested_delete, E. done.
  - cbn [snd]. case_decide as D; [|done]. destruct D as [-> ->]. by rewrite E.
  - cbn [snd]. case_decide as D; [|done]. destruct D as [-> ->]. by rewrite E.
Qed.

Lemma deleteHistory_lookup w id s w' id' :
  default [] (default ∅ (history (deleteHistoryLocked w id s) !! w') !! id') =
  if decide (w' = w ∧ id' = id) then [] else default [] (default ∅ (history s !! w') !! id').
Proof.
  unfold deleteHistoryLocked. destruct (history s !! w) as [ws|] eqn:E; cbn [history].
  - replace ws with (default ∅ (history s !! w)) by (by rewrite E). rewrite nested_delete. by case_decide.
  - case_decide as D; [|done]. destruct D as [-> ->]. by rewrite E.
Qed.

Lemma dropLocked_updates w id ws s : records s !! w = Some ws →
  updates s (dropLocked w id ws s) w id (mkSlot None [] None).
Proof.
  intros Hw w' id'. unfold view, dropLocked.
  assert (Hr : records (deleteHistoryLocked w id (mkStore (vector.Delete w id (vecStore s)).2
             (<[w := delete id ws]> (records s)) (history s))) = <[w := delete id ws]> (records s))
    by (unfold deleteHistoryLocked; simpl; by case_match).
  assert (Hv : vecStore (deleteHistoryLocked w id (mkStore (vector.Delete w id (vecStore s)).2
             (<[w := delete id ws]> (records s)) (history s))) = (vector.Delete w id (vecStore s)).2)
    by (unfold deleteHistoryLocked; simpl; by case_match).
  rewrite Hr, Hv, deleteHistory_lookup, Delete_lookup. cbn [history].
  replace ws with (default ∅ (records s !! w)) by (by rewrite Hw). rewrite nested_delete. by case_decide.
Qed.

(** ** The invariant *)

Definition indexed (m : Memory) : vector.vecEntry := vector.mkVecEntry (Embedding m) (vec_metadata m) "".

(** [b] is the version that replaced [a]. *)
Definition succeeds (a b : Memory) : Prop :=
  ID b = ID a ∧ WorkspaceID b = WorkspaceID a ∧ CreatedAt b = CreatedAt a ∧
  Version b = wrap64 (Version a + 1).
Definition lineage (l : list Memory) : Prop :=
  ∀ i a b, l !! i = Some a → l !! S i = Some b → succeeds a b.

(** Search index and records agree, an identifier's versions form one
    lineage of bounded length, and nothing is kept for an absent record. *)
Record slot_ok (w id : string) (sl : slot) : Prop := {
  so_index : sl_vec sl = indexed <$> sl_rec sl;
  so_rec : ∀ m, sl_rec sl = Some m → WorkspaceID m = w ∧ ID m = id;
  so_lineage : lineage (sl_hist sl ++ option_list (sl_rec sl));
  so_bound : len (sl_hist sl) ≤ maxMemoryHistoryPerRecord;
  so_absent : sl_rec sl = None → sl_hist sl = [];
}.
Definition mem_inv (s : Store) : Prop := ∀ w id, slot_ok w id (view s w id).

Lemma slot_ok_absent w id : slot_ok w id (mkSlot None [] None).
Proof. split; simpl; try done. Qed.

Lemma updates_inv s s' w id sl : mem_inv s → updates s s' w id sl → slot_ok w id sl → mem_inv s'.
Proof. intros I U Hs w' id'. rewrite U. case_decide as D; [by destruct D as [-> ->]|apply I]. Qed.

Lemma lineage_drop n l : lineage l → lineage (drop n l).
Proof. intros H i a b. rewrite !lookup_drop. rewrite Nat.add_succ_r. apply H. Qed.

Lemma lineage_snoc l a b : lineage (l ++ [a]) → succeeds a b → lineage ((l ++ [a]) ++ [b]).
Proof.
  intros H Hs i x y Hx Hy. apply lookup_app_Some in Hy as [Hy|[Hle Hy]].
  - apply (H i); [|done]. by apply lookup_app_Some in Hx as [Hx|[? Hx]]; [|apply lookup_lt_Some in Hy; lia].
  - apply list_lookup_singleton_Some in Hy as [Hi <-]. rewrite length_app in *. simpl in *.
    assert (i = length l) as -> by lia.
    rewrite lookup_app_l in Hx by (rewrite length_app; simpl; lia).
    rewrite list_lookup_middle in Hx by done. by injection Hx as <-.
Qed.

(** The record a [Put] leaves, given the slot it found. *)
Definition put_rec (sl : slot) (id : string) (v : vec) (now : time) (ttl : duration) (m : Memory) : Memory :=
  mkMemory id (AgentID m) (WorkspaceID m) (Kind_ m) (Content m) v (Metadata m)
    (match sl_rec sl with Some e => CreatedAt e | None => now end)
    (match sl_rec sl with Some e => wrap64 (Version e + 1) | None => 1 end)
    (if 0 <? ttl then Some (time_Add now ttl) else None).
(** The last [maxMemoryHistoryPerRecord] versions before it. *)
Definition put_hist (sl : slot) : list Memory :=
  let h := sl_hist sl ++ option_list (sl_rec sl) in
  drop (length h - Z.to_nat maxMemoryHistoryPerRecord) h.

Lemma Put_ok p gen now m ttl s v id :
  WorkspaceID m ≠ "" → embed.EmbedOne p (Content m) = Return v →
  (if String.eqb (ID m) "" then gen else Some (ID m)) = Some id →
  mem_inv s →
  let sl := view s (WorkspaceID m) id in
  let rec := put_rec sl id v now ttl m in
  (Put p gen now m ttl s).1 = Return id ∧
  updates s (Put p gen now m ttl s).2 (WorkspaceID m) id (mkSlot (Some rec) (put_hist sl) (Some (indexed rec))).
Proof.
  intros Hw He Hid I. cbv zeta. unfold Put. destruct (String.eqb_spec (WorkspaceID m) ""); [done|].
  rewrite He, Hid. set (w := WorkspaceID m) in *. pose proof (I w id) as Iwi.
  unfold put_rec, put_hist, view in *. cbn [sl_rec sl_hist] in *.
  destruct (default ∅ (records s !! w) !! id) as [ex|] eqn:Hex.
  - split; [done|]. intros w' id'. cbn [records history vecStore recordHistoryLocked fst snd].
    unfold view; cbn [records history vecStore]. unfold vector.Upsert, vector.Store in *.
    rewrite !nested_insert. destruct (decide (w' = w ∧ id' = id)) as [[-> ->]|]; [|done].
    f_equal. cbn [from_option Datatypes.id option_list].
    change (option_list (Some ex)) with [ex].
    set (h := default [] (default ∅ (history s !! w) !! id) ++ [ex]).
    unfold maxMemoryHistoryPerRecord, len. destruct (Z.ltb_spec 100 (Z.of_nat (length h))).
    + by replace (Z.to_nat (Z.of_nat (length h) - 100)) with (length h - Z.to_nat 100)%nat by lia.
    + by replace (length h - Z.to_nat 100)%nat with 0%nat by lia.
  - split; [done|]. intros w' id'. cbn [records history vecStore fst snd].
    unfold view; cbn [records history vecStore]. unfold vector.Upsert, vector.Store in *.
    rewrite !nested_insert. destruct (decide (w' = w ∧ id' = id)) as [[-> ->]|]; [|done].
    f_equal. pose proof (so_absent _ _ _ Iwi eq_refl) as Hh. cbn [sl_hist] in Hh. rewrite Hh. done.
Qed.

Lemma put_slot_ok w id sl v now ttl m : w = WorkspaceID m → slot_ok w id sl →
  slot_ok w id (mkSlot (Some (put_rec sl id v now ttl m)) (put_hist sl) (Some (indexed (put_rec sl id v now ttl m)))).
Proof.
  intros -> [Hi Hr Hl Hb Ha]. split; cbn [sl_rec sl_hist sl_vec]; try done.
  - intros m' [= <-]. done.
  - unfold put_hist, put_rec. destruct (sl_rec sl) as [ex|] eqn:E; cbn [option_list] in *.
    + destruct (Hr ex eq_refl) as [H1 H2].
      set (n := (length (sl_hist sl ++ [ex]) - Z.to_nat maxMemoryHistoryPerRecord)%nat).
      assert (Hn : (n ≤ length (sl_hist sl))%nat).
      { subst n. rewrite length_app. unfold maxMemoryHistoryPerRecord. simpl. lia. }
      rewrite drop_app_le by done. apply lineage_snoc; [|by repeat split; simpl; rewrite ?H1, ?H2].
      rewrite <- drop_app_le by done. by apply lineage_drop.
    + rewrite (Ha eq_refl). by intros [|i] a b.
  - unfold put_hist, len. rewrite length_drop, length_app.
    unfold maxMemoryHistoryPerRecord in *. lia.
Qed.

Lemma view_records s w id m : sl_rec (view s w id) = Some m → ∃ ws, records s !! w = Some ws ∧ ws !! id = Some m.
Proof. unfold view; simpl. destruct (records s !! w) as [ws|]; [eauto|done]. Qed.

(** [Put] as a whole. *)
Lemma Put_inv p gen now m ttl s : mem_inv s → mem_inv (Put p gen now m ttl s).2.
Proof.
  intros I. destruct (decide (WorkspaceID m = "")) as [Hw|Hw].
  { unfold Put. rewrite Hw. exact I. }
  destruct (embed.EmbedOne p (Content m)) as [v| |] eqn:He;
    [|unfold Put; rewrite He; destruct (String.eqb (WorkspaceID m) ""); exact I..].
  destruct (if String.eqb (ID m) "" then gen else Some (ID m)) as [id|] eqn:Hid;
    [|unfold Put; rewrite He, Hid; destruct (String.eqb (WorkspaceID m) ""); exact I].
  destruct (Put_ok p gen now m ttl s v id Hw He Hid I) as [_ U].
  eapply updates_inv; [done|exact U|]. apply put_slot_ok; [done|apply I].
Qed.

(** Dropping an expired record. *)
Lemma drop_inv w id ws s : records s !! w = Some ws → mem_inv s → mem_inv (dropLocked w id ws s).
Proof. intros Hw I. eapply updates_inv; [done|by apply dropLocked_updates|apply slot_ok_absent]. Qed.

Lemma dropLocked_records w id ws s : is_Some (records (dropLocked w id ws s) !! w).
Proof. unfold dropLocked, deleteHistoryLocked. case_match; cbn [records]; rewrite lookup_insert_eq; eauto. Qed.
(** [List] drops the expired records it meets, in whatever order. *)
Lemma List_loop_inv now w opts l : ∀ s, mem_inv s → is_Some (records s !! w) → mem_inv (List_loop now w opts l s).2.
Proof.
  induction l as [|[id m] l IH]; intros s I [ws Hw]; cbn [List_loop]; [done|].
  destruct (expired m now).
  { apply IH; [|apply dropLocked_records]. rewrite Hw. by apply drop_inv. }
  assert (HI : mem_inv (List_loop now w opts l s).2) by (apply IH; [done|by rewrite Hw]).
  case_match; [done|]. case_match; [done|]. by destruct (List_loop now w opts l s).
Qed.
Lemma List_inv order now w opts s : mem_inv s → mem_inv (List_ order now w opts s).2.
Proof. intros I. unfold List_. destruct (records s !! w) eqn:E; [|done]. apply List_loop_inv; [done|by rewrite E]. Qed.

(** What a reader at [now] or later can see of a slot. *)
Definition seen (now : time) (sl : slot) : option (Memory * list Memory) :=
  match sl_rec sl with
  | Some m => if expired m now then None else Some (m, sl_hist sl)
  | None => None
  end.
(** Reads change nothing a reader can see from then on. *)
Definition unseen (now : time) (s s' : Store) : Prop :=
  mem_inv s' ∧ ∀ t w id, now ≤ t → seen t (view s' w id) = seen t (view s w id).

Lemma memory_expired_later m t1 t2 : t1 ≤ t2 → expired m t1 = true → expired m t2 = true.
Proof.
  intros Ht. unfold expired, time_After. destruct (ExpiresAt m) as [x|]; [|done].
  destruct (Z.ltb_spec t1 x), (Z.ltb_spec t2 x); simpl; done || lia.
Qed.

Lemma unseen_refl now s : mem_inv s → unseen now s s.
Proof. by split. Qed.
Lemma unseen_trans now s1 s2 s3 : unseen now s1 s2 → unseen now s2 s3 → unseen now s1 s3.
Proof. intros [_ H1] [I H2]. split; [done|]. intros t w id Ht. by rewrite H2, H1. Qed.

Lemma drop_unseen now w id ws m s : records s !! w = Some ws → ws !! id = Some m → expired m now = true →
  mem_inv s → unseen now s (dropLocked w id ws s).
Proof.
  intros Hw Hm Hx I. split; [by apply drop_inv|]. intros t w' id' Ht.
  rewrite (dropLocked_updates w id ws s Hw). case_decide as D; [|done]. destruct D as [-> ->].
  unfold seen at 2, view; cbn [sl_rec]. rewrite Hw. simpl. rewrite Hm. by rewrite (memory_expired_later m now t).
Qed.

Lemma Get_ok now w id s : mem_inv s →
  (Get now w id s).1 = fst <$> seen now (view s w id) ∧ unseen now s (Get now w id s).2.
Proof.
  intros I. unfold Get, seen, view; cbn [sl_rec sl_hist].
  destruct (records s !! w) as [ws|] eqn:Hw; [|split; [done|by apply unseen_refl]]. cbn [from_option Datatypes.id].
  destruct (ws !! id) as [m|] eqn:Hm; [|split; [done|by apply unseen_refl]].
  destruct (expired m now) eqn:Hx; cbn [fst snd]; (split; [done|]); [by eapply drop_unseen|by apply unseen_refl].
Qed.

Lemma History_ok now w id s : mem_inv s →
  (History now w id s).1 = match seen now (view s w id) with Some (m, h) => h ++ [m] | None => [] end ∧
  unseen now s (History now w id s).2.
Proof.
  intros I. unfold History, seen, view; cbn [sl_rec sl_hist].
  destruct (records s !! w) as [ws|] eqn:Hw; [|split; [done|by apply unseen_refl]]. cbn [from_option Datatypes.id].
  destruct (ws !! id) as [m|] eqn:Hm; [|split; [done|by apply unseen_refl]].
  destruct (expired m now) eqn:Hx; cbn [fst snd]; (split; [done|]); [by eapply drop_unseen|by apply unseen_refl].
Qed.

Definition keeps (now : time) (w : string) (th : option float64) (s : Store) (r : vector.Result) : Prop :=
  seen now (view s w (vector.ID r)) ≠ None ∧
  match th with Some t => f64_lt (vector.Score r) t = false | None => True end.
#[export] Instance keeps_dec now w th s r : Decision (keeps now w th s r).
Proof.
  unfold keeps. destruct (seen now (view s w (vector.ID r))); [|right; naive_solver].
  destruct th as [t|]; [|left; done].
  destruct (f64_lt (vector.Score r) t); [right; naive_solver|left; done].
Defined.

Lemma keeps_unseen now w th s s' r : unseen now s s' → keeps now w th s' r ↔ keeps now w th s r.
Proof. intros [_ H]. unfold keeps. by rewrite H. Qed.

Lemma Search_loop_ok now w th raw : ∀ s, mem_inv s →
  (Search_loop now w th raw s).1 =
    (λ r, mkSearchResult (vector.ID r) (vector.Score r)) <$> filter (keeps now w th s) raw ∧
  unseen now s (Search_loop now w th raw s).2.
Proof.
  induction raw as [|r raw IH]; intros s I; cbn [Search_loop]; [split; [done|by apply unseen_refl]|].
  rewrite filter_cons. 
  assert (Hseen : seen now (view s w (vector.ID r)) =
    match default ∅ (records s !! w) !! vector.ID r with
    | Some m => if expired m now then None else Some (m, sl_hist (view s w (vector.ID r))) | None => None end) by done.
  destruct (default ∅ (records s !! w) !! vector.ID r) as [m|] eqn:Hm.
  - destruct (view_records s w (vector.ID r) m Hm) as (ws & Hw & Hwm). rewrite Hw in *. cbn [from_option Datatypes.id].
    destruct (expired m now) eqn:Hx.
    + rewrite decide_False by (unfold keeps; rewrite Hseen; tauto).
      pose proof (drop_unseen now w _ ws m s Hw Hwm Hx I) as U.
      destruct (IH _ (proj1 U)) as [-> U2]. split; [|by eapply unseen_trans].
      f_equal. apply list_filter_iff. intros r'. by apply keeps_unseen.
    + destruct (IH s I) as [Hr U]. destruct th as [t|]; [destruct (f64_lt (vector.Score r) t) eqn:Ht|].
      * rewrite decide_False by (unfold keeps; rewrite Ht; naive_solver). done.
      * rewrite decide_True by (unfold keeps; rewrite Hseen, Ht; done).
        destruct (Search_loop now w (Some t) raw s) as [out s']. cbn [fst snd] in *. by rewrite Hr.
      * rewrite decide_True by (unfold keeps; rewrite Hseen; done).
        destruct (Search_loop now w None raw s) as [out s']. cbn [fst snd] in *. by rewrite Hr.
  - rewrite decide_False by (unfold keeps; rewrite Hseen; tauto). by apply IH.
Qed.

Definition list_match (now : time) (opts : ListOptions) (im : string * Memory) : Prop :=
  expired im.2 now = false ∧ (lo_AgentID opts = "" ∨ AgentID im.2 = lo_AgentID opts) ∧
  (∀ k, lo_Kind opts = Some k → Kind_ im.2 = k).
#[export] Instance list_match_dec now opts im : Decision (list_match now opts im).
Proof.
  unfold list_match. destruct (lo_Kind opts) as [k|].
  - destruct (decide (Kind_ im.2 = k)); [|right; naive_solver].
    destruct (decide (expired im.2 now = false ∧ (lo_AgentID opts = "" ∨ AgentID im.2 = lo_AgentID opts)));
      [left|right]; naive_solver.
  - destruct (decide (expired im.2 now = false ∧ (lo_AgentID opts = "" ∨ AgentID im.2 = lo_AgentID opts)));
      [left|right]; naive_solver.
Defined.

Lemma List_loop_ok now w opts l : ∀ s, mem_inv s → NoDup l.*1 →
  (∀ id m, (id, m) ∈ l → sl_rec (view s w id) = Some m) →
  (List_loop now w opts l s).1 = snd <$> filter (list_match now opts) l ∧
  unseen now s (List_loop now w opts l s).2.
Proof.
  induction l as [|[id m] l IH]; intros s I Hnd Hl; cbn [List_loop]; [split; [done|by apply unseen_refl]|].
  apply NoDup_cons in Hnd as [Hnot Hnd]. pose proof (Hl id m ltac:(by left)) as Hm.
  destruct (view_records _ _ _ _ Hm) as (ws & Hw & Hwm). rewrite Hw. cbn [from_option Datatypes.id].
  assert (Hrest : ∀ id' m', (id', m') ∈ l → sl_rec (view s w id') = Some m') by (intros; apply Hl; by right).
  rewrite filter_cons. destruct (expired m now) eqn:Hx.
  - rewrite decide_False by (unfold list_match; simpl; intros [? _]; congruence).
    pose proof (drop_unseen now w id ws m s Hw Hwm Hx I) as U.
    destruct (IH (dropLocked w id ws s) (proj1 U) Hnd) as [-> U2].
    + intros id' m' Hin. rewrite (dropLocked_updates w id ws s Hw). rewrite decide_False; [by apply Hrest|].
      intros [_ ->]. apply Hnot. by apply (list_elem_of_fmap_2 fst _ (id, m')).
    + split; [done|by eapply unseen_trans].
  - destruct (IH s I Hnd Hrest) as [Hr U].
    destruct (String.eqb_spec (lo_AgentID opts) "") as [Ha|Ha];
      destruct (String.eqb_spec (AgentID m) (lo_AgentID opts)) as [Hb|Hb]; cbn [negb andb];
      try (rewrite decide_False by (unfold list_match; simpl; tauto); done);
      (destruct (lo_Kind opts) as [k|] eqn:Hk; [destruct (decide (Kind_ m = k)) as [He|He]|]);
      try (rewrite bool_decide_false by done; rewrite decide_False by (unfold list_match; simpl; naive_solver); done);
      try rewrite bool_decide_true by done; cbn [negb];
      rewrite decide_True by (unfold list_match; simpl; naive_solver);
      destruct (List_loop now w opts l s) as [out s']; cbn [fst snd] in *; by rewrite Hr.
Qed.

Lemma List_ok order now w opts s : mem_inv s → (∀ m, order m ≡ₚ map_to_list m) →
  (List_ order now w opts s).1 = snd <$> filter (list_match now opts) (order (default ∅ (records s !! w))) ∧
  unseen now s (List_ order now w opts s).2.
Proof.
  intros I Ho. unfold List_. destruct (records s !! w) as [ws|] eqn:Hw; cbn [from_option Datatypes.id].
  - apply List_loop_ok; [done|rewrite Ho; apply NoDup_fst_map_to_list|].
    intros id m Hin. rewrite Ho in Hin. apply elem_of_map_to_list in Hin. unfold view; cbn [sl_rec]. by rewrite Hw.
  - pose proof (Ho ∅) as Hp. rewrite map_to_list_empty in Hp. apply Permutation_nil_r in Hp. rewrite Hp.
    split; [done|by apply unseen_refl].
Qed.

Lemma Kind_String_inj k1 k2 : Kind_String k1 = Kind_String k2 → k1 = k2.
Proof. by destruct k1, k2. Qed.

(** The filter pushed down to the vector store selects by agent and kind. *)
Lemma search_filter_spec opts m :
  search_filter opts ⊆ vec_metadata m ↔
  (so_AgentID opts = "" ∨ AgentID m = so_AgentID opts) ∧ (∀ k, so_Kind opts = Some k → Kind_ m = k).
Proof.
  assert (Ha : vec_metadata m !! "agent_id" = Some (AgentID m)) by (unfold vec_metadata; by rewrite lookup_insert_eq).
  assert (Hk : vec_metadata m !! "kind" = Some (Kind_String (Kind_ m))).
  { unfold vec_metadata. by rewrite lookup_insert_ne, lookup_singleton_eq. }
  unfold search_filter. destruct (String.eqb_spec (so_AgentID opts) "") as [E|E];
    destruct (so_Kind opts) as [k|]; rewrite map_subseteq_spec; (split; [intros H; split|intros [H1 H2]]).
  - by left.
  - intros k' [= <-]. specialize (H "kind" (Kind_String k) ltac:(by rewrite lookup_insert_eq)).
    rewrite Hk in H. injection H. apply Kind_String_inj.
  - intros i x [[<- <-]|[_ Hx]]%lookup_insert_Some; [by rewrite Hk, (H2 k)|by rewrite lookup_empty in Hx].
  - by left.
  - done.
  - intros i x Hx. by rewrite lookup_empty in Hx.
  - right. specialize (H "agent_id" (so_AgentID opts)). rewrite lookup_insert_ne, lookup_singleton_eq, Ha in H by done.
    by specialize (H eq_refl) as [= ->].
  - intros k' [= <-]. specialize (H "kind" (Kind_String k) ltac:(by rewrite lookup_insert_eq)).
    rewrite Hk in H. injection H. apply Kind_String_inj.
  - destruct H1 as [?|H1]; [done|].
    intros i x [[<- <-]|[_ [<- <-]%lookup_singleton_Some]]%lookup_insert_Some; [by rewrite Hk, (H2 k)|by rewrite Ha, H1].
  - right. specialize (H "agent_id" (so_AgentID opts)). rewrite lookup_singleton_eq, Ha in H.
    by specialize (H eq_refl) as [= ->].
  - done.
  - destruct H1 as [?|H1]; [done|]. intros i x [<- <-]%lookup_singleton_Some. by rewrite Ha, H1.
Qed.

(** ** The calls as steps *)

Section steps.
Context `{UnicodeTables} (p : embed.Provider).

Inductive mstep (s : Store) : Store → Prop :=
  | ms_Put gen now m ttl : mstep s (Put p gen now m ttl s).2
  | ms_Get now w id : mstep s (Get now w id s).2
  | ms_Search order now w q opts : mstep s (Search p order now w q opts s).2
  | ms_History now w id : mstep s (History now w id s).2
  | ms_List order now w opts : (∀ m, order m ≡ₚ map_to_list m) → mstep s (List_ order now w opts s).2.

Inductive mreach : Store → Prop :=
  | mr_new : mreach New
  | mr_step s s' : mreach s → mstep s s' → mreach s'.

Lemma Search_unseen order now w q opts s : mem_inv s → unseen now s (Search p order now w q opts s).2.
Proof using Type.
  intros I. unfold Search. destruct (embed.EmbedOne p q) as [v| |]; [|by apply unseen_refl..].
  match goal with |- context [Search_loop _ _ _ ?raw s] => pose proof (Search_loop_ok now w (so_Threshold opts) raw s I) as [_ U] end.
  by destruct (Search_loop _ _ _ _ s).
Qed.

Lemma mreach_inv s : mreach s → mem_inv s.
Proof using Type.
  induction 1 as [|s s' _ I Hs]; [intros w id; apply slot_ok_absent|].
  destruct Hs; [by apply Put_inv|by apply Get_ok|by eapply Search_unseen|by apply History_ok|by apply List_ok].
Qed.
End steps.

(** C20: every state the memory store reaches is consistent: the search index
    holds exactly the current records with their embeddings, the versions
    kept for an identifier form one lineage (same identity and creation time,
    versions one apart) ending in the current record, at most 100 old ones,
    and nothing is kept for an identifier without a record. *)
Theorem memory_invariant `{UnicodeTables} p s : mreach p s → mem_inv s.
Proof. apply mreach_inv. Qed.


(** The vector search behind [Search]. *)
Lemma vec_candidate s w v opts r : mem_inv s →
  candidate (vecStore s) w v vector.Cosine (search_filter opts) r ↔
  ∃ m, sl_rec (view s w (vector.ID r)) = Some m ∧ len (Embedding m) = len v ∧
       embed.Cosine v (Embedding m) = vector.Score r ∧ not_nan (vector.Score r) ∧
       (so_AgentID opts = "" ∨ AgentID m = so_AgentID opts) ∧
       (∀ k, so_Kind opts = Some k → Kind_ m = k).
Proof.
  intros I. unfold candidate. pose proof (so_index _ _ _ (I w (vector.ID r))) as Hi.
  change (default ∅ (vecStore s !! w) !! vector.ID r) with (sl_vec (view s w (vector.ID r))).
  rewrite Hi. destruct (sl_rec (view s w (vector.ID r))) as [m|] eqn:Hm; cbn [fmap option_fmap option_map];
    [|split; [by intros (? & ? & _)|by intros (? & ? & _)]].
  assert (HF : search_filter opts ⊆ vec_metadata m ↔
    (so_AgentID opts = "" ∨ AgentID m = so_AgentID opts) ∧ (∀ k, so_Kind opts = Some k → Kind_ m = k)).
  { by apply search_filter_spec. }
  assert (HS : ∀ x, vector.rawScore v (Embedding m) vector.Cosine = Some x ↔
                    embed.Cosine v (Embedding m) = x ∧ not_nan x).
  { intros x. unfold vector.rawScore, not_nan. destruct (IsNaN (embed.Cosine v (Embedding m))) eqn:E.
    - split; [done|]. intros [<- ?]. congruence.
    - split; [by intros [= <-]|by intros [-> _]]. }
  split.
  - intros (e & [= <-] & Hf & Hl & Hs). exists m. apply HF in Hf as [? ?]. apply HS in Hs as [? ?]. done.
  - intros (m' & [= <-] & Hl & Hs & Hn & Ha & Hk). exists (indexed m). split_and!; [done|by apply HF|done|by apply HS].
Qed.

(** C25: a memory search returns live records of its workspace only, each once,
    of the agent and kind asked for, with their cosine similarity to the query
    and at or above the threshold, most similar first, at most [k] of them
    (10 when [k] is not positive); when the workspace holds no more records
    than that, every matching live record is returned. *)
Theorem memory_search_spec `{UnicodeTables} p order now w q opts s v :
  mreach p s → embed.EmbedOne p q = Return v → (∀ m, order m ≡ₚ map_to_list m) →
  let k := if so_K opts <=? 0 then 10 else so_K opts in
  let ok (sr : SearchResult) := ∃ m, (sl_rec (view s w (sr_ID sr)) = Some m ∧ expired m now = false) ∧
      (so_AgentID opts = "" ∨ AgentID m = so_AgentID opts) ∧ (∀ kd, so_Kind opts = Some kd → Kind_ m = kd) ∧
      len (Embedding m) = len v ∧ embed.Cosine v (Embedding m) = sr_Score sr ∧ not_nan (sr_Score sr) ∧
      (∀ t, so_Threshold opts = Some t → f64_lt (sr_Score sr) t = false) in
  ∃ out, (Search p order now w q opts s).1 = Return out ∧
    (∀ sr, sr ∈ out → ok sr) ∧ NoDup (sr_ID <$> out) ∧ len out ≤ k ∧
    StronglySorted (λ a b, f64_lt (sr_Score a) (sr_Score b) = false) out ∧
    (Z.of_nat (size (default ∅ (vecStore s !! w))) ≤ k → ∀ sr, ok sr → sr ∈ out).
Proof.
  intros HR He Ho. cbv zeta. pose proof (mreach_inv p s HR) as I. unfold Search. rewrite He.
  change (if so_K opts <=? 0 then defaultSearchK else so_K opts) with (if so_K opts <=? 0 then 10 else so_K opts).
  set (k := if so_K opts <=? 0 then 10 else so_K opts).
  assert (Hk0 : 0 < k) by (subst k; destruct (Z.leb_spec (so_K opts) 0); lia).
  destruct (ranked_search order Ho w v k vector.Cosine (search_filter opts) (vecStore s) Hk0)
    as (Hlen & Hnd & Hsort & Hsound & Hcomplete).
  set (raw := vector.Search _ _ _ _ _ _ _ _) in *.
  destruct (Search_loop_ok now w (so_Threshold opts) raw s I) as [Hout _].
  destruct (Search_loop now w (so_Threshold opts) raw s) as [out s']. cbn [fst snd] in *. subst out.
  eexists. split; [reflexivity|].
  set (f := λ r, mkSearchResult (vector.ID r) (vector.Score r)).
  set (l := filter (keeps now w (so_Threshold opts) s) raw).
  assert (Hkeep : ∀ r m, sl_rec (view s w (vector.ID r)) = Some m → keeps now w (so_Threshold opts) s r ↔
    expired m now = false ∧ ∀ t, so_Threshold opts = Some t → f64_lt (vector.Score r) t = false).
  { intros r m Hm. unfold keeps, seen. rewrite Hm. destruct (expired m now), (so_Threshold opts); naive_solver. }
  split_and!.
  - intros sr (r & -> & [Hkr Hr]%list_elem_of_filter)%list_elem_of_fmap.
    apply Hsound, vec_candidate in Hr as (m & Hm & A1 & A2 & A3 & A4 & A5); [|done].
    destruct (proj1 (Hkeep r m Hm) Hkr) as [B1 B2]. exists m. split_and!; done.
  - rewrite <- list_fmap_compose. change (NoDup (vector.ID <$> l)). subst l.
    eapply sublist_NoDup; [exact Hnd|]. apply fmap_sublist, sublist_filter.
  - unfold len. rewrite length_fmap. pose proof (filter_length_le (keeps now w (so_Threshold opts) s) raw) as HL.
    unfold len in Hlen. fold l in HL. lia.
  - eapply (StronglySorted_fmap f); [|apply filter_sorted; exact Hsort].
    intros a b Hab. by apply result_worse_score.
  - intros Hsz [id sc] (m & [Hm Hx] & A1 & A2 & A3 & A4 & A5 & Hth). cbn [sr_ID sr_Score] in *.
    apply list_elem_of_fmap. exists (vector.mkResult id sc). split; [done|]. apply list_elem_of_filter.
    split; [by apply (Hkeep _ m)|]. apply Hcomplete; [lia|]. apply vec_candidate; [done|]. by exists m.
Qed.

(** A read makes a difference to a later write.  When a record has
    expired, a [Put] under its identifier brings its lineage back: the new
    record continues the version numbers and the creation time of the expired
    one, and its history shows it; if any read happened to drop the expired
    record first, the same [Put] starts afresh at version 1. *)
Theorem expired_put_resurrects `{UnicodeTables} p gen now m ttl s v id e :
  mreach p s → WorkspaceID m ≠ "" → embed.EmbedOne p (Content m) = Return v →
  (if String.eqb (ID m) "" then gen else Some (ID m)) = Some id →
  sl_rec (view s (WorkspaceID m) id) = Some e → expired e now = true →
  let w := WorkspaceID m in
  let direct := sl_rec (view (Put p gen now m ttl s).2 w id) in
  let after_read := sl_rec (view (Put p gen now m ttl (Get now w id s).2).2 w id) in
  (Get now w id s).1 = None ∧
  Version <$> direct = Some (wrap64 (Version e + 1)) ∧ CreatedAt <$> direct = Some (CreatedAt e) ∧
  last (sl_hist (view (Put p gen now m ttl s).2 w id)) = Some e ∧
  Version <$> after_read = Some 1 ∧ CreatedAt <$> after_read = Some now ∧
  sl_hist (view (Put p gen now m ttl (Get now w id s).2).2 w id) = [].
Proof.
  intros HR Hw He Hid Hrec Hx. cbv zeta. pose proof (mreach_inv p s HR) as I.
  destruct (view_records _ _ _ _ Hrec) as (ws & Hws & Hm).
  assert (HG : Get now (WorkspaceID m) id s = (None, dropLocked (WorkspaceID m) id ws s)).
  { unfold Get. by rewrite Hws, Hm, Hx. }
  rewrite HG. cbn [fst snd].
  pose proof (drop_inv _ _ _ _ Hws I : mem_inv (dropLocked (WorkspaceID m) id ws s)) as I1.
  destruct (Put_ok p gen now m ttl s v id Hw He Hid I) as [_ U1].
  destruct (Put_ok p gen now m ttl _ v id Hw He Hid I1) as [_ U2].
  rewrite !U1, !U2, !decide_True by done. cbn [sl_rec sl_hist].
  rewrite !(dropLocked_updates _ _ _ _ Hws), !decide_True by done.
  unfold put_rec, put_hist. cbn [sl_rec sl_hist]. rewrite !Hrec. split_and!; try done.
  change (option_list (Some e)) with [e].
  rewrite drop_app_le by (rewrite length_app; unfold maxMemoryHistoryPerRecord; simpl; lia). by rewrite last_snoc.
Qed.

(** *** A run *)

Definition mp : embed.Provider := embed.mkProvider (λ s, Some [f64_of_Z (slen s); f64_one]) None.
Definition note (id content : string) : Memory :=
  mkMemory id "a1" "w" LongTerm content [] ∅ 0 0 None.
Definition ms1 : Store := (Put mp None 5 (note "n" "first") 10 New).2.
Definition ms2 : Store := (Put mp None 7 (note "n" "second") 0 ms1).2.
Lemma ms1_reach : mreach (H := ascii_only) mp ms1.
Proof. eapply mr_step; [apply mr_new|]. apply (ms_Put mp New None 5 (note "n" "first") 10). Qed.
Lemma ms2_reach : mreach (H := ascii_only) mp ms2.
Proof. eapply mr_step; [apply ms1_reach|]. apply (ms_Put mp ms1 None 7 (note "n" "second") 0). Qed.

Lemma memory_invariant_witness : mem_inv ms2 ∧ (Version <$> (History 8 "w" "n" ms2).1) = [1; 2].
Proof. split; [apply (memory_invariant (H := ascii_only) mp ms2 ms2_reach)|vm_compute; reflexivity]. Defined.


Lemma memory_search_spec_witness :
  ∃ out, (Search (H := ascii_only) mp map_to_list 8 "w" "query" (mkSearchOptions "" None 3 None) ms2).1 = Return out ∧
    len out ≤ 3 ∧ NoDup (sr_ID <$> out).
Proof.
  destruct (memory_search_spec (H := ascii_only) mp map_to_list 8 "w" "query" (mkSearchOptions "" None 3 None) ms2 _
    ms2_reach eq_refl (λ m, reflexivity _)) as (out & H1 & _ & H2 & H3 & _).
  exists out. split; [exact H1|split; [exact H3|exact H2]].
Defined.

Lemma expired_put_resurrects_witness :
  (Get 20 "w" "n" ms1).1 = None ∧
  (Version <$> sl_rec (view (Put mp None 20 (note "n" "later") 0 ms1).2 "w" "n")) = Some 2 ∧
  (Version <$> sl_rec (view (Put mp None 20 (note "n" "later") 0 (Get 20 "w" "n" ms1).2).2 "w" "n")) = Some 1.
Proof.
  set (e := put_rec (mkSlot None [] None) "n" [f64_of_Z 5; f64_one] 5 10 (note "n" "first")).
  assert (He : sl_rec (view ms1 "w" "n") = Some e) by (vm_compute; reflexivity).
  assert (Hx : expired e 20 = true) by reflexivity.
  destruct (expired_put_resurrects (H := ascii_only) mp None 20 (note "n" "later") 0 ms1 _ "n" e ms1_reach
    ltac:(discriminate) eq_refl eq_refl He Hx) as (H1 & H2 & _ & _ & H3 & _).
  split; [exact H1|]. split; [exact (eq_trans H2 eq_refl)|exact H3].
Defined.
