(* ===== verification/Consolidate.v ===== *)
(** * Memory consolidation: the deduplication pass and the summary
    (internal/consolidate/consolidate.go)

    The parts of [Consolidate] that compute: which memories feed the summary,
    the prompt, and the record the summary is stored as.  The calls of the
    memory store and of the completion provider are in Calls.v. *)

From S2P Require Import Prelude.
From S2P Require Import GoStd.
From S2P Require Import Floats.
From S2P Require Import Similarity.
From S2P Require Import Vector.
From S2P Require Import Memory.
From Stdlib Require Import SpecFloat.

Open Scope Z_scope.

Module consolidate.
Import memory.

Definition DefaultDedupThreshold : float64 := f64_lit 95 100.
Definition summarySystemPrompt : string :=
  "You are consolidating an AI agent's accumulated memories into a single, concise long-term summary. Read the numbered memory contents below and produce one coherent summary that preserves the important facts and drops redundancy.".

Record Result := mkResult { SummaryID : string; SourceCount : Z; DedupedCount : Z }.

(** The [less] function of the sort: newest first, ties by ID. *)
Definition newer (a b : Memory) : bool :=
  if negb (CreatedAt a =? CreatedAt b) then time_After (CreatedAt a) (CreatedAt b)
  else String.ltb (ID a) (ID b).

Definition duplicate (threshold : float64) (m rep : Memory) : bool :=
  let score := embed.Cosine (Embedding m) (Embedding rep) in
  negb (IsNaN score) && f64_le threshold score.

Fixpoint dedupe_loop (threshold : float64) (sorted reps : list Memory) : list Memory :=
  match sorted with
  | [] => reps
  | m :: sorted =>
      if existsb (duplicate threshold m) reps then dedupe_loop threshold sorted reps
      else dedupe_loop threshold sorted (reps ++ [m])
  end.
Definition dedupe (ms : list Memory) (threshold : float64) : list Memory :=
  dedupe_loop threshold (sort_Slice newer ms) [].

(** [fmt.Sprintf] of a percent-d, a dot and a percent-s, numbered from 1. *)
Fixpoint numbered (i : Z) (reps : list Memory) : list string :=
  match reps with
  | [] => []
  | m :: reps => (FormatInt i +:+ ". " +:+ Content m) :: numbered (i + 1) reps
  end.
Fixpoint Join (l : list string) (sep : string) : string :=
  match l with
  | [] => ""
  | [s] => s
  | s :: l => s +:+ sep +:+ Join l sep
  end.
Definition userPrompt (reps : list Memory) : string := "Memories:" +:+ String "010" (Join (numbered 1 reps) (String "010" "")).

(** What [Put] is given. *)
Definition summaryMemory (workspaceID agentID summary : string) (kind : Kind) (sourceCount dedupedCount : Z) : Memory :=
  mkMemory "" agentID workspaceID LongTerm summary []
    (<["consolidated_from_kind" := Kind_String kind]>
      (<["source_count" := Itoa sourceCount]> {[ "deduped_count" := Itoa dedupedCount ]})) 0 0 None.

Definition effective_threshold (dedupThreshold : float64) : float64 :=
  if f64_le dedupThreshold f64_zero then DefaultDedupThreshold else dedupThreshold.

End consolidate.

Import memory consolidate.

(** ** The order of the pass *)

Lemma newer_asym a b : newer a b = true → newer b a = false.
Proof.
  unfold newer, time_After. rewrite (Z.eqb_sym (CreatedAt b)).
  destruct (Z.eqb_spec (CreatedAt a) (CreatedAt b)); cbn [negb]; [apply ltb_asym|].
  intros H%Z.ltb_lt. apply Z.ltb_ge. lia.
Qed.
Lemma newer_negtrans a b c : newer b a = false → newer c b = false → newer c a = false.
Proof.
  unfold newer, time_After.
  destruct (Z.eqb_spec (CreatedAt b) (CreatedAt a)) as [E1|E1], (Z.eqb_spec (CreatedAt c) (CreatedAt b)) as [E2|E2],
    (Z.eqb_spec (CreatedAt c) (CreatedAt a)) as [E3|E3]; cbn [negb]; rewrite ?Z.ltb_ge; intros; try lia.
  by eapply ltb_negtrans.
Qed.

(** [b] does not come before [a]: it is no newer. *)
Definition no_newer (a b : Memory) : Prop := slice_le newer a b.
Lemma sorted_newest ms : StronglySorted no_newer (sort_Slice newer ms).
Proof.
  refine (sort_Slice_sorted newer newer_asym (λ _, True) ms _ _).
  - intros x y z _ _ _. apply newer_negtrans.
  - by apply Forall_true.
Qed.
Lemma no_newer_created a b : no_newer a b → CreatedAt b ≤ CreatedAt a.
Proof.
  unfold no_newer, slice_le, newer, time_After. destruct (Z.eqb_spec (CreatedAt b) (CreatedAt a)); cbn [negb]; [lia|].
  intros ?%Z.ltb_ge. lia.
Qed.

Lemma sublist_StronglySorted {A} (R : A → A → Prop) (l k : list A) :
  l `sublist_of` k → StronglySorted R k → StronglySorted R l.
Proof.
  induction 1 as [|x l k H1 IH|x l k H1 IH]; intros HS; [done| |]; apply StronglySorted_inv in HS as [HS Hx].
  - constructor; [by apply IH|]. rewrite Forall_forall in *. intros y Hy. apply Hx. by eapply elem_of_sublist.
  - by apply IH.
Qed.

(** ** What the loop keeps *)

(** [m] is represented: it is kept, or a kept one no older makes it redundant. *)
Definition represented (threshold : float64) (reps : list Memory) (m : Memory) : Prop :=
  m ∈ reps ∨ ∃ rep, rep ∈ reps ∧ no_newer rep m ∧ duplicate threshold m rep = true.

Record pass_ok (threshold : float64) (seen reps : list Memory) : Prop := {
  po_sub : reps `sublist_of` seen;
  po_apart : ∀ i j a b, (i < j)%nat → reps !! i = Some a → reps !! j = Some b → duplicate threshold b a = false;
  po_rep : ∀ m, m ∈ seen → represented threshold reps m;
}.

Lemma pass_step threshold seen reps m :
  pass_ok threshold seen reps → Forall (λ a, no_newer a m) seen →
  pass_ok threshold (seen ++ [m]) (if existsb (duplicate threshold m) reps then reps else reps ++ [m]).
Proof.
  intros [HS HA HR] Hm. rewrite Forall_forall in Hm. destruct (existsb _ reps) eqn:E.
  - apply existsb_exists in E as (rep & Hin%list_elem_of_In & Hd). split.
    + by apply sublist_inserts_r.
    + done.
    + intros x [Hx| ->%list_elem_of_singleton]%elem_of_app; [by apply HR|]. right. exists rep. split_and!; [done| |done].
      apply Hm. by eapply elem_of_sublist.
  - assert (Hno : ∀ a, a ∈ reps → duplicate threshold m a = false).
    { intros a Ha. destruct (duplicate threshold m a) eqn:Ed; [|done].
      assert (existsb (duplicate threshold m) reps = true); [|congruence].
      apply existsb_exists. exists a. split; [by apply list_elem_of_In|done]. }
    split.
    + by apply sublist_app.
    + intros i j a b Hij Ha Hb. apply lookup_app_Some in Hb as [Hb|[Hle Hb]].
      * rewrite lookup_app_l in Ha by (apply lookup_lt_Some in Hb; lia). by eapply HA.
      * apply list_lookup_singleton_Some in Hb as [Hj <-].
        rewrite lookup_app_l in Ha by lia. apply Hno. by eapply list_elem_of_lookup_2.
    + intros x [Hx| ->%list_elem_of_singleton]%elem_of_app.
      * destruct (HR x Hx) as [?|(rep & ? & ? & ?)]; [left; apply elem_of_app; by left|].
        right. exists rep. split_and!; [apply elem_of_app; by left|done|done].
      * left. apply elem_of_app. right. by apply list_elem_of_singleton.
Qed.

Lemma dedupe_loop_ok threshold l : ∀ seen reps,
  StronglySorted no_newer (seen ++ l) → pass_ok threshold seen reps →
  pass_ok threshold (seen ++ l) (dedupe_loop threshold l reps).
Proof.
  induction l as [|m l IH]; intros seen reps HS HP; cbn [dedupe_loop]; [by rewrite app_nil_r|].
  assert (Hm : Forall (λ a, no_newer a m) seen).
  { apply Forall_forall. intros a Ha. eapply StronglySorted_app_1_elem_of; [exact HS|done|by left]. }
  replace (seen ++ m :: l) with ((seen ++ [m]) ++ l) in * by (by rewrite <- (assoc_L (++))).
  pose proof (pass_step threshold seen reps m HP Hm) as HP'.
  destruct (existsb _ reps); by apply IH.
Qed.

