(* ===== verification/Metrics.v ===== *)
(** * Process-wide counters (internal/observability/metrics.go)

    The atomic counters, the per-tool call counts of the MCP server and the
    latency accumulators of the command families; and [record]'s
    compare-and-swap loop as the steps of concurrent connections. *)

From S2P Require Import Prelude.
From S2P Require Import GoStd.

Open Scope Z_scope.

Module metrics.

(** ** The counters *)

(** One constructor per [atomic.Int64] field. *)
Inductive counter :=
  | connectionsTotal | connectionsActive | connectionsRejected | commandsTotal | errorsTotal
  | semanticCacheHits | semanticCacheMisses | promptCacheHits | promptCacheMisses
  | toolCacheHits | toolCacheMisses | vectorSearches | memoryReads | memoryWrites | evictionsTotal
  | consolidationsTotal | memoriesDedupedTotal
  | graphExtractionsTotal | entitiesExtractedTotal | relationsExtractedTotal
  | mcpCallsTotal
  | embeddingCallsTotal | embeddingCallsErrors | embeddingCallsInFlight
  | completionCallsTotal | completionCallsErrors | completionCallsInFlight.
#[export] Instance counter_eq_dec : EqDecision counter.
Proof. solve_decision. Defined.

Record latencyAccumulator := mkAcc { count : Z; sumNanos : Z; maxNanos : Z }.

Record Metrics := mkMetrics {
  counters : counter → Z;
  mcpCallsByTool : gmap string Z;
  latency : gmap string latencyAccumulator;
}.

Definition NewMetrics : Metrics := mkMetrics (λ _, 0) ∅ ∅.

(** [m.c.Add(n)] *)
Definition Add (c : counter) (n : Z) (m : Metrics) : Metrics :=
  mkMetrics (λ c', if decide (c' = c) then wrap64 (counters m c + n) else counters m c')
            (mcpCallsByTool m) (latency m).

Definition ConnectionOpened (m : Metrics) : Metrics := Add connectionsActive 1 (Add connectionsTotal 1 m).
Definition ConnectionClosed : Metrics → Metrics := Add connectionsActive (-1).
Definition ConnectionRejected : Metrics → Metrics := Add connectionsRejected 1.
Definition CommandExecuted : Metrics → Metrics := Add commandsTotal 1.
Definition ErrorReturned : Metrics → Metrics := Add errorsTotal 1.
Definition SemanticCacheHit : Metrics → Metrics := Add semanticCacheHits 1.
Definition SemanticCacheMiss : Metrics → Metrics := Add semanticCacheMisses 1.
Definition PromptCacheHit : Metrics → Metrics := Add promptCacheHits 1.
Definition PromptCacheMiss : Metrics → Metrics := Add promptCacheMisses 1.
Definition ToolCacheHit : Metrics → Metrics := Add toolCacheHits 1.
Definition ToolCacheMiss : Metrics → Metrics := Add toolCacheMisses 1.
Definition VectorSearchPerformed : Metrics → Metrics := Add vectorSearches 1.
Definition MemoryRead : Metrics → Metrics := Add memoryReads 1.
Definition MemoryWrite : Metrics → Metrics := Add memoryWrites 1.
Definition ConsolidationPerformed : Metrics → Metrics := Add consolidationsTotal 1.
Definition MemoriesDeduped (n : Z) : Metrics → Metrics := Add memoriesDedupedTotal n.
Definition GraphExtractionPerformed : Metrics → Metrics := Add graphExtractionsTotal 1.
Definition EntitiesExtracted (n : Z) : Metrics → Metrics := Add entitiesExtractedTotal n.
Definition RelationsExtracted (n : Z) : Metrics → Metrics := Add relationsExtractedTotal n.
Definition KeyEvicted : Metrics → Metrics := Add evictionsTotal 1.

Definition MCPCallRecorded (tool : string) (m : Metrics) : Metrics :=
  let m := Add mcpCallsTotal 1 m in
  mkMetrics (counters m) (<[tool := wrap64 (default 0 (mcpCallsByTool m !! tool) + 1)]> (mcpCallsByTool m)) (latency m).

Definition EmbeddingCallStarted (m : Metrics) : Metrics :=
  Add embeddingCallsInFlight 1 (Add embeddingCallsTotal 1 m).
(** [failed] stands for [err != nil]. *)
Definition EmbeddingCallFinished (failed : bool) (m : Metrics) : Metrics :=
  let m := Add embeddingCallsInFlight (-1) m in
  if failed then Add embeddingCallsErrors 1 m else m.
Definition CompletionCallStarted (m : Metrics) : Metrics :=
  Add completionCallsInFlight 1 (Add completionCallsTotal 1 m).
Definition CompletionCallFinished (failed : bool) (m : Metrics) : Metrics :=
  let m := Add completionCallsInFlight (-1) m in
  if failed then Add completionCallsErrors 1 m else m.

(** ** Latency *)

(** [record] run alone: the compare-and-swap succeeds at once. *)
Definition record (d : duration) (l : latencyAccumulator) : latencyAccumulator :=
  mkAcc (wrap64 (count l + 1)) (wrap64 (sumNanos l + d)) (if d <=? maxNanos l then maxNanos l else d).

Definition newAcc : latencyAccumulator := mkAcc 0 0 0.

Definition RecordCommandLatency (family : string) (d : duration) (m : Metrics) : Metrics :=
  let acc := default newAcc (latency m !! family) in
  mkMetrics (counters m) (mcpCallsByTool m) (<[family := record d acc]> (latency m)).

(** Where a goroutine is in [record(d)]; [Loaded] is before the
    compare-and-swap. *)
Inductive recorder :=
  | Starting (d : duration)
  | Counted (d : duration)
  | Summed (d : duration)
  | Loaded (d : duration) (cur : Z)
  | Recorded (d : duration).
Definition duration_of (r : recorder) : duration :=
  match r with Starting d | Counted d | Summed d | Loaded d _ | Recorded d => d end.

(** One atomic operation of one goroutine. *)
Definition record_step (r : recorder) (l : latencyAccumulator) : recorder * latencyAccumulator :=
  match r with
  | Starting d => (Counted d, mkAcc (wrap64 (count l + 1)) (sumNanos l) (maxNanos l))
  | Counted d => (Summed d, mkAcc (count l) (wrap64 (sumNanos l + d)) (maxNanos l))
  | Summed d => if d <=? maxNanos l then (Recorded d, l) else (Loaded d (maxNanos l), l)
  | Loaded d cur =>
      if maxNanos l =? cur then (Recorded d, mkAcc (count l) (sumNanos l) d) else (Summed d, l)
  | Recorded d => (Recorded d, l)
  end.

(** ** Snapshots *)

Record LatencyStats := mkLatencyStats { Family : string; Count : Z; AvgNanos : Z; MaxNanos : Z }.
Record CacheStats := mkCacheStats { Hits : Z; Misses : Z }.

Definition HitRate (c : CacheStats) : float64 :=
  let total := wrap64 (Hits c + Misses c) in
  if total =? 0 then f64_zero else f64_div (f64_of_Z (Hits c)) (f64_of_Z total).

Record Snapshot_ := mkSnapshot {
  ConnectionsTotal : Z; ConnectionsActive : Z; ConnectionsRejected : Z; CommandsTotal : Z; ErrorsTotal : Z;
  SemanticCache : CacheStats; PromptCache : CacheStats; ToolCache : CacheStats;
  VectorSearchesTotal : Z; MemoryReadsTotal : Z; MemoryWritesTotal : Z; EvictionsTotal : Z;
  ConsolidationsTotal : Z; MemoriesDedupedTotal : Z;
  GraphExtractionsTotal : Z; EntitiesExtractedTotal : Z; RelationsExtractedTotal : Z;
  MCPCallsTotal : Z; MCPCallsByTool : gmap string Z;
  EmbeddingCallsTotal : Z; EmbeddingCallsErrors : Z; EmbeddingCallsInFlight : Z;
  CompletionCallsTotal : Z; CompletionCallsErrors : Z; CompletionCallsInFlight : Z;
  Latency : list LatencyStats;
}.

Definition latencyStats (family : string) (acc : latencyAccumulator) : LatencyStats :=
  mkLatencyStats family (count acc) (if 0 <? count acc then Z.quot (sumNanos acc) (count acc) else 0) (maxNanos acc).

(** [order] is the runtime's range order over the families. *)
Definition Snapshot (order : gmap string latencyAccumulator → list (string * latencyAccumulator)) (m : Metrics) : Snapshot_ :=
  let c := counters m in
  mkSnapshot
    (c connectionsTotal) (c connectionsActive) (c connectionsRejected) (c commandsTotal) (c errorsTotal)
    (mkCacheStats (c semanticCacheHits) (c semanticCacheMisses))
    (mkCacheStats (c promptCacheHits) (c promptCacheMisses))
    (mkCacheStats (c toolCacheHits) (c toolCacheMisses))
    (c vectorSearches) (c memoryReads) (c memoryWrites) (c evictionsTotal)
    (c consolidationsTotal) (c memoriesDedupedTotal)
    (c graphExtractionsTotal) (c entitiesExtractedTotal) (c relationsExtractedTotal)
    (c mcpCallsTotal) (mcpCallsByTool m)
    (c embeddingCallsTotal) (c embeddingCallsErrors) (c embeddingCallsInFlight)
    (c completionCallsTotal) (c completionCallsErrors) (c completionCallsInFlight)
    ((λ '(family, acc), latencyStats family acc) <$> order (latency m)).

End metrics.

Import metrics.

(** ** Concurrent recorders

    Any goroutine may take the next atomic step. *)

Definition system : Type := latencyAccumulator * list recorder.
Inductive sys_step : system → system → Prop :=
  | step_any l rs i r r' l' :
      rs !! i = Some r → record_step r l = (r', l') → sys_step (l, rs) (l', <[i := r']> rs).

Definition b2z (b : bool) : Z := if b then 1 else 0.
Definition counted (r : recorder) : Z := match r with Starting _ => 0 | _ => 1 end.
Definition summed (r : recorder) : Z :=
  match r with Starting _ | Counted _ => 0 | _ => duration_of r end.

(** What holds between any two steps, for recorders started on [l0]. *)
Record rec_inv (l0 : latencyAccumulator) (l : latencyAccumulator) (rs : list recorder) : Prop := {
  ri_count : count l = wrap64 (count l0 + sum_map counted rs);
  ri_sum : sumNanos l = wrap64 (sumNanos l0 + sum_map summed rs);
  ri_low : maxNanos l0 ≤ maxNanos l;
  ri_from : maxNanos l = maxNanos l0 ∨ ∃ r, r ∈ rs ∧ maxNanos l = duration_of r;
  ri_done : ∀ r, r ∈ rs → match r with
              | Recorded d => d ≤ maxNanos l
              | Loaded d cur => cur ≤ maxNanos l ∧ cur < d
              | _ => True
              end;
}.

Lemma wrap64_add a b : wrap64 (wrap64 a + b) = wrap64 (a + b).
Proof.
  unfold wrap64. f_equal.
  replace ((a + 2 ^ 63) `mod` 2 ^ 64 - 2 ^ 63 + b + 2 ^ 63) with ((a + 2 ^ 63) `mod` 2 ^ 64 + b) by lia.
  rewrite Zplus_mod_idemp_l. f_equal. lia.
Qed.

Lemma record_step_duration r l : duration_of (record_step r l).1 = duration_of r.
Proof. destruct r; simpl; try done; by case_match. Qed.

Lemma step_inv l0 l rs l' rs' : rec_inv l0 l rs → sys_step (l, rs) (l', rs') → rec_inv l0 l' rs'.
Proof.
  intros [HC HS HL HF HD] Hstep. inversion Hstep as [? ? i r r' ? Hi Hr]; subst; clear Hstep.
  pose proof (HD r (list_elem_of_lookup_2 _ _ _ Hi)) as Hr0.
  assert (Hmono : maxNanos l ≤ maxNanos l').
  { destruct r; simpl in Hr; repeat case_match; simplify_eq/=; lia. }
  split.
  - rewrite (sum_map_insert counted rs i r r' Hi). destruct r; simpl in Hr; repeat case_match; simplify_eq/=; rewrite ?HC, ?wrap64_add; f_equal; lia.
  - rewrite (sum_map_insert summed rs i r r' Hi). destruct r; simpl in Hr; repeat case_match; simplify_eq/=; rewrite ?HS, ?wrap64_add; f_equal; lia.
  - lia.
  - assert (Hd : duration_of r' = duration_of r) by (by rewrite <- (record_step_duration r l), Hr).
    assert (Hold : maxNanos l' = maxNanos l ∨ maxNanos l' = duration_of r).
    { clear Hd. destruct r; simpl in Hr; repeat case_match; simplify_eq/=; auto. }
    assert (Hin : ∀ x, x ∈ rs → ∃ y, y ∈ <[i:=r']> rs ∧ duration_of y = duration_of x).
    { intros x (j & Hj)%list_elem_of_lookup. destruct (decide (j = i)) as [->|Hne].
      - exists r'. split; [eapply list_elem_of_lookup_2, list_lookup_insert_eq; by eapply lookup_lt_Some|congruence].
      - exists x. split; [|done]. eapply list_elem_of_lookup_2. by rewrite list_lookup_insert_ne. }
    destruct Hold as [->| ->].
    + destruct HF as [?|(x & Hx & ->)]; [by left|right]. destruct (Hin x Hx) as (y & ? & E). by exists y.
    + right. destruct (Hin r (list_elem_of_lookup_2 _ _ _ Hi)) as (y & ? & E). by exists y.
  - intros x Hx. apply list_elem_of_lookup in Hx as (j & Hj).
    apply list_lookup_insert_Some in Hj as [(-> & -> & _)|(_ & Hj)].
    + destruct r; simpl in Hr; repeat case_match; simplify_eq/=; try done; lia.
    + specialize (HD x (list_elem_of_lookup_2 _ _ _ Hj)). destruct x; try done; lia.
Qed.

Definition is_recorded (r : recorder) : Prop := match r with Recorded _ => True | _ => False end.

Lemma run_inv l0 l rs l' rs' : rtc sys_step (l, rs) (l', rs') → rec_inv l0 l rs → rec_inv l0 l' rs'.
Proof.
  remember (l, rs) as s eqn:E. remember (l', rs') as s' eqn:E'. intros H. revert l rs E.
  induction H as [|s [l1 rs1] ? H1 H IH]; intros l rs E; simplify_eq; [done|].
  intros HI. eapply IH; [done|done|]. by eapply step_inv.
Qed.
Lemma run_durations l rs l' rs' : rtc sys_step (l, rs) (l', rs') → duration_of <$> rs' = duration_of <$> rs.
Proof.
  remember (l, rs) as s eqn:E. remember (l', rs') as s' eqn:E'. intros H. revert l rs E.
  induction H as [|s [l1 rs1] ? H1 H IH]; intros l rs E; simplify_eq; [done|].
  rewrite (IH eq_refl _ _ eq_refl). inversion H1 as [? ? i r r' ? Hi Hr]; subst.
  rewrite list_fmap_insert. apply list_insert_id. rewrite list_lookup_fmap, Hi. simpl. f_equal.
  by rewrite <- (record_step_duration r l), Hr.
Qed.

Lemma foldl_record ds : ∀ l,
  foldl (λ l d, record d l) l ds =
  mkAcc (if decide (ds = []) then count l else wrap64 (count l + len ds))
        (if decide (ds = []) then sumNanos l else wrap64 (sumNanos l + sum_map id ds))
        (foldr Z.max (maxNanos l) ds).
Proof.
  induction ds as [|d ds IH] using rev_ind; intros l; [by destruct l|].
  rewrite foldl_app, IH. cbn [foldl]. unfold record. cbn [count sumNanos maxNanos].
  rewrite !(decide_False (P := ds ++ [d] = [])) by (by destruct ds). f_equal.
  - unfold len. rewrite length_app. simpl. case_decide as D; [subst; simpl; f_equal; lia|].
    rewrite wrap64_add. f_equal. lia.
  - rewrite sum_map_app. change (sum_map id [d]) with (d + 0).
    case_decide as D; [subst; change (sum_map id []) with 0; f_equal; lia|].
    rewrite wrap64_add. f_equal. lia.
  - rewrite foldr_app. simpl. rewrite Z.max_comm at 1. clear IH.
    assert (∀ a b, foldr Z.max (Z.max a b) ds = Z.max (foldr Z.max a ds) b) as ->.
    { intros a b. induction ds as [|x ds IHd]; simpl; [done|]. rewrite IHd. lia. }
    destruct (Z.leb_spec d (foldr Z.max (maxNanos l) ds)); lia.
Qed.

Lemma recorded_counts rs : Forall is_recorded rs →
  sum_map counted rs = len (duration_of <$> rs) ∧ sum_map summed rs = sum_map id (duration_of <$> rs).
Proof.
  unfold len. induction 1 as [|r rs Hr _ [IH1 IH2]]; [done|]. destruct r; try done.
  rewrite fmap_cons. cbn [length]. rewrite Nat2Z.inj_succ, <- IH1. unfold sum_map in *. cbn [foldr counted summed duration_of].
  rewrite IH2. unfold id at 2. split; lia.
Qed.

Lemma foldr_max_spec (ds : list Z) a :
  a ≤ foldr Z.max a ds ∧ (∀ d, d ∈ ds → d ≤ foldr Z.max a ds) ∧ (foldr Z.max a ds = a ∨ foldr Z.max a ds ∈ ds).
Proof.
  induction ds as [|d ds (H1 & H2 & H3)]; simpl; [split_and!; [done|by intros ? ?%elem_of_nil|by left]|].
  split_and!; [lia| |].
  - intros x [->|Hx]%elem_of_cons; [lia|]. specialize (H2 x Hx). lia.
  - destruct (Z.max_spec d (foldr Z.max a ds)) as [[_ ->]|[_ ->]]; [|right; by left].
    destruct H3 as [?|?]; [by left|right; by right].
Qed.

Definition acc_ok (l : latencyAccumulator) : Prop := int64_range (count l) ∧ int64_range (sumNanos l).

Lemma rec_inv_start l0 ds : acc_ok l0 → rec_inv l0 l0 (Starting <$> ds).
Proof.
  intros [Hc Hs].
  assert (E : sum_map counted (Starting <$> ds) = 0 ∧ sum_map summed (Starting <$> ds) = 0)
    by (unfold sum_map; induction ds as [|d ds [IH1 IH2]]; [done|]; split; [exact IH1|exact IH2]).
  destruct E as [E1 E2]. split; rewrite ?E1, ?E2, ?Z.add_0_r; [by rewrite wrap64_id..|done|by left|].
  intros r (d & -> & _)%list_elem_of_fmap. done.
Qed.

(** Once every goroutine is through, the accumulator is what recording the
    durations one after the other leaves. *)
Lemma latency_linearizable l0 ds l rs : acc_ok l0 →
  rtc sys_step (l0, Starting <$> ds) (l, rs) → Forall is_recorded rs →
  l = foldl (λ l d, record d l) l0 ds.
Proof.
  intros H0 Hrun Hrec. pose proof (run_inv l0 _ _ _ _ Hrun (rec_inv_start l0 ds H0)) as [HC HS HL HF HD].
  pose proof (run_durations _ _ _ _ Hrun) as Hds.
  assert (Hds0 : duration_of <$> (Starting <$> ds) = ds) by (clear; induction ds; simpl; [done|by f_equal]).
  rewrite Hds0 in Hds. destruct (recorded_counts rs Hrec) as [E1 E2]. rewrite E1, Hds in HC. rewrite E2, Hds in HS.
  assert (Hmax : maxNanos l = foldr Z.max (maxNanos l0) ds).
  { destruct (foldr_max_spec ds (maxNanos l0)) as (M1 & M2 & M3).
    assert (Hin : ∀ d, d ∈ ds ↔ ∃ r, r ∈ rs ∧ d = duration_of r).
    { intros d. rewrite <- Hds, list_elem_of_fmap. naive_solver. }
    apply Z.le_antisymm.
    - destruct HF as [->|(r & Hr & ->)]; [done|]. apply M2, Hin. eauto.
    - destruct M3 as [->|(r & Hr & E)%Hin]; [done|]. rewrite E. specialize (HD r Hr).
      rewrite Forall_forall in Hrec. specialize (Hrec r Hr). by destruct r. }
  destruct H0 as [R1 R2]. rewrite foldl_record. destruct l as [c s m]. cbn [count sumNanos maxNanos] in *. subst m.
  destruct (decide (ds = [])) as [->|Hne].
  - change (len ([] : list duration)) with 0 in HC. change (sum_map id ([] : list duration)) with 0 in HS.
    rewrite Z.add_0_r, wrap64_id in HC, HS by done. by rewrite HC, HS.
  - by rewrite HC, HS.
Qed.

Lemma sum_map_id_bounds (ds : list Z) M : Forall (λ d, 0 ≤ d ≤ M) ds → 0 ≤ sum_map id ds ≤ M * len ds.
Proof.
  unfold len. unfold sum_map. induction 1 as [|d ds Hd _ IH]; [simpl; lia|]. cbn [foldr length]. rewrite Nat2Z.inj_succ.
  unfold id in *. lia.
Qed.

(** C30: concurrent commands never corrupt a family's latency figures: whatever
    the interleaving of their atomic operations and failed compare-and-swaps,
    once every goroutine is done the accumulator holds exactly what sequential
    recording gives; the snapshot then reports the number of commands, their
    integer average and their maximum, and the average never exceeds the
    maximum (while the sum fits in 64 bits). *)
Theorem latency_concurrent ds l rs family :
  rtc sys_step (newAcc, Starting <$> ds) (l, rs) → Forall is_recorded rs →
  l = foldl (λ l d, record d l) newAcc ds ∧
  (ds ≠ [] → Forall (λ d, 0 ≤ d) ds → sum_map id ds ≤ maxInt64 → len ds ≤ maxInt64 →
   let st := latencyStats family l in
   Count st = len ds ∧ AvgNanos st = sum_map id ds / len ds ∧
   MaxNanos st ∈ ds ∧ (∀ d, d ∈ ds → d ≤ MaxNanos st) ∧ 0 ≤ AvgNanos st ≤ MaxNanos st).
Proof.
  intros Hrun Hrec.
  assert (E : l = foldl (λ l d, record d l) newAcc ds) by (eapply latency_linearizable; [|done..]; by vm_compute).
  split; [exact E|]. intros Hne Hpos Hsum Hlen. clear Hrun Hrec. cbv zeta. subst l. rewrite foldl_record.
  rewrite !(decide_False (P := ds = [])) by done. cbn [count sumNanos maxNanos newAcc].
  destruct (foldr_max_spec ds 0) as (M1 & M2 & M3). set (M := foldr Z.max 0 ds) in *.
  assert (HM : M ∈ ds).
  { destruct M3 as [E|?]; [|done]. destruct ds as [|d ds]; [done|]. apply Forall_cons in Hpos as [Hd _].
    specialize (M2 d ltac:(by left)). assert (M = d) as -> by lia. by left. }
  destruct (sum_map_id_bounds ds M) as [S1 S2].
  { rewrite Forall_forall in *. intros d Hd. split; [by apply Hpos|by apply M2]. }
  assert (L : 0 < len ds) by (unfold len; destruct ds; [done|cbn [length]; lia]).
  assert (R : ∀ z, 0 ≤ z ≤ maxInt64 → wrap64 (0 + z) = z) by (intros z Hz; apply wrap64_id; unfold int64_range, minInt64; lia).
  unfold latencyStats. cbn [count sumNanos maxNanos Count AvgNanos MaxNanos].
  rewrite !R by lia. destruct (Z.ltb_spec 0 (len ds)); [|lia].
  rewrite (Z.quot_div_nonneg _ _ S1 L). split_and!; [done|done|done|done|by apply Z.div_pos|].
  apply Z.div_le_upper_bound; [done|]. by rewrite Z.mul_comm.
Qed.

(** Two commands race: both load a maximum of 0, the slower swap fails once. *)
Lemma latency_concurrent_witness :
  let l := mkAcc 2 12 7 in
  l = foldl (λ l d, record d l) newAcc [5; 7] ∧ AvgNanos (latencyStats "strings" l) = 6.
Proof.
  assert (Hrun : rtc sys_step (newAcc, Starting <$> [5; 7]) (mkAcc 2 12 7, [Recorded 5; Recorded 7])).
  { eapply rtc_l; [apply (step_any _ _ 0 (Starting 5)); reflexivity|].
    eapply rtc_l; [apply (step_any _ _ 1 (Starting 7)); reflexivity|].
    eapply rtc_l; [apply (step_any _ _ 0 (Counted 5)); reflexivity|].
    eapply rtc_l; [apply (step_any _ _ 1 (Counted 7)); reflexivity|].
    eapply rtc_l; [apply (step_any _ _ 0 (Summed 5)); reflexivity|].
    eapply rtc_l; [apply (step_any _ _ 1 (Summed 7)); reflexivity|].
    eapply rtc_l; [apply (step_any _ _ 0 (Loaded 5 0)); reflexivity|].
    eapply rtc_l; [apply (step_any _ _ 1 (Loaded 7 0)); reflexivity|].
    eapply rtc_l; [apply (step_any _ _ 1 (Summed 7)); reflexivity|].
    eapply rtc_l; [apply (step_any _ _ 1 (Loaded 7 5)); reflexivity|]. apply rtc_refl. }
  cbv zeta. destruct (latency_concurrent [5; 7] _ _ "strings" Hrun) as [H1 H2]; [by repeat constructor|].
  split; [exact H1|]. destruct H2 as (_ & -> & _); [done|by repeat constructor|by vm_compute..|]. reflexivity.
Defined.
