(* ===== verification/Analytics.v ===== *)
(** * Cost and savings tracking (internal/analytics/tracker.go)

    Token usage and estimated cost per model, the money cache hits saved, and
    the bounded list of the most expensive entries that were hit. *)

From S2P Require Import Prelude.
From S2P Require Import GoStd.
From S2P Require Import Floats.
From Stdlib Require Import SpecFloat.

Open Scope Z_scope.

Module analytics.

Definition maxTopEntries : Z := 20.

Definition pricePerMillionTokensUSD : gmap string float64 :=
  list_to_map [("text-embedding-3-small", f64_lit 2 100);
               ("text-embedding-3-large", f64_lit 13 100);
               ("text-embedding-ada-002", f64_lit 10 100)].
Definition completionPricePerMillionTokensUSD : gmap string float64 :=
  list_to_map [("gpt-4o-mini", f64_lit 375 1000); ("gpt-4o", f64_lit 625 100)].

Record ModelUsage := mkUsage { Tokens : Z; CostUSD : float64; PricingKnown : bool }.

Record ExpensiveEntry := mkExpensive { CacheType : string; Prompt : string; Cost : float64; Hits : Z }.

Record Tracker := mkTracker {
  byModel : gmap string ModelUsage;
  completionByModel : gmap string ModelUsage;
  moneySavedTotalUSD : float64;
  top : list ExpensiveEntry;
}.
Definition New : Tracker := mkTracker ∅ ∅ f64_zero [].

(** [strings.Cut] at the first colon. *)
Fixpoint after_colon (name : string) : option string :=
  match name with
  | EmptyString => None
  | String c rest => if Ascii.eqb c ":" then Some rest else after_colon rest
  end.
Definition normalizeModelName (name : string) : string := default name (after_colon name).

(** The body shared by [RecordEmbeddingUsage] and [RecordCompletionUsage],
    which differ in the map and the price table. *)
Definition addUsage (prices : gmap string float64) (model : string) (tokens : Z) (m : gmap string ModelUsage)
    : gmap string ModelUsage :=
  let name := normalizeModelName model in
  let u := default (mkUsage 0 f64_zero false) (m !! name) in
  let total := wrap64 (Tokens u + tokens) in
  <[name := match prices !! name with
            | Some price =>
                mkUsage total (f64_add (CostUSD u) (f64_div (f64_mul (f64_of_Z tokens) price) (f64_of_Z 1000000))) true
            | None => mkUsage total (CostUSD u) (PricingKnown u)
            end]> m.

Definition RecordEmbeddingUsage (model : string) (tokens : Z) (t : Tracker) : Tracker :=
  if tokens <=? 0 then t
  else mkTracker (addUsage pricePerMillionTokensUSD model tokens (byModel t)) (completionByModel t)
                 (moneySavedTotalUSD t) (top t).
Definition RecordCompletionUsage (model : string) (tokens : Z) (t : Tracker) : Tracker :=
  if tokens <=? 0 then t
  else mkTracker (byModel t) (addUsage completionPricePerMillionTokensUSD model tokens (completionByModel t))
                 (moneySavedTotalUSD t) (top t).

(** The index of the cheapest entry: the loop from [i] on, with the cheapest
    so far. *)
Fixpoint min_loop (l : list ExpensiveEntry) (i minIdx : nat) (minCost : float64) : nat * float64 :=
  match l with
  | [] => (minIdx, minCost)
  | e :: l => if f64_lt (Cost e) minCost then min_loop l (S i) i (Cost e) else min_loop l (S i) minIdx minCost
  end.

Definition recordTop (cacheType prompt : string) (cost : float64) (l : list ExpensiveEntry) : list ExpensiveEntry :=
  match list_find (λ e, CacheType e = cacheType ∧ Prompt e = prompt) l with
  | Some (i, e) =>
      <[i := mkExpensive (CacheType e) (Prompt e) (if f64_lt (Cost e) cost then cost else Cost e) (wrap64 (Hits e + 1))]> l
  | None =>
      let entry := mkExpensive cacheType prompt cost 1 in
      if len l <? maxTopEntries then l ++ [entry]
      else
        match l with
        | [] => l
        | e0 :: rest =>
            let '(minIdx, minCost) := min_loop rest 1 0 (Cost e0) in
            if f64_lt minCost cost then <[minIdx := entry]> l else l
        end
  end.

Definition RecordCacheHitSavings (cacheType prompt : string) (cost : float64) (t : Tracker) : Tracker :=
  if f64_le cost f64_zero then t
  else mkTracker (byModel t) (completionByModel t) (f64_add (moneySavedTotalUSD t) cost)
                 (recordTop cacheType prompt cost (top t)).

Record Snapshot_ := mkSnapshot {
  EmbeddingByModel : gmap string ModelUsage;
  CompletionByModel : gmap string ModelUsage;
  MoneySavedTotalUSD : float64;
  TopExpensiveEntries : list ExpensiveEntry;
}.
Definition cost_less (a b : ExpensiveEntry) : bool := f64_lt (Cost b) (Cost a).
Definition Snapshot (t : Tracker) : Snapshot_ :=
  mkSnapshot (byModel t) (completionByModel t) (moneySavedTotalUSD t) (sort_Slice cost_less (top t)).

End analytics.

Import analytics.

(** ** The bounded list holds the most expensive entries *)

Definition key_of (e : ExpensiveEntry) : string * string := (CacheType e, Prompt e).
(** A call of [RecordCacheHitSavings]. *)
Definition report : Type := string * string * float64.
Definition r_key (r : report) : string * string := (r.1.1, r.1.2).
Definition r_cost (r : report) : float64 := r.2.
Definition record_all (rs : list report) (t : Tracker) : Tracker :=
  foldl (λ t r, RecordCacheHitSavings r.1.1 r.1.2 r.2 t) t rs.

(** [y] is at least [x]. *)
Definition at_least (y x : float64) : Prop := f64_lt y x = false.
Lemma at_least_trans z y x : not_nan y → at_least z y → at_least y x → at_least z x.
Proof. intros Hy H1 H2. by apply (f64_lt_negtrans z y x). Qed.
Lemma lt_at_least x y : f64_lt x y = true → at_least y x.
Proof. apply f64_lt_asym. Qed.

Lemma min_loop_spec l : ∀ (whole : list ExpensiveEntry) i mi mc,
  not_nan mc → Forall (λ e, not_nan (Cost e)) l →
  drop i whole = l → Cost <$> whole !! mi = Some mc → (mi < i)%nat →
  (∀ e, e ∈ take i whole → at_least (Cost e) mc) →
  let '(mi', mc') := min_loop l i mi mc in
  Cost <$> whole !! mi' = Some mc' ∧ ∀ e, e ∈ whole → at_least (Cost e) mc'.
Proof.
  induction l as [|x l IH]; intros whole i mi mc Hn HN Hd Hm Hlt Hall; cbn [min_loop].
  - split; [done|]. intros e He. apply Hall. rewrite <- (take_drop i whole), Hd, app_nil_r in He. done.
  - apply Forall_cons in HN as [Hx HN].
    assert (Hi : whole !! i = Some x) by (rewrite <- (Nat.add_0_r i), <- lookup_drop, Hd; done).
    assert (Hd' : drop (S i) whole = l) by (by rewrite <- Nat.add_1_r, <- drop_drop, Hd).
    assert (HT : ∀ e, e ∈ take (S i) whole → e ∈ take i whole ∨ e = x).
    { intros e. rewrite (take_S_r _ _ x Hi), elem_of_app, list_elem_of_singleton. tauto. }
    destruct (f64_lt (Cost x) mc) eqn:E; (apply IH; [done|done|done|..]).
    + by rewrite Hi.
    + lia.
    + intros e [He| ->]%HT; [|by apply f64_lt_irrefl].
      eapply at_least_trans; [exact Hn|by apply Hall|]. by apply lt_at_least.
    + done.
    + lia.
    + intros e [He| ->]%HT; [by apply Hall|done].
Qed.

Record top_ok (rs : list report) (l : list ExpensiveEntry) : Prop := {
  to_nodup : NoDup (key_of <$> l);
  to_bound : len l ≤ maxTopEntries;
  to_best : ∀ e, e ∈ l → not_nan (Cost e) ∧ (∃ r, r ∈ rs ∧ r_key r = key_of e ∧ r_cost r = Cost e) ∧
                          ∀ r, r ∈ rs → r_key r = key_of e → at_least (Cost e) (r_cost r);
  to_rest : ∀ r, r ∈ rs → r_key r ∉ key_of <$> l →
              len l = maxTopEntries ∧ ∀ e, e ∈ l → at_least (Cost e) (r_cost r);
}.

(** Replacing an element of a list. *)
Lemma elem_of_insert {A} (l : list A) i x y : y ∈ <[i := x]> l → y = x ∨ ∃ j, j ≠ i ∧ l !! j = Some y.
Proof.
  intros (j & Hj)%list_elem_of_lookup.
  apply list_lookup_insert_Some in Hj as [(-> & -> & _)|(Hne & Hj)]; [by left|right; eauto].
Qed.
Lemma insert_elem_of {A} (l : list A) i x y : x ∈ <[i := y]> l → x = y ∨ x ∈ l.
Proof. intros [->|(j & _ & Hj)]%elem_of_insert; [by left|right; by eapply list_elem_of_lookup_2]. Qed.
Lemma NoDup_insert_fresh {A} (l : list A) i x : NoDup l → x ∉ l → NoDup (<[i := x]> l).
Proof.
  intros Hl Hx. apply NoDup_alt. intros j k y Hj Hk.
  apply list_lookup_insert_Some in Hj as [(-> & -> & _)|(Hne & Hj)];
    apply list_lookup_insert_Some in Hk as [(? & E & _)|(Hne' & Hk)]; try done.
  - destruct Hx. by eapply list_elem_of_lookup_2.
  - subst. destruct Hx. by eapply list_elem_of_lookup_2.
  - by eapply (proj1 (NoDup_alt l) Hl).
Qed.
Lemma nodup_key l i j e e' : NoDup (key_of <$> l) → l !! i = Some e → l !! j = Some e' → j ≠ i → key_of e' ≠ key_of e.
Proof.
  intros Hn Hi Hj Hne E. apply Hne. eapply (proj1 (NoDup_alt (key_of <$> l)) Hn); rewrite list_lookup_fmap.
  - by rewrite Hj.
  - rewrite Hi. cbn. by rewrite E.
Qed.

Section step.
Context (rs : list report) (l : list ExpensiveEntry) (r : report).
Context (I : top_ok rs l) (Hr : not_nan (r_cost r)).

Lemma report_snoc (r' : report) : r' ∈ rs ++ [r] ↔ r' ∈ rs ∨ r' = r.
Proof using Type. rewrite elem_of_app, list_elem_of_singleton. tauto. Qed.

(** Entries of other keys are unaffected by the new report. *)
Lemma best_other e : e ∈ l → key_of e ≠ r_key r →
  not_nan (Cost e) ∧ (∃ r', r' ∈ rs ++ [r] ∧ r_key r' = key_of e ∧ r_cost r' = Cost e) ∧
  ∀ r', r' ∈ rs ++ [r] → r_key r' = key_of e → at_least (Cost e) (r_cost r').
Proof using I.
  intros He Hk. destruct (to_best _ _ I e He) as (H1 & (r' & H2 & H3) & H4). split_and!; [done| |].
  - exists r'. split; [|done]. apply report_snoc. by left.
  - intros x [Hx| ->]%report_snoc; [by apply H4|]. intros E. by symmetry in E.
Qed.

Lemma hit_ok i e0 : l !! i = Some e0 → key_of e0 = r_key r →
  top_ok (rs ++ [r]) (<[i := mkExpensive (CacheType e0) (Prompt e0)
     (if f64_lt (Cost e0) (r_cost r) then r_cost r else Cost e0) (wrap64 (Hits e0 + 1))]> l).
Proof using I Hr.
  intros Hi Hk. set (e1 := mkExpensive _ _ _ _).
  assert (Hk1 : key_of e1 = key_of e0) by done.
  assert (He0 : e0 ∈ l) by (by eapply list_elem_of_lookup_2).
  destruct (to_best _ _ I e0 He0) as (N0 & (r0 & R0) & B0).
  assert (Hge : at_least (Cost e1) (Cost e0) ∧ at_least (Cost e1) (r_cost r) ∧ not_nan (Cost e1)).
  { unfold e1. cbn [Cost]. destruct (f64_lt (Cost e0) (r_cost r)) eqn:E; (split_and!; try done).
    - by apply lt_at_least.
    - apply f64_lt_irrefl.
    - apply f64_lt_irrefl. }
  destruct Hge as (G0 & Gr & N1).
  assert (Hkeys : key_of <$> <[i := e1]> l = key_of <$> l).
  { rewrite list_fmap_insert. apply list_insert_id. by rewrite list_lookup_fmap, Hi. }
  split.
  - rewrite Hkeys. apply I.
  - unfold len. rewrite length_insert. apply I.
  - intros e [->|(j & Hj & Hlk)]%elem_of_insert.
    + split_and!; [done| |].
      * unfold e1. cbn [Cost]. destruct (f64_lt (Cost e0) (r_cost r)).
        -- exists r. split; [apply report_snoc; by right|done].
        -- exists r0. split; [apply report_snoc; left; apply R0|apply R0].
      * intros x [Hx| ->]%report_snoc; [|done]. intros E. eapply at_least_trans; [exact N0|done|]. by apply B0.
    + apply best_other; [by eapply list_elem_of_lookup_2|]. rewrite <- Hk. eapply nodup_key; [apply I|done|done|done].
  - intros x. rewrite Hkeys. unfold len. rewrite length_insert. intros [Hx| ->]%report_snoc Hnk.
    + destruct (to_rest _ _ I x Hx Hnk) as [HL HB]. split; [done|].
      intros e [->|He]%insert_elem_of; [|by apply HB]. eapply at_least_trans; [exact N0|done|]. by apply HB.
    + destruct Hnk. rewrite <- Hk. by apply list_elem_of_fmap_2.
Qed.

Context (Hnew : ∀ e, e ∈ l → key_of e ≠ r_key r).
Definition fresh_entry : ExpensiveEntry := mkExpensive r.1.1 r.1.2 (r_cost r) 1.

Lemma new_key : r_key r ∉ key_of <$> l.
Proof using Hnew. intros (e & E & He)%list_elem_of_fmap. by apply (Hnew e He). Qed.

Lemma append_ok : len l < maxTopEntries → top_ok (rs ++ [r]) (l ++ [fresh_entry]).
Proof using I Hr Hnew.
  intros Hl. assert (Hnone : ∀ x, x ∈ rs → r_key x ∈ key_of <$> l).
  { intros x Hx. destruct (decide (r_key x ∈ key_of <$> l)); [done|]. destruct (to_rest _ _ I x Hx n). lia. }
  split.
  - rewrite fmap_app. apply NoDup_app. split_and!; [apply I| |apply NoDup_singleton].
    intros k Hk ->%list_elem_of_singleton. by apply new_key.
  - unfold len in *. rewrite length_app. cbn [length]. lia.
  - intros e [He| ->%list_elem_of_singleton]%elem_of_app; [by apply best_other; [|apply Hnew]|].
    split_and!; [done|exists r; split; [apply report_snoc; by right|done]|].
    intros x [Hx| ->]%report_snoc E; [|apply f64_lt_irrefl]. destruct new_key.
    change (key_of fresh_entry) with (r_key r) in E. rewrite <- E. by apply Hnone.
  - intros x [Hx| ->]%report_snoc Hnk; destruct Hnk; rewrite fmap_app; apply elem_of_app.
    + left. by apply Hnone.
    + right. by apply list_elem_of_singleton.
Qed.

Context (mi : nat) (em : ExpensiveEntry) (Hm : l !! mi = Some em).
Context (Hmin : ∀ e, e ∈ l → at_least (Cost e) (Cost em)).
Context (Hfull : len l = maxTopEntries).

Lemma displace_ok : f64_lt (Cost em) (r_cost r) = true → top_ok (rs ++ [r]) (<[mi := fresh_entry]> l).
Proof using I Hr Hnew Hm Hmin Hfull.
  intros Hlt. assert (Hem : em ∈ l) by (by eapply list_elem_of_lookup_2).
  assert (Nm : not_nan (Cost em)) by (by apply (to_best _ _ I em Hem)).
  assert (Hge : at_least (r_cost r) (Cost em)) by (by apply lt_at_least).
  split.
  - rewrite list_fmap_insert. apply NoDup_insert_fresh; [apply I|by apply new_key].
  - unfold len. rewrite length_insert. apply I.
  - intros e [->|He]%insert_elem_of; [|by apply best_other; [|apply Hnew]].
    split_and!; [done|exists r; split; [apply report_snoc; by right|done]|].
    intros x [Hx| ->]%report_snoc E; [|apply f64_lt_irrefl].
    eapply at_least_trans; [exact Nm|done|]. apply (to_rest _ _ I x Hx); [|done].
    rewrite E. by apply new_key.
  - intros x [Hx| ->]%report_snoc Hnk.
    + split; [unfold len; by rewrite length_insert|].
      assert (Hxm : at_least (Cost em) (r_cost x)).
      { destruct (decide (r_key x ∈ key_of <$> l)) as [Hin|Hin]; [|by apply (to_rest _ _ I x Hx Hin)].
        apply list_elem_of_fmap in Hin as (e & E & He). apply list_elem_of_lookup in He as (j & Hj).
        destruct (decide (j = mi)) as [->|Hne].
        - rewrite Hm in Hj. injection Hj as <-. by apply (to_best _ _ I em Hem).
        - destruct Hnk. rewrite E. apply list_elem_of_fmap_2. eapply list_elem_of_lookup_2.
          by rewrite list_lookup_insert_ne. }
      intros e [->|He]%insert_elem_of; (eapply at_least_trans; [exact Nm| |exact Hxm]); [done|by apply Hmin].
    + destruct Hnk. rewrite list_fmap_insert. eapply list_elem_of_lookup_2, list_lookup_insert_eq.
      rewrite length_fmap. by eapply lookup_lt_Some.
Qed.

Lemma drop_ok : f64_lt (Cost em) (r_cost r) = false → top_ok (rs ++ [r]) l.
Proof using I Hr Hnew Hm Hmin Hfull.
  intros Hlt. assert (Hem : em ∈ l) by (by eapply list_elem_of_lookup_2).
  assert (Nm : not_nan (Cost em)) by (by apply (to_best _ _ I em Hem)).
  split; [apply I|apply I|intros e He; by apply best_other; [|apply Hnew]|].
  intros x [Hx| ->]%report_snoc Hnk; [by apply (to_rest _ _ I)|]. split; [done|].
  intros e He. eapply at_least_trans; [exact Nm|by apply Hmin|done].
Qed.
End step.

Lemma recordTop_ok rs l r : top_ok rs l → not_nan (r_cost r) → top_ok (rs ++ [r]) (recordTop r.1.1 r.1.2 r.2 l).
Proof.
  intros I Hr. unfold recordTop. destruct (list_find _ l) as [[i e0]|] eqn:E.
  - apply list_find_Some in E as (Hi & [E1 E2] & _). apply hit_ok; [done..|]. unfold key_of, r_key. congruence.
  - assert (Hnew : ∀ e, e ∈ l → key_of e ≠ r_key r).
    { apply list_find_None in E. rewrite Forall_forall in E. intros e He [= E1 E2]. by apply (E e He). }
    destruct (Z.ltb_spec (len l) maxTopEntries) as [Hlt|Hge]; [by apply append_ok|].
    assert (Hfull : len l = maxTopEntries) by (pose proof (to_bound _ _ I); lia).
    destruct l as [|e0 rest] eqn:El; [done|]. rewrite <- El in *.
    pose proof (min_loop_spec rest l 1 0 (Cost e0)) as Hmin.
    assert (HN : Forall (λ e, not_nan (Cost e)) l) by (apply Forall_forall; intros e He; by apply (to_best _ _ I)).
    assert (HN' := HN). rewrite El in HN'. apply Forall_cons in HN' as [N0 HN'].
    specialize (Hmin N0 HN' ltac:(by rewrite El) ltac:(by rewrite El) ltac:(lia)).
    destruct (min_loop rest 1 0 (Cost e0)) as [mi mc]. destruct Hmin as [Hm Hall].
    { rewrite El. intros e [->|He]%elem_of_cons; [apply f64_lt_irrefl|by apply elem_of_nil in He]. }
    destruct (l !! mi) as [em|] eqn:Em; [|done]. injection Hm as <-.
    destruct (f64_lt (Cost em) r.2) eqn:Elt; [by eapply displace_ok|by eapply drop_ok].
Qed.

Lemma top_ok_nil : top_ok [] [].
Proof. split; [constructor|done|by intros e ?%elem_of_nil|by intros r ?%elem_of_nil]. Qed.

Definition counted (r : report) : Prop := f64_le (r_cost r) f64_zero = false.
#[export] Instance counted_dec r : Decision (counted r).
Proof. unfold counted. apply _. Defined.

Lemma record_all_top rs : Forall (λ r, not_nan (r_cost r)) rs →
  top_ok (filter counted rs) (top (record_all rs New)).
Proof.
  unfold record_all. induction rs as [|r rs IH] using rev_ind; intros HN; [apply top_ok_nil|].
  apply Forall_app in HN as [HN Hr]. rewrite Forall_singleton in Hr. specialize (IH HN).
  rewrite foldl_app, filter_app. cbn [foldl]. unfold RecordCacheHitSavings at 1.
  change (r.2) with (r_cost r). destruct (f64_le (r_cost r) f64_zero) eqn:E.
  - rewrite (filter_cons_False _ r) by (unfold counted; congruence). by rewrite filter_nil, app_nil_r.
  - rewrite (filter_cons_True _ r) by done. rewrite filter_nil. cbn [top]. by apply recordTop_ok.
Qed.

Lemma snapshot_sorted l : Forall (λ e, not_nan (Cost e)) l →
  StronglySorted (λ a b, at_least (Cost a) (Cost b)) (sort_Slice cost_less l).
Proof.
  intros HN. change (λ a b, at_least (Cost a) (Cost b)) with (slice_le cost_less).
  refine (sort_Slice_sorted cost_less _ (λ e, not_nan (Cost e)) l _ HN).
  - intros x y. unfold cost_less. apply f64_lt_asym.
  - intros x y z Hx Hy Hz. unfold cost_less. intros H1 H2. by apply (f64_lt_negtrans _ (Cost y)).
Qed.

(** The dashboard's list is the true top of the reported savings.  After
    any sequence of hits (with costs that are numbers) it has at most 20
    entries, one per (cache, prompt), sorted by decreasing cost; each carries
    the highest cost reported for it; and an entry that is missing was never
    reported with a cost above the cheapest one listed, the list being full. *)
Theorem top_expensive_spec rs :
  Forall (λ r, not_nan (r_cost r)) rs →
  let hits := filter counted rs in
  let l := TopExpensiveEntries (Snapshot (record_all rs New)) in
  len l ≤ maxTopEntries ∧ NoDup (key_of <$> l) ∧ StronglySorted (λ a b, at_least (Cost a) (Cost b)) l ∧
  (∀ e, e ∈ l → (∃ r, r ∈ hits ∧ r_key r = key_of e ∧ r_cost r = Cost e) ∧
                ∀ r, r ∈ hits → r_key r = key_of e → at_least (Cost e) (r_cost r)) ∧
  (∀ r, r ∈ hits → r_key r ∉ key_of <$> l →
     len l = maxTopEntries ∧ ∀ e, e ∈ l → at_least (Cost e) (r_cost r)).
Proof.
  intros HN. cbv zeta. destruct (record_all_top rs HN) as [T1 T2 T3 T4]. cbn [TopExpensiveEntries Snapshot].
  pose proof (sort_Slice_perm cost_less (top (record_all rs New))) as HP.
  assert (HL : len (sort_Slice cost_less (top (record_all rs New))) = len (top (record_all rs New)))
    by (unfold len; by rewrite HP).
  rewrite HL. split_and!.
  - done.
  - by rewrite HP.
  - apply snapshot_sorted, Forall_forall. intros e He. by apply T3.
  - intros e He. rewrite HP in He. by apply T3.
  - intros r Hr Hk. rewrite HP in Hk. destruct (T4 r Hr Hk) as [? HB]. split; [done|].
    intros e He. rewrite HP in He. by apply HB.
Qed.

Definition some_hits : list report := [("semantic", "p", f64_of_Z 3); ("prompt", "t", f64_of_Z 5); ("semantic", "p", f64_of_Z 1)].
Lemma top_expensive_spec_witness :
  let l := TopExpensiveEntries (Snapshot (record_all some_hits New)) in
  l = [mkExpensive "prompt" "t" (f64_of_Z 5) 1; mkExpensive "semantic" "p" (f64_of_Z 3) 2] ∧
  StronglySorted (λ a b, at_least (Cost a) (Cost b)) l.
Proof.
  split; [vm_compute; reflexivity|]. apply (top_expensive_spec some_hits). repeat constructor.
Defined.

(** The hit count of an entry restarts when it was displaced in between:
    twenty dearer entries push the first one out, its return counts one. *)
Definition dear (n : nat) : report := ("semantic", FormatInt (Z.of_nat n), f64_of_Z (Z.of_nat n)).
Lemma displaced_hits_restart :
  let rs := (dear <$> seq 1 20) ++ [("semantic", "1", f64_of_Z 1); ("semantic", "x", f64_of_Z 30); ("semantic", "1", f64_of_Z 40)] in
  len (filter (λ r, r_key r = ("semantic", "1")) rs) = 3 ∧
  Hits <$> filter (λ e, Prompt e = "1") (top (record_all rs New)) = [1].
Proof. by vm_compute. Qed.
