(* ===== verification/Providers.v ===== *)
(** * Providers, their instrumentation, and the encodings of arguments
    (internal/observability/embed_instrument.go, completion_instrument.go,
    the parsers of internal/server/resp/handlers_vector.go)

    The embedding and completion providers are services the process calls;
    each call is counted, and its token usage priced, by the instrumented
    wrapper every component shares.  [encoding/json] is an interface here: what
    the handlers do with a decoded value is modelled. *)

From S2P Require Import Prelude.
From S2P Require Import GoStd.
From S2P Require Import Floats.
From S2P Require Import Similarity.
From S2P Require Import Vector.
From S2P Require Import Graph.
From S2P Require Import Metrics.
From S2P Require Import Analytics.
From Stdlib Require Import SpecFloat.

Open Scope Z_scope.

(** ** Services *)

(** The [n]-th consultation of each service; [None] is an error.  [newID] is
    the random identifier of internal/memory/id.go, [errText] the text of the
    error a call returned. *)
Class Services := {
  embedder : nat → embed.Provider;
  embedder_Name : string;
  completer : nat → string → string → option (string * Z);
  completer_Name : string;
  newID : nat → option string;
  errText : nat → string;
}.

(** What the providers of internal/embed promise: a batch answers with one
    vector per text. *)
Class ServicesLaws `{Services} : Prop := {
  batch_length n up texts vecs tokens :
    embed.EmbedBatchWithUsage (embedder n) = Some up → up texts = Some (vecs, tokens) → length vecs = length texts;
}.
Lemma embed_total `{ServicesLaws} n text : embed.EmbedOne (embedder n) text ≠ Panic.
Proof.
  unfold embed.EmbedOne. destruct (embed.EmbedBatchWithUsage (embedder n)) as [up|] eqn:E; [|by case_match].
  destruct (up [text]) as [[vecs k]|] eqn:E2; [|done]. pose proof (batch_length _ _ _ _ _ E E2). by destruct vecs.
Qed.

(** ** Instrumentation *)

Definition Instruments : Type := metrics.Metrics * analytics.Tracker.

Definition failed {A} (o : option A) : bool := match o with None => true | Some _ => false end.

(** [instrumentedProvider.Embed] *)
Definition Embed (p : embed.Provider) (text : string) (s : Instruments) : option vec * Instruments :=
  let '(m, t) := s in
  let m := metrics.EmbeddingCallStarted m in
  let v := embed.Embed p text in
  (v, (metrics.EmbeddingCallFinished (failed v) m, t)).

(** [instrumentedUsageProvider.EmbedBatchWithUsage] around the wrapped
    provider's [up]. *)
Definition EmbedBatchWithUsage (name : string) (up : list string → option (list vec * Z)) (texts : list string)
    (s : Instruments) : option (list vec * Z) * Instruments :=
  let '(m, t) := s in
  let m := metrics.EmbeddingCallStarted m in
  let r := up texts in
  let m := metrics.EmbeddingCallFinished (failed r) m in
  let t := match r with
           | Some (_, tokens) => if 0 <? tokens then analytics.RecordEmbeddingUsage name tokens t else t
           | None => t
           end in
  (r, (m, t)).

(** [embed.EmbedOne] on the instrumented provider. *)
Definition InstrumentedEmbedOne (name : string) (p : embed.Provider) (text : string) (s : Instruments)
    : outcome vec * Instruments :=
  match embed.EmbedBatchWithUsage p with
  | Some up =>
      let '(r, s) := EmbedBatchWithUsage name up [text] s in
      (match r with
       | None => Fail
       | Some (vecs, _) => match vecs with v :: _ => Return v | [] => Panic end
       end, s)
  | None =>
      let '(v, s) := Embed p text s in
      (match v with Some v => Return v | None => Fail end, s)
  end.

(** [instrumentedCompletionProvider.Complete] around the provider's answer. *)
Definition Complete (name : string) (answer : option (string * Z)) (s : Instruments) : option string * Instruments :=
  let '(m, t) := s in
  let m := metrics.CompletionCallStarted m in
  let m := metrics.CompletionCallFinished (failed answer) m in
  let t := match answer with
           | Some (_, tokens) => if 0 <? tokens then analytics.RecordCompletionUsage name tokens t else t
           | None => t
           end in
  (fst <$> answer, (m, t)).

(** Instrumenting a provider does not change what it answers. *)
Lemma InstrumentedEmbedOne_transparent name p text s :
  (InstrumentedEmbedOne name p text s).1 = embed.EmbedOne p text.
Proof.
  destruct s as [m t]. unfold InstrumentedEmbedOne, embed.EmbedOne.
  destruct (embed.EmbedBatchWithUsage p) as [up|]; [|done]. cbn. by destruct (up [text]).
Qed.

(** ** JSON *)

(** What [json.Unmarshal] makes of a document in a variable of type [any]. *)
Inductive json :=
  | JNull
  | JBool (b : bool)
  | JNumber (f : float64)
  | JString (s : string)
  | JArray (l : list json)
  | JObject (kvs : list (string * json)).

Class Encoding := {
  Unmarshal : string → option json;
  Marshal : json → option string;
  UnmarshalExtraction : string → option graph.extractionResponse;
  FormatRFC3339 : time → string;
}.

(** The conversion [float32(v)], as the double it converts back to. *)
Definition f32_of_f64 (v : float64) : float32 :=
  match v with
  | S754_finite s m e =>
      match binary_normalize 24 128 (cond_Zopp s (Zpos m)) e s with
      | S754_finite s m e => binary_normalize prec64 emax64 (cond_Zopp s (Zpos m)) e s
      | x => x
      end
  | x => x
  end.

(** Decoding into [[]float64]: a null array is empty, a null element is 0. *)
Definition json_float (j : json) : option float64 :=
  match j with JNumber f => Some f | JNull => Some f64_zero | _ => None end.
Definition json_floats (j : json) : option (list float64) :=
  match j with JNull => Some [] | JArray l => mapM json_float l | _ => None end.

Section parsers.
Context `{Encoding}.

Definition parseVectorJSON (s : string) : option vec :=
  raw ← Unmarshal s; fs ← json_floats raw; Some (map f32_of_f64 fs).

Definition metadataValueToString (v : json) : string :=
  match v with
  | JString s => s
  | _ => default "" (Marshal v)
  end.

(** A later duplicate of a key wins. *)
Definition parseMetadataJSON (s : string) : option (gmap string string) :=
  raw ← Unmarshal s;
  match raw with
  | JNull => Some ∅
  | JObject kvs => Some (foldl (λ m kv, <[kv.1 := metadataValueToString kv.2]> m) ∅ kvs)
  | _ => None
  end.
End parsers.

Definition parseMetric `{UnicodeTables} (s : string) : option vector.DistanceMetric :=
  let s := ToUpper s in
  if String.eqb s "COSINE" then Some vector.Cosine
  else if String.eqb s "DOT" then Some vector.Dot
  else if String.eqb s "EUCLIDEAN" then Some vector.Euclidean
  else None.

(** ** The extraction prompt (internal/graph/extract.go) *)

(** Double quotes are written as tildes below. *)
Definition unquote (s : string) : string := smap (λ c, if Ascii.eqb c "~" then "034"%char else c) s.
Definition LF : string := String "010" "".
Definition extractSystemPrompt : string := unquote (
  "You are extracting a knowledge graph from a single piece of text. Identify notable entities (people, systems, projects, organizations, and concepts) mentioned in the text, and directed relationships between them."
  +:+ LF +:+ LF +:+
  "Respond with ONLY valid JSON -- no prose, no markdown code fences, no explanation -- in exactly this shape:"
  +:+ LF +:+ LF +:+
  "{~entities~:[{~id~:~<id>~,~label~:~<display name>~}],~relations~:[{~from~:~<entity id>~,~to~:~<entity id>~,~label~:~<relationship>~}]}"
  +:+ LF +:+ LF +:+
  "Entity ids must be short, stable, lowercase, and use underscores instead of spaces or punctuation (e.g. ~redis~, ~project_a~, ~alice~), derived consistently from the entity's name so the same real-world entity produces the same id across separate calls. Every ~from~/~to~ value in ~relations~ must reference an id present in ~entities~. If there is nothing worth extracting, respond with {~entities~:[],~relations~:[]}.").

(** ** For examples: no provider answers, nothing decodes *)

Definition offline : Services := {|
  embedder := λ _, embed.mkProvider (λ _, None) None; embedder_Name := "offline";
  completer := λ _ _ _, None; completer_Name := "offline";
  newID := λ _, None; errText := λ _, "offline" |}.
Lemma offline_laws : @ServicesLaws offline.
Proof. by split. Qed.
Definition no_encoding : Encoding := {|
  Unmarshal := λ _, None; Marshal := λ _, None; UnmarshalExtraction := λ _, None; FormatRFC3339 := λ _, "" |}.
