(* ===== verification/Backends.v ===== *)
(** * The embedding and completion providers (internal/embed, internal/llm)

    The deterministic mocks, and the clients of the OpenAI HTTP API up to the
    transport: what they send, and what they make of every answer.  Errors are
    texts, on the left of a sum. *)

From S2P Require Import Prelude.
From S2P Require Import GoStd.
From S2P Require Import Floats.
From S2P Require Import Similarity.
From S2P Require Import Providers.

Open Scope Z_scope.

(** ** Text as runes

    Ranging over a string decodes UTF-8; a byte that starts no valid sequence
    is one U+FFFD. *)
Definition RuneError : Z := 65533.

(** The bounds of the second byte and the number of continuation bytes, by
    the first byte. *)
Definition lead_byte (b : Z) : option (Z * Z * nat) :=
  if (194 <=? b) && (b <=? 223) then Some (128, 191, 1%nat)
  else if b =? 224 then Some (160, 191, 2%nat)
  else if b =? 237 then Some (128, 159, 2%nat)
  else if (225 <=? b) && (b <=? 239) then Some (128, 191, 2%nat)
  else if b =? 240 then Some (144, 191, 3%nat)
  else if (241 <=? b) && (b <=? 243) then Some (128, 191, 3%nat)
  else if b =? 244 then Some (128, 143, 3%nat)
  else None.
Definition in_bounds (lo hi : Z) (c : ascii) : bool := (lo <=? code c) && (code c <=? hi).

Fixpoint DecodeRunes (s : string) : list Z :=
  match s with
  | EmptyString => []
  | String c s1 =>
      let b := code c in
      if b <? 128 then b :: DecodeRunes s1
      else match lead_byte b, s1 with
           | Some (lo, hi, n), String c1 s2 =>
               if negb (in_bounds lo hi c1) then RuneError :: DecodeRunes s1
               else match n, s2 with
                    | 1%nat, _ => Z.land b 31 * 64 + Z.land (code c1) 63 :: DecodeRunes s2
                    | 2%nat, String c2 s3 =>
                        if negb (in_bounds 128 191 c2) then RuneError :: DecodeRunes s1
                        else Z.land b 15 * 4096 + Z.land (code c1) 63 * 64 + Z.land (code c2) 63 :: DecodeRunes s3
                    | 3%nat, String c2 (String c3 s4) =>
                        if negb (in_bounds 128 191 c2 && in_bounds 128 191 c3) then RuneError :: DecodeRunes s1
                        else Z.land b 7 * 262144 + Z.land (code c1) 63 * 4096 + Z.land (code c2) 63 * 64 +
                             Z.land (code c3) 63 :: DecodeRunes s4
                    | _, _ => RuneError :: DecodeRunes s1
                    end
           | _, _ => RuneError :: DecodeRunes s1
           end
  end.

Definition byte_char (b : Z) : ascii := ascii_of_N (Z.to_N b).
Definition EncodeRune (r : Z) : string :=
  if (0 <=? r) && (r <? 128) then String (byte_char r) ""
  else if (0 <=? r) && (r <? 2048) then
    String (byte_char (192 + r / 64)) (String (byte_char (128 + r `mod` 64)) "")
  else if (0 <=? r) && (r <? 65536) && negb ((55296 <=? r) && (r <=? 57343)) then
    String (byte_char (224 + r / 4096)) (String (byte_char (128 + r / 64 `mod` 64)) (String (byte_char (128 + r `mod` 64)) ""))
  else if (65536 <=? r) && (r <=? 1114111) then
    String (byte_char (240 + r / 262144)) (String (byte_char (128 + r / 4096 `mod` 64))
      (String (byte_char (128 + r / 64 `mod` 64)) (String (byte_char (128 + r `mod` 64)) "")))
  else String (byte_char 239) (String (byte_char 191) (String (byte_char 189) "")).
Fixpoint EncodeRunes (rs : list Z) : string :=
  match rs with [] => "" | r :: rs => EncodeRune r +:+ EncodeRunes rs end.

(** ** internal/embed/mock.go *)

(** [Float64 seed i] is the [i]-th number of the source with that seed, in
    the standard library's generator. *)
Class RandSource := { Float64 : Z → nat → float64 }.

Module embed_mock.
Section mock.
Context `{UnicodeTables} `{RandSource}.

(** The provider is its number of dimensions. *)
Definition NewMock (dims : Z) : Z := if dims <=? 0 then 8 else dims.
Definition Name : string := "mock".
Definition Dimensions (m : Z) : Z := m.

Fixpoint fnv64a_go (h : Z) (s : string) : Z :=
  match s with
  | EmptyString => h
  | String c s => fnv64a_go (wrapu64 (Z.lxor h (code c) * 1099511628211)) s
  end.
Definition fnvSeed (s : string) : Z := wrap64 (fnv64a_go 14695981039346656037 s).

Definition addSeededVector (dst : list float64) (seed : Z) (weight : float64) : list float64 :=
  imap (λ i x, f64_add x (f64_mul weight (f64_sub (f64_mul (Float64 seed i) (f64_of_Z 2)) f64_one))) dst.

Definition l2NormalizeToFloat32 (v : list float64) : vec :=
  let sumSq := foldl (λ acc x, f64_add acc (f64_mul x x)) f64_zero v in
  let norm := f64_sqrt sumSq in
  if f64_eq norm f64_zero then replicate (length v) f64_zero
  else map (λ x, f32_of_f64 (f64_div x norm)) v.

Definition NUL : string := String "000" "".
Definition words_of (text : string) : list string :=
  match Fields (ToLower text) with [] => [NUL +:+ "empty" +:+ NUL] | ws => ws end.
Definition deterministicEmbedding (text : string) (dims : Z) : vec :=
  let words := words_of text in
  let v := foldl (λ v w, addSeededVector v (fnvSeed ("w:" +:+ w)) f64_one) (replicate (Z.to_nat dims) f64_zero) words in
  let v := map (λ x, f64_div x (f64_of_Z (len words))) v in
  let v := addSeededVector v (fnvSeed ("raw:" +:+ text)) (f64_lit 5 100) in
  l2NormalizeToFloat32 v.

(** The background context is never done; [EmbedBatch] calls [Embed] on each
    text, and there is no usage to report. *)
Definition Embed (m : Z) (text : string) : option vec := Some (deterministicEmbedding text m).
Definition EmbedBatch (m : Z) (texts : list string) : option (list vec) := mapM (Embed m) texts.
Definition provider (m : Z) : embed.Provider := embed.mkProvider (Embed m) None.
End mock.
End embed_mock.

(** ** internal/llm/mock.go *)

Module llm_mock.

Definition mockEchoLimit : Z := 200.
Definition mockPrefix : string := "[mock completion, no real generation] ".
Definition Name : string := "mock".

Definition truncate (s : string) (n : Z) : string :=
  let r := DecodeRunes s in
  if len r <=? n then s else EncodeRunes (take (Z.to_nat n) r) +:+ "...".
Definition Complete (systemPrompt userPrompt : string) : option (string * Z) :=
  Some (mockPrefix +:+ truncate userPrompt mockEchoLimit, 0).

End llm_mock.

(** ** The HTTP transport

    [marshal] is [json.Marshal] of a request body, [build] what is wrong with
    a URL, [post] the exchange: an error, or a status and the body or the
    error of reading it. *)
Class Transport := {
  marshal_embedding : string → list string → string + string;
  marshal_chat : string → list (string * string) → string + string;
  build : string → option string;
  post : string → string → string → string + (Z * (string + string));
}.

Definition trim_right_slash : string → string :=
  fix go s := match s with
              | EmptyString => ""
              | String c s => match go s with
                              | EmptyString => if Ascii.eqb c "/" then "" else String c ""
                              | t => String c t
                              end
              end.

(** The part of [resp.Body] an error quotes. *)
Definition maxOpenAIErrorBodySnippet : Z := 500.
Definition snippet_of (body : string) : string :=
  if maxOpenAIErrorBodySnippet <? slen body
  then String.substring 0 (Z.to_nat maxOpenAIErrorBodySnippet) body +:+ "...(truncated)" else body.

(** The common part of the clients: the request, sent to the end or to an
    error; [tag] is the package's name. *)
Definition exchange `{Transport} (tag url apiKey : string) (reqBody : string + string) : string + string :=
  match reqBody with
  | inl err => inl (tag +:+ ": marshal openai request: " +:+ err)
  | inr reqBody =>
      match build url with
      | Some err => inl (tag +:+ ": build openai request: " +:+ err)
      | None =>
          match post url apiKey reqBody with
          | inl err => inl (tag +:+ ": openai request failed: " +:+ err)
          | inr (_, inl err) => inl (tag +:+ ": read openai response: " +:+ err)
          | inr (status, inr body) =>
              if negb (status =? 200)
              then inl (tag +:+ ": openai returned status " +:+ Itoa status +:+ ": " +:+ snippet_of body)
              else inr body
          end
      end
  end.

(** ** internal/embed/openai.go *)

Module embed_openai.

Definition defaultOpenAIAPIBase : string := "https://api.openai.com/v1".
Definition defaultOpenAIModel : string := "text-embedding-3-small".

Record openAIProvider := mkProvider { apiKey : string; model : string; dims : Z; baseURL : string }.

Definition openAIModelDimensions (model : string) : Z :=
  if String.eqb model "text-embedding-3-small" then 1536
  else if String.eqb model "text-embedding-3-large" then 3072
  else if String.eqb model "text-embedding-ada-002" then 1536
  else 1536.

Definition NewOpenAI (apiKey model baseURL : string) : openAIProvider :=
  let model := if String.eqb model "" then defaultOpenAIModel else model in
  let baseURL := if String.eqb baseURL "" then defaultOpenAIAPIBase else baseURL in
  mkProvider apiKey model (openAIModelDimensions model) (trim_right_slash baseURL +:+ "/embeddings").
Definition Name (p : openAIProvider) : string := "openai:" +:+ model p.
Definition Dimensions (p : openAIProvider) : Z := dims p.

Record datum := mkDatum { Embedding : vec; Index : Z }.
Record openAIEmbeddingResponse := mkResponse { Data : list datum; TotalTokens : Z; ErrorMessage : option string }.

Section client.
Context `{Transport} (Unmarshal : string → string + openAIEmbeddingResponse).

Definition index_error (i n : Z) : string :=
  "embed: openai response index " +:+ Itoa i +:+ " out of range [0," +:+ Itoa n +:+ ")".
(** A nil vector is the empty one. *)
Fixpoint place (data : list datum) (out : list vec) : string + list vec :=
  match data with
  | [] => inr out
  | d :: data =>
      if (Index d <? 0) || (len out <=? Index d) then inl (index_error (Index d) (len out))
      else place data (<[Z.to_nat (Index d) := Embedding d]> out)
  end.

Definition EmbedBatchWithUsage (p : openAIProvider) (texts : list string) : string + (list vec * Z) :=
  if len texts =? 0 then inr ([], 0) else
  match exchange "embed" (baseURL p) (apiKey p) (marshal_embedding (model p) texts) with
  | inl err => inl err
  | inr body =>
      match Unmarshal body with
      | inl err => inl ("embed: decode openai response: " +:+ err)
      | inr parsed =>
          match ErrorMessage parsed with
          | Some msg => inl ("embed: openai returned an error: " +:+ msg)
          | None =>
              if negb (len (Data parsed) =? len texts)
              then inl ("embed: expected " +:+ Itoa (len texts) +:+ " embeddings from openai, got " +:+
                        Itoa (len (Data parsed)))
              else match place (Data parsed) (replicate (length texts) []) with
                   | inl err => inl err
                   | inr out => inr (out, TotalTokens parsed)
                   end
          end
      end
  end.
Definition EmbedBatch (p : openAIProvider) (texts : list string) : string + list vec :=
  match EmbedBatchWithUsage p texts with inl err => inl err | inr (vecs, _) => inr vecs end.
(** [out[0]] *)
Definition Embed (p : openAIProvider) (text : string) : outcome vec :=
  match EmbedBatch p [text] with
  | inl _ => Fail
  | inr out => match out with v :: _ => Return v | [] => Panic end
  end.

(** The provider the caches see: errors without their text. *)
Definition provider (p : openAIProvider) : embed.Provider :=
  embed.mkProvider (λ text, match Embed p text with Return v => Some v | _ => None end)
    (Some (λ texts, match EmbedBatchWithUsage p texts with inl _ => None | inr r => Some r end)).
End client.
End embed_openai.

(** ** internal/llm/openai.go *)

Module llm_openai.

Definition defaultOpenAIAPIBase : string := "https://api.openai.com/v1".
Definition defaultOpenAIModel : string := "gpt-4o-mini".

Record openAIProvider := mkProvider { apiKey : string; model : string; baseURL : string }.

Definition NewOpenAI (apiKey model baseURL : string) : openAIProvider :=
  let model := if String.eqb model "" then defaultOpenAIModel else model in
  let baseURL := if String.eqb baseURL "" then defaultOpenAIAPIBase else baseURL in
  mkProvider apiKey model (trim_right_slash baseURL +:+ "/chat/completions").
Definition Name (p : openAIProvider) : string := "openai:" +:+ model p.

(** The contents of the choices. *)
Record openAIChatResponse := mkResponse { Choices : list string; TotalTokens : Z; ErrorMessage : option string }.

Definition Complete `{Transport} (Unmarshal : string → string + openAIChatResponse) (p : openAIProvider)
    (systemPrompt userPrompt : string) : string + (string * Z) :=
  match exchange "llm" (baseURL p) (apiKey p)
          (marshal_chat (model p) [("system", systemPrompt); ("user", userPrompt)]) with
  | inl err => inl err
  | inr body =>
      match Unmarshal body with
      | inl err => inl ("llm: decode openai response: " +:+ err)
      | inr parsed =>
          match ErrorMessage parsed with
          | Some msg => inl ("llm: openai returned an error: " +:+ msg)
          | None =>
              match Choices parsed with
              | [] => inl "llm: openai response contained no choices"
              | content :: _ => inr (content, TotalTokens parsed)
              end
          end
      end
  end.

End llm_openai.

(** ** What the OpenAI client makes of an answer *)

Import embed_openai.

(** The vector of the last datum with index [i]. *)
Definition placed (data : list datum) (i : nat) : vec :=
  from_option Embedding [] (last (filter (λ d, Index d = Z.of_nat i) data)).

Lemma last_cons_default {A} (x : A) l : last (x :: l) = Some (default x (last l)).
Proof. rewrite last_cons. by destruct (last l). Qed.

Lemma place_ok data : ∀ out, Forall (λ d, 0 ≤ Index d < len out) data →
  ∃ out', place data out = inr out' ∧ length out' = length out ∧
    ∀ i v, out !! i = Some v →
      out' !! i = Some (from_option Embedding v (last (filter (λ d, Index d = Z.of_nat i) data))).
Proof.
  induction data as [|d data IH]; intros out Hr; cbn [place]; [by exists out|].
  apply Forall_cons in Hr as [Hd Hr].
  destruct (Z.ltb_spec (Index d) 0); [lia|]. destruct (Z.leb_spec (len out) (Index d)); [lia|]. cbn [orb].
  set (out1 := <[Z.to_nat (Index d) := Embedding d]> out).
  assert (Hl : length out1 = length out) by apply length_insert.
  destruct (IH out1) as (out' & -> & Hl' & Ho); [by unfold len in *; rewrite Hl|].
  exists out'. split; [done|]. split; [congruence|]. intros i v Hv.
  destruct (decide (Index d = Z.of_nat i)) as [Hi|Hi].
  - rewrite (Ho i (Embedding d)); [|unfold out1; rewrite Hi, Nat2Z.id; apply list_lookup_insert_eq; by eapply lookup_lt_Some].
    rewrite filter_cons_True by done. rewrite last_cons_default. by destruct (last _).
  - rewrite filter_cons_False by done. apply Ho. unfold out1. rewrite list_lookup_insert_ne; [done|lia].
Qed.
Lemma place_inr data : ∀ out out', place data out = inr out' → Forall (λ d, 0 ≤ Index d < len out) data.
Proof.
  induction data as [|d data IH]; intros out out' Hp; [constructor|]. cbn [place] in Hp.
  destruct (Z.ltb_spec (Index d) 0); [done|]. destruct (Z.leb_spec (len out) (Index d)); [done|].
  cbn [orb] in Hp. apply IH in Hp. unfold len in *. rewrite length_insert in Hp. by constructor.
Qed.
Lemma place_spec data n out : place data (replicate n []) = inr out ↔
  Forall (λ d, 0 ≤ Index d < Z.of_nat n) data ∧ out = placed data <$> seq 0 n.
Proof.
  assert (HF : ∀ out', Forall (λ d, 0 ≤ Index d < Z.of_nat n) data → place data (replicate n []) = inr out' →
    out' = placed data <$> seq 0 n).
  { intros out' Hr Hp. destruct (place_ok data (replicate n [])) as (o & Ho & Hl & Hv); [unfold len; by rewrite length_replicate|].
    rewrite Hp in Ho. injection Ho as <-. apply list_eq. intros i.
    destruct (decide (i < n)%nat) as [Hi|Hi].
    - rewrite (Hv i []) by (by apply lookup_replicate_2). rewrite list_lookup_fmap, lookup_seq_lt by done. done.
    - rewrite length_replicate in Hl. rewrite !lookup_ge_None_2; [done| |lia]. rewrite length_fmap, length_seq. lia. }
  split.
  - intros Hp. pose proof (place_inr _ _ _ Hp) as Hr. unfold len in Hr. rewrite length_replicate in Hr. split; [done|by apply HF].
  - intros [Hr ->]. destruct (place_ok data (replicate n [])) as (o & Ho & _); [unfold len; by rewrite length_replicate|].
    rewrite Ho. f_equal. by apply HF.
Qed.

Lemma placed_distinct data d : NoDup (Index <$> data) → d ∈ data → placed data (Z.to_nat (Index d)) = Embedding d ∨ Index d < 0.
Proof.
  intros Hnd Hin. destruct (decide (Index d < 0)); [by right|left]. unfold placed. rewrite Z2Nat.id by lia.
  assert (HF : filter (λ d', Index d' = Index d) data = [d]); [|by rewrite HF].
  revert Hnd Hin. induction data as [|d' data IH]; intros Hnd Hin; [by apply elem_of_nil in Hin|].
  rewrite fmap_cons in Hnd. apply NoDup_cons in Hnd as [Hn Hnd]. apply elem_of_cons in Hin as [->|Hin].
  - rewrite filter_cons_True by done. f_equal.
    apply elem_of_nil_inv. intros x [Hx Hi]%list_elem_of_filter. apply Hn. rewrite <- Hx. by apply list_elem_of_fmap_2.
  - rewrite filter_cons_False; [by apply IH|]. intros E. apply Hn. rewrite E. by apply list_elem_of_fmap_2.
Qed.

(** The embedding client succeeds on a nonempty batch exactly when the
    exchange does, with a body that decodes to an answer without an error
    object, with as many vectors as texts, all with indices in range; the
    result has one vector per text: text [i] gets the last vector with index
    [i].  Hence with pairwise different indices every vector is at its index;
    with a repeated one some text is left with a nil vector, and no error. *)
Theorem openai_batch_spec `{Transport} Unmarshal p texts out tokens : texts ≠ [] →
  (EmbedBatchWithUsage Unmarshal p texts = inr (out, tokens) ↔
   ∃ body parsed, exchange "embed" (baseURL p) (apiKey p) (marshal_embedding (model p) texts) = inr body ∧
     Unmarshal body = inr parsed ∧ ErrorMessage parsed = None ∧ length (Data parsed) = length texts ∧
     Forall (λ d, 0 ≤ Index d < len texts) (Data parsed) ∧
     out = placed (Data parsed) <$> seq 0 (length texts) ∧ tokens = TotalTokens parsed) ∧
  (∀ data, NoDup (Index <$> data) → Forall (λ d, 0 ≤ Index d < len texts) data →
     ∀ d, d ∈ data → (placed data <$> seq 0 (length texts)) !! Z.to_nat (Index d) = Some (Embedding d)).
Proof.
  intros Hne. split.
  - unfold EmbedBatchWithUsage. destruct (Z.eqb_spec (len texts) 0) as [E|_].
    { destruct texts; [done|]. unfold len in E. simpl in E. lia. }
    destruct (exchange _ _ _ _) as [err|body]; [split; [done|by intros (? & ? & ? & _)]|].
    destruct (Unmarshal body) as [err|parsed] eqn:Eu; [split; [done|intros (? & ? & [= <-] & ? & _); congruence]|].
    destruct (ErrorMessage parsed) as [msg|] eqn:Em.
    { split; [done|]. intros (? & ? & [= <-] & Hp & ? & _). rewrite Eu in Hp. injection Hp as <-. congruence. }
    destruct (Z.eqb_spec (len (Data parsed)) (len texts)) as [El|El]; cbn [negb].
    + destruct (place _ _) as [err|o] eqn:Ep.
      * split; [done|]. intros (? & ? & [= <-] & Hp & _ & _ & Hr & _). rewrite Eu in Hp. injection Hp as <-.
        destruct (place_spec (Data parsed) (length texts) (placed (Data parsed) <$> seq 0 (length texts))) as [_ Hs].
        rewrite Hs in Ep by done. done.
      * apply place_spec in Ep as [Hr ->]. split.
        -- intros [= <- <-]. exists body, parsed. split_and!; try done. unfold len in El. lia.
        -- intros (? & ? & [= <-] & Hp & _ & _ & _ & -> & ->). rewrite Eu in Hp. by injection Hp as <-.
    + split; [done|]. intros (? & ? & [= <-] & Hp & _ & Hl & _). rewrite Eu in Hp. injection Hp as <-.
      destruct El. unfold len. by rewrite Hl.
  - intros data Hnd Hr d Hin. rewrite Forall_forall in Hr. specialize (Hr d Hin). unfold len in Hr.
    rewrite list_lookup_fmap, lookup_seq_lt by lia. cbn. f_equal.
    destruct (placed_distinct data d Hnd Hin) as [?|?]; [done|lia].
Qed.

(** The clients keep the promise the caches rely on. *)
Lemma openai_batch_length `{Transport} Unmarshal p texts out tokens :
  EmbedBatchWithUsage Unmarshal p texts = inr (out, tokens) → length out = length texts.
Proof.
  unfold EmbedBatchWithUsage. destruct (Z.eqb_spec (len texts) 0) as [E|_].
  { intros [= <- <-]. unfold len in E. simpl. lia. }
  repeat (case_match; try done). intros [= <- <-].
  match goal with Hp : place _ _ = inr _ |- _ => apply place_spec in Hp as [_ ->] end.
  by rewrite length_fmap, length_seq.
Qed.
Lemma openai_laws `{Transport} Unmarshal p complete ids errs :
  @ServicesLaws {|
    embedder := λ _, provider Unmarshal p; embedder_Name := Name p;
    completer := complete; completer_Name := "mock"; newID := ids; errText := errs |}.
Proof.
  split. intros n up texts vecs tokens [= <-]. destruct (EmbedBatchWithUsage Unmarshal p texts) as [|[]] eqn:E; [done|].
  intros [= <- <-]. by eapply openai_batch_length.
Qed.

(** ** The mocks *)

Lemma length_seeded `{RandSource} dst seed weight : length (embed_mock.addSeededVector dst seed weight) = length dst.
Proof. apply length_imap. Qed.
Lemma length_normalized v : length (embed_mock.l2NormalizeToFloat32 v) = length v.
Proof. unfold embed_mock.l2NormalizeToFloat32. case_match; by rewrite ?length_replicate, ?length_map. Qed.
Lemma length_embedding `{UnicodeTables} `{RandSource} text dims :
  length (embed_mock.deterministicEmbedding text dims) = Z.to_nat dims.
Proof.
  unfold embed_mock.deterministicEmbedding. rewrite length_normalized, length_seeded, length_map.
  generalize (embed_mock.words_of text). intros ws. rewrite <- (length_replicate (Z.to_nat dims) f64_zero) at 2.
  generalize (replicate (Z.to_nat dims) f64_zero). induction ws as [|w ws IH]; intros v; cbn [foldl]; [done|].
  by rewrite IH, length_seeded.
Qed.

(** The mock embedding provider is well typed whatever dimension it is
    configured with: it has a positive number of dimensions, it always answers,
    a batch answers with the vectors of its texts, in order, and every vector
    has that number of components, so that no two are ever incomparable. *)
Theorem mock_embed_type `{UnicodeTables} `{RandSource} n texts :
  let m := embed_mock.NewMock n in
  0 < embed_mock.Dimensions m ∧ (0 < n → embed_mock.Dimensions m = n) ∧
  ∃ vecs, embed_mock.EmbedBatch m texts = Some vecs ∧ length vecs = length texts ∧
    ∀ i t, texts !! i = Some t →
      ∃ v, embed_mock.Embed m t = Some v ∧ vecs !! i = Some v ∧ len v = embed_mock.Dimensions m.
Proof.
  cbv zeta. unfold embed_mock.Dimensions, embed_mock.NewMock. split; [case_match; lia|]. split; [case_match; lia|].
  set (m := if n <=? 0 then 8 else n). assert (0 < m) by (unfold m; case_match; lia).
  exists ((λ t, embed_mock.deterministicEmbedding t m) <$> texts). split; [|split; [apply length_fmap|]].
  - unfold embed_mock.EmbedBatch. induction texts as [|t texts IH]; [done|]. cbn. unfold embed_mock.EmbedBatch in IH.
    by rewrite IH.
  - intros i t Hi. eexists. split; [reflexivity|]. split; [by rewrite list_lookup_fmap, Hi|].
    unfold len. rewrite length_embedding. lia.
Qed.

Lemma mock_laws `{UnicodeTables} `{RandSource} m complete ids errs :
  @ServicesLaws {|
    embedder := λ _, embed_mock.provider m; embedder_Name := embed_mock.Name;
    completer := complete; completer_Name := llm_mock.Name; newID := ids; errText := errs |}.
Proof. by split. Qed.

Lemma decode_length s : slen s ≤ 4 * len (DecodeRunes s).
Proof.
  induction s as [s IH] using (induction_ltof1 _ String.length). unfold ltof in IH.
  assert (HR : ∀ s', (String.length s' < String.length s)%nat → slen s - 4 ≤ slen s' →
    slen s ≤ 4 * (1 + len (DecodeRunes s'))) by (intros s' Hl Hs; specialize (IH s' Hl); lia).
  destruct s as [|c s1]; [done|]. cbn [DecodeRunes]. unfold slen, len in *.
  repeat (case_match; subst); cbn [length String.length] in *;
    match goal with |- context [DecodeRunes ?s'] => specialize (HR s'); cbn [String.length] in HR; lia end.
Qed.
Lemma encode_length r : slen (EncodeRune r) ≤ 4.
Proof. unfold EncodeRune. by repeat case_match. Qed.

(** The mock completion is bounded: whatever the prompts, it answers, for
    free, with the prefix that marks it and at most four bytes for each of 200
    characters of the user prompt, three dots apart. *)
Theorem mock_complete_bound sys user :
  ∃ echo, llm_mock.Complete sys user = Some (llm_mock.mockPrefix +:+ echo, 0) ∧
    slen echo ≤ 4 * llm_mock.mockEchoLimit + 3 ∧
    (len (DecodeRunes user) ≤ llm_mock.mockEchoLimit → echo = user).
Proof.
  unfold llm_mock.Complete. eexists. split; [reflexivity|].
  assert (HE : ∀ rs, slen (EncodeRunes rs) ≤ 4 * len rs).
  { induction rs as [|r rs IH]; [done|]. cbn [EncodeRunes]. pose proof (encode_length r).
    unfold slen, len in *. rewrite length_app_str. cbn [length]. lia. }
  unfold llm_mock.truncate. destruct (Z.leb_spec (len (DecodeRunes user)) llm_mock.mockEchoLimit) as [Hl|Hl].
  - split; [|done]. pose proof (decode_length user). lia.
  - split; [|lia]. specialize (HE (take (Z.to_nat llm_mock.mockEchoLimit) (DecodeRunes user))).
    unfold slen, len in *. rewrite length_app_str. rewrite length_take in HE. unfold llm_mock.mockEchoLimit in *.
    cbn [String.length]. lia.
Qed.

(** ** Concrete exchanges *)

#[local] Instance toy_transport : Transport := {|
  marshal_embedding := λ _ _, inr "request"; marshal_chat := λ _ _, inr "request"; build := λ _, None;
  post := λ _ _ _, inr (200, inr "answer") |}.
Definition toy_answer (indices : list Z) (_ : string) : string + openAIEmbeddingResponse :=
  inr (mkResponse ((λ i, mkDatum [f64_of_Z i] i) <$> indices) 7 None).

Lemma openai_batch_spec_witness :
  EmbedBatchWithUsage (toy_answer [1; 0]) (NewOpenAI "key" "" "") ["a"; "b"] =
    inr ([[f64_of_Z 0]; [f64_of_Z 1]], 7).
Proof.
  apply (openai_batch_spec (toy_answer [1; 0]) (NewOpenAI "key" "" "") ["a"; "b"] [[f64_of_Z 0]; [f64_of_Z 1]] 7);
    [discriminate|].
  eexists _, _. split; [reflexivity|]. split; [reflexivity|]. split; [reflexivity|]. split; [reflexivity|].
  split; [|split; reflexivity]. repeat constructor; discriminate.
Defined.
(** A repeated index: two vectors for two texts, one of them nil. *)
Lemma openai_duplicate_index :
  EmbedBatchWithUsage (toy_answer [0; 0]) (NewOpenAI "key" "" "") ["a"; "b"] = inr ([[f64_of_Z 0]; []], 7).
Proof. reflexivity. Qed.
