(* ===== verification/Glob.v ===== *)
(** * Glob matching (internal/storage/memstore/pattern.go, internal/server/resp/glob.go)

    The two Go matchers differ in one case of their [switch]: the store's
    treats a backslash as an escape, the pub/sub broker's has no such case. *)

From S2P Require Import Prelude.
From S2P Require Import GoStd.

Open Scope Z_scope.

Definition bytes : Type := list ascii.

Definition indexByte (b : bytes) (c : ascii) : option nat :=
  fst <$> list_find (λ x, x = c) b.

(** [class[i] <= c && c <= class[i+2]] *)
Definition in_range (lo hi c : ascii) : bool := (code lo <=? code c) && (code c <=? code hi).

(** The loop of [matchClass]; a range needs a byte after the dash. *)
Fixpoint matchClass (class : bytes) (c : ascii) {struct class} : bool :=
  match class with
  | [] => false
  | lo :: rest =>
      match rest with
      | dash :: hi :: class' =>
          if Ascii.eqb dash "-" then
            if in_range lo hi c then true else matchClass class' c
          else if Ascii.eqb lo c then true else matchClass rest c
      | _ => if Ascii.eqb lo c then true else matchClass rest c
      end
  end.

(** [for len(pattern) > 1 && pattern[1] == '*' { pattern = pattern[1:] }],
    on what follows the first star. *)
Fixpoint skip_stars (p : bytes) : bytes :=
  match p with
  | c :: p' => if Ascii.eqb c "*" then skip_stars p' else p
  | [] => []
  end.

(** [for i := 0; i <= len(s); i++ { if match(s[i:]) { return true } }] *)
Fixpoint any_suffix (f : bytes → bool) (s : bytes) : bool :=
  f s || match s with [] => false | _ :: s' => any_suffix f s' end.

(** [globMatchBytes]; [escape] selects the matcher that has the backslash
    case.  Each turn of the loop and each recursive call consumes pattern
    bytes, so the pattern's length is enough fuel. *)
Fixpoint globMatchBytes (escape : bool) (fuel : nat) (pattern s : bytes) {struct fuel} : bool :=
  match fuel with
  | O => false
  | S fuel =>
    match pattern with
    | [] => match s with [] => true | _ => false end
    | p :: pattern' =>
      if Ascii.eqb p "*" then
        match skip_stars pattern' with
        | [] => true
        | rest => any_suffix (globMatchBytes escape fuel rest) s
        end
      else if Ascii.eqb p "?" then
        match s with [] => false | _ :: s' => globMatchBytes escape fuel pattern' s' end
      else if Ascii.eqb p "[" then
        match s with
        | [] => false
        | c :: s' =>
            match indexByte pattern "]" with
            | None =>
                if Ascii.eqb c "[" then globMatchBytes escape fuel pattern' s' else false
            | Some end_ =>
                let class := take (end_ - 1) pattern' in
                let '(neg, class) :=
                  match class with
                  | x :: class' => if Ascii.eqb x "^" then (true, class') else (false, class)
                  | [] => (false, class)
                  end in
                if Bool.eqb (matchClass class c) neg then false
                else globMatchBytes escape fuel (drop end_ pattern') s'
            end
        end
      else if escape && Ascii.eqb p "\" then
        match pattern' with
        | q :: pattern'' =>
            match s with
            | c :: s' => if Ascii.eqb c q then globMatchBytes escape fuel pattern'' s' else false
            | [] => false
            end
        | [] =>
            match s with
            | c :: s' => if Ascii.eqb c "\" then globMatchBytes escape fuel pattern' s' else false
            | [] => false
            end
        end
      else
        match s with
        | c :: s' => if Ascii.eqb c p then globMatchBytes escape fuel pattern' s' else false
        | [] => false
        end
    end
  end.

Definition globMatch_bytes (escape : bool) (pattern s : bytes) : bool :=
  globMatchBytes escape (S (length pattern)) pattern s.

(** memstore/pattern.go *)
Definition globMatch (pattern s : string) : bool :=
  globMatch_bytes true (String.list_ascii_of_string pattern) (String.list_ascii_of_string s).
(** resp/glob.go *)
Definition resp_globMatch (pattern s : string) : bool :=
  globMatch_bytes false (String.list_ascii_of_string pattern) (String.list_ascii_of_string s).

(** ** What a pattern means *)

Definition class_ok (class : bytes) (c : ascii) : bool :=
  match class with
  | x :: class' => if Ascii.eqb x "^" then negb (matchClass class' c) else matchClass class c
  | [] => false
  end.

Definition special (escape : bool) (c : ascii) : bool :=
  Ascii.eqb c "*" || Ascii.eqb c "?" || Ascii.eqb c "[" || (escape && Ascii.eqb c "\").

(** Glob patterns, one rule per construct. *)
Inductive gmatch (escape : bool) : bytes → bytes → Prop :=
  | gm_end : gmatch escape [] []
  | gm_star p s1 s2 : gmatch escape p s2 → gmatch escape ("*" :: p)%char (s1 ++ s2)
  | gm_any p c s : gmatch escape p s → gmatch escape ("?" :: p)%char (c :: s)
  | gm_class class p c s : ("]"%char) ∉ class → class_ok class c = true → gmatch escape p s →
      gmatch escape ("[" :: class ++ "]" :: p)%char (c :: s)
  | gm_open p s : ("]"%char) ∉ p → gmatch escape p s → gmatch escape ("[" :: p)%char ("[" :: s)%char
  | gm_escape c p s : escape = true → gmatch escape p s → gmatch escape ("\" :: c :: p)%char (c :: s)
  | gm_backslash : escape = true → gmatch escape ["\"%char] ["\"%char]
  | gm_lit c p s : special escape c = false → gmatch escape p s → gmatch escape (c :: p) (c :: s).

Lemma any_suffix_spec f s : any_suffix f s = true ↔ ∃ s1 s2, s = s1 ++ s2 ∧ f s2 = true.
Proof.
  induction s as [|c s IH]; cbn [any_suffix].
  - rewrite orb_false_r. split; [intros; by exists [], []|]. intros (s1 & s2 & H & Hf).
    by apply eq_sym, app_nil in H as [-> ->].
  - rewrite orb_true_iff, IH. split.
    + intros [H|(s1 & s2 & -> & H)]; [by exists [], (c :: s)|by exists (c :: s1), s2].
    + intros ([|d s1] & s2 & H & Hf); simplify_eq/=; [by left|right; by exists s1, s2].
Qed.

Lemma gmatch_star escape p s :
  gmatch escape ("*" :: p)%char s ↔ ∃ s1 s2, s = s1 ++ s2 ∧ gmatch escape p s2.
Proof.
  split; [|intros (s1 & s2 & -> & H); by constructor].
  inversion 1; subst; [eauto|done].
Qed.

Lemma gmatch_skip_stars escape p s :
  gmatch escape ("*" :: p)%char s ↔ gmatch escape ("*" :: skip_stars p)%char s.
Proof.
  revert s. induction p as [|c p IH]; intros s; [done|]. cbn [skip_stars].
  destruct (Ascii.eqb_spec c "*") as [->|]; [|done]. rewrite <- IH, (gmatch_star _ (_ :: p)).
  split.
  - intros (s1 & s2 & -> & (s3 & s4 & -> & H)%gmatch_star). rewrite (assoc_L (++)). by constructor.
  - intros H. by exists [], s.
Qed.

Lemma skip_stars_length p : (length (skip_stars p) ≤ length p)%nat.
Proof. induction p as [|c p IH]; [done|]. simpl. case_match; simpl; lia. Qed.

Lemma indexByte_spec p : 
  match indexByte ("[" :: p)%char "]" with
  | None => ("]"%char) ∉ p
  | Some e => (0 < e)%nat ∧ p = take (e - 1) p ++ "]"%char :: drop e p ∧ ("]"%char) ∉ take (e - 1) p
  end.
Proof.
  unfold indexByte. change (list_find (λ x, x = "]"%char) ("[" :: p)%char) with
    (prod_map S id <$> list_find (λ x, x = "]"%char) p).
  destruct (list_find _ p) as [[i x]|] eqn:E; simpl.
  - apply list_find_Some in E as (Hi & -> & Hb). rewrite Nat.sub_0_r. split; [lia|]. split.
    + by rewrite take_drop_middle.
    + intros (j & Hj & Hlt)%elem_of_take. by apply (Hb j _ Hj Hlt).
  - apply list_find_None in E. rewrite Forall_forall in E. intros H. by apply (E _ H).
Qed.

(** Splitting at the first closing bracket is unambiguous. *)
Lemma split_unique (c : ascii) (l1 l2 r1 r2 : bytes) :
  c ∉ l1 → c ∉ l2 → l1 ++ c :: r1 = l2 ++ c :: r2 → l1 = l2 ∧ r1 = r2.
Proof.
  revert l2. induction l1 as [|x l1 IH]; intros [|y l2] H1 H2 E; simplify_eq/=; [done|set_solver..|].
  destruct (IH l2) as [-> ->]; set_solver.
Qed.

Lemma gmatch_class escape class p s :
  ("]"%char) ∉ class →
  gmatch escape ("[" :: class ++ "]" :: p)%char s ↔
  ∃ c s', s = c :: s' ∧ class_ok class c = true ∧ gmatch escape p s'.
Proof.
  intros Hc. split; [|intros (c & s' & -> & ? & ?); by constructor].
  inversion 1 as [|?|?|class' p' c s' Hc' Hok Hm Heq|p' s' Hn|?|?|c p' s' Hs]; subst.
  - apply split_unique in Heq as [-> ->]; eauto.
  - exfalso. set_solver.
  - by destruct escape.
Qed.

Lemma gmatch_open escape p s :
  ("]"%char) ∉ p →
  gmatch escape ("[" :: p)%char s ↔ ∃ s', s = "["%char :: s' ∧ gmatch escape p s'.
Proof.
  intros Hn. split; [|intros (s' & -> & ?); by constructor].
  inversion 1; subst; eauto. exfalso; set_solver.
Qed.

Lemma class_test {A} (class : bytes) (c : ascii) (x y : A) :
  (let '(neg, class) :=
     match class with
     | x :: class' => if Ascii.eqb x "^" then (true, class') else (false, class)
     | [] => (false, class)
     end in
   if Bool.eqb (matchClass class c) neg then x else y) = if class_ok class c then y else x.
Proof.
  destruct class as [|k class]; [done|]. unfold class_ok.
  destruct (Ascii.eqb k "^"); by destruct (matchClass _ c).
Qed.

Lemma gmatch_lit escape c p s : special escape c = false →
  gmatch escape (c :: p) s ↔ ∃ s', s = c :: s' ∧ gmatch escape p s'.
Proof.
  intros Hc. split; [|intros (s' & -> & ?); by constructor].
  inversion 1; subst; eauto; try done; by destruct escape.
Qed.

Lemma gmatch_escaped q p s :
  gmatch true ("\" :: q :: p)%char s ↔ ∃ s', s = q :: s' ∧ gmatch true p s'.
Proof.
  split; [|intros (s' & -> & ?); by constructor]. inversion 1; subst; eauto; done.
Qed.

Lemma gmatch_trailing s : gmatch true ["\"%char] s ↔ s = ["\"%char].
Proof. split; [|intros ->; by constructor]. inversion 1; subst; done. Qed.

Lemma globMatch_iff escape p s : globMatch_bytes escape p s = true ↔ gmatch escape p s.
Proof.
  unfold globMatch_bytes. remember (S (length p)) as fuel eqn:Hf.
  assert (length p < fuel)%nat as Hlt by lia. clear Hf. revert p s Hlt.
  induction fuel as [|fuel IH]; intros p s Hlt; [lia|]. cbn [globMatchBytes].
  destruct p as [|c p]; [destruct s; split; [constructor|done|done|inversion 1]|].
  simpl in Hlt. assert (Hp : (length p < fuel)%nat) by lia.
  destruct (Ascii.eqb_spec c "*") as [->|Hstar].
  { pose proof (skip_stars_length p). rewrite gmatch_skip_stars.
    destruct (skip_stars p) as [|q r] eqn:Es.
    - split; [intros _|done]. rewrite <- (app_nil_r s). constructor. constructor.
    - rewrite any_suffix_spec, gmatch_star. setoid_rewrite IH; [done|lia]. }
  destruct (Ascii.eqb_spec c "?") as [->|Hq].
  { destruct s as [|d s]; [split; [done|inversion 1]|]. rewrite IH by done.
    split; [by constructor|]. inversion 1; subst; done || by destruct escape. }
  destruct (Ascii.eqb_spec c "[") as [->|Hb].
  { destruct s as [|d s]; [split; [done|inversion 1]|].
    pose proof (indexByte_spec p) as Hi. destruct (indexByte _ _) as [e|].
    - destruct Hi as (He & Hsplit & Hnot). rewrite class_test.
      assert (Hlen : (length (drop e p) < fuel)%nat) by (rewrite length_drop; lia).
      generalize dependent (drop e p). generalize dependent (take (e - 1) p).
      intros class Hnot p' -> Hlen. rewrite gmatch_class by done.
      destruct (class_ok class d) eqn:Hok.
      + rewrite IH by done. split; [eauto|]. by intros (? & ? & [= <- <-] & _ & ?).
      + split; [done|]. intros (? & ? & [= <- <-] & ? & _). congruence.
    - rewrite gmatch_open by done. destruct (Ascii.eqb_spec d "[") as [->|Hd].
      + rewrite IH by done. split; [eauto|]. by intros (? & [= <-] & ?).
      + split; [done|]. intros (? & [= -> _] & ?). done. }
  destruct (escape && Ascii.eqb c "\") eqn:Hbs.
  - apply andb_true_iff in Hbs as [-> ->%Ascii.eqb_eq]. destruct p as [|q p]; simpl in Hp.
    + rewrite gmatch_trailing. destruct s as [|d s]; [done|].
      destruct (Ascii.eqb_spec d "\") as [->|]; [|split; congruence].
      rewrite IH by (simpl; lia). split; [by inversion 1|]. intros [= ->]. constructor.
    + rewrite gmatch_escaped. destruct s as [|d s]; [split; [done|by intros (? & ? & _)]|].
      destruct (Ascii.eqb_spec d q) as [->|]; [|split; [done|by intros (? & [= ? _] & _)]].
      rewrite IH by lia. split; [eauto|by intros (? & [= <-] & ?)].
  - rewrite gmatch_lit.
    + destruct s as [|d s]; [split; [done|by intros (? & ? & _)]|].
      destruct (Ascii.eqb_spec d c) as [->|]; [|split; [done|by intros (? & [= ? _] & _)]].
      rewrite IH by done. split; [eauto|by intros (? & [= <-] & ?)].
    + unfold special. rewrite Hbs. by destruct (Ascii.eqb_spec c "*"), (Ascii.eqb_spec c "?"), (Ascii.eqb_spec c "[").
Qed.


(** On patterns without a backslash the store's matcher (KEYS, SCAN) and
    the pub/sub broker's (PSUBSCRIBE) agree; on a backslash they do not, so
    the broker's matcher is not the same semantics as the store's. *)
Theorem glob_agree pattern s :
  ("\"%char) ∉ String.list_ascii_of_string pattern →
  resp_globMatch pattern s = globMatch pattern s ∧
  globMatch "\*" "*" = true ∧ resp_globMatch "\*" "*" = false.
Proof.
  intros Hn. split; [|done]. unfold resp_globMatch, globMatch.
  generalize dependent (String.list_ascii_of_string pattern).
  generalize (String.list_ascii_of_string s). clear. intros s p Hn.
  apply eq_true_iff_eq. rewrite !globMatch_iff. split; intros H; revert Hn; induction H; intros Hn;
    try done; try (constructor; set_solver).
  - constructor; [|set_solver]. revert H. unfold special. rewrite andb_false_l, !orb_false_iff.
    destruct (Ascii.eqb_spec c "\") as [->|]; [|tauto]. exfalso. apply Hn. by left.
  - constructor; [|set_solver]. revert H. unfold special. rewrite andb_false_l, !orb_false_iff. tauto.
Qed.

Lemma glob_agree_witness :
  resp_globMatch "news.[a-c]*" "news.byte" = true ∧ globMatch "news.[a-c]*" "news.byte" = true.
Proof.
  assert (Hn : ("\"%char) ∉ String.list_ascii_of_string "news.[a-c]*") by (vm_compute; set_solver).
  destruct (glob_agree "news.[a-c]*" "news.byte" Hn) as [-> _]. split; reflexivity.
Defined.
