(* ===== verification/Eviction.v ===== *)
(** * Eviction policies (internal/eviction)

    A [Policy] scores an entry from its [Signals]; higher scores are evicted
    first.  [LRU] scores by age, [Weighted] by a weighted sum of bounded
    contributions. *)

From S2P Require Import Prelude.
From S2P Require Import GoStd.

Open Scope Z_scope.

(** policy.go *)
Record Signals := mkSignals {
  sg_LastAccess : time;
  sg_Now : time;
  sg_AccessCount : Z;
  sg_CostHint : float64;
  sg_Importance : float64;
}.

(** lru.go *)
Definition LRU_Score (s : Signals) : float64 :=
  if IsZero (sg_LastAccess s) then f64_of_Z (time_Unix (sg_Now s))
  else Seconds (time_Sub (sg_Now s) (sg_LastAccess s)).

(** weighted.go *)
Definition DefaultWeights : gmap string float64 :=
  {[ "recency" := f64_lit 6 10; "frequency" := f64_lit 4 10 ]}.

(** Reading an absent key of a Go map gives the zero value. *)
Definition weight (w : gmap string float64) (k : string) : float64 := default f64_zero (w !! k).

Definition Weighted_Score (ws : gmap string float64) (s : Signals) : float64 :=
  let weights := if decide (size ws = 0%nat) then DefaultWeights else ws in
  let age := Seconds (time_Sub (sg_Now s) (sg_LastAccess s)) in
  let age := if IsZero (sg_LastAccess s) then f64_of_Z (time_Unix (sg_Now s)) else age in
  let age := if f64_lt age f64_zero then f64_zero else age in
  let recencyContrib := f64_div age (f64_add f64_one age) in
  let frequencyContrib := f64_div f64_one (f64_add f64_one (f64_of_Z (sg_AccessCount s))) in
  let costContrib := f64_div f64_one (f64_add f64_one (sg_CostHint s)) in
  let importanceContrib := f64_div f64_one (f64_add f64_one (sg_Importance s)) in
  f64_add (f64_add (f64_add
    (f64_mul (weight weights "recency") recencyContrib)
    (f64_mul (weight weights "frequency") frequencyContrib))
    (f64_mul (weight weights "cost") costContrib))
    (f64_mul (weight weights "importance") importanceContrib).

(** The [Policy] interface: the dynamic type with its data, and the method. *)
Inductive Policy :=
  | LRU
  | Weighted (weights : gmap string float64).

Definition Score (p : Policy) (s : Signals) : float64 :=
  match p with
  | LRU => LRU_Score s
  | Weighted ws => Weighted_Score ws s
  end.
