(* ===== verification/Shard.v ===== *)
(** * Entries and shards (internal/storage/memstore: types.go, shard.go)

    An [Entry] is the Go struct with its kind tag and one field per kind.  A
    shard is three maps; its operations run in the state monad [SH], whose
    state also holds the counter the shard's [entryCount] pointer designates
    and the number of calls of the store's eviction callback.

    A Go map is ranged over in an order the runtime picks: the operations
    that depend on it take the visited order as an argument. *)

From S2P Require Import Prelude.
From S2P Require Import GoStd.
From S2P Require Import Eviction.

Open Scope Z_scope.
Open Scope go_scope.

(** ** types.go *)

Inductive Kind := KindNone | KindString | KindHash | KindList | KindSet | KindZSet.
#[export] Instance Kind_eq_dec : EqDecision Kind.
Proof. solve_decision. Defined.

Definition Kind_String (k : Kind) : string :=
  match k with
  | KindString => "string"
  | KindHash => "hash"
  | KindList => "list"
  | KindSet => "set"
  | KindZSet => "zset"
  | KindNone => "none"
  end.

Record Entry := mkEntry {
  e_Kind : Kind;
  e_StringVal : gobytes;
  e_Hash : gmap string gobytes;
  e_List : list gobytes;
  e_Set : gset string;
  e_ZSet : gmap string float64;
  e_ExpiresAt : option time;
  e_LastAccess : time;
  e_AccessCount : Z;
}.

Definition expired (e : Entry) (now : time) : bool :=
  match e_ExpiresAt e with
  | None => false
  | Some t => negb (time_After t now)
  end.

(** Field updates. *)
Definition set_Hash (h : gmap string gobytes) (e : Entry) : Entry :=
  mkEntry (e_Kind e) (e_StringVal e) h (e_List e) (e_Set e) (e_ZSet e)
          (e_ExpiresAt e) (e_LastAccess e) (e_AccessCount e).
Definition set_List (l : list gobytes) (e : Entry) : Entry :=
  mkEntry (e_Kind e) (e_StringVal e) (e_Hash e) l (e_Set e) (e_ZSet e)
          (e_ExpiresAt e) (e_LastAccess e) (e_AccessCount e).
Definition set_Set (s : gset string) (e : Entry) : Entry :=
  mkEntry (e_Kind e) (e_StringVal e) (e_Hash e) (e_List e) s (e_ZSet e)
          (e_ExpiresAt e) (e_LastAccess e) (e_AccessCount e).
Definition set_ZSet (z : gmap string float64) (e : Entry) : Entry :=
  mkEntry (e_Kind e) (e_StringVal e) (e_Hash e) (e_List e) (e_Set e) z
          (e_ExpiresAt e) (e_LastAccess e) (e_AccessCount e).
Definition set_ExpiresAt (at_ : option time) (e : Entry) : Entry :=
  mkEntry (e_Kind e) (e_StringVal e) (e_Hash e) (e_List e) (e_Set e) (e_ZSet e)
          at_ (e_LastAccess e) (e_AccessCount e).
(** [e.LastAccess = now; e.AccessCount++] *)
Definition touch (now : time) (e : Entry) : Entry :=
  mkEntry (e_Kind e) (e_StringVal e) (e_Hash e) (e_List e) (e_Set e) (e_ZSet e)
          (e_ExpiresAt e) now (wrap64 (e_AccessCount e + 1)).

(** ** shard.go *)

Record shard := mkShard {
  data : gmap string Entry;
  ttlKeys : gset string;
  versions : gmap string Z;
}.

Definition newShard : shard := mkShard ∅ ∅ ∅.
#[export] Instance shard_inhabited : Inhabited shard := populate newShard.

(** What a shard operation works on: the shard, the counter its [entryCount]
    field points at, and the count of [onEvict] calls. *)
Record shardCtx := mkCtx {
  sc_shard : shard;
  sc_count : Z;
  sc_evicted : Z;
}.
Definition SH (A : Type) : Type := ST shardCtx A.

Definition sc_data (c : shardCtx) : gmap string Entry := data (sc_shard c).
Definition version_of (sh : shard) (key : string) : Z := default 0 (versions sh !! key).

(** The live (non-expired) entry for [key], under a read lock. *)
Definition getLocked (key : string) (now : time) : SH (option Entry) :=
  gets (λ c, match sc_data c !! key with
             | None => None
             | Some e => if expired e now then None else Some e
             end).
(** [get] takes the read lock around [getLocked]. *)
Definition get (key : string) (now : time) : SH (option Entry) := getLocked key now.

Definition bumpVersionLocked (key : string) : SH Z := λ c,
  let sh := sc_shard c in
  let v := wrapu64 (version_of sh key + 1) in
  (v, mkCtx (mkShard (data sh) (ttlKeys sh) (<[key := v]> (versions sh)))
            (sc_count c) (sc_evicted c)).

Definition versionLocked (key : string) : SH Z := gets (λ c, version_of (sc_shard c) key).

Definition deleteEntryLocked (key : string) : SH unit := modify (λ c,
  let sh := sc_shard c in
  let count := match data sh !! key with Some _ => sc_count c - 1 | None => sc_count c end in
  mkCtx (mkShard (delete key (data sh)) (ttlKeys sh ∖ {[key]}) (versions sh))
        count (sc_evicted c)).

Definition getForWriteLocked (key : string) (now : time) : SH (option Entry) :=
  let! oe := gets (λ c, sc_data c !! key) in
  match oe with
  | None => ret None
  | Some e =>
      if expired e now then
        (deleteEntryLocked key ;; bumpVersionLocked key ;; ret None)
      else ret (Some e)
  end.

Definition index_ttl (key : string) (at_ : option time) (ks : gset string) : gset string :=
  match at_ with Some _ => {[key]} ∪ ks | None => ks ∖ {[key]} end.

Definition setEntryLocked (key : string) (e : Entry) : SH unit :=
  modify (λ c,
    let sh := sc_shard c in
    let count := match data sh !! key with None => sc_count c + 1 | Some _ => sc_count c end in
    mkCtx (mkShard (<[key := e]> (data sh)) (index_ttl key (e_ExpiresAt e) (ttlKeys sh)) (versions sh))
          count (sc_evicted c)) ;;
  bumpVersionLocked key ;; ret tt.

(** A write through the entry pointer [e] held under [key]. *)
Definition storeEntry (key : string) (e : Entry) : SH unit := modify (λ c,
  let sh := sc_shard c in
  mkCtx (mkShard (<[key := e]> (data sh)) (ttlKeys sh) (versions sh)) (sc_count c) (sc_evicted c)).

Definition setExpiryLocked (key : string) (e : Entry) (at_ : option time) : SH unit :=
  storeEntry key (set_ExpiresAt at_ e) ;;
  modify (λ c,
    let sh := sc_shard c in
    mkCtx (mkShard (data sh) (index_ttl key at_ (ttlKeys sh)) (versions sh)) (sc_count c) (sc_evicted c)) ;;
  bumpVersionLocked key ;; ret tt.

(** The loop of [sweepSampleLocked] over the keys of [ttlKeys] in the visited
    order; [sampleSize] bounds the number of keys examined. *)
Fixpoint sweep_loop (keys : list string) (sampleSize examined removed : Z) (now : time) : SH Z :=
  match keys with
  | [] => ret removed
  | key :: keys =>
      if sampleSize <=? examined then ret removed
      else
        let! oe := gets (λ c, sc_data c !! key) in
        match oe with
        | Some e =>
            if expired e now then
              (deleteEntryLocked key ;; bumpVersionLocked key ;;
               sweep_loop keys sampleSize (examined + 1) (removed + 1) now)
            else sweep_loop keys sampleSize (examined + 1) removed now
        | None => sweep_loop keys sampleSize (examined + 1) removed now
        end
  end.
Definition sweepSampleLocked (order : gset string → list string) (sampleSize : Z) (now : time) : SH Z :=
  let! ks := gets (λ c, ttlKeys (sc_shard c)) in
  sweep_loop (order ks) sampleSize 0 0 now.

(** The signals an entry is scored by. *)
Definition entry_signals (e : Entry) (now : time) : Signals :=
  mkSignals (e_LastAccess e) now (e_AccessCount e) f64_zero f64_zero.

(** The loop of [pickEvictionVictimLocked] over the entries in the visited
    order; the accumulator is [(victimKey, victimScore)] once [haveVictim]. *)
Fixpoint victim_loop (p : Policy) (now : time) (sampleSize examined : Z)
    (best : option (string * float64)) (l : list (string * Entry)) : option (string * float64) :=
  match l with
  | [] => best
  | (key, e) :: l =>
      if sampleSize <=? examined then best
      else
        let score := Score p (entry_signals e now) in
        let best' := match best with
                     | None => Some (key, score)
                     | Some (_, victimScore) =>
                         if f64_lt victimScore score then Some (key, score) else best
                     end in
        victim_loop p now sampleSize (examined + 1) best' l
  end.
Definition pickEvictionVictimLocked (order : gmap string Entry → list (string * Entry))
    (p : Policy) (now : time) (sampleSize : Z) : SH string :=
  gets (λ c, match victim_loop p now sampleSize 0 None (order (sc_data c)) with
             | Some (key, _) => key
             | None => ""
             end).
