(* ===== verification/Store.v ===== *)
(** * The sharded store (internal/storage/memstore/store.go): routing,
    eviction and the key-space operations

    Every operation takes [now], the reading of [s.now()] the Go method makes,
    and, where it may evict, the order in which the runtime ranges over the
    receiving shard.  [withShard ck m] is the lock, [m] on the shard [ck]
    routes to, and the deferred unlock. *)

From S2P Require Import Prelude.
From S2P Require Import GoStd.
From S2P Require Import Glob.
From S2P Require Import Eviction.
From S2P Require Import Shard.

Open Scope Z_scope.
Open Scope go_scope.

Record Store := mkStore {
  shards : list shard;
  entryCount : Z;
  maxEntries : Z;
  policy : Policy;
  evictions : Z;          (** calls of [onEvict] so far *)
}.

Definition StoreM (A : Type) : Type := ST Store A.

(** The order in which a range over a shard's [data] visits it. *)
Definition DataOrder : Type := gmap string Entry → list (string * Entry).

Definition defaultNumShards : Z := 32.
Definition evictionSampleSize : Z := 20.

(** [newStore] with the bound and the policy its options have set; the reaper
    it starts is in Ttl.v. *)
Definition newStore (numShards : Z) (maxEntries : Z) (p : option Policy) : Store :=
  let n := if numShards <=? 0 then defaultNumShards else numShards in
  mkStore (replicate (Z.to_nat n) newShard) 0 maxEntries (default LRU p) 0.

Module memstore.
(** The functional options; a nil policy is ignored.  [WithOnEvict] installs a
    counter of evictions, which is [evictions]. *)
Definition Option : Type := Store → Store.
Definition WithMaxEntries (n : Z) : Option := λ s, mkStore (shards s) (entryCount s) n (policy s) (evictions s).
Definition WithEvictionPolicy (p : option Policy) : Option := λ s,
  match p with
  | Some p => mkStore (shards s) (entryCount s) (maxEntries s) p (evictions s)
  | None => s
  end.
Definition New (numShards : Z) (opts : list Option) : Store := foldl (λ s opt, opt s) (newStore numShards 0 None) opts.
End memstore.

Definition EntryCount : StoreM Z := gets entryCount.
Definition NumShards (s : Store) : Z := len (shards s).

(** ** Key routing *)

Definition nsKey (workspace key : string) : string := workspace +:+ String NUL key.

Definition shardIndex (n : Z) (ck : string) : nat := Z.to_nat (fnv32a ck `mod` wrapu32 n).

Definition openShard (i : nat) (s : Store) : shardCtx :=
  mkCtx (shards s !!! i) (entryCount s) (evictions s).
Definition closeShard (i : nat) (c : shardCtx) (s : Store) : Store :=
  mkStore (<[i := sc_shard c]> (shards s)) (sc_count c) (maxEntries s) (policy s) (sc_evicted c).
Definition onShard {A} (i : nat) (m : SH A) : StoreM A := λ s,
  let '(a, c) := m (openShard i s) in (a, closeShard i c s).
Definition withShard {A} (ck : string) (m : Store → SH A) : StoreM A := λ s,
  onShard (shardIndex (NumShards s) ck) (m s) s.

Definition normalizeIndex (idx n : Z) : Z := if idx <? 0 then n + idx else idx.

(** [xs[start:stop+1]] for in-range bounds. *)
Definition slice {A} (start stop : Z) (l : list A) : list A :=
  take (Z.to_nat (stop - start + 1)) (drop (Z.to_nat start) l).

(** The bounds handling LRange, ZRange and ZRevRange share. *)
Definition rangeOf {A} (start stop : Z) (l : list A) : list A :=
  let n := len l in
  let start := normalizeIndex start n in
  let stop := normalizeIndex stop n in
  let start := if start <? 0 then 0 else start in
  let stop := if n <=? stop then n - 1 else stop in
  if (stop <? start) || (n =? 0) then [] else slice start stop l.

(** ** Eviction *)

Definition evictIfNeededLocked (s : Store) (order : DataOrder) (now : time) : SH unit :=
  if maxEntries s <=? 0 then ret tt
  else
    let! count := gets sc_count in
    if count + 1 <=? maxEntries s then ret tt
    else
      let! victim := pickEvictionVictimLocked order (policy s) now evictionSampleSize in
      if String.eqb victim "" then ret tt
      else
        (deleteEntryLocked victim ;;
         bumpVersionLocked victim ;;
         modify (λ c, mkCtx (sc_shard c) (sc_count c) (sc_evicted c + 1))).

Definition newEmptyEntry (kind : Kind) (now : time) : Entry :=
  mkEntry kind nilb ∅ [] ∅ ∅ None now 0.

Definition ensureKind (s : Store) (order : DataOrder) (ck : string) (kind : Kind) (now : time)
    : SH (result Entry) :=
  let! oe := getForWriteLocked ck now in
  match oe with
  | None =>
      evictIfNeededLocked s order now ;;
      let e := newEmptyEntry kind now in
      (setEntryLocked ck e ;; ret (Ok e))
  | Some e => if decide (e_Kind e = kind) then ret (Ok e) else ret (Error ErrWrongType)
  end.

(** The opening of every typed read: the live entry, [absent] without one,
    [ErrWrongType] for one of another kind. *)
Definition onKind {A} (ck : string) (kind : Kind) (now : time) (absent : result A)
    (k : Entry → SH (result A)) : SH (result A) :=
  let! oe := getForWriteLocked ck now in
  match oe with
  | None => ret absent
  | Some e => if decide (e_Kind e = kind) then k e else ret (Error ErrWrongType)
  end.

(** The opening of every creating write. *)
Definition onEnsured {A} (s : Store) (order : DataOrder) (ck : string) (kind : Kind) (now : time)
    (k : Entry → SH (result A)) : SH (result A) :=
  let! re := ensureKind s order ck kind now in
  match re with
  | Error err => ret (Error err)
  | Ok e => k e
  end.

(** ** Generic key operations *)

Definition Get (now : time) (workspace key : string) : StoreM (result (gobytes * bool)) :=
  let ck := nsKey workspace key in
  withShard ck (λ _, onKind ck KindString now (Ok (nilb, false)) (λ e,
    storeEntry ck (touch now e) ;;
    ret (Ok (clone (e_StringVal e), true)))).

Record SetOpts := mkSetOpts {
  so_TTL : duration;
  so_OnlyIfNX : bool;
  so_OnlyIfXX : bool;
  so_GetOld : bool;
}.
Definition noOpts : SetOpts := mkSetOpts 0 false false false.

Definition Set_ (now : time) (order : DataOrder) (workspace key : string) (val : gobytes) (opts : SetOpts)
    : StoreM (result (bool * gobytes * bool)) :=
  let ck := nsKey workspace key in
  withShard ck (λ s,
    let! existing := getForWriteLocked ck now in
    let exists_ := bool_decide (is_Some existing) in
    let wrongType := match existing with
                     | Some e => so_GetOld opts && bool_decide (e_Kind e ≠ KindString)
                     | None => false
                     end in
    if wrongType then ret (Error ErrWrongType) else
    let '(prevVal, hadPrev) := match existing with
                               | Some e => if so_GetOld opts then (clone (e_StringVal e), true)
                                           else (nilb, false)
                               | None => (nilb, false)
                               end in
    if so_OnlyIfNX opts && exists_ then ret (Ok (false, prevVal, hadPrev)) else
    if so_OnlyIfXX opts && negb exists_ then ret (Ok (false, prevVal, hadPrev)) else
    let expiresAt := if 0 <? so_TTL opts then Some (time_Add now (so_TTL opts)) else None in
    (if exists_ then ret tt else evictIfNeededLocked s order now) ;;
    let e := mkEntry KindString (clone val) ∅ [] ∅ ∅ expiresAt now 1 in
    (setEntryLocked ck e ;;
     ret (Ok (true, prevVal, hadPrev)))).

Fixpoint Del_loop (now : time) (workspace : string) (keys : list string) (deleted : Z) : StoreM Z :=
  match keys with
  | [] => ret deleted
  | key :: keys =>
      let ck := nsKey workspace key in
      let! d := withShard ck (λ _,
        let! oe := getForWriteLocked ck now in
        match oe with
        | Some _ => deleteEntryLocked ck ;; bumpVersionLocked ck ;; ret 1
        | None => ret 0
        end) in
      Del_loop now workspace keys (deleted + d)
  end.
Definition Del (now : time) (workspace : string) (keys : list string) : StoreM Z :=
  Del_loop now workspace keys 0.

Fixpoint Exists_loop (now : time) (workspace : string) (keys : list string) (count : Z) : StoreM Z :=
  match keys with
  | [] => ret count
  | key :: keys =>
      let ck := nsKey workspace key in
      let! oe := withShard ck (λ _, get ck now) in
      Exists_loop now workspace keys (match oe with Some _ => count + 1 | None => count end)
  end.
Definition Exists (now : time) (workspace : string) (keys : list string) : StoreM Z :=
  Exists_loop now workspace keys 0.

Definition Expire (now : time) (workspace key : string) (ttlDur : duration) : StoreM bool :=
  let ck := nsKey workspace key in
  withShard ck (λ _,
    let! oe := getForWriteLocked ck now in
    match oe with
    | None => ret false
    | Some e =>
        if ttlDur <=? 0 then (deleteEntryLocked ck ;; bumpVersionLocked ck ;; ret true)
        else (setExpiryLocked ck e (Some (time_Add now ttlDur)) ;; ret true)
    end).

(** [(remaining, hasTTL, exists)] *)
Definition TTL (now : time) (workspace key : string) : StoreM (duration * bool * bool) :=
  let ck := nsKey workspace key in
  withShard ck (λ _,
    let! oe := getForWriteLocked ck now in
    ret match oe with
        | None => (0, false, false)
        | Some e =>
            match e_ExpiresAt e with
            | None => (0, false, true)
            | Some t =>
                let remaining := time_Sub t now in
                (if remaining <? 0 then 0 else remaining, true, true)
            end
        end).

Definition Persist (now : time) (workspace key : string) : StoreM bool :=
  let ck := nsKey workspace key in
  withShard ck (λ _,
    let! oe := getForWriteLocked ck now in
    match oe with
    | None => ret false
    | Some e =>
        match e_ExpiresAt e with
        | None => ret false
        | Some _ => setExpiryLocked ck e None ;; ret true
        end
    end).

Definition Type_ (now : time) (workspace key : string) : StoreM (string * bool) :=
  let ck := nsKey workspace key in
  withShard ck (λ _,
    let! oe := get ck now in
    ret match oe with
        | None => ("", false)
        | Some e => (Kind_String (e_Kind e), true)
        end).

(** The two branches of [Rename]: one shard, or two (locked in index order). *)
Definition Rename (now : time) (workspace oldKey newKey : string) : StoreM bool := λ s,
  let ock := nsKey workspace oldKey in
  let nck := nsKey workspace newKey in
  let oi := shardIndex (NumShards s) ock in
  let ni := shardIndex (NumShards s) nck in
  (if decide (oi = ni) then
     onShard oi (
       let! oe := getForWriteLocked ock now in
       match oe with
       | None => ret false
       | Some e => deleteEntryLocked ock ;; setEntryLocked nck e ;; bumpVersionLocked ock ;; ret true
       end)
   else
     let! oe := onShard oi (getForWriteLocked ock now) in
     match oe with
     | None => ret false
     | Some e =>
         onShard oi (deleteEntryLocked ock) ;;
         onShard ni (setEntryLocked nck e) ;;
         onShard oi (bumpVersionLocked ock) ;;
         ret true
     end) s.

(** [workspace + "\x00"] *)
Definition wsPrefix (workspace : string) : string := workspace +:+ String NUL "".

(** The keys of one shard that are live and in the workspace; the order is
    irrelevant, both callers sort. *)
Definition shardKeys (workspace : string) (now : time) (sh : shard) : list string :=
  omap (λ '(ck, e), match strip_prefix (wsPrefix workspace) ck with
                    | None => None
                    | Some k => if expired e now then None else Some k
                    end) (map_to_list (data sh)).
Definition keysForWorkspace (workspace : string) (now : time) (s : Store) : list string :=
  concat (shardKeys workspace now <$> shards s).

Definition Keys (now : time) (workspace pattern : string) : StoreM (list string) := gets (λ s,
  let all := keysForWorkspace workspace now s in
  if String.eqb pattern "" || String.eqb pattern "*" then sort_Strings all
  else sort_Strings (filter (λ k, globMatch pattern k = true) all)).

Definition Scan (now : time) (workspace : string) (cursor : Z) (match_ : string) (count : Z)
    : StoreM (Z * list string) := gets (λ s,
  let count := if count <=? 0 then 10 else count in
  let all := sort_Strings (keysForWorkspace workspace now s) in
  if len all <=? cursor then (0, [])
  else
    let end_ := wrapu64 (cursor + count) in
    let end_ := if len all <? end_ then len all else end_ in
    let out := filter (λ k, match_ = "" ∨ match_ = "*" ∨ globMatch match_ k = true)
                      (slice cursor (end_ - 1) all) in
    (if len all <=? end_ then 0 else end_, out)).

(** The inner loop of [FlushDB]: deleting while ranging visits every key once. *)
Fixpoint flush_loop (workspace : string) (keys : list string) : SH unit :=
  match keys with
  | [] => ret tt
  | ck :: keys =>
      match strip_prefix (wsPrefix workspace) ck with
      | Some _ => deleteEntryLocked ck ;; bumpVersionLocked ck ;; flush_loop workspace keys
      | None => flush_loop workspace keys
      end
  end.
Definition flushShard (workspace : string) : SH unit :=
  let! keys := gets (λ c, (map_to_list (sc_data c)).*1) in flush_loop workspace keys.
Fixpoint FlushDB_loop (workspace : string) (is_ : list nat) : StoreM unit :=
  match is_ with
  | [] => ret tt
  | i :: is_ => onShard i (flushShard workspace) ;; FlushDB_loop workspace is_
  end.
Definition FlushDB (workspace : string) : StoreM unit := λ s,
  FlushDB_loop workspace (seq 0 (length (shards s))) s.

(** ** Transactions and the reaper's entry point *)

Definition WatchVersion (workspace key : string) : StoreM Z :=
  let ck := nsKey workspace key in withShard ck (λ _, versionLocked ck).

(** [Exec] runs [fn] while holding the transaction mutex. *)
Definition Exec {A} (fn : StoreM A) : StoreM A := fn.

Definition SweepShard (now : time) (order : gset string → list string) (i : nat) (sampleSize : Z)
    : StoreM Z := onShard i (sweepSampleLocked order sampleSize now).
