(* ===== verification/StoreHash.v ===== *)
(** * Hash operations of the store (memstore/store.go, section "hash") *)

From S2P Require Import Prelude.
From S2P Require Import GoStd.
From S2P Require Import Shard.
From S2P Require Import Store.

Open Scope Z_scope.
Open Scope go_scope.

(** [fields] is a map in Go; distinct keys make its range order irrelevant. *)
Definition HSet (now : time) (order : DataOrder) (workspace key : string) (fields : gmap string gobytes)
    : StoreM (result Z) :=
  let ck := nsKey workspace key in
  withShard ck (λ s, onEnsured s order ck KindHash now (λ e,
    let '(h, added) := put_loop clone (map_to_list fields) (e_Hash e) 0 in
    storeEntry ck (touch now (set_Hash h e)) ;;
    bumpVersionLocked ck ;;
    ret (Ok added))).

Definition HGet (now : time) (workspace key field : string) : StoreM (result (gobytes * bool)) :=
  let ck := nsKey workspace key in
  withShard ck (λ _, onKind ck KindHash now (Ok (nilb, false)) (λ e,
    match e_Hash e !! field with
    | None => ret (Ok (nilb, false))
    | Some v => storeEntry ck (touch now e) ;; ret (Ok (clone v, true))
    end)).

(** [(map, found)]; the nil map of the not-found case is the empty one. *)
Definition HGetAll (now : time) (workspace key : string) : StoreM (result (gmap string gobytes * bool)) :=
  let ck := nsKey workspace key in
  withShard ck (λ _, onKind ck KindHash now (Ok (∅, false)) (λ e,
    ret (Ok (clone <$> e_Hash e, true)))).

Definition HDel (now : time) (workspace key : string) (fields : list string) : StoreM (result Z) :=
  let ck := nsKey workspace key in
  withShard ck (λ _, onKind ck KindHash now (Ok 0) (λ e,
    let '(h, removed) := remove_loop fields (e_Hash e) 0 in
    storeEntry ck (set_Hash h e) ;;
    (if 0 <? removed then
       ((if decide (size h = 0%nat) then deleteEntryLocked ck else ret tt) ;;
        bumpVersionLocked ck ;; ret tt)
     else ret tt) ;;
    ret (Ok removed))).

Definition HExists (now : time) (workspace key field : string) : StoreM (result bool) :=
  let ck := nsKey workspace key in
  withShard ck (λ _, onKind ck KindHash now (Ok false) (λ e,
    ret (Ok (bool_decide (is_Some (e_Hash e !! field)))))).

Definition sorted_keys {A} (m : gmap string A) : list string := sort_Strings (map_to_list m).*1.

Definition HKeys (now : time) (workspace key : string) : StoreM (result (list string * bool)) :=
  let ck := nsKey workspace key in
  withShard ck (λ _, onKind ck KindHash now (Ok ([], false)) (λ e,
    ret (Ok (sorted_keys (e_Hash e), true)))).

Definition HVals (now : time) (workspace key : string) : StoreM (result (list gobytes * bool)) :=
  let ck := nsKey workspace key in
  withShard ck (λ _, onKind ck KindHash now (Ok ([], false)) (λ e,
    ret (Ok ((λ k, clone (default nilb (e_Hash e !! k))) <$> sorted_keys (e_Hash e), true)))).

Definition HLen (now : time) (workspace key : string) : StoreM (result Z) :=
  let ck := nsKey workspace key in
  withShard ck (λ _, onKind ck KindHash now (Ok 0) (λ e,
    ret (Ok (Z.of_nat (size (e_Hash e)))))).

(** [make([][]byte, len(fields))] holds nil slices. *)
Definition HMGet (now : time) (workspace key : string) (fields : list string) : StoreM (result (list gobytes)) :=
  let ck := nsKey workspace key in
  withShard ck (λ _, onKind ck KindHash now (Ok (replicate (length fields) nilb)) (λ e,
    ret (Ok ((λ f, match e_Hash e !! f with Some v => clone v | None => nilb end) <$> fields)))).

Definition HIncrBy (now : time) (order : DataOrder) (workspace key field : string) (delta : Z)
    : StoreM (result Z) :=
  let ck := nsKey workspace key in
  withShard ck (λ s, onEnsured s order ck KindHash now (λ e,
    match (match e_Hash e !! field with
           | Some v => ParseInt (bytes_of v)
           | None => Some 0
           end) with
    | None => ret (Error ErrNotInteger)
    | Some cur =>
        let cur := wrap64 (cur + delta) in
        storeEntry ck (touch now (set_Hash (<[field := to_bytes (FormatInt cur)]> (e_Hash e)) e)) ;;
        bumpVersionLocked ck ;;
        ret (Ok cur)
    end)).
