(* ===== verification/StoreList.v ===== *)
(** * List operations of the store (memstore/store.go, section "list") *)

From S2P Require Import Prelude.
From S2P Require Import GoStd.
From S2P Require Import Shard.
From S2P Require Import Store.

Open Scope Z_scope.
Open Scope go_scope.

Definition push_front (l : list gobytes) (vals : list gobytes) : list gobytes :=
  foldl (λ l v, clone v :: l) l vals.
Definition push_back (l : list gobytes) (vals : list gobytes) : list gobytes :=
  foldl (λ l v, l ++ [clone v]) l vals.

Definition LPush (now : time) (order : DataOrder) (workspace key : string) (vals : list gobytes)
    : StoreM (result Z) :=
  let ck := nsKey workspace key in
  withShard ck (λ s, onEnsured s order ck KindList now (λ e,
    let l := push_front (e_List e) vals in
    storeEntry ck (touch now (set_List l e)) ;;
    bumpVersionLocked ck ;;
    ret (Ok (len l)))).

Definition RPush (now : time) (order : DataOrder) (workspace key : string) (vals : list gobytes)
    : StoreM (result Z) :=
  let ck := nsKey workspace key in
  withShard ck (λ s, onEnsured s order ck KindList now (λ e,
    let l := push_back (e_List e) vals in
    storeEntry ck (touch now (set_List l e)) ;;
    bumpVersionLocked ck ;;
    ret (Ok (len l)))).

(** The common end of LPOP and RPOP: keep [l], delete the key when empty. *)
Definition popTo (ck : string) (e : Entry) (l : list gobytes) (v : gobytes)
    : SH (result (gobytes * bool)) :=
  storeEntry ck (set_List l e) ;;
  (if decide (length l = 0%nat) then deleteEntryLocked ck else ret tt) ;;
  bumpVersionLocked ck ;;
  ret (Ok (v, true)).

Definition LPop (now : time) (workspace key : string) : StoreM (result (gobytes * bool)) :=
  let ck := nsKey workspace key in
  withShard ck (λ _, onKind ck KindList now (Ok (nilb, false)) (λ e,
    match e_List e with
    | [] => ret (Ok (nilb, false))
    | v :: l => popTo ck e l v
    end)).

Definition RPop (now : time) (workspace key : string) : StoreM (result (gobytes * bool)) :=
  let ck := nsKey workspace key in
  withShard ck (λ _, onKind ck KindList now (Ok (nilb, false)) (λ e,
    match last (e_List e) with
    | None => ret (Ok (nilb, false))
    | Some v => popTo ck e (take (length (e_List e) - 1) (e_List e)) v
    end)).

Definition LRange (now : time) (workspace key : string) (start stop : Z) : StoreM (result (list gobytes)) :=
  let ck := nsKey workspace key in
  withShard ck (λ _, onKind ck KindList now (Ok []) (λ e,
    ret (Ok (clone <$> rangeOf start stop (e_List e))))).

Definition LLen (now : time) (workspace key : string) : StoreM (result Z) :=
  let ck := nsKey workspace key in
  withShard ck (λ _, onKind ck KindList now (Ok 0) (λ e, ret (Ok (len (e_List e))))).

Definition LIndex (now : time) (workspace key : string) (index : Z) : StoreM (result (gobytes * bool)) :=
  let ck := nsKey workspace key in
  withShard ck (λ _, onKind ck KindList now (Ok (nilb, false)) (λ e,
    let n := len (e_List e) in
    let idx := normalizeIndex index n in
    if (idx <? 0) || (n <=? idx) then ret (Ok (nilb, false))
    else ret (Ok (clone (default nilb (e_List e !! Z.to_nat idx)), true)))).

Definition LSet (now : time) (workspace key : string) (index : Z) (val : gobytes) : StoreM (result unit) :=
  let ck := nsKey workspace key in
  withShard ck (λ _, onKind ck KindList now (Error ErrNoSuchKey) (λ e,
    let n := len (e_List e) in
    let idx := normalizeIndex index n in
    if (idx <? 0) || (n <=? idx) then ret (Error ErrIndexOutOfRange)
    else
      (storeEntry ck (set_List (<[Z.to_nat idx := clone val]> (e_List e)) e) ;;
       bumpVersionLocked ck ;;
       ret (Ok tt)))).

(** One pass of LREM: drops the values equal to [val] while [more removed]. *)
Fixpoint lrem_loop (more : Z → bool) (val : gobytes) (l : list gobytes) (removed : Z)
    : list gobytes * Z :=
  match l with
  | [] => ([], removed)
  | v :: l =>
      if bytes_equal v val && more removed then lrem_loop more val l (removed + 1)
      else let '(out, r) := lrem_loop more val l removed in (v :: out, r)
  end.

(** A negative count works from the tail; [-count] wraps on the least int. *)
Definition lrem (count : Z) (val : gobytes) (l : list gobytes) : list gobytes * Z :=
  if 0 <=? count then
    lrem_loop (λ removed, (count =? 0) || (removed <? count)) val l 0
  else
    let limit := wrap64 (- count) in
    let '(tmp, removed) := lrem_loop (λ removed, removed <? limit) val (reverse l) 0 in
    (reverse tmp, removed).

Definition LRem (now : time) (workspace key : string) (count : Z) (val : gobytes) : StoreM (result Z) :=
  let ck := nsKey workspace key in
  withShard ck (λ _, onKind ck KindList now (Ok 0) (λ e,
    let '(out, removed) := lrem count val (e_List e) in
    storeEntry ck (set_List out e) ;;
    (if 0 <? removed then
       ((if decide (length out = 0%nat) then deleteEntryLocked ck else ret tt) ;;
        bumpVersionLocked ck ;; ret tt)
     else ret tt) ;;
    ret (Ok removed))).
