(* ===== verification/StoreSet.v ===== *)
(** * Set operations of the store (memstore/store.go, section "set")

    Slices built by ranging over a set come out in the runtime's order, which
    is the argument [order]. *)

From S2P Require Import Prelude.
From S2P Require Import GoStd.
From S2P Require Import Shard.
From S2P Require Import Store.

Open Scope Z_scope.
Open Scope go_scope.

Definition SetOrder : Type := gset string → list string.

Fixpoint sadd_loop (members : list gobytes) (s : gset string) (added : Z) : gset string * Z :=
  match members with
  | [] => (s, added)
  | m :: members =>
      let k := bytes_of m in
      if decide (k ∈ s) then sadd_loop members s added
      else sadd_loop members ({[k]} ∪ s) (added + 1)
  end.

Definition SAdd (now : time) (order : DataOrder) (workspace key : string) (members : list gobytes)
    : StoreM (result Z) :=
  let ck := nsKey workspace key in
  withShard ck (λ s, onEnsured s order ck KindSet now (λ e,
    let '(st, added) := sadd_loop members (e_Set e) 0 in
    storeEntry ck (touch now (set_Set st e)) ;;
    bumpVersionLocked ck ;;
    ret (Ok added))).

Fixpoint srem_loop (members : list gobytes) (s : gset string) (removed : Z) : gset string * Z :=
  match members with
  | [] => (s, removed)
  | m :: members =>
      let k := bytes_of m in
      if decide (k ∈ s) then srem_loop members (s ∖ {[k]}) (removed + 1)
      else srem_loop members s removed
  end.

Definition SRem (now : time) (workspace key : string) (members : list gobytes) : StoreM (result Z) :=
  let ck := nsKey workspace key in
  withShard ck (λ _, onKind ck KindSet now (Ok 0) (λ e,
    let '(st, removed) := srem_loop members (e_Set e) 0 in
    storeEntry ck (set_Set st e) ;;
    (if 0 <? removed then
       ((if decide (size st = 0%nat) then deleteEntryLocked ck else ret tt) ;;
        bumpVersionLocked ck ;; ret tt)
     else ret tt) ;;
    ret (Ok removed))).

Definition setToBytes (order : SetOrder) (m : gset string) : list gobytes := to_bytes <$> order m.

Definition SMembers (now : time) (order : SetOrder) (workspace key : string) : StoreM (result (list gobytes)) :=
  let ck := nsKey workspace key in
  withShard ck (λ _, onKind ck KindSet now (Ok []) (λ e,
    ret (Ok (to_bytes <$> order (e_Set e))))).

Definition SIsMember (now : time) (workspace key : string) (member : gobytes) : StoreM (result bool) :=
  let ck := nsKey workspace key in
  withShard ck (λ _, onKind ck KindSet now (Ok false) (λ e,
    ret (Ok (bool_decide (bytes_of member ∈ e_Set e))))).

Definition SCard (now : time) (workspace key : string) : StoreM (result Z) :=
  let ck := nsKey workspace key in
  withShard ck (λ _, onKind ck KindSet now (Ok 0) (λ e, ret (Ok (Z.of_nat (size (e_Set e)))))).

(** The nil map of an absent key reads as the empty set. *)
Definition setSnapshot (now : time) (workspace key : string) : StoreM (result (gset string)) :=
  let ck := nsKey workspace key in
  withShard ck (λ _, onKind ck KindSet now (Ok ∅) (λ e, ret (Ok (e_Set e)))).

(** Each snapshot reads the clock: [nows i] is the reading for the [i]-th key.
    The loop folds the snapshots of [keys] into [result] with [f]. *)
Fixpoint snapshots_loop (f : gset string → gset string → gset string) (nows : nat → time) (i : nat)
    (workspace : string) (keys : list string) (result_ : gset string) : StoreM (result (gset string)) :=
  match keys with
  | [] => ret (Ok result_)
  | k :: keys =>
      let! r := setSnapshot (nows i) workspace k in
      match r with
      | Error err => ret (Error err)
      | Ok snap => snapshots_loop f nows (S i) workspace keys (f result_ snap)
      end
  end.

Definition first_then (f : gset string → gset string → gset string) (nows : nat → time)
    (order : SetOrder) (workspace : string) (keys : list string) : StoreM (result (list gobytes)) :=
  match keys with
  | [] => ret (Ok [])
  | k :: keys =>
      let! r := setSnapshot (nows 0%nat) workspace k in
      match r with
      | Error err => ret (Error err)
      | Ok first =>
          let! r := snapshots_loop f nows 1 workspace keys first in
          ret match r with
              | Error err => Error err
              | Ok st => Ok (setToBytes order st)
              end
      end
  end.

Definition SInter (nows : nat → time) (order : SetOrder) (workspace : string) (keys : list string)
    : StoreM (result (list gobytes)) := first_then (λ r snap, r ∩ snap) nows order workspace keys.

Definition SUnion (nows : nat → time) (order : SetOrder) (workspace : string) (keys : list string)
    : StoreM (result (list gobytes)) :=
  let! r := snapshots_loop (λ r snap, r ∪ snap) nows 0 workspace keys ∅ in
  ret match r with
      | Error err => Error err
      | Ok st => Ok (setToBytes order st)
      end.

Definition SDiff (nows : nat → time) (order : SetOrder) (workspace : string) (keys : list string)
    : StoreM (result (list gobytes)) := first_then (λ r snap, r ∖ snap) nows order workspace keys.
