(* ===== verification/StoreZSet.v ===== *)
(** * Sorted-set operations of the store (memstore/store.go, section "sorted set") *)

From S2P Require Import Prelude.
From S2P Require Import GoStd.
From S2P Require Import Shard.
From S2P Require Import Store.

Open Scope Z_scope.
Open Scope go_scope.

(** storage.ZMember *)
Record ZMember := mkZMember { zm_Member : string; zm_Score : float64 }.

(** The [less] of [sortedMembers]: score, then member. *)
Definition str_lt (a b : string) : bool := String.ltb a b.
Definition zless (a b : ZMember) : bool :=
  if negb (f64_eq (zm_Score a) (zm_Score b)) then f64_lt (zm_Score a) (zm_Score b)
  else str_lt (zm_Member a) (zm_Member b).

Definition zset_members (z : gmap string float64) : list ZMember :=
  (λ '(m, sc), mkZMember m sc) <$> map_to_list z.
Definition sortedMembers (e : Entry) : list ZMember := sort_Slice zless (zset_members (e_ZSet e)).

Definition ZAdd (now : time) (order : DataOrder) (workspace key : string) (members : gmap string float64)
    : StoreM (result Z) :=
  let ck := nsKey workspace key in
  withShard ck (λ s, onEnsured s order ck KindZSet now (λ e,
    let '(z, added) := put_loop id (map_to_list members) (e_ZSet e) 0 in
    storeEntry ck (touch now (set_ZSet z e)) ;;
    bumpVersionLocked ck ;;
    ret (Ok added))).

Definition ZRem (now : time) (workspace key : string) (members : list string) : StoreM (result Z) :=
  let ck := nsKey workspace key in
  withShard ck (λ _, onKind ck KindZSet now (Ok 0) (λ e,
    let '(z, removed) := remove_loop members (e_ZSet e) 0 in
    storeEntry ck (set_ZSet z e) ;;
    (if 0 <? removed then
       ((if decide (size z = 0%nat) then deleteEntryLocked ck else ret tt) ;;
        bumpVersionLocked ck ;; ret tt)
     else ret tt) ;;
    ret (Ok removed))).

Definition ZRange (now : time) (workspace key : string) (start stop : Z) (withScores : bool)
    : StoreM (result (list ZMember)) :=
  let ck := nsKey workspace key in
  withShard ck (λ _, onKind ck KindZSet now (Ok []) (λ e,
    ret (Ok (rangeOf start stop (sortedMembers e))))).

Definition ZRevRange (now : time) (workspace key : string) (start stop : Z) (withScores : bool)
    : StoreM (result (list ZMember)) :=
  let ck := nsKey workspace key in
  withShard ck (λ _, onKind ck KindZSet now (Ok []) (λ e,
    ret (Ok (rangeOf start stop (reverse (sortedMembers e)))))).

Definition ZScore (now : time) (workspace key member : string) : StoreM (result (float64 * bool)) :=
  let ck := nsKey workspace key in
  withShard ck (λ _, onKind ck KindZSet now (Ok (f64_zero, false)) (λ e,
    ret (Ok match e_ZSet e !! member with
            | Some sc => (sc, true)
            | None => (f64_zero, false)
            end))).

(** The loop of [ZRank]: the first position holding [member]. *)
Fixpoint zrank_loop (member : string) (all : list ZMember) (i : Z) : Z * bool :=
  match all with
  | [] => (0, false)
  | m :: all => if String.eqb (zm_Member m) member then (i, true) else zrank_loop member all (i + 1)
  end.

Definition ZRank (now : time) (workspace key member : string) : StoreM (result (Z * bool)) :=
  let ck := nsKey workspace key in
  withShard ck (λ _, onKind ck KindZSet now (Ok (0, false)) (λ e,
    match e_ZSet e !! member with
    | None => ret (Ok (0, false))
    | Some _ => ret (Ok (zrank_loop member (sortedMembers e) 0))
    end)).

Definition ZCard (now : time) (workspace key : string) : StoreM (result Z) :=
  let ck := nsKey workspace key in
  withShard ck (λ _, onKind ck KindZSet now (Ok 0) (λ e, ret (Ok (Z.of_nat (size (e_ZSet e)))))).

Definition ZIncrBy (now : time) (order : DataOrder) (workspace key member : string) (delta : float64)
    : StoreM (result float64) :=
  let ck := nsKey workspace key in
  withShard ck (λ s, onEnsured s order ck KindZSet now (λ e,
    let score := f64_add (default f64_zero (e_ZSet e !! member)) delta in
    storeEntry ck (set_ZSet (<[member := score]> (e_ZSet e)) e) ;;
    bumpVersionLocked ck ;;
    ret (Ok score))).

Definition ZRangeByScore (now : time) (workspace key : string) (min max : float64)
    : StoreM (result (list ZMember)) :=
  let ck := nsKey workspace key in
  withShard ck (λ _, onKind ck KindZSet now (Ok []) (λ e,
    ret (Ok (filter (λ m, f64_le min (zm_Score m) && f64_le (zm_Score m) max = true) (sortedMembers e))))).
