(* ===== verification/ShardSpec.v ===== *)
(** * What a keyed operation promises

    [content] is the abstract value of a key: a tagged union and an expiry,
    or nothing.  [op_ok f] says that an operation on [ck] implements the
    function [f] on the content of [ck], keeps the shard well-formed and the
    entry count exact, leaves every other key alone
    (up to an eviction, when the bound [mx] on entries is positive) and
    moves the WATCH version of every key whose content it changes.  The rules
    below prove [op_ok] for the shapes the store's methods are written in. *)

From S2P Require Import Prelude.
From S2P Require Import GoStd.
From S2P Require Import Eviction.
From S2P Require Import Shard.
From S2P Require Import Store.

Open Scope Z_scope.
Open Scope go_scope.

(** ** Abstract values *)

Inductive Value :=
  | VNone
  | VString (b : gobytes)
  | VHash (h : gmap string gobytes)
  | VList (l : list gobytes)
  | VSet (s : gset string)
  | VZSet (z : gmap string float64).

#[export] Instance float64_eq_dec : EqDecision float64.
Proof. unfold float64. solve_decision. Defined.
#[export] Instance Value_eq_dec : EqDecision Value.
Proof. solve_decision. Defined.

Definition kind_of (v : Value) : Kind :=
  match v with
  | VNone => KindNone | VString _ => KindString | VHash _ => KindHash
  | VList _ => KindList | VSet _ => KindSet | VZSet _ => KindZSet
  end.
Definition value_of (e : Entry) : Value :=
  match e_Kind e with
  | KindNone => VNone
  | KindString => VString (e_StringVal e)
  | KindHash => VHash (e_Hash e)
  | KindList => VList (e_List e)
  | KindSet => VSet (e_Set e)
  | KindZSet => VZSet (e_ZSet e)
  end.
Definition as_string (v : Value) : gobytes := match v with VString b => b | _ => nilb end.
Definition as_hash (v : Value) : gmap string gobytes := match v with VHash h => h | _ => ∅ end.
Definition as_list (v : Value) : list gobytes := match v with VList l => l | _ => [] end.
Definition as_set (v : Value) : gset string := match v with VSet s => s | _ => ∅ end.
Definition as_zset (v : Value) : gmap string float64 := match v with VZSet z => z | _ => ∅ end.

(** The entry of a value: the fields of the other kinds are empty. *)
Definition entry_of (v : Value) (x : option time) (la : time) (ac : Z) : Entry :=
  mkEntry (kind_of v) (as_string v) (as_hash v) (as_list v) (as_set v) (as_zset v) x la ac.
Definition entry_wf (e : Entry) : Prop :=
  e = entry_of (value_of e) (e_ExpiresAt e) (e_LastAccess e) (e_AccessCount e).

Definition content : Type := option (Value * option time).
Definition content_of (oe : option Entry) : content := (λ e, (value_of e, e_ExpiresAt e)) <$> oe.
Definition live (now : time) (oe : option Entry) : content :=
  match oe with
  | Some e => if expired e now then None else content_of (Some e)
  | None => None
  end.

Lemma kind_of_value_of e : kind_of (value_of e) = e_Kind e.
Proof. by destruct e as [[] ? ? ? ? ? ? ? ?]. Qed.
Lemma value_of_entry_of v x la ac : value_of (entry_of v x la ac) = v.
Proof. by destruct v. Qed.
Lemma entry_of_wf v x la ac : entry_wf (entry_of v x la ac).
Proof. by destruct v. Qed.
#[export] Hint Resolve entry_of_wf : go.
#[export] Hint Rewrite kind_of_value_of value_of_entry_of : go.

(** ** Version counters *)

Definition bump1 (v : Z) : Z := wrapu64 (v + 1).
Definition ver_adv (lo hi : nat) (v v' : Z) : Prop :=
  ∃ n, (lo ≤ n ≤ hi)%nat ∧ v' = Nat.iter n bump1 v.

Lemma iter_plus_bump n m v : Nat.iter n bump1 (Nat.iter m bump1 v) = Nat.iter (n + m) bump1 v.
Proof. induction n; simpl; congruence. Qed.
Lemma ver_adv_refl hi v : ver_adv 0 hi v v.
Proof. exists 0%nat. split; [lia|done]. Qed.
Lemma ver_adv_trans l1 h1 l2 h2 a b c :
  ver_adv l1 h1 a b → ver_adv l2 h2 b c → ver_adv (l1 + l2) (h1 + h2) a c.
Proof.
  intros (n & ? & ->) (m & ? & ->). exists (m + n)%nat. rewrite iter_plus_bump. split; [lia|done].
Qed.
Lemma ver_adv_weaken l1 h1 l2 h2 a b :
  ver_adv l1 h1 a b → (l2 ≤ l1)%nat → (h1 ≤ h2)%nat → ver_adv l2 h2 a b.
Proof. intros (n & ? & ->) ??. exists n. split; [lia|done]. Qed.
#[export] Hint Resolve ver_adv_refl : go.

Lemma iter_bump1 n v : 0 ≤ v < 2 ^ 64 → Nat.iter n bump1 v = wrapu64 (v + Z.of_nat n).
Proof.
  intros Hv. unfold bump1, wrapu64. induction n as [|n IH]; simpl.
  - rewrite Z.add_0_r, Z.mod_small; lia.
  - rewrite IH, Zplus_mod_idemp_l. f_equal. lia.
Qed.
(** A counter that moved by at most [hi] steps has a new value. *)
Lemma ver_adv_ne lo hi v v' :
  ver_adv lo hi v v' → (1 ≤ lo)%nat → Z.of_nat hi < 2 ^ 64 → 0 ≤ v < 2 ^ 64 → v' ≠ v.
Proof.
  intros (n & Hn & ->) Hlo Hhi Hv. rewrite iter_bump1 by done. unfold wrapu64.
  destruct (Z.lt_ge_cases (v + Z.of_nat n) (2 ^ 64)).
  - rewrite Z.mod_small; lia.
  - rewrite <- (Z_mod_plus_full _ (-1)), Z.mod_small; lia.
Qed.

(** ** Well-formed shards *)

Definition has_ttl (oe : option Entry) : Prop := ∃ e, oe = Some e ∧ is_Some (e_ExpiresAt e).

Record shard_inv (P : string → Prop) (sh : shard) : Prop := {
  inv_ttl : ∀ k, k ∈ ttlKeys sh ↔ has_ttl (data sh !! k);
  inv_entry : ∀ k e, data sh !! k = Some e → entry_wf e ∧ P k;
  inv_ver : ∀ k, 0 ≤ version_of sh k < 2 ^ 64;
}.
Arguments inv_ttl {P sh}.
Arguments inv_entry {P sh}.
Arguments inv_ver {P sh}.

Lemma has_ttl_None : ¬ has_ttl None.
Proof. intros (e & ? & _). done. Qed.

Lemma newShard_inv P : shard_inv P newShard.
Proof.
  split; intros; [|done|].
  - unfold has_ttl, newShard; cbn [ttlKeys data]. rewrite elem_of_empty, lookup_empty.
    split; [done|]. by intros (e & ? & _).
  - unfold version_of. simpl. rewrite lookup_empty. simpl. lia.
Qed.

Abbreviation surplus c := (sc_count c - Z.of_nat (size (sc_data c))).

(** ** The effect of a group of writes to one key *)

Record wrote (ck : string) (oe : option Entry) (j : nat) (c c' : shardCtx) : Prop := {
  wrote_data : sc_data c' = partial_alter (λ _, oe) ck (sc_data c);
  wrote_ttl : ∀ k, k ∈ ttlKeys (sc_shard c') ↔ (k = ck ∧ has_ttl oe) ∨ (k ≠ ck ∧ k ∈ ttlKeys (sc_shard c));
  wrote_ver : ∀ k, version_of (sc_shard c') k =
    if decide (k = ck) then Nat.iter j bump1 (version_of (sc_shard c) ck) else version_of (sc_shard c) k;
  wrote_count : surplus c' = surplus c;
  wrote_evicted : sc_evicted c' = sc_evicted c;
}.

Lemma lookup_put {A} (m : gmap string A) k oe k' :
  partial_alter (λ _, oe) k m !! k' = if decide (k' = k) then oe else m !! k'.
Proof.
  case_decide; [subst; apply lookup_partial_alter_eq|by apply lookup_partial_alter_ne].
Qed.

Section writes.
Implicit Types (c : shardCtx) (ck : string).

Lemma size_partial_alter (m : gmap string Entry) k oe :
  Z.of_nat (size (partial_alter (λ _, oe) k m)) =
  Z.of_nat (size m) - (if m !! k is Some _ then 1 else 0) + (if oe is Some _ then 1 else 0).
Proof.
  destruct oe as [e|].
  - change (partial_alter (λ _, Some e) k m) with (<[k:=e]> m).
    destruct (m !! k) eqn:E.
    + rewrite map_size_insert_Some by eauto. lia.
    + rewrite map_size_insert_None by done. lia.
  - change (partial_alter (λ _, None) k m) with (delete k m).
    destruct (m !! k) eqn:E.
    + rewrite map_size_delete_Some by eauto.
      assert (size m ≠ 0%nat); [|lia].
      intros Hz%map_size_empty_inv. subst. by rewrite lookup_empty in E.
    + rewrite map_size_delete_None by done. lia.
Qed.

Lemma wrote_trans ck oe1 oe2 j1 j2 c1 c2 c3 :
  wrote ck oe1 j1 c1 c2 → wrote ck oe2 j2 c2 c3 → wrote ck oe2 (j1 + j2) c1 c3.
Proof.
  intros [D1 T1 V1 C1 E1] [D2 T2 V2 C2 E2]. split.
  - rewrite D2, D1. apply map_eq. intros k. rewrite !lookup_put. by case_decide.
  - intros k. rewrite T2, T1. destruct (decide (k = ck)); tauto.
  - intros k. rewrite V2, (V1 ck), (V1 k), (decide_True _ _ (eq_refl ck)).
    case_decide; [|done]. by rewrite iter_plus_bump, Nat.add_comm.
  - congruence.
  - congruence.
Qed.

Lemma version_of_insert k v d t vs k' :
  version_of (mkShard d t (<[k := v]> vs)) k' =
  if decide (k' = k) then v else version_of (mkShard d t vs) k'.
Proof.
  unfold version_of; simpl. case_decide as H.
  - subst. by rewrite lookup_insert_eq.
  - by rewrite lookup_insert_ne.
Qed.

Lemma partial_alter_same {A} (m : gmap string A) k oe :
  m !! k = oe → m = partial_alter (λ _, oe) k m.
Proof.
  intros <-. apply map_eq. intros k'. rewrite lookup_put. by case_decide; subst.
Qed.

Lemma wrote_bump P ck c :
  shard_inv P (sc_shard c) →
  wrote ck (sc_data c !! ck) 1 c (bumpVersionLocked ck c).2.
Proof.
  intros I. destruct c as [[d t vs] cnt ev]. split; simpl.
  - by apply partial_alter_same.
  - intros k. rewrite (inv_ttl I). simpl. destruct (decide (k = ck)); [subst|]; tauto.
  - intros k. rewrite version_of_insert. case_decide; by subst.
  - done.
  - done.
Qed.

Lemma wrote_delete ck c : wrote ck None 0 c (deleteEntryLocked ck c).2.
Proof.
  destruct c as [[d t vs] cnt ev]. split; simpl.
  - done.
  - intros k. pose proof has_ttl_None. rewrite elem_of_difference, elem_of_singleton. tauto.
  - intros k. unfold version_of; simpl. by case_decide; subst.
  - unfold sc_data; simpl. pose proof (size_partial_alter d ck None) as Hs.
    change (partial_alter (λ _, None) ck d) with (delete ck d) in Hs. rewrite Hs.
    destruct (d !! ck); lia.
  - done.
Qed.

Lemma wrote_store P ck e e0 c :
  shard_inv P (sc_shard c) →
  sc_data c !! ck = Some e0 → e_ExpiresAt e = e_ExpiresAt e0 →
  wrote ck (Some e) 0 c (storeEntry ck e c).2.
Proof.
  intros I H0 Hx. destruct c as [[d t vs] cnt ev]. unfold sc_data in *. simpl in *. split; simpl.
  - done.
  - intros k. rewrite (inv_ttl I). simpl.
    destruct (decide (k = ck)); [subst; rewrite H0|tauto].
    unfold has_ttl. split.
    + intros (e' & [= <-] & He). left. split; [done|]. exists e. by rewrite Hx.
    + intros [[_ (e' & [= <-] & He)]|[? _]]; [|done]. exists e0. by rewrite <- Hx.
  - intros k. unfold version_of; simpl. by case_decide; subst.
  - unfold sc_data; simpl. by rewrite map_size_insert_Some by eauto.
  - done.
Qed.

Lemma index_ttl_spec k ck at_ ks e :
  e_ExpiresAt e = at_ →
  k ∈ index_ttl ck at_ ks ↔ (k = ck ∧ has_ttl (Some e)) ∨ (k ≠ ck ∧ k ∈ ks).
Proof.
  intros <-. unfold index_ttl, has_ttl. destruct (e_ExpiresAt e) eqn:E.
  - rewrite elem_of_union, elem_of_singleton. destruct (decide (k = ck)).
    + split; [|tauto]. intros _. left. split; [done|]. exists e. rewrite E. eauto.
    + tauto.
  - rewrite elem_of_difference, elem_of_singleton. split; [tauto|].
    intros [[-> (e' & [= <-] & [t Ht])]|[? ?]]; [congruence|done].
Qed.

Lemma wrote_set ck e c : wrote ck (Some e) 1 c (setEntryLocked ck e c).2.
Proof.
  destruct c as [[d t vs] cnt ev]. split; simpl.
  - done.
  - intros k. by apply index_ttl_spec.
  - intros k. rewrite version_of_insert. case_decide; by subst.
  - unfold sc_data; simpl. destruct (d !! ck) eqn:E.
    + rewrite map_size_insert_Some by eauto. lia.
    + rewrite map_size_insert_None by done. lia.
  - done.
Qed.

Lemma wrote_expiry ck e at_ c :
  sc_data c !! ck = Some e →
  wrote ck (Some (set_ExpiresAt at_ e)) 1 c (setExpiryLocked ck e at_ c).2.
Proof.
  intros H0. destruct c as [[d t vs] cnt ev]. unfold sc_data in *. simpl in *. split; simpl.
  - done.
  - intros k. by apply index_ttl_spec.
  - intros k. rewrite version_of_insert. case_decide; by subst.
  - unfold sc_data; simpl. by rewrite map_size_insert_Some by eauto.
  - done.
Qed.

Lemma wrote_inv P ck oe j c c' :
  shard_inv P (sc_shard c) → wrote ck oe j c c' →
  (∀ e, oe = Some e → entry_wf e ∧ P ck) → shard_inv P (sc_shard c').
Proof.
  intros I [D T V C E] Hoe. unfold sc_data in D. split.
  - intros k. rewrite T, D, lookup_put. rewrite (inv_ttl I). case_decide; tauto.
  - intros k e. rewrite D, lookup_put. case_decide; [subst; apply Hoe|apply (inv_entry I)].
  - intros k. rewrite V. case_decide; [|apply (inv_ver I)].
    rewrite iter_bump1 by apply (inv_ver I). apply Z.mod_pos_bound. lia.
Qed.
End writes.

(** ** The contract of a keyed operation *)

Record op_ok {A} (mx : Z) (P : string → Prop) (ck : string) (now : time) (n : nat)
    (f : content → A * content) (c : shardCtx) (r : A * shardCtx) : Prop := {
  ok_inv : shard_inv P (sc_shard r.2);
  ok_count : surplus r.2 = surplus c;
  ok_res : r.1 = (f (live now (sc_data c !! ck))).1;
  ok_live : live now (sc_data r.2 !! ck) = (f (live now (sc_data c !! ck))).2;
  ok_frame : ∀ k, k ≠ ck →
    sc_data r.2 !! k = sc_data c !! k ∨ (0 < mx ∧ sc_data r.2 !! k = None);
  ok_ver : ∀ k, ver_adv 0 n (version_of (sc_shard c) k) (version_of (sc_shard r.2) k);
  ok_watch : ∀ k, content_of (sc_data r.2 !! k) ≠ content_of (sc_data c !! k) →
    ver_adv 1 n (version_of (sc_shard c) k) (version_of (sc_shard r.2) k);
}.

Section rules.
Context {A : Type} (mx : Z) (P : string → Prop) (ck : string) (now : time).
Implicit Types (c : shardCtx) (f : content → A * content).

(** Writes to [ck] alone. *)
Lemma wrote_ok n f c oe j (r : A * shardCtx) :
  shard_inv P (sc_shard c) → wrote ck oe j c r.2 →
  (∀ e, oe = Some e → entry_wf e ∧ P ck) →
  (content_of oe = content_of (sc_data c !! ck) ∨ (1 ≤ j)%nat) → (j ≤ n)%nat →
  r.1 = (f (live now (sc_data c !! ck))).1 →
  live now oe = (f (live now (sc_data c !! ck))).2 →
  op_ok mx P ck now n f c r.
Proof.
  intros I W Hoe Hc Hn Hr Hl. pose proof W as [D T V C E]. split.
  - by eapply wrote_inv.
  - done.
  - done.
  - by rewrite D, lookup_put, decide_True by done.
  - intros k Hk. left. by rewrite D, lookup_put, decide_False by done.
  - intros k. rewrite V. case_decide; subst; eauto with go. exists j. split; [lia|done].
  - intros k. rewrite V, D, lookup_put. case_decide; [subst|done]. intros Hne.
    exists j. split; [|done]. destruct Hc; [done|lia].
Qed.

(** A step that leaves the live content of [ck] alone, then the rest. *)
Lemma op_ok_after {B} n1 n2 f c (r1 : B * shardCtx) (b : B) (r : A * shardCtx) :
  op_ok mx P ck now n1 (λ v, (b, v)) c r1 → op_ok mx P ck now n2 f r1.2 r →
  op_ok mx P ck now (n1 + n2) f c r.
Proof.
  intros [I1 C1 R1 L1 F1 V1 W1] [I2 C2 R2 L2 F2 V2 W2]. simpl in *. split.
  - done.
  - congruence.
  - by rewrite R2, L1.
  - by rewrite L2, L1.
  - intros k Hk. destruct (F2 k Hk) as [->|?]; [|by right]. by apply F1.
  - intros k. by eapply (ver_adv_trans 0 n1 0 n2).
  - intros k Hne.
    destruct (decide (content_of (sc_data r.2 !! k) = content_of (sc_data r1.2 !! k))) as [Heq|Hne2].
    + rewrite Heq in Hne. eapply (ver_adv_trans 1 n1 0 n2); eauto.
    + eapply (ver_adv_trans 0 n1 1 n2); eauto.
Qed.

Lemma op_ok_weaken n1 n2 f g c (r : A * shardCtx) :
  op_ok mx P ck now n1 f c r → (n1 ≤ n2)%nat →
  f (live now (sc_data c !! ck)) = g (live now (sc_data c !! ck)) →
  op_ok mx P ck now n2 g c r.
Proof.
  intros [I C R L F V W] Hn Hfg. split; rewrite <- ?Hfg; [done..|exact F| |].
  - intros k. by eapply ver_adv_weaken.
  - intros k Hk. eapply ver_adv_weaken; [by apply W|lia..].
Qed.

(** Reads change nothing. *)
Lemma read_ok n f c a :
  shard_inv P (sc_shard c) →
  a = (f (live now (sc_data c !! ck))).1 →
  live now (sc_data c !! ck) = (f (live now (sc_data c !! ck))).2 →
  op_ok mx P ck now n f c (a, c).
Proof.
  intros I Hr Hl. split; simpl; auto with go. intros k Hk. done.
Qed.

Lemma live_Some_None c :
  live now (sc_data c !! ck) = None →
  sc_data c !! ck = None ∨ ∃ e, sc_data c !! ck = Some e ∧ expired e now = true.
Proof.
  unfold live. destruct (sc_data c !! ck) as [e|]; [|by left].
  destruct (expired e now) eqn:E; [|done]. right. eauto.
Qed.

(** [getForWriteLocked]: three outcomes. *)
Inductive got c : option Entry * shardCtx → Prop :=
  | got_absent : sc_data c !! ck = None → got c (None, c)
  | got_live e : sc_data c !! ck = Some e → expired e now = false → got c (Some e, c)
  | got_expired e c' : sc_data c !! ck = Some e → expired e now = true →
      wrote ck None 1 c c' → got c (None, c').

Lemma getForWriteLocked_got c :
  shard_inv P (sc_shard c) → got c (getForWriteLocked ck now c).
Proof.
  intros I. unfold getForWriteLocked. go_step.
  destruct (sc_data c !! ck) as [e|] eqn:E; [|by apply got_absent].
  destruct (expired e now) eqn:Ex; [|by apply got_live].
  apply (got_expired _ e); [done..|].
  pose proof (wrote_delete ck c) as W.
  eapply (wrote_trans _ _ _ 0 1); [done|].
  pose proof (wrote_bump P ck (deleteEntryLocked ck c).2) as Wb.
  rewrite (wrote_data _ _ _ _ _ W), lookup_put, decide_True in Wb by done. apply Wb.
  eapply wrote_inv; eauto. done.
Qed.
End rules.

(** ** Abstract operations by kind *)

Definition spec_on {R} (kind : Kind) (absent : result R)
    (g : Value → option time → result R * content) : content → result R * content := λ c,
  match c with
  | None => (absent, None)
  | Some (v, x) => if decide (kind_of v = kind) then g v x else (Error ErrWrongType, c)
  end.

Definition empty_value (kind : Kind) : Value :=
  match kind with
  | KindNone => VNone | KindString => VString nilb | KindHash => VHash ∅
  | KindList => VList [] | KindSet => VSet ∅ | KindZSet => VZSet ∅
  end.
Definition spec_ensure {R} (kind : Kind) (g : Value → option time → result R * content)
    : content → result R * content := λ c,
  match c with
  | None => g (empty_value kind) None
  | Some (v, x) => if decide (kind_of v = kind) then g v x else (Error ErrWrongType, c)
  end.

Lemma value_of_empty kind now : value_of (newEmptyEntry kind now) = empty_value kind.
Proof. by destruct kind. Qed.
Lemma newEmptyEntry_wf kind now : entry_wf (newEmptyEntry kind now).
Proof. by destruct kind. Qed.

(** Updates of a well-formed entry's own field, and of the access data. *)
Ltac solve_entry := intros;
  match goal with e : Entry |- _ => destruct e as [[] ? ? ? ? ? ? ? ?] end;
  unfold entry_wf, value_of, entry_of, touch, set_ExpiresAt, set_Hash, set_List, set_Set, set_ZSet in *;
  cbn in *; try split; congruence.

Lemma touch_wf now e : entry_wf e → entry_wf (touch now e).
Proof. solve_entry. Qed.
Lemma value_of_touch now e : value_of (touch now e) = value_of e.
Proof. solve_entry. Qed.
Lemma set_ExpiresAt_wf x e : entry_wf e → entry_wf (set_ExpiresAt x e).
Proof. solve_entry. Qed.
Lemma value_of_set_ExpiresAt x e : value_of (set_ExpiresAt x e) = value_of e.
Proof. solve_entry. Qed.
Lemma set_Hash_wf h e : entry_wf e → e_Kind e = KindHash →
  entry_wf (set_Hash h e) ∧ value_of (set_Hash h e) = VHash h.
Proof. solve_entry. Qed.
Lemma set_List_wf l e : entry_wf e → e_Kind e = KindList →
  entry_wf (set_List l e) ∧ value_of (set_List l e) = VList l.
Proof. solve_entry. Qed.
Lemma set_Set_wf st e : entry_wf e → e_Kind e = KindSet →
  entry_wf (set_Set st e) ∧ value_of (set_Set st e) = VSet st.
Proof. solve_entry. Qed.
Lemma set_ZSet_wf z e : entry_wf e → e_Kind e = KindZSet →
  entry_wf (set_ZSet z e) ∧ value_of (set_ZSet z e) = VZSet z.
Proof. solve_entry. Qed.

Lemma value_of_hash e : e_Kind e = KindHash → value_of e = VHash (e_Hash e).
Proof. solve_entry. Qed.
Lemma value_of_list e : e_Kind e = KindList → value_of e = VList (e_List e).
Proof. solve_entry. Qed.
Lemma value_of_set e : e_Kind e = KindSet → value_of e = VSet (e_Set e).
Proof. solve_entry. Qed.
Lemma value_of_zset e : e_Kind e = KindZSet → value_of e = VZSet (e_ZSet e).
Proof. solve_entry. Qed.
Lemma value_of_string e : e_Kind e = KindString → value_of e = VString (e_StringVal e).
Proof. solve_entry. Qed.

Section shapes.
Context (mx : Z) (P : string → Prop) (ck : string) (now : time).
Implicit Types (c : shardCtx) (e : Entry).

Lemma live_Some e : expired e now = false → live now (Some e) = Some (value_of e, e_ExpiresAt e).
Proof. intros H. simpl. by rewrite H. Qed.
Lemma expired_same e e' : e_ExpiresAt e' = e_ExpiresAt e → expired e' now = expired e now.
Proof. unfold expired. by intros ->. Qed.

(** The tails of the methods, from a state where [ck] holds the live [e]. *)
Section live_entry.
Context (c : shardCtx) (e : Entry) (I : shard_inv P (sc_shard c))
  (He : sc_data c !! ck = Some e) (Hx : expired e now = false).

Lemma read_entry_ok {A} (a : A) :
  op_ok mx P ck now 0 (λ _, (a, Some (value_of e, e_ExpiresAt e))) c (ret a c).
Proof. apply read_ok; [done|done|]. by rewrite He, live_Some. Qed.

Lemma touch_ok {A} (a : A) :
  op_ok mx P ck now 0 (λ _, (a, Some (value_of e, e_ExpiresAt e))) c
    ((storeEntry ck (touch now e) ;; ret a) c).
Proof.
  destruct (inv_entry I _ _ He) as [Hwf HP].
  eapply (wrote_ok mx P ck now 0 _ c (Some (touch now e)) 0); [done|..].
  - eapply (wrote_store P); eauto.
  - intros ? [= <-]. split; [by apply touch_wf|done].
  - left. rewrite He. simpl. by rewrite value_of_touch.
  - lia.
  - done.
  - rewrite live_Some by (rewrite <- Hx; by apply expired_same). by rewrite value_of_touch.
Qed.

Context (e' : Entry) (Hwf' : entry_wf e') (Hx' : e_ExpiresAt e' = e_ExpiresAt e).

Lemma live' : live now (Some e') = Some (value_of e', e_ExpiresAt e).
Proof. rewrite live_Some; [by rewrite Hx'|]. by rewrite (expired_same e). Qed.

Lemma wrote_store_bump : wrote ck (Some e') 1 c (bumpVersionLocked ck (storeEntry ck e' c).2).2.
Proof.
  destruct (inv_entry I _ _ He) as [Hwf HP].
  pose proof (wrote_store P ck e' e c I He Hx') as W.
  eapply (wrote_trans _ _ _ 0 1); [exact W|].
  pose proof (wrote_bump P ck (storeEntry ck e' c).2) as Wb.
  rewrite (wrote_data _ _ _ _ _ W), lookup_put, decide_True in Wb by done. apply Wb.
  eapply wrote_inv; eauto. by intros ? [= <-].
Qed.

Lemma mutate_bump_ok {A} (a : A) :
  op_ok mx P ck now 1 (λ _, (a, Some (value_of e', e_ExpiresAt e))) c
    ((storeEntry ck e' ;; bumpVersionLocked ck ;; ret a) c).
Proof.
  destruct (inv_entry I _ _ He) as [Hwf HP].
  eapply (wrote_ok mx P ck now 1 _ c (Some e') 1); [done|apply wrote_store_bump|..].
  - by intros ? [= <-].
  - right; lia.
  - lia.
  - done.
  - apply live'.
Qed.

Lemma wrote_store_delete_bump :
  wrote ck None 1 c (bumpVersionLocked ck (deleteEntryLocked ck (storeEntry ck e' c).2).2).2.
Proof.
  destruct (inv_entry I _ _ He) as [Hwf HP].
  pose proof (wrote_store P ck e' e c I He Hx') as W.
  pose proof (wrote_delete ck (storeEntry ck e' c).2) as Wd.
  pose proof (wrote_trans _ _ _ _ _ _ _ _ W Wd) as W2.
  eapply (wrote_trans _ _ _ 0 1); [exact W2|].
  pose proof (wrote_bump P ck (deleteEntryLocked ck (storeEntry ck e' c).2).2) as Wb.
  rewrite (wrote_data _ _ _ _ _ W2), lookup_put, decide_True in Wb by done. apply Wb.
  eapply wrote_inv; eauto. done.
Qed.

(** Keep the shrunk aggregate, or delete the key when it became empty. *)
Lemma shrink_ok {A} (a : A) (Em : Prop) `{Decision Em} :
  op_ok mx P ck now 1 (λ _, (a, if decide Em then None else Some (value_of e', e_ExpiresAt e))) c
    ((storeEntry ck e' ;; (if decide Em then deleteEntryLocked ck else ret tt) ;;
      bumpVersionLocked ck ;; ret a) c).
Proof.
  case_decide; [|apply mutate_bump_ok].
  eapply (wrote_ok mx P ck now 1 _ c None 1); [done|apply wrote_store_delete_bump|done|..]; try done.
  by right.
Qed.

Lemma maybe_shrink_ok {A} (a : A) (removed : Z) (Em : Prop) `{Decision Em} :
  (removed ≤ 0 → value_of e' = value_of e) →
  op_ok mx P ck now 1
    (λ _, (a, if (0 <? removed) && bool_decide Em then None else Some (value_of e', e_ExpiresAt e))) c
    ((storeEntry ck e' ;;
      (if 0 <? removed then
         ((if decide Em then deleteEntryLocked ck else ret tt) ;; bumpVersionLocked ck ;; ret tt)
       else ret tt) ;; ret a) c).
Proof.
  intros Hsame. destruct (inv_entry I _ _ He) as [Hwf HP].
  destruct (Z.ltb_spec 0 removed); cbn [andb].
  - pose proof (shrink_ok a Em) as S. case_decide as D.
    + by rewrite bool_decide_true by done.
    + by rewrite bool_decide_false by done.
  - eapply (wrote_ok mx P ck now 1 _ c (Some e') 0); [done|by eapply (wrote_store P)|..].
    + by intros ? [= <-].
    + left. rewrite He. simpl. by rewrite Hsame, Hx' by lia.
    + lia.
    + done.
    + apply live'.
Qed.
End live_entry.
End shapes.

(** ** Rules for the openings of the methods *)

Section openings.
Context (mx : Z) (P : string → Prop) (ck : string) (now : time).
Implicit Types (c : shardCtx) (e : Entry).

Lemma wrote_then {A} n j oe c c' (r : A * shardCtx) (x : A * content) :
  wrote ck oe (S j) c c' → op_ok mx P ck now n (λ _, x) c' r →
  op_ok mx P ck now (S j + n) (λ _, x) c r.
Proof.
  intros [D T V C E] [I2 C2 R2 L2 F2 V2 W2]. simpl in *.
  assert (Hv : ∀ k, ver_adv (if decide (k = ck) then 1 else 0) (S j)
                      (version_of (sc_shard c) k) (version_of (sc_shard c') k)).
  { intros k. rewrite V. case_decide; subst; eauto with go. exists (S j). split; [lia|done]. }
  assert (Hd : ∀ k, k ≠ ck → sc_data c' !! k = sc_data c !! k).
  { intros k Hk. by rewrite D, lookup_put, decide_False. }
  split; simpl.
  - done.
  - congruence.
  - done.
  - done.
  - intros k Hk. rewrite <- Hd by done. by apply F2.
  - intros k. change (S j + n)%nat with (S (j + n)).
    eapply ver_adv_weaken; [eapply ver_adv_trans; [apply Hv|apply V2]|lia|lia].
  - intros k Hne. destruct (decide (k = ck)) as [->|Hk].
    + specialize (Hv ck). rewrite decide_True in Hv by done.
      eapply ver_adv_weaken; [eapply ver_adv_trans; [apply Hv|apply V2]|lia|lia].
    + rewrite <- (Hd k Hk) in Hne. specialize (Hv k). rewrite decide_False in Hv by done.
      eapply ver_adv_weaken; [eapply ver_adv_trans; [apply Hv|by apply W2]|lia|lia].
Qed.

(** Dropping an expired entry is invisible. *)
Lemma drop_expired_ok {B} (b : B) c c' e :
  shard_inv P (sc_shard c) → sc_data c !! ck = Some e → expired e now = true →
  wrote ck None 1 c c' → op_ok mx P ck now 1 (λ v, (b, v)) c (b, c').
Proof.
  intros I He Hx W. apply (wrote_ok mx P ck now 1 _ c None 1); try done; [by right|].
  rewrite He. simpl. by rewrite Hx.
Qed.

(** A pure step on a state with the same content for [ck]. *)
Lemma skip_ok {B} (b : B) n c : shard_inv P (sc_shard c) → op_ok mx P ck now n (λ v, (b, v)) c (b, c).
Proof. intros I. by apply read_ok. Qed.

(** Any operation that starts with [getForWriteLocked]. *)
Lemma getForWrite_ok {A} n f c (k : option Entry → SH A) :
  shard_inv P (sc_shard c) →
  (∀ c', shard_inv P (sc_shard c') → sc_data c' !! ck = None →
         op_ok mx P ck now n (λ _, f None) c' (k None c')) →
  (∀ e, sc_data c !! ck = Some e → expired e now = false →
         op_ok mx P ck now n (λ _, f (Some (value_of e, e_ExpiresAt e))) c (k (Some e) c)) →
  op_ok mx P ck now (S n) f c ((let! oe := getForWriteLocked ck now in k oe) c).
Proof.
  intros I Hnone Hsome. unfold bind.
  destruct (getForWriteLocked_got P ck now c I) as [E|e E Ex|e c' E Ex W].
  - eapply op_ok_weaken; [by apply Hnone|lia|]. by rewrite E.
  - eapply op_ok_weaken; [by apply Hsome|lia|]. by rewrite E, live_Some.
  - pose proof (wrote_inv _ _ _ _ _ _ I W ltac:(done)) as I'.
    assert (E' : sc_data c' !! ck = None).
    { by rewrite (wrote_data _ _ _ _ _ W), lookup_put, decide_True. }
    eapply (op_ok_after mx P ck now 1 n f c (tt, c') tt).
    + by eapply drop_expired_ok.
    + eapply op_ok_weaken; [by apply Hnone|lia|]. simpl. by rewrite E'.
Qed.

Lemma onKind_ok {A} n kind (absent : result A) g k c :
  shard_inv P (sc_shard c) →
  (∀ e, sc_data c !! ck = Some e → expired e now = false → e_Kind e = kind → entry_wf e →
        op_ok mx P ck now n (λ _, g (value_of e) (e_ExpiresAt e)) c (k e c)) →
  op_ok mx P ck now (S n) (spec_on kind absent g) c (onKind ck kind now absent k c).
Proof.
  intros I Hk. unfold onKind. apply getForWrite_ok; [done|..].
  - intros c' I' E'. apply read_ok; [done..|]. by rewrite E'.
  - intros e E Ex. destruct (inv_entry I _ _ E) as [Hwf _].
    cbn [spec_on]. rewrite kind_of_value_of. case_decide; [by apply Hk|].
    apply read_ok; [done..|]. by rewrite E, live_Some.
Qed.

(** The eviction of any key, seen from an absent [ck]. *)
Lemma evicted_ok v c c' c'' :
  shard_inv P (sc_shard c) → sc_data c !! ck = None → 0 < mx →
  wrote v None 1 c c' → sc_shard c'' = sc_shard c' → sc_count c'' = sc_count c' →
  op_ok mx P ck now 1 (λ x, (tt, x)) c (tt, c'') ∧ sc_data c'' !! ck = None.
Proof.
  intros I E Hm W Hs Hc.
  assert (I' : shard_inv P (sc_shard c')) by (eapply wrote_inv; [exact I|exact W|done]).
  destruct W as [D T V C Ev].
  assert (Hd : sc_data c'' = sc_data c') by (unfold sc_data; by rewrite Hs).
  assert (Hnone : sc_data c'' !! ck = None) by (rewrite Hd, D, lookup_put; by case_decide).
  split; [|exact Hnone]. split; cbn [fst snd].
  - by rewrite Hs.
  - by rewrite Hc, Hd.
  - done.
  - unfold live at 1. rewrite Hnone. by rewrite E.
  - intros k Hk. rewrite Hd, D, lookup_put. case_decide; [right; split; [lia|done]|by left].
  - intros k. rewrite Hs, V. case_decide; subst; eauto with go. exists 1%nat. split; [lia|done].
  - intros k. rewrite Hs, V, Hd, D, lookup_put. case_decide; [subst|done]. intros _.
    exists 1%nat. split; [lia|done].
Qed.

Lemma wrote_delete_bump v c :
  shard_inv P (sc_shard c) → wrote v None 1 c (bumpVersionLocked v (deleteEntryLocked v c).2).2.
Proof.
  intros I. pose proof (wrote_delete v c) as Wd.
  pose proof (wrote_bump P v (deleteEntryLocked v c).2) as Wb.
  rewrite (wrote_data _ _ _ _ _ Wd), lookup_put, decide_True in Wb by done.
  eapply (wrote_trans _ _ _ 0 1); [exact Wd|]. apply Wb. by eapply wrote_inv.
Qed.

Lemma evict_ok s order c :
  mx = maxEntries s → shard_inv P (sc_shard c) → sc_data c !! ck = None →
  op_ok mx P ck now 1 (λ x, (tt, x)) c (evictIfNeededLocked s order now c) ∧
  sc_data (evictIfNeededLocked s order now c).2 !! ck = None.
Proof.
  intros Hmx I E. unfold evictIfNeededLocked.
  destruct (Z.leb_spec (maxEntries s) 0); [by split; [apply skip_ok|]|]. go_step.
  destruct (Z.leb_spec (sc_count c + 1) (maxEntries s)); [by split; [apply skip_ok|]|].
  unfold pickEvictionVictimLocked. go_step.
  set (v := match _ with Some _ => _ | None => _ end).
  destruct (String.eqb v ""); [by split; [apply skip_ok|]|].
  eapply evicted_ok; [done|done|lia|apply (wrote_delete_bump v c I)|reflexivity|reflexivity].
Qed.

(** The absent branch of every creating write. *)
Lemma create_ok {A} s n order e (x : A * content) c (k : SH A) :
  mx = maxEntries s → shard_inv P (sc_shard c) → sc_data c !! ck = None → entry_wf e → P ck →
  (∀ c', shard_inv P (sc_shard c') → sc_data c' !! ck = Some e →
         op_ok mx P ck now n (λ _, x) c' (k c')) →
  op_ok mx P ck now (S (S n)) (λ _, x) c
    ((evictIfNeededLocked s order now ;; setEntryLocked ck e ;; k) c).
Proof.
  intros Hmx I E Hwf HP Hk. destruct (evict_ok s order c Hmx I E) as [H1 E1]. unfold bind.
  destruct (evictIfNeededLocked s order now c) as [[] c1]. cbn [snd] in *.
  eapply (op_ok_after mx P ck now 1 (S n) _ c (tt, c1) tt); [exact H1|]. cbn [snd].
  pose proof (wrote_set ck e c1) as W.
  destruct (setEntryLocked ck e c1) as [[] c2] eqn:Es. cbn [snd] in W.
  apply (wrote_then n 0 (Some e) c1 c2); [exact W|]. apply Hk.
  - eapply wrote_inv; [apply (ok_inv _ _ _ _ _ _ _ _ H1)|exact W|]. by intros ? [= <-].
  - by rewrite (wrote_data _ _ _ _ _ W), lookup_put, decide_True.
Qed.

Lemma onEnsured_ok {A} s n order kind g (k : Entry → SH (result A)) c :
  mx = maxEntries s → shard_inv P (sc_shard c) → P ck →
  (∀ c' e, shard_inv P (sc_shard c') → sc_data c' !! ck = Some e → expired e now = false →
        e_Kind e = kind → entry_wf e →
        op_ok mx P ck now n (λ _, g (value_of e) (e_ExpiresAt e)) c' (k e c')) →
  op_ok mx P ck now (S (S (S n))) (spec_ensure kind g) c (onEnsured s order ck kind now k c).
Proof.
  intros Hmx I HP Hk.
  assert (Hrw : onEnsured s order ck kind now k c = (let! oe := getForWriteLocked ck now in
    match oe with
    | None => evictIfNeededLocked s order now ;;
              setEntryLocked ck (newEmptyEntry kind now) ;; k (newEmptyEntry kind now)
    | Some e => if decide (e_Kind e = kind) then k e else ret (Error ErrWrongType)
    end) c).
  { unfold onEnsured, ensureKind, bind. destruct (getForWriteLocked ck now c) as [[e|] c1].
    - by case_decide.
    - destruct (evictIfNeededLocked s order now c1) as [[] c2].
      by destruct (setEntryLocked ck (newEmptyEntry kind now) c2). }
  rewrite Hrw. apply getForWrite_ok; [done|..].
  - intros c' I' E'. apply create_ok; [done|done|done|apply newEmptyEntry_wf|done|].
    intros c2 I2 E2. cbn [spec_ensure]. rewrite <- (value_of_empty kind now).
    apply (Hk c2 (newEmptyEntry kind now)); try done. apply newEmptyEntry_wf.
  - intros e E Ex. destruct (inv_entry I _ _ E) as [Hwf _].
    cbn [spec_ensure]. rewrite kind_of_value_of.
    case_decide; [eapply op_ok_weaken; [by apply Hk|lia|done]|].
    apply read_ok; [done..|]. by rewrite E, live_Some.
Qed.
End openings.
