(* ===== verification/StoreSpec.v ===== *)
(** * The store as one key space

    [store_inv] is the well-formedness of the sharded store; [live_at] the
    content a key has for clients.  [withShard_ok] lifts the contract of a
    shard operation ([op_ok]) to the store; [evolves] is the part of it every
    operation satisfies and composes along sequences of operations. *)

From S2P Require Import Prelude.
From S2P Require Import GoStd.
From S2P Require Import Eviction.
From S2P Require Import Shard.
From S2P Require Import Store.
From S2P Require Import ShardSpec.

Open Scope Z_scope.
Open Scope go_scope.

Definition shard_size (sh : shard) : Z := Z.of_nat (size (data sh)).

(** Keys live in the shard they hash to, shards are well-formed and the
    global counter is the number of entries. *)
Record store_inv (s : Store) : Prop := {
  si_len : 0 < NumShards s < 2 ^ 32;
  si_shard : ∀ i sh, shards s !! i = Some sh →
    shard_inv (λ k, shardIndex (NumShards s) k = i) sh;
  si_count : entryCount s = sum_map shard_size (shards s);
}.

Definition indexOf (s : Store) (ck : string) : nat := shardIndex (NumShards s) ck.
Definition shard_at (s : Store) (ck : string) : shard := shards s !!! indexOf s ck.
Definition entry_at (s : Store) (ck : string) : option Entry := data (shard_at s ck) !! ck.
Definition live_at (now : time) (s : Store) (ck : string) : content := live now (entry_at s ck).
Definition content_at (s : Store) (ck : string) : content := content_of (entry_at s ck).
Definition version_at (s : Store) (ck : string) : Z := version_of (shard_at s ck) ck.

Definition same_config (s s' : Store) : Prop :=
  NumShards s' = NumShards s ∧ maxEntries s' = maxEntries s ∧ policy s' = policy s.

Lemma index_lt s ck : store_inv s → (indexOf s ck < length (shards s))%nat.
Proof.
  intros I. destruct (si_len s I) as [H1 H2]. unfold indexOf, shardIndex, NumShards, len, wrapu32 in *.
  rewrite (Z.mod_small (Z.of_nat (length (shards s)))) by lia.
  pose proof (Z.mod_pos_bound (fnv32a ck) (Z.of_nat (length (shards s)))). lia.
Qed.

Lemma shard_at_lookup s ck : store_inv s → shards s !! indexOf s ck = Some (shard_at s ck).
Proof. intros I. apply list_lookup_lookup_total_lt. by apply index_lt. Qed.

Lemma newStore_inv n m p : n < 2 ^ 32 → store_inv (newStore n m p).
Proof.
  intros Hn. unfold newStore. set (k := if n <=? 0 then _ else n).
  assert (0 < k < 2 ^ 32).
  { subst k. unfold defaultNumShards. destruct (Z.leb_spec n 0); lia. }
  split; simpl.
  - unfold NumShards, len; simpl. rewrite length_replicate. lia.
  - intros i sh Hi. apply lookup_replicate_1 in Hi as [-> _]. apply newShard_inv.
  - rewrite sum_map_replicate. unfold shard_size. simpl. rewrite map_size_empty. lia.
Qed.

(** ** Lifting *)

Record store_ok {A} (mx : Z) (s : Store) (ck : string) (now : time) (n : nat)
    (f : content → A * content) (r : A * Store) : Prop := {
  so_inv : store_inv r.2;
  so_config : same_config s r.2;
  so_res : r.1 = (f (live_at now s ck)).1;
  so_live : live_at now r.2 ck = (f (live_at now s ck)).2;
  so_frame : ∀ k, k ≠ ck →
    entry_at r.2 k = entry_at s k ∨
    (0 < mx ∧ indexOf s k = indexOf s ck ∧ entry_at r.2 k = None);
  so_ver : ∀ k, ver_adv 0 n (version_at s k) (version_at r.2 k);
  so_watch : ∀ k, content_at r.2 k ≠ content_at s k → ver_adv 1 n (version_at s k) (version_at r.2 k);
}.

Section lift.
Context (s : Store) (I : store_inv s).

Lemma NumShards_close i c : NumShards (closeShard i c s) = NumShards s.
Proof. unfold NumShards, closeShard, len; simpl. by rewrite length_insert. Qed.

Lemma shard_at_close i c k : (i < length (shards s))%nat →
  shard_at (closeShard i c s) k = if decide (indexOf s k = i) then sc_shard c else shard_at s k.
Proof.
  intros Hi. unfold shard_at, indexOf. rewrite NumShards_close. simpl.
  case_decide as D.
  - subst. by rewrite list_lookup_total_insert_eq.
  - by rewrite list_lookup_total_insert_ne.
Qed.

Lemma close_inv i c sh :
  shards s !! i = Some sh →
  shard_inv (λ k, shardIndex (NumShards s) k = i) (sc_shard c) →
  surplus c = entryCount s - shard_size sh →
  store_inv (closeShard i c s).
Proof.
  intros Hi Ic Hc. split.
  - rewrite NumShards_close. apply I.
  - intros j sh' Hj. rewrite NumShards_close. simpl in Hj.
    apply list_lookup_insert_Some in Hj as [(<- & <- & _)|[_ Hj]]; [done|by apply (si_shard s I)].
  - simpl. rewrite (sum_map_insert shard_size (shards s) i sh (sc_shard c) Hi).
    rewrite <- (si_count s I). unfold shard_size, sc_data in *. lia.
Qed.

Lemma withShard_ok {A} mx ck now n f (m : Store → SH A) :
  op_ok mx (λ k, shardIndex (NumShards s) k = indexOf s ck) ck now n f
    (openShard (indexOf s ck) s) (m s (openShard (indexOf s ck) s)) →
  store_ok mx s ck now n f (withShard ck m s).
Proof.
  unfold withShard, onShard. change (shardIndex (NumShards s) ck) with (indexOf s ck).
  destruct (m s _) as [a c]. intros [Ic C R L F V W]. cbn [fst snd] in *.
  pose proof (index_lt s ck I) as Hlt. pose proof (shard_at_lookup s ck I) as Hlk.
  assert (Hother : ∀ k, indexOf s k ≠ indexOf s ck →
    shard_at (closeShard (indexOf s ck) c s) k = shard_at s k).
  { intros k Hk. by rewrite shard_at_close, decide_False. }
  assert (Hsame : ∀ k, indexOf s k = indexOf s ck →
    shard_at (closeShard (indexOf s ck) c s) k = sc_shard c ∧
    shard_at s k = shards s !!! indexOf s ck).
  { intros k Hk. rewrite shard_at_close, decide_True by done.
    unfold shard_at. by rewrite Hk. }
  split; cbn [fst snd]; unfold live_at, content_at, entry_at, version_at.
  - eapply close_inv; [exact Hlk|exact Ic|exact C].
  - split; [apply NumShards_close|done].
  - destruct (Hsame ck eq_refl) as [_ ->]. exact R.
  - destruct (Hsame ck eq_refl) as [-> ->]. exact L.
  - intros k Hk. destruct (decide (indexOf s k = indexOf s ck)) as [E|E].
    + destruct (Hsame k E) as [-> ->]. destruct (F k Hk) as [|[? ?]]; [by left|right; done].
    + rewrite Hother by done. by left.
  - intros k. destruct (decide (indexOf s k = indexOf s ck)) as [E|E].
    + destruct (Hsame k E) as [-> ->]. apply V.
    + rewrite Hother by done. apply ver_adv_refl.
  - intros k. destruct (decide (indexOf s k = indexOf s ck)) as [E|E].
    + destruct (Hsame k E) as [-> ->]. apply W.
    + by rewrite Hother.
Qed.

(** The state an operation on [ck] starts from. *)
Lemma open_inv ck : shard_inv (λ k, shardIndex (NumShards s) k = indexOf s ck)
  (sc_shard (openShard (indexOf s ck) s)).
Proof. apply (si_shard s I). by apply shard_at_lookup. Qed.
End lift.

(** ** Sequences of operations *)

Record evolves (n : nat) (s s' : Store) : Prop := {
  ev_inv : store_inv s';
  ev_config : same_config s s';
  ev_ver : ∀ k, ver_adv 0 n (version_at s k) (version_at s' k);
  ev_watch : ∀ k, content_at s' k ≠ content_at s k → ver_adv 1 n (version_at s k) (version_at s' k);
}.

Lemma store_ok_evolves {A} mx s ck now n f (r : A * Store) : store_ok mx s ck now n f r → evolves n s r.2.
Proof. intros []. by split. Qed.

Lemma evolves_refl n s : store_inv s → evolves n s s.
Proof. intros I. split; auto with go; [by split|]. by intros k Hk. Qed.

Lemma evolves_trans n1 n2 s1 s2 s3 : evolves n1 s1 s2 → evolves n2 s2 s3 → evolves (n1 + n2) s1 s3.
Proof.
  intros [I1 (C1 & C2 & C3) V1 W1] [I2 (D1 & D2 & D3) V2 W2]. split.
  - done.
  - split; [congruence|split; congruence].
  - intros k. by eapply (ver_adv_trans 0 n1 0 n2).
  - intros k Hne. destruct (decide (content_at s3 k = content_at s2 k)) as [E|E].
    + rewrite E in Hne. eapply (ver_adv_trans 1 n1 0 n2); eauto.
    + eapply (ver_adv_trans 0 n1 1 n2); eauto.
Qed.

Lemma evolves_weaken n m s s' : evolves n s s' → (n ≤ m)%nat → evolves m s s'.
Proof.
  intros [I C V W] Hn. split; [done|done|..].
  - intros k. eapply ver_adv_weaken; [apply V|lia|lia].
  - intros k Hk. eapply ver_adv_weaken; [by apply W|lia|lia].
Qed.

Lemma version_range s k : store_inv s → 0 ≤ version_at s k < 2 ^ 64.
Proof. intros I. apply (inv_ver (si_shard s I _ _ (shard_at_lookup s k I))). Qed.

(** A changed key has a changed version: what EXEC's check relies on. *)
Lemma evolves_version_ne n s s' k :
  store_inv s → evolves n s s' → Z.of_nat n < 2 ^ 64 →
  content_at s' k ≠ content_at s k → version_at s' k ≠ version_at s k.
Proof.
  intros I E Hn Hne. eapply ver_adv_ne; [by apply (ev_watch _ _ _ E)|lia|done|by apply version_range].
Qed.
