(* ===== verification/EngineSpec.v ===== *)
(** * The engine's abstract operations, and that the store implements them

    For every single-key method of storage.Engine: a function on the content
    of the key (no shards, no lazily dropped entries, no kind-tagged struct),
    and the proof that memstore's method implements it ([store_ok]). *)

From S2P Require Import Prelude.
From S2P Require Import GoStd.
From S2P Require Import Glob.
From S2P Require Import Eviction.
From S2P Require Import Shard.
From S2P Require Import Store.
From S2P Require Import StoreHash.
From S2P Require Import StoreList.
From S2P Require Import StoreSet.
From S2P Require Import StoreZSet.
From S2P Require Import ShardSpec.
From S2P Require Import StoreSpec.

Open Scope Z_scope.
Open Scope go_scope.

(** ** Strings and expiry *)

Definition spec_Get : content → result (gobytes * bool) * content :=
  spec_on KindString (Ok (nilb, false)) (λ v x, (Ok (clone (as_string v), true), Some (v, x))).

Definition spec_Set (now : time) (val : gobytes) (opts : SetOpts) (c : content)
    : result (bool * gobytes * bool) * content :=
  let x := if 0 <? so_TTL opts then Some (now + so_TTL opts) else None in
  match c with
  | None =>
      if so_OnlyIfXX opts then (Ok (false, nilb, false), None)
      else (Ok (true, nilb, false), Some (VString (clone val), x))
  | Some (v, _) =>
      if so_GetOld opts && bool_decide (kind_of v ≠ KindString) then (Error ErrWrongType, c)
      else
        let '(prev, had) := if so_GetOld opts then (clone (as_string v), true) else (nilb, false) in
        if so_OnlyIfNX opts then (Ok (false, prev, had), c)
        else (Ok (true, prev, had), Some (VString (clone val), x))
  end.

Definition spec_Expire (now : time) (d : duration) (c : content) : bool * content :=
  match c with
  | None => (false, None)
  | Some (v, _) => if d <=? 0 then (true, None) else (true, Some (v, Some (now + d)))
  end.
Definition spec_TTL (now : time) (c : content) : duration * bool * bool * content :=
  (match c with
   | None => (0, false, false)
   | Some (_, None) => (0, false, true)
   | Some (_, Some t) => (Z.min maxInt64 (t - now), true, true)
   end, c).
Definition spec_Persist (c : content) : bool * content :=
  match c with
  | Some (v, Some _) => (true, Some (v, None))
  | _ => (false, c)
  end.
Definition spec_Type (c : content) : string * bool * content :=
  (match c with None => ("", false) | Some (v, _) => (Kind_String (kind_of v), true) end, c).
Definition spec_Del1 (c : content) : Z * content := (match c with None => 0 | Some _ => 1 end, None).
Definition spec_Exists1 (c : content) : Z * content := (match c with None => 0 | Some _ => 1 end, c).

(** ** Hashes *)

Definition keep {A} (Em : Prop) `{Decision Em} (removed : Z) (a : A) : option A :=
  if (0 <? removed) && bool_decide Em then None else Some a.

Definition spec_HSet (fields : gmap string gobytes) : content → result Z * content :=
  spec_ensure KindHash (λ v x,
    (Ok (Z.of_nat (size (filter (λ kv, as_hash v !! kv.1 = None) fields))),
     Some (VHash ((clone <$> fields) ∪ as_hash v), x))).
Definition spec_HGet (field : string) : content → result (gobytes * bool) * content :=
  spec_on KindHash (Ok (nilb, false)) (λ v x,
    (Ok (match as_hash v !! field with Some b => (clone b, true) | None => (nilb, false) end), Some (v, x))).
Definition spec_HGetAll : content → result (gmap string gobytes * bool) * content :=
  spec_on KindHash (Ok (∅, false)) (λ v x, (Ok (clone <$> as_hash v, true), Some (v, x))).
Definition spec_HDel (fields : list string) : content → result Z * content :=
  spec_on KindHash (Ok 0) (λ v x,
    let h := filter (λ kv, kv.1 ∉ fields) (as_hash v) in
    let removed := Z.of_nat (size (as_hash v)) - Z.of_nat (size h) in
    (Ok removed, keep (size h = 0%nat) removed (VHash h, x))).
Definition spec_HExists (field : string) : content → result bool * content :=
  spec_on KindHash (Ok false) (λ v x, (Ok (bool_decide (is_Some (as_hash v !! field))), Some (v, x))).
Definition spec_HKeys : content → result (list string * bool) * content :=
  spec_on KindHash (Ok ([], false)) (λ v x, (Ok (sorted_keys (as_hash v), true), Some (v, x))).
Definition spec_HVals : content → result (list gobytes * bool) * content :=
  spec_on KindHash (Ok ([], false)) (λ v x,
    (Ok ((λ k, clone (default nilb (as_hash v !! k))) <$> sorted_keys (as_hash v), true), Some (v, x))).
Definition spec_HLen : content → result Z * content :=
  spec_on KindHash (Ok 0) (λ v x, (Ok (Z.of_nat (size (as_hash v))), Some (v, x))).
Definition spec_HMGet (fields : list string) : content → result (list gobytes) * content :=
  spec_on KindHash (Ok (replicate (length fields) nilb)) (λ v x,
    (Ok ((λ f, match as_hash v !! f with Some b => clone b | None => nilb end) <$> fields), Some (v, x))).
Definition spec_HIncrBy (field : string) (delta : Z) : content → result Z * content :=
  spec_ensure KindHash (λ v x,
    match (match as_hash v !! field with Some b => ParseInt (bytes_of b) | None => Some 0 end) with
    | None => (Error ErrNotInteger, Some (v, x))
    | Some cur =>
        let cur := wrap64 (cur + delta) in
        (Ok cur, Some (VHash (<[field := to_bytes (FormatInt cur)]> (as_hash v)), x))
    end).

(** ** Lists *)

Definition spec_LPush (vals : list gobytes) : content → result Z * content :=
  spec_ensure KindList (λ v x,
    let l := reverse (clone <$> vals) ++ as_list v in (Ok (len l), Some (VList l, x))).
Definition spec_RPush (vals : list gobytes) : content → result Z * content :=
  spec_ensure KindList (λ v x,
    let l := as_list v ++ (clone <$> vals) in (Ok (len l), Some (VList l, x))).
Definition keep_list (l : list gobytes) (x : option time) : content :=
  match l with [] => None | _ => Some (VList l, x) end.
Definition spec_LPop : content → result (gobytes * bool) * content :=
  spec_on KindList (Ok (nilb, false)) (λ v x,
    match as_list v with
    | [] => (Ok (nilb, false), Some (v, x))
    | b :: l => (Ok (b, true), keep_list l x)
    end).
Definition spec_RPop : content → result (gobytes * bool) * content :=
  spec_on KindList (Ok (nilb, false)) (λ v x,
    match reverse (as_list v) with
    | [] => (Ok (nilb, false), Some (v, x))
    | b :: l => (Ok (b, true), keep_list (reverse l) x)
    end).
Definition spec_LRange (start stop : Z) : content → result (list gobytes) * content :=
  spec_on KindList (Ok []) (λ v x, (Ok (clone <$> rangeOf start stop (as_list v)), Some (v, x))).
Definition spec_LLen : content → result Z * content :=
  spec_on KindList (Ok 0) (λ v x, (Ok (len (as_list v)), Some (v, x))).
(** The element a possibly negative index designates. *)
Definition index_of {A} (index : Z) (l : list A) : option nat :=
  let i := if index <? 0 then len l + index else index in
  if (0 <=? i) && (i <? len l) then Some (Z.to_nat i) else None.
Definition spec_LIndex (index : Z) : content → result (gobytes * bool) * content :=
  spec_on KindList (Ok (nilb, false)) (λ v x,
    (Ok (match index_of index (as_list v) with
         | Some i => (clone (default nilb (as_list v !! i)), true)
         | None => (nilb, false)
         end), Some (v, x))).
Definition spec_LSet (index : Z) (val : gobytes) : content → result unit * content :=
  spec_on KindList (Error ErrNoSuchKey) (λ v x,
    match index_of index (as_list v) with
    | Some i => (Ok tt, Some (VList (<[i := clone val]> (as_list v)), x))
    | None => (Error ErrIndexOutOfRange, Some (v, x))
    end).
Definition spec_LRem (count : Z) (val : gobytes) : content → result Z * content :=
  spec_on KindList (Ok 0) (λ v x,
    let '(l, removed) := lrem count val (as_list v) in
    (Ok removed, keep (length l = 0%nat) removed (VList l, x))).

(** ** Sets *)

Definition members_set (ms : list gobytes) : gset string := list_to_set (bytes_of <$> ms).
Definition spec_SAdd (ms : list gobytes) : content → result Z * content :=
  spec_ensure KindSet (λ v x,
    (Ok (Z.of_nat (size (members_set ms ∖ as_set v))), Some (VSet (members_set ms ∪ as_set v), x))).
Definition spec_SRem (ms : list gobytes) : content → result Z * content :=
  spec_on KindSet (Ok 0) (λ v x,
    let removed := Z.of_nat (size (as_set v ∩ members_set ms)) in
    let st := as_set v ∖ members_set ms in
    (Ok removed, keep (size st = 0%nat) removed (VSet st, x))).
Definition spec_SMembers (order : SetOrder) : content → result (list gobytes) * content :=
  spec_on KindSet (Ok []) (λ v x, (Ok (to_bytes <$> order (as_set v)), Some (v, x))).
Definition spec_SIsMember (m : gobytes) : content → result bool * content :=
  spec_on KindSet (Ok false) (λ v x, (Ok (bool_decide (bytes_of m ∈ as_set v)), Some (v, x))).
Definition spec_SCard : content → result Z * content :=
  spec_on KindSet (Ok 0) (λ v x, (Ok (Z.of_nat (size (as_set v))), Some (v, x))).
Definition spec_snapshot : content → result (gset string) * content :=
  spec_on KindSet (Ok ∅) (λ v x, (Ok (as_set v), Some (v, x))).

(** ** Sorted sets *)

Definition zsorted (z : gmap string float64) : list ZMember := sort_Slice zless (zset_members z).
Definition spec_ZAdd (members : gmap string float64) : content → result Z * content :=
  spec_ensure KindZSet (λ v x,
    (Ok (Z.of_nat (size (filter (λ kv, as_zset v !! kv.1 = None) members))),
     Some (VZSet (members ∪ as_zset v), x))).
Definition spec_ZRem (ms : list string) : content → result Z * content :=
  spec_on KindZSet (Ok 0) (λ v x,
    let z := filter (λ kv, kv.1 ∉ ms) (as_zset v) in
    let removed := Z.of_nat (size (as_zset v)) - Z.of_nat (size z) in
    (Ok removed, keep (size z = 0%nat) removed (VZSet z, x))).
Definition spec_ZRange (start stop : Z) : content → result (list ZMember) * content :=
  spec_on KindZSet (Ok []) (λ v x, (Ok (rangeOf start stop (zsorted (as_zset v))), Some (v, x))).
Definition spec_ZRevRange (start stop : Z) : content → result (list ZMember) * content :=
  spec_on KindZSet (Ok []) (λ v x, (Ok (rangeOf start stop (reverse (zsorted (as_zset v)))), Some (v, x))).
Definition spec_ZScore (m : string) : content → result (float64 * bool) * content :=
  spec_on KindZSet (Ok (f64_zero, false)) (λ v x,
    (Ok match as_zset v !! m with Some sc => (sc, true) | None => (f64_zero, false) end, Some (v, x))).
Definition spec_ZRank (m : string) : content → result (Z * bool) * content :=
  spec_on KindZSet (Ok (0, false)) (λ v x,
    (Ok match as_zset v !! m with
        | None => (0, false)
        | Some _ => match list_find (λ zm, zm_Member zm = m) (zsorted (as_zset v)) with
                    | Some (i, _) => (Z.of_nat i, true)
                    | None => (0, false)
                    end
        end, Some (v, x))).
Definition spec_ZCard : content → result Z * content :=
  spec_on KindZSet (Ok 0) (λ v x, (Ok (Z.of_nat (size (as_zset v))), Some (v, x))).
Definition spec_ZIncrBy (m : string) (delta : float64) : content → result float64 * content :=
  spec_ensure KindZSet (λ v x,
    let sc := f64_add (default f64_zero (as_zset v !! m)) delta in
    (Ok sc, Some (VZSet (<[m := sc]> (as_zset v)), x))).
Definition spec_ZRangeByScore (min max : float64) : content → result (list ZMember) * content :=
  spec_on KindZSet (Ok []) (λ v x,
    (Ok (filter (λ m, f64_le min (zm_Score m) && f64_le (zm_Score m) max = true) (zsorted (as_zset v))),
     Some (v, x))).
