(* ===== verification/EngineProofs.v ===== *)
(** * memstore implements the abstract operations

    One lemma per single-key method, each a rule of ShardSpec.v applied to
    the method's opening and tail. *)

From S2P Require Import Prelude.
From S2P Require Import GoStd.
From S2P Require Import Glob.
From S2P Require Import Eviction.
From S2P Require Import Shard.
From S2P Require Import Store.
From S2P Require Import StoreHash.
From S2P Require Import StoreList.
From S2P Require Import StoreSet.
From S2P Require Import StoreZSet.
From S2P Require Import ShardSpec.
From S2P Require Import StoreSpec.
From S2P Require Import EngineSpec.

Open Scope Z_scope.
Open Scope go_scope.

(** Shard-level keys of an index. *)
Abbreviation routed s ck := (λ k, shardIndex (NumShards s) k = indexOf s ck).

Section openings.
Context {A : Type} (s : Store) (I : store_inv s) (ck : string) (now : time).

Lemma kind_op kind (absent : result A) g k :
  (∀ c e, shard_inv (routed s ck) (sc_shard c) → sc_data c !! ck = Some e → expired e now = false →
     e_Kind e = kind → entry_wf e →
     op_ok 0 (routed s ck) ck now 1 (λ _, g (value_of e) (e_ExpiresAt e)) c (k e c)) →
  store_ok 0 s ck now 4 (spec_on kind absent g) (withShard ck (λ _, onKind ck kind now absent k) s).
Proof.
  intros Hk. apply withShard_ok; [done|].
  eapply op_ok_weaken; [apply (onKind_ok _ _ _ _ 1)|lia|done]; [by apply open_inv|].
  intros e E Ex HK Hwf. apply Hk; auto. by apply open_inv.
Qed.

Lemma ensure_op order kind g (k : Entry → SH (result A)) :
  (∀ c e, shard_inv (routed s ck) (sc_shard c) → sc_data c !! ck = Some e → expired e now = false →
     e_Kind e = kind → entry_wf e →
     op_ok (maxEntries s) (routed s ck) ck now 1 (λ _, g (value_of e) (e_ExpiresAt e)) c (k e c)) →
  store_ok (maxEntries s) s ck now 4 (spec_ensure kind g)
    (withShard ck (λ s, onEnsured s order ck kind now k) s).
Proof.
  intros Hk. apply withShard_ok; [done|].
  apply onEnsured_ok; [done|by apply open_inv|done|]. intros c' e I' E Ex HK Hwf. by apply Hk.
Qed.

Lemma raw_op n f (k : option Entry → SH A) :
  (∀ c, shard_inv (routed s ck) (sc_shard c) → sc_data c !! ck = None →
     op_ok 0 (routed s ck) ck now n (λ _, f None) c (k None c)) →
  (∀ c e, shard_inv (routed s ck) (sc_shard c) → sc_data c !! ck = Some e → expired e now = false →
     entry_wf e →
     op_ok 0 (routed s ck) ck now n (λ _, f (Some (value_of e, e_ExpiresAt e))) c (k (Some e) c)) →
  store_ok 0 s ck now (S n) f (withShard ck (λ _, let! oe := getForWriteLocked ck now in k oe) s).
Proof.
  intros Hn Hs. apply withShard_ok; [done|].
  pose proof (open_inv s I ck) as Io. apply getForWrite_ok; [done|done|].
  intros e E Ex. apply Hs; auto. by destruct (inv_entry Io _ _ E).
Qed.
End openings.

(** Closing tactics for the tails; they leave the abstract equation, if any. *)
Ltac tail lem := eapply op_ok_weaken; [eapply lem; eauto|lia|].
Ltac kind_eq lem := match goal with e : Entry |- _ => rewrite (lem e) by done; cbn [as_string as_hash as_list as_set as_zset] end.
(** Unfolds the abstract operation at the entry's own value. *)
Ltac abs_eq := cbv beta; match goal with
  | HK : e_Kind ?e = KindHash |- _ => rewrite (value_of_hash e HK)
  | HK : e_Kind ?e = KindList |- _ => rewrite (value_of_list e HK)
  | HK : e_Kind ?e = KindSet |- _ => rewrite (value_of_set e HK)
  | HK : e_Kind ?e = KindZSet |- _ => rewrite (value_of_zset e HK)
  | HK : e_Kind ?e = KindString |- _ => rewrite (value_of_string e HK)
  end; cbn [as_string as_hash as_list as_set as_zset].
Ltac by_read := tail read_entry_ok; abs_eq; done.
Ltac by_read_with H := tail read_entry_ok; abs_eq; rewrite H; done.

Section engine.
Context (s : Store) (I : store_inv s) (now : time) (order : DataOrder) (ws key : string).
Local Abbreviation ck := (nsKey ws key).
Local Abbreviation impl f r := (store_ok 0 s ck now 4 f r).
Local Abbreviation impl_creating f r := (store_ok (maxEntries s) s ck now 4 f r).

Lemma Get_impl : impl spec_Get (Get now ws key s).
Proof.
  apply kind_op; [done|]. intros c e Ic E Ex HK Hwf. kind_eq value_of_string.
  rewrite <- (value_of_string e) by done. tail touch_ok. done.
Qed.

(** The write of SET over an existing entry. *)
Lemma overwrite_ok {A} mx (a : A) c e' :
  shard_inv (routed s ck) (sc_shard c) → entry_wf e' → expired e' now = false →
  op_ok mx (routed s ck) ck now 1 (λ _, (a, Some (value_of e', e_ExpiresAt e'))) c
    ((setEntryLocked ck e' ;; ret a) c).
Proof.
  intros Ic Hwf Hx.
  eapply (wrote_ok _ _ ck now 1 _ c (Some e') 1); [done|apply wrote_set|..].
  - by intros ? [= <-].
  - by right.
  - lia.
  - done.
  - by apply live_Some.
Qed.

Lemma future_live (d : duration) v la ac :
  expired (entry_of v (if 0 <? d then Some (time_Add now d) else None) la ac) now = false.
Proof.
  unfold expired; cbn [entry_of e_ExpiresAt]. destruct (Z.ltb_spec 0 d); [|done].
  unfold time_After, time_Add. destruct (Z.ltb_spec now (now + d)); [done|lia].
Qed.

Lemma Set_impl val opts : impl_creating (spec_Set now val opts) (Set_ now order ws key val opts s).
Proof.
  unfold Set_. set (x := if 0 <? so_TTL opts then Some (time_Add now (so_TTL opts)) else None).
  pose proof (future_live (so_TTL opts) (VString (clone val)) now 1) as Hx. fold x in Hx.
  set (e' := entry_of (VString (clone val)) x now 1) in Hx.
  assert (Hwf' : entry_wf e') by (apply entry_of_wf).
  apply withShard_ok; [done|]. pose proof (open_inv s I ck) as Io.
  apply (getForWrite_ok _ _ _ _ 3); [done|..].
  - intros c Ic E. rewrite (bool_decide_false (is_Some (@None Entry))) by (by intros [? ?]). rewrite andb_false_r, andb_true_r.
    unfold spec_Set. destruct (so_OnlyIfXX opts).
    + apply read_ok; [done..|]. by rewrite E.
    + apply (create_ok _ _ ck now s 1 order e'); [done|done|done|done|done|].
      intros c' I' E'. apply read_ok; [done..|]. rewrite E'. by apply live_Some.
  - intros e E Ex. rewrite (bool_decide_true (is_Some (Some e))) by eauto. rewrite andb_true_r, andb_false_r.
    unfold spec_Set. rewrite kind_of_value_of.
    assert (HW : ∀ a : result (bool * gobytes * bool), op_ok (maxEntries s) (routed s ck) ck now 3 (λ _, (a, Some (VString (clone val), x)))
                (openShard (indexOf s ck) s)
                ((setEntryLocked ck e' ;; ret a) (openShard (indexOf s ck) s))).
    { intros a. eapply op_ok_weaken; [by apply overwrite_ok|lia|done]. }
    destruct (so_GetOld opts) eqn:Hold; cbn [andb].
    + destruct (decide (e_Kind e = KindString)) as [HK|HK].
      * rewrite (bool_decide_false (e_Kind e ≠ KindString)) by tauto. rewrite value_of_string by done. cbn [as_string].
        destruct (so_OnlyIfNX opts); [|apply HW].
        apply read_ok; [done..|]. rewrite E, live_Some by done. by rewrite value_of_string.
      * rewrite (bool_decide_true (e_Kind e ≠ KindString)) by done. apply read_ok; [done..|]. by rewrite E, live_Some.
    + destruct (so_OnlyIfNX opts); [|apply HW].
      apply read_ok; [done..|]. by rewrite E, live_Some.
Qed.

Lemma Expire_impl d : impl (spec_Expire now d) (Expire now ws key d s).
Proof.
  apply (raw_op s I ck now 3).
  - intros c Ic E. apply read_ok; [done..|]. by rewrite E.
  - intros c e Ic E Ex Hwf. destruct (inv_entry Ic _ _ E) as [_ HP].
    unfold spec_Expire. destruct (Z.leb_spec d 0).
    + eapply (wrote_ok _ _ ck now 3 _ c None 1); [done|by eapply wrote_delete_bump|..]; try done; [by right|lia].
    + eapply (wrote_ok _ _ ck now 3 _ c (Some (set_ExpiresAt (Some (time_Add now d)) e)) 1);
        [done|by apply wrote_expiry|..].
      * intros ? [= <-]. split; [by apply set_ExpiresAt_wf|done].
      * by right.
      * lia.
      * done.
      * rewrite live_Some, value_of_set_ExpiresAt; [done|].
        pose proof (future_live d VNone 0 0) as Hf. unfold expired in *. simpl in *.
        by rewrite (proj2 (Z.ltb_lt 0 d)) in Hf by lia.
Qed.

Lemma TTL_impl : impl (spec_TTL now) (TTL now ws key s).
Proof.
  apply (raw_op s I ck now 3).
  - intros c Ic E. apply read_ok; [done..|]. by rewrite E.
  - intros c e Ic E Ex Hwf. apply read_ok; [done| |by rewrite E, live_Some].
    unfold expired in Ex. cbn. destruct (e_ExpiresAt e) as [t|]; [|done].
    unfold time_After in Ex. destruct (Z.ltb_spec now t); [|done].
    unfold time_Sub, maxInt64, minInt64.
    rewrite Z.max_r by lia. destruct (Z.ltb_spec (Z.min (2 ^ 63 - 1) (t - now)) 0); [lia|done].
Qed.

Lemma Persist_impl : impl spec_Persist (Persist now ws key s).
Proof.
  apply (raw_op s I ck now 3).
  - intros c Ic E. apply read_ok; [done..|]. by rewrite E.
  - intros c e Ic E Ex Hwf. destruct (inv_entry Ic _ _ E) as [_ HP].
    unfold spec_Persist. destruct (e_ExpiresAt e) as [t|] eqn:Et.
    + eapply (wrote_ok _ _ ck now 3 _ c (Some (set_ExpiresAt None e)) 1);
        [done|by apply wrote_expiry|..].
      * intros ? [= <-]. split; [by apply set_ExpiresAt_wf|done].
      * by right.
      * lia.
      * done.
      * by rewrite live_Some, value_of_set_ExpiresAt.
    + apply read_ok; [done..|]. by rewrite E, live_Some, Et.
Qed.

Lemma get_ok {A} (f : content → A * content) (k : option Entry → A) :
  (∀ c, (f c).2 = c) →
  k None = (f None).1 → (∀ e, k (Some e) = (f (Some (value_of e, e_ExpiresAt e))).1) →
  impl f (withShard ck (λ _, let! oe := get ck now in ret (k oe)) s).
Proof.
  intros Hf Hn Hs. apply withShard_ok; [done|]. pose proof (open_inv s I ck) as Io.
  apply read_ok; [done| |by rewrite Hf].
  unfold live. destruct (sc_data _ !! ck) as [e|]; [|done]. by destruct (expired e now).
Qed.

Lemma Type_impl : impl spec_Type (Type_ now ws key s).
Proof. apply get_ok; [done|done|]. intros e. simpl. by rewrite kind_of_value_of. Qed.

(** *** Hashes *)

Lemma NoDup_keys {A} (m : gmap string A) : NoDup (map_to_list m).*1.
Proof. apply NoDup_fst_map_to_list. Qed.

Lemma HSet_impl fields : impl_creating (spec_HSet fields) (HSet now order ws key fields s).
Proof.
  apply ensure_op; [done|]. intros c e Ic E Ex HK Hwf. kind_eq value_of_hash.
  rewrite put_loop_spec, list_to_map_to_list by apply NoDup_keys.
  destruct (set_Hash_wf ((clone <$> fields) ∪ e_Hash e) e Hwf HK) as [Hwf' Hv'].
  tail mutate_bump_ok; [by apply touch_wf|]. by rewrite value_of_touch, Hv'.
Qed.

Lemma HGet_impl field : impl (spec_HGet field) (HGet now ws key field s).
Proof.
  apply kind_op; [done|]. intros c e Ic E Ex HK Hwf.
  destruct (e_Hash e !! field) eqn:F; [tail touch_ok; abs_eq; by rewrite F|by_read_with F].
Qed.

Lemma HGetAll_impl : impl spec_HGetAll (HGetAll now ws key s).
Proof. apply kind_op; [done|]. intros. by_read. Qed.

Lemma HDel_impl fields : impl (spec_HDel fields) (HDel now ws key fields s).
Proof.
  apply kind_op; [done|]. intros c e Ic E Ex HK Hwf.
  pose proof (remove_loop_zero fields (e_Hash e) 0) as Hz.
  rewrite remove_loop_spec in *. cbn [fst snd] in *.
  destruct (set_Hash_wf (filter (λ kv, kv.1 ∉ fields) (e_Hash e)) e Hwf HK) as [Hwf' Hv'].
  rewrite (value_of_hash e) by done. cbn [as_hash].
  tail maybe_shrink_ok.
  - intros Hle. by rewrite Hv', Hz, value_of_hash.
  - unfold keep. by rewrite Hv'.
Qed.

Lemma HExists_impl field : impl (spec_HExists field) (HExists now ws key field s).
Proof. apply kind_op; [done|]. intros. by_read. Qed.
Lemma HKeys_impl : impl spec_HKeys (HKeys now ws key s).
Proof. apply kind_op; [done|]. intros. by_read. Qed.
Lemma HVals_impl : impl spec_HVals (HVals now ws key s).
Proof. apply kind_op; [done|]. intros. by_read. Qed.
Lemma HLen_impl : impl spec_HLen (HLen now ws key s).
Proof. apply kind_op; [done|]. intros. by_read. Qed.
Lemma HMGet_impl fields : impl (spec_HMGet fields) (HMGet now ws key fields s).
Proof. apply kind_op; [done|]. intros. by_read. Qed.

Lemma HIncrBy_impl field delta : impl_creating (spec_HIncrBy field delta) (HIncrBy now order ws key field delta s).
Proof.
  apply ensure_op; [done|]. intros c e Ic E Ex HK Hwf. 
  destruct (match e_Hash e !! field with Some v => ParseInt (bytes_of v) | None => Some 0 end) as [cur|] eqn:F; [|by_read_with F].
  cbv zeta. set (h := <[field := to_bytes (FormatInt (wrap64 (cur + delta)))]> (e_Hash e)). destruct (set_Hash_wf h e Hwf HK) as [Hwf' Hv'].
  tail mutate_bump_ok; [by apply touch_wf|]. abs_eq. by rewrite value_of_touch, Hv', F.
Qed.

(** *** Lists *)

Lemma push_front_spec vals l : push_front l vals = reverse (clone <$> vals) ++ l.
Proof.
  revert l. induction vals as [|v vals IH]; intros l; [done|].
  unfold push_front in *. simpl. by rewrite IH, ?fmap_cons, reverse_cons, <- (assoc_L (++)).
Qed.
Lemma push_back_spec vals l : push_back l vals = l ++ (clone <$> vals).
Proof.
  revert l. induction vals as [|v vals IH]; intros l; [by rewrite app_nil_r|].
  unfold push_back in *. simpl. by rewrite IH, ?fmap_cons, <- (assoc_L (++)).
Qed.

Lemma LPush_impl vals : impl_creating (spec_LPush vals) (LPush now order ws key vals s).
Proof.
  apply ensure_op; [done|]. intros c e Ic E Ex HK Hwf. kind_eq value_of_list.
  rewrite push_front_spec. set (l := _ ++ e_List e).
  destruct (set_List_wf l e Hwf HK) as [Hwf' Hv'].
  tail mutate_bump_ok; [by apply touch_wf|]. by rewrite value_of_touch, Hv'.
Qed.
Lemma RPush_impl vals : impl_creating (spec_RPush vals) (RPush now order ws key vals s).
Proof.
  apply ensure_op; [done|]. intros c e Ic E Ex HK Hwf. kind_eq value_of_list.
  rewrite push_back_spec. set (l := e_List e ++ _).
  destruct (set_List_wf l e Hwf HK) as [Hwf' Hv'].
  tail mutate_bump_ok; [by apply touch_wf|]. by rewrite value_of_touch, Hv'.
Qed.

Lemma popTo_ok c e l v :
  shard_inv (routed s ck) (sc_shard c) → sc_data c !! ck = Some e → expired e now = false →
  e_Kind e = KindList → entry_wf e →
  op_ok 0 (routed s ck) ck now 1 (λ _, (Ok (v, true), keep_list l (e_ExpiresAt e))) c (popTo ck e l v c).
Proof.
  intros Ic E Ex HK Hwf. destruct (set_List_wf l e Hwf HK) as [Hwf' Hv'].
  unfold popTo. tail shrink_ok. rewrite Hv'. by destruct l.
Qed.
Lemma LPop_impl : impl spec_LPop (LPop now ws key s).
Proof.
  apply kind_op; [done|]. intros c e Ic E Ex HK Hwf. 
  destruct (e_List e) as [|v l] eqn:F; [by_read_with F|].
  eapply op_ok_weaken; [by apply popTo_ok|done|]. abs_eq. by rewrite F.
Qed.
Lemma last_Some_or_nil {A} (l : list A) : l = [] ∨ ∃ l' x, l = l' ++ [x].
Proof. destruct l as [|x l _] using rev_ind; eauto. Qed.
Lemma RPop_impl : impl spec_RPop (RPop now ws key s).
Proof.
  apply kind_op; [done|]. intros c e Ic E Ex HK Hwf. 
  destruct (last_Some_or_nil (e_List e)) as [F|(l & v & F)]; rewrite F; [by_read_with F|].
  rewrite last_snoc, length_app, Nat.add_sub, take_app_length.
  eapply op_ok_weaken; [by apply popTo_ok|done|]. abs_eq.
  by rewrite F, reverse_snoc, reverse_involutive.
Qed.

Lemma LRange_impl start stop : impl (spec_LRange start stop) (LRange now ws key start stop s).
Proof. apply kind_op; [done|]. intros. by_read. Qed.
Lemma LLen_impl : impl spec_LLen (LLen now ws key s).
Proof. apply kind_op; [done|]. intros. by_read. Qed.

Lemma index_of_normalize {A} index (l : list A) :
  index_of index l =
  (let idx := normalizeIndex index (len l) in
   if (idx <? 0) || (len l <=? idx) then None else Some (Z.to_nat idx)).
Proof.
  unfold index_of, normalizeIndex. cbv zeta. set (i := if index <? 0 then _ else _).
  destruct (Z.ltb_spec i 0), (Z.leb_spec 0 i), (Z.leb_spec (len l) i), (Z.ltb_spec i (len l));
    simpl; done || lia.
Qed.

Lemma LIndex_impl index : impl (spec_LIndex index) (LIndex now ws key index s).
Proof.
  apply kind_op; [done|]. intros c e Ic E Ex HK Hwf. pose proof (index_of_normalize index (e_List e)) as F.
  cbv zeta in *. destruct (_ || _); by_read_with F.
Qed.
Lemma LSet_impl index val : impl (spec_LSet index val) (LSet now ws key index val s).
Proof.
  apply kind_op; [done|]. intros c e Ic E Ex HK Hwf. pose proof (index_of_normalize index (e_List e)) as F.
  cbv zeta in *. destruct (_ || _); [by_read_with F|].
  set (l := <[_ := _]> (e_List e)). destruct (set_List_wf l e Hwf HK) as [Hwf' Hv'].
  tail mutate_bump_ok. abs_eq. by rewrite Hv', F.
Qed.

Lemma lrem_loop_zero more val l r : (lrem_loop more val l r).2 ≤ r → (lrem_loop more val l r).1 = l.
Proof.
  assert (Hmono : ∀ l r, r ≤ (lrem_loop more val l r).2).
  { clear. induction l as [|v l IH]; intros r; simpl; [lia|].
    destruct (_ && _); [specialize (IH (r + 1)); lia|].
    specialize (IH r). by destruct (lrem_loop more val l r). }
  induction l as [|v l IH]; simpl; [done|]. destruct (_ && _).
  - specialize (Hmono l (r + 1)). lia.
  - destruct (lrem_loop more val l r). simpl in *. intros Hle. by rewrite IH.
Qed.
Lemma lrem_zero count val l : (lrem count val l).2 ≤ 0 → (lrem count val l).1 = l.
Proof.
  unfold lrem. destruct (0 <=? count); [apply lrem_loop_zero|].
  pose proof (lrem_loop_zero (λ r, r <? wrap64 (- count)) val (reverse l) 0) as Hz.
  destruct (lrem_loop _ _ _ _). simpl in *. intros Hle. rewrite Hz by done. apply reverse_involutive.
Qed.
Lemma LRem_impl count val : impl (spec_LRem count val) (LRem now ws key count val s).
Proof.
  apply kind_op; [done|]. intros c e Ic E Ex HK Hwf. rewrite (value_of_list e) by done. cbn [as_list].
  pose proof (lrem_zero count val (e_List e)) as Hz.
  destruct (lrem count val (e_List e)) as [l removed]. cbn [fst snd] in *.
  destruct (set_List_wf l e Hwf HK) as [Hwf' Hv'].
  tail maybe_shrink_ok.
  - intros Hle. by rewrite Hv', Hz, value_of_list.
  - unfold keep. by rewrite Hv'.
Qed.

(** *** Sets *)


Lemma sadd_loop_spec ms st added :
  sadd_loop ms st added = (members_set ms ∪ st, added + Z.of_nat (size (members_set ms ∖ st))).
Proof.
  revert st added. induction ms as [|m ms IH]; intros st added.
  - unfold members_set. simpl. f_equal; [set_solver|]. assert (Hs : (∅ : gset string) ∖ st = ∅) by set_solver. rewrite Hs, size_empty. lia.
  - cbn [sadd_loop]. assert (Hm : members_set (m :: ms) = {[bytes_of m]} ∪ members_set ms) by done.
    rewrite Hm. case_decide as Hin; rewrite IH; f_equal.
    + set_solver.
    + do 3 f_equal. set_solver.
    + set_solver.
    + assert (Hs : ({[bytes_of m]} ∪ members_set ms) ∖ st =
                   {[bytes_of m]} ∪ (members_set ms ∖ ({[bytes_of m]} ∪ st))).
      { apply set_eq. intros x. destruct (decide (x = bytes_of m)); set_solver. }
      rewrite Hs, size_insert_disjoint by set_solver. lia.
Qed.

Lemma srem_loop_spec ms st removed :
  srem_loop ms st removed = (st ∖ members_set ms, removed + Z.of_nat (size (st ∩ members_set ms))).
Proof.
  revert st removed. induction ms as [|m ms IH]; intros st removed.
  - unfold members_set. simpl. f_equal; [set_solver|]. assert (Hs : st ∩ (∅ : gset string) = ∅) by set_solver. rewrite Hs, size_empty. lia.
  - cbn [srem_loop]. assert (Hm : members_set (m :: ms) = {[bytes_of m]} ∪ members_set ms) by done.
    rewrite Hm. case_decide as Hin; rewrite IH; f_equal.
    + set_solver.
    + assert (Hs : st ∩ ({[bytes_of m]} ∪ members_set ms) =
                   {[bytes_of m]} ∪ ((st ∖ {[bytes_of m]}) ∩ members_set ms)).
      { apply set_eq. intros x. destruct (decide (x = bytes_of m)); set_solver. }
      rewrite Hs, size_insert_disjoint by set_solver. lia.
    + set_solver.
    + do 3 f_equal. set_solver.
Qed.

Lemma SAdd_impl ms : impl_creating (spec_SAdd ms) (SAdd now order ws key ms s).
Proof.
  apply ensure_op; [done|]. intros c e Ic E Ex HK Hwf. rewrite sadd_loop_spec.
  destruct (set_Set_wf (members_set ms ∪ e_Set e) e Hwf HK) as [Hwf' Hv'].
  tail mutate_bump_ok; [by apply touch_wf|]. abs_eq. by rewrite value_of_touch, Hv'.
Qed.
Lemma SRem_impl ms : impl (spec_SRem ms) (SRem now ws key ms s).
Proof.
  apply kind_op; [done|]. intros c e Ic E Ex HK Hwf. rewrite srem_loop_spec.
  destruct (set_Set_wf (e_Set e ∖ members_set ms) e Hwf HK) as [Hwf' Hv'].
  tail maybe_shrink_ok; [|unfold keep; abs_eq; by rewrite Hv'].
  intros Hle. rewrite Hv', value_of_set by done. f_equal.
  assert (Hz : size (e_Set e ∩ members_set ms) = 0%nat) by lia.
  apply size_empty_inv in Hz. set_solver.
Qed.
Lemma SMembers_impl o : impl (spec_SMembers o) (SMembers now o ws key s).
Proof. apply kind_op; [done|]. intros. by_read. Qed.
Lemma SIsMember_impl m : impl (spec_SIsMember m) (SIsMember now ws key m s).
Proof. apply kind_op; [done|]. intros. by_read. Qed.
Lemma SCard_impl : impl spec_SCard (SCard now ws key s).
Proof. apply kind_op; [done|]. intros. by_read. Qed.
Lemma setSnapshot_impl : impl spec_snapshot (setSnapshot now ws key s).
Proof. apply kind_op; [done|]. intros. by_read. Qed.

(** *** Sorted sets *)

Lemma ZAdd_impl ms : impl_creating (spec_ZAdd ms) (ZAdd now order ws key ms s).
Proof.
  apply ensure_op; [done|]. intros c e Ic E Ex HK Hwf.
  rewrite put_loop_spec, list_to_map_to_list, map_fmap_id by apply NoDup_keys.
  destruct (set_ZSet_wf (ms ∪ e_ZSet e) e Hwf HK) as [Hwf' Hv'].
  tail mutate_bump_ok; [by apply touch_wf|]. abs_eq. by rewrite value_of_touch, Hv'.
Qed.
Lemma ZRem_impl ms : impl (spec_ZRem ms) (ZRem now ws key ms s).
Proof.
  apply kind_op; [done|]. intros c e Ic E Ex HK Hwf.
  pose proof (remove_loop_zero ms (e_ZSet e) 0) as Hz.
  rewrite remove_loop_spec in *. cbn [fst snd] in *.
  destruct (set_ZSet_wf (filter (λ kv, kv.1 ∉ ms) (e_ZSet e)) e Hwf HK) as [Hwf' Hv'].
  tail maybe_shrink_ok; [|unfold keep; abs_eq; by rewrite Hv'].
  intros Hle. by rewrite Hv', Hz, value_of_zset.
Qed.
Lemma ZRange_impl start stop b : impl (spec_ZRange start stop) (ZRange now ws key start stop b s).
Proof. apply kind_op; [done|]. intros. by_read. Qed.
Lemma ZRevRange_impl start stop b : impl (spec_ZRevRange start stop) (ZRevRange now ws key start stop b s).
Proof. apply kind_op; [done|]. intros. by_read. Qed.
Lemma ZScore_impl m : impl (spec_ZScore m) (ZScore now ws key m s).
Proof. apply kind_op; [done|]. intros. by_read. Qed.

Lemma zrank_loop_spec m l i :
  zrank_loop m l i = match list_find (λ zm, zm_Member zm = m) l with
                     | Some (j, _) => (i + Z.of_nat j, true)
                     | None => (0, false)
                     end.
Proof.
  revert i. induction l as [|zm l IH]; intros i; simpl; [done|].
  destruct (String.eqb_spec (zm_Member zm) m) as [Hm|Hm].
  - rewrite decide_True by done. f_equal. lia.
  - rewrite decide_False, IH by done. destruct (list_find _ l) as [[j y]|]; simpl; [|done].
    f_equal. lia.
Qed.
Lemma ZRank_impl m : impl (spec_ZRank m) (ZRank now ws key m s).
Proof.
  apply kind_op; [done|]. intros c e Ic E Ex HK Hwf.
  pose proof (zrank_loop_spec m (sortedMembers e) 0) as Hr. unfold sortedMembers in Hr.
  destruct (e_ZSet e !! m) as [sc|] eqn:F; [|by_read_with F].
  tail read_entry_ok. abs_eq. rewrite F. unfold sortedMembers, zsorted. by rewrite Hr.
Qed.
Lemma ZCard_impl : impl spec_ZCard (ZCard now ws key s).
Proof. apply kind_op; [done|]. intros. by_read. Qed.
Lemma ZIncrBy_impl m delta : impl_creating (spec_ZIncrBy m delta) (ZIncrBy now order ws key m delta s).
Proof.
  apply ensure_op; [done|]. intros c e Ic E Ex HK Hwf. cbv zeta.
  set (z := <[m := f64_add (default f64_zero (e_ZSet e !! m)) delta]> (e_ZSet e)).
  destruct (set_ZSet_wf z e Hwf HK) as [Hwf' Hv'].
  tail mutate_bump_ok. abs_eq. by rewrite Hv'.
Qed.
Lemma ZRangeByScore_impl lo hi : impl (spec_ZRangeByScore lo hi) (ZRangeByScore now ws key lo hi s).
Proof. apply kind_op; [done|]. intros. by_read. Qed.
End engine.
