(* ===== verification/EngineMulti.v ===== *)
(** * Engine methods that touch several keys

    DEL, EXISTS, RENAME, FLUSHDB, the set algebra and the reaper's sweep, as
    sequences of writes to single keys ([swrote]). *)

From S2P Require Import Prelude.
From S2P Require Import GoStd.
From S2P Require Import Glob.
From S2P Require Import Eviction.
From S2P Require Import Shard.
From S2P Require Import Store.
From S2P Require Import StoreHash.
From S2P Require Import StoreList.
From S2P Require Import StoreSet.
From S2P Require Import StoreZSet.
From S2P Require Import ShardSpec.
From S2P Require Import StoreSpec.
From S2P Require Import EngineSpec.
From S2P Require Import EngineProofs.

Open Scope Z_scope.
Open Scope go_scope.

(** ** Writes to one key, seen from the store *)

Record swrote (ck : string) (oe : option Entry) (j : nat) (s s' : Store) : Prop := {
  sw_entry : ∀ k, entry_at s' k = if decide (k = ck) then oe else entry_at s k;
  sw_ver : ∀ k, version_at s' k =
    if decide (k = ck) then Nat.iter j bump1 (version_at s ck) else version_at s k;
  sw_config : same_config s s';
  sw_inv : store_inv s';
  sw_count : entryCount s' - entryCount s =
    (if oe is Some _ then 1 else 0) - (if entry_at s ck is Some _ then 1 else 0);
}.

Lemma same_config_refl s : same_config s s.
Proof. by split. Qed.
Lemma same_config_trans s1 s2 s3 : same_config s1 s2 → same_config s2 s3 → same_config s1 s3.
Proof. intros (?&?&?) (?&?&?). split_and!; congruence. Qed.
Lemma indexOf_config s s' k : same_config s s' → indexOf s' k = indexOf s k.
Proof. intros (H&_&_). unfold indexOf. by rewrite H. Qed.
#[export] Hint Resolve same_config_refl : go.

Lemma swrote_evolves ck oe j s s' :
  swrote ck oe j s s' → (content_of oe = content_at s ck ∨ (1 ≤ j)%nat) → evolves j s s'.
Proof.
  intros [E V C I _] H. split; [done|done|..].
  - intros k. rewrite V. case_decide; subst; eauto with go. exists j. split; [lia|done].
  - intros k. unfold content_at. rewrite E, V. case_decide; [subst|done]. intros Hne.
    exists j. split; [|done]. destruct H; [done|lia].
Qed.

Section on_shard.
Context (s : Store).

Lemma open_close i c : (i < length (shards s))%nat → openShard i (closeShard i c s) = c.
Proof.
  intros Hi. unfold openShard, closeShard. simpl. rewrite list_lookup_total_insert_eq by done.
  by destruct c.
Qed.
Lemma close_close i c c' : closeShard i c' (closeShard i c s) = closeShard i c' s.
Proof. unfold closeShard. simpl. by rewrite list_insert_insert_eq. Qed.
Lemma close_open i : (i < length (shards s))%nat → closeShard i (openShard i s) s = s.
Proof.
  intros Hi. unfold openShard, closeShard. simpl.
  rewrite list_insert_id by (by apply list_lookup_lookup_total_lt). by destruct s.
Qed.

Lemma onShard_bind {A B} i (m : SH A) (k : A → SH B) : (i < length (shards s))%nat →
  onShard i (bind m k) s = (let! a := onShard i m in onShard i (k a)) s.
Proof.
  intros Hi. unfold onShard, bind. destruct (m (openShard i s)) as [a c].
  rewrite open_close by done. destruct (k a c). by rewrite close_close.
Qed.

Lemma onShard_ret {A} i (a : A) : (i < length (shards s))%nat → onShard i (ret a) s = (a, s).
Proof. intros Hi. unfold onShard, ret. by rewrite close_open. Qed.

Lemma onShard_gets {A} i (f : shardCtx → A) : (i < length (shards s))%nat →
  onShard i (gets f) s = (f (openShard i s), s).
Proof. intros Hi. unfold onShard, gets. by rewrite close_open. Qed.

Lemma onShard_gets_bind {A B} i (f : shardCtx → A) (k : A → SH B) : (i < length (shards s))%nat →
  onShard i (bind (gets f) k) s = onShard i (k (f (openShard i s))) s.
Proof. intros Hi. rewrite onShard_bind by done. unfold bind. by rewrite onShard_gets. Qed.

Context (I : store_inv s).

Lemma onShard_wrote {A} ck oe j (m : SH A) :
  wrote ck oe j (openShard (indexOf s ck) s) (m (openShard (indexOf s ck) s)).2 →
  (∀ e, oe = Some e → entry_wf e) →
  swrote ck oe j s (onShard (indexOf s ck) m s).2.
Proof.
  intros W Hwf. unfold onShard. destruct (m _) as [a c]. cbn [fst snd] in *.
  pose proof (index_lt s ck I) as Hlt. pose proof (shard_at_lookup s ck I) as Hlk.
  pose proof (wrote_inv _ _ _ _ _ _ (open_inv s I ck) W ltac:(intros e He; split; [by apply Hwf|done])) as Ic.
  destruct W as [D T V C Ev].
  assert (He : sc_data (openShard (indexOf s ck) s) = data (shard_at s ck)) by done.
  split.
  - intros k. unfold entry_at. rewrite shard_at_close by done.
    destruct (decide (indexOf s k = indexOf s ck)) as [Hk|Hk].
    + change (data (sc_shard c)) with (sc_data c). rewrite D, lookup_put, He.
      case_decide; [done|]. unfold shard_at. by rewrite Hk.
    + rewrite decide_False; [done|congruence].
  - intros k. unfold version_at. rewrite shard_at_close by done.
    destruct (decide (indexOf s k = indexOf s ck)) as [Hk|Hk].
    + rewrite V. case_decide; [by subst|]. unfold shard_at. by rewrite Hk.
    + rewrite decide_False; [done|congruence].
  - split; [apply NumShards_close|done].
  - eapply close_inv; [done|exact Hlk|exact Ic|]. rewrite C, He. done.
  - rewrite D, He, size_partial_alter in C. simpl in C |- *. unfold entry_at. lia.
Qed.
End on_shard.

(** ** DEL and EXISTS *)

Lemma Del_step s now ws key : store_inv s →
  store_ok 0 s (nsKey ws key) now 4 spec_Del1
    (withShard (nsKey ws key) (λ _,
        let! oe := getForWriteLocked (nsKey ws key) now in
        match oe with
        | Some _ => deleteEntryLocked (nsKey ws key) ;; bumpVersionLocked (nsKey ws key) ;; ret 1
        | None => ret 0
        end) s).
Proof.
  intros I. apply (raw_op s I (nsKey ws key) now 3 spec_Del1).
  - intros c Ic E. apply read_ok; [done..|]. by rewrite E.
  - intros c e Ic E Ex Hwf.
    eapply (wrote_ok _ _ _ now 3 _ c None 1); [done|by eapply wrote_delete_bump|..]; try done; [by right|lia].
Qed.

(** The composite keys a list of keys names. *)
Definition cks (ws : string) (keys : list string) : gset string := list_to_set (nsKey ws <$> keys).
Definition live_keys (now : time) (s : Store) (ks : gset string) : gset string :=
  filter (λ k, live_at now s k ≠ None) ks.

Lemma frame0 {A} s ck now n (f : content → A * content) r k :
  store_ok 0 s ck now n f r → k ≠ ck → entry_at r.2 k = entry_at s k.
Proof. intros H Hk. destruct (so_frame _ _ _ _ _ _ _ H k Hk) as [|[? _]]; [done|lia]. Qed.

Lemma Del_loop_ok now ws keys : ∀ s d, store_inv s →
  let r := Del_loop now ws keys d s in
  evolves (4 * length keys) s r.2 ∧
  r.1 = d + Z.of_nat (size (live_keys now s (cks ws keys))) ∧
  (∀ k, k ∉ cks ws keys → entry_at r.2 k = entry_at s k) ∧
  (∀ k, k ∈ cks ws keys → live_at now r.2 k = None).
Proof.
  induction keys as [|key keys IH]; intros s d I; cbn [Del_loop].
  - split; [by apply evolves_refl|]. 
    assert (Hs : live_keys now s (cks ws []) = ∅).
    { apply set_eq. intros x. unfold live_keys, cks. rewrite elem_of_filter. set_solver. }
    rewrite Hs, size_empty. split; [simpl; lia|]. split; [done|set_solver].
  - unfold bind. pose proof (Del_step s now ws key I) as H. set (m := withShard _ _ s) in *.
    destruct m as [x s1]. cbn [fst snd] in *. pose proof (so_inv _ _ _ _ _ _ _ H) as I1. cbn [snd] in I1.
    specialize (IH s1 (d + x) I1). cbv zeta in *.
    destruct (Del_loop now ws keys (d + x) s1) as [y s2]. cbn [fst snd] in *.
    destruct IH as (Ev & Hc & Hf & Hd). set (ck := nsKey ws key) in *.
    assert (Hl1 : live_at now s1 ck = None) by exact (so_live _ _ _ _ _ _ _ H).
    assert (Hfr : ∀ k, k ≠ ck → entry_at s1 k = entry_at s k) by (intros; by eapply frame0 in H).
    assert (Hks : cks ws (key :: keys) = {[ck]} ∪ cks ws keys) by done. rewrite Hks.
    split_and!.
    + eapply evolves_weaken; [eapply evolves_trans; [by eapply store_ok_evolves in H|exact Ev]|simpl; lia].
    + rewrite Hc. pose proof (so_res _ _ _ _ _ _ _ H) as Hx. cbn [fst spec_Del1] in Hx. rewrite Hx.
      assert (HL : live_keys now s1 (cks ws keys) = live_keys now s (cks ws keys) ∖ {[ck]}).
      { apply set_eq. intros k. unfold live_keys.
        rewrite elem_of_difference, !elem_of_filter, elem_of_singleton.
        destruct (decide (k = ck)) as [->|Hk]; [rewrite Hl1; tauto|].
        unfold live_at. rewrite Hfr by done. tauto. }
      rewrite HL. destruct (live_at now s ck) eqn:El.
      * assert (HR : live_keys now s ({[ck]} ∪ cks ws keys) = {[ck]} ∪ live_keys now s (cks ws keys) ∖ {[ck]}).
        { apply set_eq. intros k. unfold live_keys.
          rewrite elem_of_union, elem_of_difference, !elem_of_filter, elem_of_union, elem_of_singleton.
          destruct (decide (k = ck)) as [->|]; [rewrite El; split; [by left|]|]; intuition congruence. }
        rewrite HR, size_insert_disjoint by set_solver. lia.
      * do 2 f_equal; [lia|]. f_equal. apply set_eq. intros k. unfold live_keys.
        rewrite elem_of_difference, !elem_of_filter, elem_of_union, elem_of_singleton.
        destruct (decide (k = ck)) as [->|]; [rewrite El|]; tauto.
    + intros k Hk. rewrite Hf, Hfr by set_solver. done.
    + intros k Hk. destruct (decide (k ∈ cks ws keys)) as [Hin|Hin]; [by apply Hd|].
      assert (k = ck) as -> by set_solver. unfold live_at. rewrite Hf by done. exact Hl1.
Qed.

Lemma get_pure s now ck : store_inv s →
  withShard ck (λ _, get ck now) s =
  (match entry_at s ck with Some e => if expired e now then None else Some e | None => None end, s).
Proof. intros I. unfold withShard, get, getLocked. rewrite onShard_gets; [done|by apply index_lt]. Qed.

Lemma Exists_loop_ok now ws keys : ∀ s n, store_inv s →
  Exists_loop now ws keys n s =
  (n + len (filter (λ key, live_at now s (nsKey ws key) ≠ None) keys), s).
Proof.
  induction keys as [|key keys IH]; intros s n I; cbn [Exists_loop].
  - unfold ret, len. simpl. f_equal. lia.
  - unfold bind. rewrite get_pure by done. rewrite IH by done. f_equal.
    rewrite filter_cons. pose proof (eq_refl (live_at now s (nsKey ws key))) as HL.
    unfold live_at at 1 in HL. unfold live in HL.
    destruct (entry_at s (nsKey ws key)) as [e|]; [destruct (expired e now)|];
      simpl in HL; case_decide; try congruence; unfold len; simpl; lia.
Qed.

(** ** The set algebra

    Each snapshot reads the clock; the clock does not run backwards. *)

Lemma live_later t1 t2 oe : t1 ≤ t2 →
  live t2 oe = match live t1 oe with
               | Some (v, Some x) => if negb (time_After x t2) then None else Some (v, Some x)
               | c => c
               end.
Proof.
  intros Ht. destruct oe as [e|]; [|done]. unfold live, expired, time_After, content_of.
  destruct (e_ExpiresAt e) as [x|] eqn:Ex; cbn; rewrite ?Ex; [|done].
  destruct (Z.ltb_spec t1 x); cbn; rewrite ?Ex; destruct (Z.ltb_spec t2 x); done || lia.
Qed.

(** A read leaves the content of every key as it is, now and later. *)
Lemma read_stays s now ck n {A} (f : content → A * content) r :
  store_ok 0 s ck now n f r → (∀ c, (f c).2 = c) →
  ∀ t k, now ≤ t → live_at t r.2 k = live_at t s k.
Proof.
  intros H Hf t k Ht. unfold live_at. rewrite !(live_later now t) by done.
  destruct (decide (k = ck)) as [->|Hk].
  - pose proof (so_live _ _ _ _ _ _ _ H) as HL. rewrite Hf in HL. unfold live_at in HL. by rewrite HL.
  - by rewrite (frame0 _ _ _ _ _ _ _ H Hk).
Qed.

Definition snapshot_of (now : time) (s : Store) (ws key : string) : result (gset string) :=
  (spec_snapshot (live_at now s (nsKey ws key))).1.

(** Folding the snapshots of an unchanging key space. *)
Fixpoint fold_snapshots (f : gset string → gset string → gset string) (nows : nat → time) (i : nat)
    (s : Store) (ws : string) (keys : list string) (acc : gset string) : result (gset string) :=
  match keys with
  | [] => Ok acc
  | k :: keys =>
      match snapshot_of (nows i) s ws k with
      | Error e => Error e
      | Ok snap => fold_snapshots f nows (S i) s ws keys (f acc snap)
      end
  end.

Lemma spec_on_pure {A} kind (absent : result A) g :
  (∀ v x, (g v x).2 = Some (v, x)) → ∀ c, (spec_on kind absent g c).2 = c.
Proof. intros Hg [[v x]|]; [|done]. simpl. case_decide; [apply Hg|done]. Qed.

Lemma fold_snapshots_ext f nows ws keys : ∀ i s s' acc,
  (∀ j k, (i ≤ j)%nat → live_at (nows j) s' k = live_at (nows j) s k) →
  fold_snapshots f nows i s' ws keys acc = fold_snapshots f nows i s ws keys acc.
Proof.
  induction keys as [|k keys IH]; intros i s s' acc Hs; [done|]. cbn [fold_snapshots].
  unfold snapshot_of. rewrite Hs by lia. destruct (spec_snapshot _).1; [|done].
  apply IH. intros j k' Hj. apply Hs. lia.
Qed.

Section set_algebra.
Context (f : gset string → gset string → gset string) (nows : nat → time) (ws : string).
Context (Hclock : ∀ i j, (i ≤ j)%nat → nows i ≤ nows j).

Lemma snapshots_loop_ok keys : ∀ i s acc, store_inv s →
  let r := snapshots_loop f nows i ws keys acc s in
  evolves (4 * length keys) s r.2 ∧
  r.1 = fold_snapshots f nows i s ws keys acc ∧
  ∀ j k, (i + length keys ≤ S j)%nat → live_at (nows j) r.2 k = live_at (nows j) s k.
Proof.
  induction keys as [|key keys IH]; intros i s acc I; cbn [snapshots_loop fold_snapshots].
  - split; [by apply evolves_refl|done].
  - unfold bind. pose proof (setSnapshot_impl s I (nows i) ws key) as H.
    destruct (setSnapshot (nows i) ws key s) as [r s1]. cbv zeta. cbn [fst snd] in *.
    pose proof (so_res _ _ _ _ _ _ _ H) as Hr. cbn [fst] in Hr.
    change ((spec_snapshot (live_at (nows i) s (nsKey ws key))).1) with (snapshot_of (nows i) s ws key) in Hr.
    assert (Hst : ∀ j k, (i ≤ j)%nat → live_at (nows j) s1 k = live_at (nows j) s k).
    { intros j k Hj. eapply (read_stays s (nows i) _ 4 _ (r, s1) H).
      - apply spec_on_pure. done.
      - by apply Hclock. }
    pose proof (store_ok_evolves _ _ _ _ _ _ _ H) as Ev1. cbn [snd] in Ev1.
    rewrite <- Hr. destruct r as [snap|err]; cbn [ret fst snd].
    + specialize (IH (S i) s1 (f acc snap) (so_inv _ _ _ _ _ _ _ H)). cbv zeta in IH.
      destruct (snapshots_loop f nows (S i) ws keys (f acc snap) s1) as [r2 s2]. cbn [fst snd] in *.
      destruct IH as (Ev2 & Hr2 & Hk2). split_and!.
      * eapply evolves_weaken; [by eapply evolves_trans|simpl; lia].
      * rewrite Hr2. apply fold_snapshots_ext. intros j k Hj. apply Hst. lia.
      * intros j k Hj. simpl in Hj. rewrite Hk2 by lia. apply Hst. lia.
    + split_and!; [eapply evolves_weaken; [done|simpl; lia]|done|].
      intros j k Hj. simpl in Hj. apply Hst. lia.
Qed.

Lemma first_then_ok order key keys s : store_inv s →
  let r := first_then f nows order ws (key :: keys) s in
  evolves (4 * length (key :: keys)) s r.2 ∧
  r.1 = match snapshot_of (nows 0%nat) s ws key with
        | Error e => Error e
        | Ok first => match fold_snapshots f nows 1 s ws keys first with
                      | Error e => Error e
                      | Ok st => Ok (setToBytes order st)
                      end
        end.
Proof.
  intros I. cbn [first_then]. pose proof (setSnapshot_impl s I (nows 0%nat) ws key) as H. unfold bind.
  destruct (setSnapshot (nows 0%nat) ws key s) as [r s1]. cbv zeta. cbn [fst snd] in *.
  pose proof (so_res _ _ _ _ _ _ _ H) as Hr. cbn [fst] in Hr.
  change ((spec_snapshot (live_at (nows 0%nat) s (nsKey ws key))).1) with (snapshot_of (nows 0%nat) s ws key) in Hr.
  pose proof (store_ok_evolves _ _ _ _ _ _ _ H) as Ev1. cbn [snd] in Ev1.
  rewrite <- Hr. destruct r as [first|err]; [|split; [eapply evolves_weaken; [done|simpl; lia]|done]].
  pose proof (snapshots_loop_ok keys 1 s1 first (so_inv _ _ _ _ _ _ _ H)) as H2. cbv zeta in H2.
  destruct (snapshots_loop f nows 1 ws keys first s1) as [r2 s2]. cbn [fst snd ret] in *.
  destruct H2 as (Ev2 & Hr2 & _). split.
  - eapply evolves_weaken; [by eapply evolves_trans|simpl; lia].
  - rewrite Hr2. rewrite (fold_snapshots_ext f nows ws keys 1 s s1); [done|].
    intros j k Hj. eapply (read_stays s (nows 0%nat) _ 4 _ (Ok first, s1) H).
    + apply spec_on_pure. done.
    + apply Hclock. lia.
Qed.
End set_algebra.

(** The three operations at one instant. *)
Definition set_at (now : time) (s : Store) (ws key : string) : gset string :=
  match snapshot_of now s ws key with Ok X => X | Error _ => ∅ end.
Definition is_set (now : time) (s : Store) (ws key : string) : Prop :=
  match snapshot_of now s ws key with Ok _ => True | Error _ => False end.
#[export] Instance is_set_dec now s ws key : Decision (is_set now s ws key).
Proof. unfold is_set. destruct (snapshot_of now s ws key); apply _. Defined.

Lemma snapshot_of_cases now s ws key :
  snapshot_of now s ws key = if decide (is_set now s ws key) then Ok (set_at now s ws key) else Error ErrWrongType.
Proof.
  assert (He : ∀ err, snapshot_of now s ws key = Error err → err = ErrWrongType).
  { intros err. unfold snapshot_of, spec_snapshot, spec_on.
    destruct (live_at now s (nsKey ws key)) as [[v x]|]; [|done]. case_decide; [done|]. by intros [= <-]. }
  case_decide as D; unfold is_set, set_at in *; destruct (snapshot_of now s ws key) as [X|err]; try done.
  by rewrite (He err).
Qed.

Lemma fold_snapshots_spec f now s ws keys : ∀ i acc,
  fold_snapshots f (λ _, now) i s ws keys acc =
  if decide (Forall (is_set now s ws) keys) then Ok (foldl f acc (set_at now s ws <$> keys))
  else Error ErrWrongType.
Proof.
  induction keys as [|k keys IH]; intros i acc; cbn [fold_snapshots]; [by rewrite decide_True by constructor|].
  rewrite snapshot_of_cases. destruct (decide (is_set now s ws k)) as [Hk|Hk].
  - rewrite IH. destruct (decide (Forall (is_set now s ws) keys)) as [H|H].
    + rewrite decide_True; [done|by constructor].
    + rewrite decide_False; [done|]. by intros [_ ?]%Forall_cons.
  - rewrite decide_False; [done|]. by intros [? _]%Forall_cons.
Qed.

Lemma foldl_inter (Xs : list (gset string)) : ∀ acc x,
  x ∈ foldl (λ r snap, r ∩ snap) acc Xs ↔ x ∈ acc ∧ ∀ X, X ∈ Xs → x ∈ X.
Proof.
  induction Xs as [|X Xs IH]; intros acc x; cbn [foldl]; [set_solver|]. rewrite IH.
  setoid_rewrite elem_of_cons. split; [intros [? H]; split; [set_solver|]|set_solver].
  intros Y [->|?]; [set_solver|auto].
Qed.
Lemma foldl_union (Xs : list (gset string)) : ∀ acc x,
  x ∈ foldl (λ r snap, r ∪ snap) acc Xs ↔ x ∈ acc ∨ ∃ X, X ∈ Xs ∧ x ∈ X.
Proof. induction Xs as [|X Xs IH]; intros acc x; cbn [foldl]; [set_solver|]. rewrite IH. set_solver. Qed.
Lemma foldl_diff (Xs : list (gset string)) : ∀ acc x,
  x ∈ foldl (λ r snap, r ∖ snap) acc Xs ↔ x ∈ acc ∧ ∀ X, X ∈ Xs → x ∉ X.
Proof.
  induction Xs as [|X Xs IH]; intros acc x; cbn [foldl]; [set_solver|]. rewrite IH.
  setoid_rewrite elem_of_cons. split; [intros [? H]; split; [set_solver|]|set_solver].
  intros Y [->|?]; [set_solver|auto].
Qed.

(** A range over a set visits every member once. *)
Definition set_order (order : SetOrder) : Prop := ∀ X, order X ≡ₚ elements X.
Lemma setToBytes_elem order X x : set_order order → x ∈ bytes_of <$> setToBytes order X ↔ x ∈ X.
Proof.
  intros Ho. unfold setToBytes. rewrite list_elem_of_fmap. setoid_rewrite list_elem_of_fmap. split.
  - intros (b & -> & m & -> & Hm). rewrite (Ho X) in Hm. by apply elem_of_elements in Hm.
  - intros Hx. exists (to_bytes x). split; [done|]. exists x. split; [done|].
    rewrite (Ho X). by apply elem_of_elements.
Qed.
