(* ===== verification/KeySpace.v ===== *)
(** * RENAME, FLUSHDB and the reaper's sweep

    Operations that write several keys, each proved as a sequence of writes
    to one key of the whole store ([swrote]). *)

From S2P Require Import Prelude.
From S2P Require Import GoStd.
From S2P Require Import Glob.
From S2P Require Import Eviction.
From S2P Require Import Shard.
From S2P Require Import Store.
From S2P Require Import ShardSpec.
From S2P Require Import StoreSpec.
From S2P Require Import EngineProofs.
From S2P Require Import EngineMulti.

Open Scope Z_scope.
Open Scope go_scope.

(** ** Single writes on the shard a key routes to *)

Section steps.
Context (s : Store) (I : store_inv s) (ck : string).

Inductive fetched (now : time) : option Entry * Store → Prop :=
  | fetched_live e : entry_at s ck = Some e → expired e now = false → fetched now (Some e, s)
  | fetched_none s' j : live_at now s ck = None → swrote ck None j s s' → (entry_at s ck = None ∨ (1 ≤ j)%nat) →
      (j ≤ 1)%nat → fetched now (None, s').

Lemma swrote_refl : swrote ck (entry_at s ck) 0 s s.
Proof.
  split; [..|lia]; [intros k; by case_decide; subst|intros k; by case_decide; subst|by split|done].
Qed.

Lemma onShard_fetch now : fetched now (onShard (indexOf s ck) (getForWriteLocked ck now) s).
Proof.
  pose proof (getForWriteLocked_got _ ck now _ (open_inv s I ck)) as G. unfold onShard.
  destruct G as [H|e H Hx|e c' H Hx W].
  - rewrite close_open by (by apply index_lt). apply (fetched_none now s 0); [|..|by left|lia].
    + unfold live_at, live. change (entry_at s ck = None) in H. by rewrite H.
    + change (entry_at s ck = None) in H. rewrite <- H. apply swrote_refl.
  - rewrite close_open by (by apply index_lt). by apply fetched_live.
  - apply (fetched_none now _ 1); [|..|by right|lia].
    + unfold live_at, live. change (entry_at s ck = Some e) in H. by rewrite H, Hx.
    + apply (onShard_wrote s I ck None 1 (λ _, (tt, c'))); done.
Qed.

Lemma onShard_delete : swrote ck None 0 s (onShard (indexOf s ck) (deleteEntryLocked ck) s).2.
Proof. apply onShard_wrote; [done|apply wrote_delete|done]. Qed.

Lemma entry_at_wf e : entry_at s ck = Some e → entry_wf e.
Proof. apply (inv_entry (si_shard s I _ _ (shard_at_lookup s ck I))). Qed.

Lemma onShard_set e : entry_wf e →
  swrote ck (Some e) 1 s (onShard (indexOf s ck) (setEntryLocked ck e) s).2.
Proof. intros Hwf. apply onShard_wrote; [done|apply wrote_set|]. by intros ? [= <-]. Qed.

Lemma onShard_bump : swrote ck (entry_at s ck) 1 s (onShard (indexOf s ck) (bumpVersionLocked ck) s).2.
Proof.
  apply onShard_wrote; [done| |apply entry_at_wf].
  exact (wrote_bump _ ck _ (open_inv s I ck)).
Qed.
End steps.

Lemma swrote_trans ck oe1 oe2 j1 j2 s1 s2 s3 :
  swrote ck oe1 j1 s1 s2 → swrote ck oe2 j2 s2 s3 → swrote ck oe2 (j1 + j2) s1 s3.
Proof.
  intros [E1 V1 C1 I1 N1] [E2 V2 C2 I2 N2]. split.
  - intros k. rewrite E2, E1. by case_decide.
  - intros k. rewrite V2, !V1. case_decide; [|done]. subst.
    by rewrite decide_True, iter_plus_bump, Nat.add_comm.
  - by eapply same_config_trans.
  - done.
  - rewrite E1, decide_True in N2 by done. lia.
Qed.

Lemma swrote_live now ck oe j s s' k : swrote ck oe j s s' →
  live_at now s' k = if decide (k = ck) then live now oe else live_at now s k.
Proof. intros W. unfold live_at. rewrite (sw_entry _ _ _ _ _ W). by case_decide. Qed.

(** ** RENAME *)

(** Both branches of [Rename] run the same writes. *)
Definition rename_steps (now : time) (oi ni : nat) (ock nck : string) : StoreM bool :=
  let! oe := onShard oi (getForWriteLocked ock now) in
  match oe with
  | None => ret false
  | Some e =>
      onShard oi (deleteEntryLocked ock) ;;
      onShard ni (setEntryLocked nck e) ;;
      onShard oi (bumpVersionLocked ock) ;;
      ret true
  end.

Lemma length_onShard {A} i (m : SH A) s : length (shards (onShard i m s).2) = length (shards s).
Proof. unfold onShard. destruct (m _). simpl. by rewrite length_insert. Qed.

Lemma Rename_steps now ws old new s : store_inv s →
  Rename now ws old new s = rename_steps now (indexOf s (nsKey ws old)) (indexOf s (nsKey ws new))
                              (nsKey ws old) (nsKey ws new) s.
Proof.
  intros I. unfold Rename, rename_steps. set (ock := nsKey ws old). set (nck := nsKey ws new).
  change (shardIndex (NumShards s) ock) with (indexOf s ock).
  change (shardIndex (NumShards s) nck) with (indexOf s nck).
  case_decide as D; [|done]. rewrite <- D. set (i := indexOf s ock).
  assert (Hi : (i < length (shards s))%nat) by (by apply index_lt).
  rewrite onShard_bind by done. unfold bind at 1 5.
  pose proof (length_onShard i (getForWriteLocked ock now) s) as L1.
  destruct (onShard i (getForWriteLocked ock now) s) as [oe s1]. cbn [snd] in L1.
  destruct oe as [e|]; [|by rewrite onShard_ret by lia].
  rewrite onShard_bind by lia. unfold bind at 1 4.
  pose proof (length_onShard i (deleteEntryLocked ock) s1) as L2.
  destruct (onShard i (deleteEntryLocked ock) s1) as [u2 s2]. cbn [snd] in L2.
  rewrite onShard_bind by lia. unfold bind at 1 3.
  pose proof (length_onShard i (setEntryLocked nck e) s2) as L3.
  destruct (onShard i (setEntryLocked nck e) s2) as [u3 s3]. cbn [snd] in L3.
  rewrite onShard_bind by lia. unfold bind.
  pose proof (length_onShard i (bumpVersionLocked ock) s3) as L4.
  destruct (onShard i (bumpVersionLocked ock) s3) as [u4 s4]. cbn [snd] in L4.
  by rewrite onShard_ret by lia.
Qed.

(** What RENAME does to the live content of every key. *)
Definition renamed (now : time) (s : Store) (ock nck k : string) : content :=
  match live_at now s ock with
  | None => live_at now s k
  | Some c => if decide (k = nck) then Some c else if decide (k = ock) then None else live_at now s k
  end.

(** The entry [e] moved from [ock] to [nck]: what the three steps of a
    successful RENAME amount to. *)
Definition moved (ock nck : string) (e : Entry) (s s' : Store) : Prop :=
  store_inv s' ∧ same_config s s' ∧
  (∀ k, entry_at s' k = if decide (k = nck) then Some e else if decide (k = ock) then None else entry_at s k) ∧
  (∀ k, version_at s' k = Nat.iter
     ((if decide (k = ock) then 1 else 0) + (if decide (k = nck) then 1 else 0))%nat bump1 (version_at s k)).
Lemma rename_moves ock nck e s : store_inv s → entry_at s ock = Some e →
  ∃ s', (onShard (indexOf s ock) (deleteEntryLocked ock) ;; onShard (indexOf s nck) (setEntryLocked nck e) ;;
         onShard (indexOf s ock) (bumpVersionLocked ock) ;; ret true) s = (true, s') ∧ moved ock nck e s s'.
Proof.
  intros I He. unfold bind, ret.
  pose proof (onShard_delete s I ock) as W1.
  destruct (onShard (indexOf s ock) (deleteEntryLocked ock) s) as [u1 s1]. cbn [snd] in W1.
  pose proof (sw_inv _ _ _ _ _ W1) as I1.
  rewrite <- (indexOf_config s s1 nck (sw_config _ _ _ _ _ W1)).
  pose proof (onShard_set s1 I1 nck e (entry_at_wf s I ock e He)) as W2.
  destruct (onShard (indexOf s1 nck) (setEntryLocked nck e) s1) as [u2 s2]. cbn [snd] in W2.
  pose proof (sw_inv _ _ _ _ _ W2) as I2.
  assert (C2 : same_config s s2) by (eapply same_config_trans; [apply (sw_config _ _ _ _ _ W1)|apply (sw_config _ _ _ _ _ W2)]).
  rewrite <- (indexOf_config s s2 ock C2).
  pose proof (onShard_bump s2 I2 ock) as W3.
  destruct (onShard (indexOf s2 ock) (bumpVersionLocked ock) s2) as [u3 s3]. cbn [snd] in *.
  exists s3. split; [done|]. split_and!.
  - apply (sw_inv _ _ _ _ _ W3).
  - eapply same_config_trans; [exact C2|apply (sw_config _ _ _ _ _ W3)].
  - intros k. rewrite (sw_entry _ _ _ _ _ W3), !(sw_entry _ _ _ _ _ W2), !(sw_entry _ _ _ _ _ W1).
    repeat case_decide; congruence.
  - intros k. rewrite (sw_ver _ _ _ _ _ W3), !(sw_ver _ _ _ _ _ W2), !(sw_ver _ _ _ _ _ W1).
    repeat case_decide; subst; try congruence; done.
Qed.
Lemma rename_steps_ok now ock nck s : store_inv s →
  let r := rename_steps now (indexOf s ock) (indexOf s nck) ock nck s in
  evolves 3 s r.2 ∧
  r.1 = bool_decide (is_Some (live_at now s ock)) ∧
  (∀ k, live_at now r.2 k = renamed now s ock nck k) ∧
  (∀ k, k ≠ ock → k ≠ nck → entry_at r.2 k = entry_at s k) ∧
  (live_at now s ock ≠ None → ∀ k, k = ock ∨ k = nck →
     ver_adv 1 3 (version_at s k) (version_at r.2 k)).
Proof.
  intros I. cbv zeta. unfold renamed.
  destruct (rename_steps _ _ _ _ _ s) as [b s'] eqn:Hr. revert Hr. unfold rename_steps.
  unfold bind at 1.
  destruct (onShard_fetch s I ock now) as [e He Hx|s1 j Hl W Hj Hj1].
  - assert (Hl : live_at now s ock = content_of (Some e)) by (unfold live_at, live; by rewrite He, Hx).
    destruct (rename_moves ock nck e s I He) as (s3 & -> & I3 & C3 & Hent & Hver). intros [= <- <-].
    rewrite Hl, bool_decide_true by (simpl; eauto).
    assert (Hadv : ∀ k, k = ock ∨ k = nck → ver_adv 1 3 (version_at s k) (version_at s3 k)).
    { intros k Hk. rewrite Hver. eexists. split; [|done]. repeat case_decide; lia || tauto. }
    split_and!; [split|done|..].
    + done.
    + done.
    + intros k. rewrite Hver. eexists. split; [|done]. repeat case_decide; lia.
    + intros k Hk. apply Hadv. destruct (decide (k = ock)), (decide (k = nck)); [tauto..|].
      unfold content_at in Hk. rewrite Hent, !decide_False in Hk by done. done.
    + intros k. unfold live_at. rewrite Hent. repeat case_decide; try done. unfold live. by rewrite Hx.
    + intros k Hk1 Hk2. by rewrite Hent, !decide_False by done.
    + intros _. exact Hadv.
  - unfold ret. cbn [fst snd]. intros [= <- <-]. rewrite Hl. split_and!.
    + eapply evolves_weaken; [eapply swrote_evolves; [done|]|lia].
      destruct Hj as [Hj|Hj]; [left|by right]. unfold content_at. by rewrite Hj.
    + done.
    + intros k. rewrite (swrote_live now _ _ _ _ _ k W). case_decide; by subst.
    + intros k Hk _. by rewrite (sw_entry _ _ _ _ _ W), decide_False.
    + done.
Qed.

(** ** Dropping entries: FLUSHDB and the sweep *)

(** [s'] is [s] with some entries removed, each with its version moved. *)
Record drops (P : string → Entry → Prop) (s s' : Store) : Prop := {
  dr_inv : store_inv s';
  dr_config : same_config s s';
  dr_key : ∀ k,
    (entry_at s' k = entry_at s k ∧ version_at s' k = version_at s k) ∨
    (∃ e, entry_at s k = Some e ∧ P k e ∧ entry_at s' k = None ∧ version_at s' k = bump1 (version_at s k));
}.

Lemma drops_refl P s : store_inv s → drops P s s.
Proof. intros I. split; [done|apply same_config_refl|]. intros k. by left. Qed.

Lemma drops_trans P s1 s2 s3 : drops P s1 s2 → drops P s2 s3 → drops P s1 s3.
Proof.
  intros [I1 C1 K1] [I2 C2 K2]. split; [done|by eapply same_config_trans|]. intros k.
  destruct (K1 k) as [[E1 V1]|(e & He & Hp & E1 & V1)], (K2 k) as [[E2 V2]|(e' & He' & Hp' & E2 & V2)].
  - left. split; congruence.
  - right. exists e'. split_and!; congruence.
  - right. exists e. split_and!; congruence.
  - congruence.
Qed.

Lemma drops_evolves P s s' : drops P s s' → evolves 1 s s'.
Proof.
  intros [I C K]. split; [done|done|..]; intros k; unfold content_at;
    destruct (K k) as [[E ->]|(e & _ & _ & _ & ->)].
  - apply ver_adv_refl.
  - exists 1%nat. split; [lia|done].
  - by rewrite E.
  - intros _. exists 1%nat. split; [lia|done].
Qed.

Section drop.
Context (P : string → Entry → Prop) (s : Store) (I : store_inv s).

Lemma drop_one {A} ck e (k : SH A) : entry_at s ck = Some e → P ck e →
  ∃ s', onShard (indexOf s ck) (deleteEntryLocked ck ;; bumpVersionLocked ck ;; k) s =
          onShard (indexOf s ck) k s' ∧
        drops P s s' ∧ entryCount s' = entryCount s - 1 ∧
        ∀ k', entry_at s' k' = if decide (k' = ck) then None else entry_at s k'.
Proof using I.
  intros He Hp. pose proof (onShard_delete s I ck) as W1.
  set (i := indexOf s ck) in *.
  pose proof (index_lt s ck I : (i < length (shards s))%nat) as Hi.
  pose proof (length_onShard i (deleteEntryLocked ck) s) as L1.
  rewrite onShard_bind by done. unfold bind at 1.
  destruct (onShard i (deleteEntryLocked ck) s) as [u1 s1]. cbn [snd] in *.
  pose proof (sw_inv _ _ _ _ _ W1) as I1.
  pose proof (onShard_bump s1 I1 ck) as W2.
  rewrite (indexOf_config s s1 ck (sw_config _ _ _ _ _ W1)) in W2. fold i in W2.
  rewrite onShard_bind by lia. unfold bind at 1.
  destruct (onShard i (bumpVersionLocked ck) s1) as [u2 s2]. cbn [snd] in *.
  rewrite (sw_entry _ _ _ _ _ W1), decide_True in W2 by done.
  pose proof (swrote_trans _ _ _ _ _ _ _ _ W1 W2) as [E V C I2 N]. exists s2.
  split_and!; [done|split; [done|done|]|rewrite He in N; lia|done].
  intros k'. rewrite E, V. case_decide as D; [subst; right|by left]. exists e. done.
Qed.
End drop.

(** The entries FLUSHDB removes: those whose composite key starts with the
    workspace and a NUL. *)
Definition in_workspace (ws ck : string) : Prop := ∃ k, ck = nsKey ws k.
Lemma strip_wsPrefix ws ck : is_Some (strip_prefix (wsPrefix ws) ck) ↔ in_workspace ws ck.
Proof.
  unfold in_workspace, nsKey, wsPrefix. split.
  - intros [k Hk]. exists k. apply strip_prefix_Some in Hk. rewrite Hk, str_app_assoc. by autorewrite with go.
  - intros [k ->]. exists k. apply strip_prefix_Some. rewrite str_app_assoc. by autorewrite with go.
Qed.
#[export] Instance in_workspace_dec ws ck : Decision (in_workspace ws ck).
Proof.
  refine (cast_if (decide (is_Some (strip_prefix (wsPrefix ws) ck)))); by rewrite <- strip_wsPrefix.
Defined.

Lemma flush_loop_ok ws keys : ∀ s i, store_inv s → NoDup keys → (i < length (shards s))%nat →
  (∀ k, k ∈ keys → indexOf s k = i ∧ is_Some (entry_at s k)) →
  let s' := (onShard i (flush_loop ws keys) s).2 in
  drops (λ k _, in_workspace ws k) s s' ∧
  ∀ k, k ∈ keys → in_workspace ws k → entry_at s' k = None.
Proof.
  induction keys as [|ck keys IH]; intros s i I Hnd Hi Hk; cbn [flush_loop]; cbv zeta.
  - rewrite onShard_ret by done. split; [by apply drops_refl|]. by intros k ?%elem_of_nil.
  - apply NoDup_cons in Hnd as [Hnot Hnd].
    destruct (Hk ck ltac:(by left)) as [Hci [e He]].
    destruct (decide (in_workspace ws ck)) as [Hin|Hin].
    + pose proof Hin as [k0 Hk0]%strip_wsPrefix. rewrite Hk0.
      destruct (drop_one (λ k _, in_workspace ws k) s I ck e (flush_loop ws keys) He Hin)
        as (s1 & Heq & D & _ & E1). rewrite Hci in Heq. rewrite Heq.
      pose proof (dr_config _ _ _ D) as Hc. pose proof (dr_inv _ _ _ D) as I1.
      destruct (IH s1 i I1 Hnd) as [D2 K2].
      { destruct Hc as [Hc _]. unfold NumShards, len in Hc. lia. }
      { intros k Hkk. rewrite (indexOf_config _ _ _ Hc), E1, decide_False by (by intros ->).
        apply Hk. by right. }
      split; [by eapply drops_trans|].
      intros k [->|Hkk]%elem_of_cons Hw; [|by apply K2].
      destruct (dr_key _ _ _ D2 ck) as [[-> _]|(? & _ & _ & -> & _)]; [|done].
      by rewrite E1, decide_True.
    + destruct (strip_prefix (wsPrefix ws) ck) eqn:E.
      { exfalso. apply Hin, strip_wsPrefix. eauto. }
      destruct (IH s i I Hnd Hi) as [D2 K2]; [intros k ?; apply Hk; by right|].
      split; [done|]. intros k [->|Hkk]%elem_of_cons Hw; [done|by apply K2].
Qed.

(** The keys of shard [i]. *)
Lemma shard_keys_at s i : store_inv s → (i < length (shards s))%nat →
  ∀ k, k ∈ (map_to_list (sc_data (openShard i s))).*1 ↔ indexOf s k = i ∧ is_Some (entry_at s k).
Proof.
  intros I Hi k. unfold openShard, sc_data. cbn [sc_shard].
  destruct (lookup_lt_is_Some_2 _ _ Hi) as [sh Hsh].
  rewrite (list_lookup_total_correct _ _ _ Hsh). rewrite list_elem_of_fmap. split.
  - intros ([k' e] & -> & He%elem_of_map_to_list).
    destruct (inv_entry (si_shard s I _ _ Hsh) _ _ He) as [_ Hki]. cbn [fst].
    split; [done|]. exists e. unfold entry_at, shard_at, indexOf. rewrite Hki.
    by rewrite (list_lookup_total_correct _ _ _ Hsh).
  - intros [Hki [e He]]. exists (k, e). split; [done|]. apply elem_of_map_to_list.
    unfold entry_at, shard_at in He. rewrite Hki in He. by rewrite (list_lookup_total_correct _ _ _ Hsh) in He.
Qed.

Lemma flushShard_ok ws s i : store_inv s → (i < length (shards s))%nat →
  let s' := (onShard i (flushShard ws) s).2 in
  drops (λ k _, in_workspace ws k) s s' ∧
  ∀ k, indexOf s k = i → in_workspace ws k → entry_at s' k = None.
Proof.
  intros I Hi. cbv zeta. unfold flushShard. rewrite onShard_gets_bind by done.
  destruct (flush_loop_ok ws (map_to_list (sc_data (openShard i s))).*1 s i I) as [D K].
  - apply NoDup_fst_map_to_list.
  - done.
  - intros k. by apply shard_keys_at.
  - split; [done|]. intros k Hki Hw. destruct (entry_at s k) as [e|] eqn:He.
    + apply K; [|done]. apply shard_keys_at; [done..|]. split; [done|by rewrite He].
    + destruct (dr_key _ _ _ D k) as [[-> _]|(? & _ & _ & -> & _)]; done.
Qed.

Lemma FlushDB_loop_ok ws is_ : ∀ s, store_inv s → Forall (λ i, (i < length (shards s))%nat) is_ →
  let s' := (FlushDB_loop ws is_ s).2 in
  drops (λ k _, in_workspace ws k) s s' ∧
  ∀ k, indexOf s k ∈ is_ → in_workspace ws k → entry_at s' k = None.
Proof.
  induction is_ as [|i is_ IH]; intros s I Hlt; cbn [FlushDB_loop]; cbv zeta.
  - split; [by apply drops_refl|]. by intros k ?%elem_of_nil.
  - apply Forall_cons in Hlt as [Hi Hlt]. unfold bind.
    destruct (flushShard_ok ws s i I Hi) as [D1 K1].
    destruct (onShard i (flushShard ws) s) as [u s1]. cbn [snd] in *.
    pose proof (dr_config _ _ _ D1) as Hc.
    destruct (IH s1 (dr_inv _ _ _ D1)) as [D2 K2].
    { destruct Hc as [Hc _]. eapply Forall_impl; [exact Hlt|]. intros j Hj. cbv beta in *. unfold NumShards, len in Hc. lia. }
    split; [by eapply drops_trans|]. intros k [Hk|Hk]%elem_of_cons Hw.
    + destruct (dr_key _ _ _ D2 k) as [[-> _]|(? & _ & _ & -> & _)]; [|done]. by apply K1.
    + apply K2; [|done]. by rewrite (indexOf_config _ _ _ Hc).
Qed.

Lemma FlushDB_ok ws s : store_inv s →
  let s' := (FlushDB ws s).2 in
  drops (λ k _, in_workspace ws k) s s' ∧ ∀ k, in_workspace ws k → entry_at s' k = None.
Proof.
  intros I. cbv zeta. unfold FlushDB. destruct (FlushDB_loop_ok ws (seq 0 (length (shards s))) s I) as [D K].
  - apply Forall_forall. intros i Hi%elem_of_seq. simpl in *. lia.
  - split; [done|]. intros k Hw. apply K; [|done]. apply elem_of_seq. pose proof (index_lt s k I). lia.
Qed.

(** ** The sweep *)

Lemma sweep_loop_ok now n keys : ∀ s i ex rem, store_inv s → NoDup keys → (i < length (shards s))%nat →
  (∀ k, k ∈ keys → indexOf s k = i) →
  let r := onShard i (sweep_loop keys n ex rem now) s in
  drops (λ k e, expired e now = true) s r.2 ∧
  r.1 - rem = entryCount s - entryCount r.2 ∧
  rem <= r.1 ∧
  r.1 - rem <= Z.max 0 (n - ex) ∧
  (ex + len keys <= n → ∀ k, k ∈ keys → ∀ e, entry_at r.2 k = Some e → expired e now = false).
Proof.
  induction keys as [|ck keys IH]; intros s i ex rem I Hnd Hi Hk; cbn [sweep_loop]; cbv zeta.
  - rewrite onShard_ret by done. cbn [fst snd]. split_and!; [by apply drops_refl|lia|lia|lia|].
    by intros _ k ?%elem_of_nil.
  - destruct (Z.leb_spec n ex) as [Hn|Hn].
    { rewrite onShard_ret by done. cbn [fst snd]. split_and!; [by apply drops_refl|lia|lia|lia|].
      unfold len. simpl. lia. }
    rewrite onShard_gets_bind by done. cbv beta.
    apply NoDup_cons in Hnd as [Hnot Hnd].
    assert (Hck : indexOf s ck = i) by (apply Hk; by left).
    change (sc_data (openShard i s) !! ck) with (data (shards s !!! i) !! ck).
    assert (He0 : data (shards s !!! i) !! ck = entry_at s ck) by (by rewrite <- Hck). rewrite He0. clear He0.
    assert (Hlen : len (ck :: keys) = 1 + len keys) by (unfold len; simpl; lia).
    destruct (entry_at s ck) as [e|] eqn:He.
    + destruct (expired e now) eqn:Hx.
      * destruct (drop_one (λ k e, expired e now = true) s I ck e
                    (sweep_loop keys n (ex + 1) (rem + 1) now) He Hx) as (s1 & Heq & D & Hc & E1).
        rewrite Hck in Heq. rewrite Heq. pose proof (dr_config _ _ _ D) as Hcf.
        destruct (IH s1 i (ex + 1) (rem + 1) (dr_inv _ _ _ D) Hnd) as (D2 & Hr & Hge & Hb & Hall).
        { destruct Hcf as [Hcf _]. unfold NumShards, len in Hcf. lia. }
        { intros k Hkk. rewrite (indexOf_config _ _ _ Hcf). apply Hk. by right. }
        split_and!; [by eapply drops_trans|lia|lia|lia|].
        intros Hex k [->|Hkk]%elem_of_cons; [|by apply Hall; [lia|]].
        intros e'. destruct (dr_key _ _ _ D2 ck) as [[-> _]|(? & _ & _ & -> & _)]; [|done].
        by rewrite E1, decide_True.
      * destruct (IH s i (ex + 1) rem I Hnd Hi) as (D2 & Hr & Hge & Hb & Hall); [intros; apply Hk; by right|].
        split_and!; [done|lia|lia|lia|].
        intros Hex k [->|Hkk]%elem_of_cons; [|by apply Hall; [lia|]].
        intros e'. destruct (dr_key _ _ _ D2 ck) as [[-> _]|(? & _ & _ & -> & _)]; [|done].
        rewrite He. by intros [= <-].
    + destruct (IH s i (ex + 1) rem I Hnd Hi) as (D2 & Hr & Hge & Hb & Hall); [intros; apply Hk; by right|].
      split_and!; [done|lia|lia|lia|].
      intros Hex k [->|Hkk]%elem_of_cons; [|by apply Hall; [lia|]].
      intros e'. destruct (dr_key _ _ _ D2 ck) as [[-> _]|(? & _ & _ & -> & _)]; [|done].
      by rewrite He.
Qed.

(** A range over a map visits each key at most once. *)
Definition range_order (order : gset string → list string) : Prop :=
  ∀ X, NoDup (order X) ∧ ∀ k, k ∈ order X ↔ k ∈ X.

Lemma SweepShard_ok now order s i n : store_inv s → range_order order → (i < length (shards s))%nat →
  let r := SweepShard now order i n s in
  drops (λ k e, expired e now = true) s r.2 ∧
  r.1 = entryCount s - entryCount r.2 ∧
  0 <= r.1 <= Z.max 0 n ∧
  (Z.of_nat (size (ttlKeys (shards s !!! i))) <= n →
   ∀ k e, indexOf s k = i → entry_at r.2 k = Some e → expired e now = false).
Proof.
  intros I Ho Hi. cbv zeta. unfold SweepShard, sweepSampleLocked. rewrite onShard_gets_bind by done. change (ttlKeys (sc_shard (openShard i s))) with (ttlKeys (shards s !!! i)).
  set (X := ttlKeys (shards s !!! i)). destruct (Ho X) as [Hnd Hel].
  destruct (lookup_lt_is_Some_2 _ _ Hi) as [sh Hsh].
  assert (HX : ∀ k, k ∈ X → indexOf s k = i ∧ has_ttl (entry_at s k)).
  { intros k. unfold X. rewrite (list_lookup_total_correct _ _ _ Hsh).
    rewrite (inv_ttl (si_shard s I _ _ Hsh)). intros (e & He & Hx).
    destruct (inv_entry (si_shard s I _ _ Hsh) _ _ He) as [_ Hki]. split; [done|].
    exists e. split; [|done]. unfold entry_at, shard_at, indexOf. rewrite Hki.
    by rewrite (list_lookup_total_correct _ _ _ Hsh). }
  destruct (sweep_loop_ok now n (order X) s i 0 0 I Hnd Hi) as (D & Hr & Hge & Hb & Hall).
  { intros k Hk%Hel. by apply HX. }
  split_and!; [done|lia|lia|lia|]. intros Hn k e Hki He.
  assert (Hlen : len (order X) = Z.of_nat (size X)).
  { unfold len. f_equal. rewrite <- (size_list_to_set (C := gset string)) by done. f_equal. set_solver. }
  destruct (decide (k ∈ X)) as [Hin|Hin]; [apply (Hall ltac:(lia) k); [by apply Hel|done]|].
  destruct (dr_key _ _ _ D k) as [[HE _]|(? & _ & _ & HE & _)]; [|congruence].
  rewrite HE in He. unfold expired. destruct (e_ExpiresAt e) eqn:Hx; [|done].
  exfalso. apply Hin. unfold X. rewrite (list_lookup_total_correct _ _ _ Hsh).
  apply (inv_ttl (si_shard s I _ _ Hsh)). exists e. split; [|by rewrite Hx].
  unfold entry_at, shard_at in He. rewrite Hki in He. by rewrite (list_lookup_total_correct _ _ _ Hsh) in He.
Qed.

Lemma expired_later e t1 t2 : t1 ≤ t2 → expired e t1 = true → expired e t2 = true.
Proof.
  intros Ht. unfold expired, time_After. destruct (e_ExpiresAt e) as [x|]; [|done].
  destruct (Z.ltb_spec t1 x), (Z.ltb_spec t2 x); simpl; done || lia.
Qed.
