(* ===== verification/KeyScan.v ===== *)
(** * KEYS, SCAN and key routing: enumerating a workspace *)

From S2P Require Import Prelude.
From S2P Require Import GoStd.
From S2P Require Import Glob.
From S2P Require Import Eviction.
From S2P Require Import Shard.
From S2P Require Import Store.
From S2P Require Import ShardSpec.
From S2P Require Import StoreSpec.
From S2P Require Import EngineMulti.
From S2P Require Import KeySpace.

Open Scope Z_scope.
Open Scope go_scope.

Lemma list_bind_concat {A B} (f : A → list B) l : l ≫= f = concat (f <$> l).
Proof. induction l as [|x l IH]; [done|]. exact (f_equal (app (f x)) IH). Qed.

Section enumerate.
Context (s : Store) (I : store_inv s) (ws : string) (now : time).

Lemma shardKeys_spec i sh k : shards s !! i = Some sh →
  k ∈ shardKeys ws now sh ↔ indexOf s (nsKey ws k) = i ∧ is_Some (live_at now s (nsKey ws k)).
Proof.
  intros Hi. unfold shardKeys. rewrite list_elem_of_omap.
  assert (Hat : ∀ ck, indexOf s ck = i → entry_at s ck = data sh !! ck).
  { intros ck <-. unfold entry_at, shard_at. by rewrite (list_lookup_total_correct _ _ _ Hi). }
  split.
  - intros ([ck e] & He%elem_of_map_to_list & Hs).
    destruct (strip_prefix (wsPrefix ws) ck) as [k'|] eqn:Hp; [|done].
    destruct (expired e now) eqn:Hx; [done|]. injection Hs as ->.
    assert (ck = nsKey ws k) as ->.
    { apply strip_prefix_Some in Hp. rewrite Hp. unfold wsPrefix, nsKey. rewrite str_app_assoc.
      by autorewrite with go. }
    destruct (inv_entry (si_shard s I _ _ Hi) _ _ He) as [_ Hki]. split; [done|].
    unfold live_at. rewrite (Hat _ Hki), He. simpl. rewrite Hx. eauto.
  - intros [Hki Hl]. unfold live_at in Hl. rewrite (Hat _ Hki) in Hl.
    destruct (data sh !! nsKey ws k) as [e|] eqn:He; [|by destruct Hl].
    exists (nsKey ws k, e). split; [by apply elem_of_map_to_list|].
    assert (strip_prefix (wsPrefix ws) (nsKey ws k) = Some k) as ->.
    { apply strip_prefix_Some. unfold wsPrefix, nsKey. rewrite str_app_assoc. by autorewrite with go. }
    simpl in Hl. destruct (expired e now); [by destruct Hl|done].
Qed.

Lemma shardKeys_NoDup sh : NoDup (shardKeys ws now sh).
Proof using.
  unfold shardKeys. pose proof (NoDup_fst_map_to_list (data sh)) as Hnd.
  induction (map_to_list (data sh)) as [|[ck e] l IH]; [constructor|].
  apply NoDup_cons in Hnd as [Hn Hnd]. specialize (IH Hnd). cbn [omap list_omap].
  destruct (strip_prefix (wsPrefix ws) ck) as [k|] eqn:Hp; [|done].
  destruct (expired e now); [done|]. apply NoDup_cons. split; [|done].
  rewrite list_elem_of_omap. intros ([ck' e'] & Hin & Hs).
  destruct (strip_prefix (wsPrefix ws) ck') as [k'|] eqn:Hp'; [|done].
  destruct (expired e' now); [done|]. injection Hs as ->.
  apply strip_prefix_Some in Hp, Hp'. apply Hn. cbn [fst]. apply list_elem_of_fmap.
  exists (ck', e'). split; [|done]. by rewrite Hp, Hp'.
Qed.

Lemma keysForWorkspace_seq :
  keysForWorkspace ws now s = seq 0 (length (shards s)) ≫= λ i, shardKeys ws now (shards s !!! i).
Proof using.
  unfold keysForWorkspace. rewrite list_bind_concat. f_equal.
  apply list_eq. intros i. rewrite !list_lookup_fmap.
  destruct (shards s !! i) as [sh|] eqn:Hi; simpl.
  - rewrite lookup_seq_lt by (by eapply lookup_lt_Some). simpl.
    by rewrite (list_lookup_total_correct _ _ _ Hi).
  - rewrite lookup_seq_ge by (by apply lookup_ge_None). done.
Qed.

Lemma keysForWorkspace_spec k : k ∈ keysForWorkspace ws now s ↔ is_Some (live_at now s (nsKey ws k)).
Proof.
  rewrite keysForWorkspace_seq, list_elem_of_bind. split.
  - intros (i & Hk & Hi%elem_of_seq). destruct (lookup_lt_is_Some_2 (shards s) i) as [sh Hsh]; [lia|].
    rewrite (list_lookup_total_correct _ _ _ Hsh) in Hk. by apply (shardKeys_spec _ _ _ Hsh) in Hk as [_ Hk].
  - intros Hl. exists (indexOf s (nsKey ws k)). pose proof (index_lt s (nsKey ws k) I) as Hlt.
    split; [|apply elem_of_seq; lia]. pose proof (shard_at_lookup s (nsKey ws k) I) as Hsh.
    rewrite (list_lookup_total_correct _ _ _ Hsh). by apply (shardKeys_spec _ _ _ Hsh).
Qed.

Lemma keysForWorkspace_NoDup : NoDup (keysForWorkspace ws now s).
Proof.
  rewrite keysForWorkspace_seq. apply NoDup_bind; [|intros; apply shardKeys_NoDup|apply NoDup_seq].
  intros i j k Hi%elem_of_seq Hj%elem_of_seq Hki Hkj.
  destruct (lookup_lt_is_Some_2 (shards s) i) as [shi Hshi]; [lia|].
  destruct (lookup_lt_is_Some_2 (shards s) j) as [shj Hshj]; [lia|].
  rewrite (list_lookup_total_correct _ _ _ Hshi) in Hki.
  rewrite (list_lookup_total_correct _ _ _ Hshj) in Hkj.
  apply (shardKeys_spec _ _ _ Hshi) in Hki as [<- _]. by apply (shardKeys_spec _ _ _ Hshj) in Hkj as [<- _].
Qed.
End enumerate.

(** ** SCAN *)

(** A client that scans from [cursor] until the cursor comes back as 0. *)
Fixpoint scan_pages (fuel : nat) (now : time) (ws : string) (m : string) (count : Z) (s : Store)
    (cursor : Z) : option (list string) :=
  match fuel with
  | O => None
  | S fuel =>
      let '(next, page) := (Scan now ws cursor m count s).1 in
      if next =? 0 then Some page
      else app page <$> scan_pages fuel now ws m count s next
  end.

Section scan.
Context (s : Store) (now : time) (ws m : string) (count : Z).
Context (Hcount : count ≤ maxInt64).
Let all := sort_Strings (keysForWorkspace ws now s).
Context (Hlen : len all ≤ maxInt64).
Let matching (k : string) : Prop := m = "" ∨ m = "*" ∨ globMatch m k = true.

Lemma Scan_page cursor : 0 ≤ cursor → cursor < len all →
  ∃ n, (1 ≤ n)%nat ∧
  (Scan now ws cursor m count s).1 =
    (if len all <=? cursor + Z.of_nat n then 0 else cursor + Z.of_nat n,
     filter matching (take n (drop (Z.to_nat cursor) all))).
Proof using Hcount Hlen.
  intros H0 Hlt. unfold Scan, gets. cbn [fst]. fold all.
  set (cnt := if count <=? 0 then 10 else count).
  assert (Hc : 1 <= cnt <= maxInt64) by (subst cnt; unfold maxInt64 in *; destruct (Z.leb_spec count 0); lia).
  clearbody cnt. destruct (Z.leb_spec (len all) cursor); [lia|].
  unfold wrapu64. rewrite (Z.mod_small (cursor + cnt)) by (unfold maxInt64 in *; lia).
  destruct (Z.ltb_spec (len all) (cursor + cnt)) as [Hb|Hb].
  - exists (Z.to_nat (len all - cursor)). split; [lia|].
    rewrite Z2Nat.id by lia. replace (cursor + (len all - cursor)) with (len all) by lia.
    f_equal. unfold slice. do 3 f_equal. lia.
  - exists (Z.to_nat cnt). split; [lia|]. rewrite Z2Nat.id by lia.
    f_equal. unfold slice. do 3 f_equal. lia.
Qed.

Lemma scan_pages_from fuel : ∀ cursor, 0 ≤ cursor → cursor < len all → len all - cursor ≤ Z.of_nat fuel →
  scan_pages fuel now ws m count s cursor = Some (filter matching (drop (Z.to_nat cursor) all)).
Proof using Hcount Hlen.
  induction fuel as [|fuel IH]; intros cursor H0 Hlt Hf; [lia|]. cbn [scan_pages].
  destruct (Scan_page cursor H0 Hlt) as (n & Hn & ->).
  destruct (Z.leb_spec (len all) (cursor + Z.of_nat n)) as [Hb|Hb]; cbn [Z.eqb].
  - f_equal. f_equal. rewrite take_ge; [done|]. rewrite length_drop. unfold len in *. lia.
  - destruct (Z.eqb_spec (cursor + Z.of_nat n) 0); [lia|]. rewrite IH by lia. simpl. f_equal.
    rewrite <- (take_drop n (drop (Z.to_nat cursor) all)) at 2. rewrite filter_app, drop_drop.
    do 3 f_equal. lia.
Qed.

Lemma scan_pages_all fuel : len all < Z.of_nat fuel →
  scan_pages fuel now ws m count s 0 = Some (filter matching all).
Proof using Hcount Hlen.
  intros Hf. destruct (decide (len all = 0)) as [Hz|Hz].
  - destruct fuel as [|fuel]; [unfold len in *; lia|]. cbn [scan_pages].
    unfold Scan, gets. cbn [fst]. fold all. rewrite Hz. simpl.
    assert (all = []) as -> by (apply nil_length_inv; unfold len in Hz; lia). done.
  - rewrite scan_pages_from; [done|lia|unfold len in *; lia|lia].
Qed.
End scan.

(** ** Composite keys

    [nsKey] keeps workspaces apart as long as their names hold no NUL byte. *)

Lemma nsKey_inj w1 w2 k1 k2 : has_NUL w1 = false → has_NUL w2 = false →
  nsKey w1 k1 = nsKey w2 k2 → w1 = w2 ∧ k1 = k2.
Proof. apply nul_join_inj. Qed.

Lemma in_workspace_nsKey w1 w2 k : has_NUL w1 = false → has_NUL w2 = false →
  in_workspace w1 (nsKey w2 k) ↔ w1 = w2.
Proof.
  intros H1 H2. unfold in_workspace. split.
  - intros [k' H]. by destruct (nsKey_inj _ _ _ _ H1 H2 (eq_sym H)).
  - intros ->. by exists k.
Qed.
