(* ===== verification/EvictionSpec.v ===== *)
(** * What eviction removes

    The victim is an entry of the receiving shard whose score is maximal in
    the sample, and the entry count stays within the bound whenever the
    shard has an entry to give up. *)

From S2P Require Import Prelude.
From S2P Require Import GoStd.
From S2P Require Import Floats.
From S2P Require Import Eviction.
From S2P Require Import Shard.
From S2P Require Import Store.
From S2P Require Import ShardSpec.
From S2P Require Import StoreSpec.

Open Scope Z_scope.
Open Scope go_scope.

Section victim.
Context (p : Policy) (now : time) (n : Z).

Definition score_of (e : Entry) : float64 := Score p (entry_signals e now).
Definition sample (ex : Z) (l : list (string * Entry)) := take (Z.to_nat (n - ex)) l.

Lemma victim_loop_max l : ∀ ex best key sc,
  victim_loop p now n ex best l = Some (key, sc) →
  (best = Some (key, sc) ∨ ∃ e, (key, e) ∈ sample ex l ∧ sc = score_of e) ∧
  (∀ b sb, best = Some (b, sb) → sc = sb ∨ f64_lt sb sc = true) ∧
  (∀ k e, (k, e) ∈ sample ex l → f64_lt sc (score_of e) = false).
Proof.
  unfold sample. induction l as [|[k0 e0] l IH]; intros ex best key sc H; cbn [victim_loop] in H.
  - rewrite take_nil. split_and!; [by left|intros b sb ->; injection H; auto|by intros k e ?%elem_of_nil].
  - destruct (Z.leb_spec n ex) as [Hn|Hn].
    { replace (Z.to_nat (n - ex)) with 0%nat by lia.
      split_and!; [by left|intros b sb ->; injection H; auto|by intros k e ?%elem_of_nil]. }
    replace (Z.to_nat (n - ex)) with (S (Z.to_nat (n - (ex + 1)))) by lia. cbn [take].
    fold (score_of e0) in H. apply IH in H as (Hfrom & Hbest & Hall). clear IH.
    destruct best as [[b sb]|]; [destruct (f64_lt sb (score_of e0)) eqn:Hlt|].
    + specialize (Hbest _ _ eq_refl). split_and!.
      * right. destruct Hfrom as [[= <- <-]|(e & He & ->)]; [exists e0|exists e]; rewrite elem_of_cons; auto.
      * intros b' sb' [= <- <-]. right.
        destruct Hbest as [->|Hb]; [done|by eapply f64_lt_trans].
      * intros k e [[= -> ->]|He]%elem_of_cons; [|by eapply Hall].
        destruct Hbest as [->|Hb]; [apply f64_lt_irrefl|by apply f64_lt_asym].
    + specialize (Hbest _ _ eq_refl). split_and!.
      * destruct Hfrom as [?|(e & He & ->)]; [by left|right]. exists e. rewrite elem_of_cons; auto.
      * by intros b' sb' [= <- <-].
      * intros k e [[= -> ->]|He]%elem_of_cons; [|by eapply Hall].
        destruct Hbest as [->|Hb]; [done|]. destruct (f64_lt sc (score_of e0)) eqn:E; [|done].
        by rewrite (f64_lt_trans _ _ _ Hb E) in Hlt.
    + specialize (Hbest _ _ eq_refl). split_and!; [|done|].
      * right. destruct Hfrom as [[= <- <-]|(e & He & ->)]; [exists e0|exists e]; rewrite elem_of_cons; auto.
      * intros k e [[= -> ->]|He]%elem_of_cons; [|by eapply Hall].
        destruct Hbest as [->|Hb]; [apply f64_lt_irrefl|by apply f64_lt_asym].
Qed.

Lemma victim_loop_Some l ex b : is_Some (victim_loop p now n ex (Some b) l).
Proof.
  revert ex b. induction l as [|[k0 e0] l IH]; intros ex [b sb]; cbn [victim_loop]; [eauto|].
  destruct (n <=? ex); [eauto|]. destruct (f64_lt _ _); apply IH.
Qed.
End victim.

(** [order] ranges over a map: every entry once. *)
Definition map_order (order : DataOrder) : Prop := ∀ m, order m ≡ₚ map_to_list m.

(** What an insertion may do to the receiving shard before it inserts. *)
Inductive evict_outcome (s : Store) (order : DataOrder) (now : time) (c : shardCtx) : shardCtx → Prop :=
  | evict_none : (maxEntries s <= 0 ∨ sc_count c + 1 <= maxEntries s ∨ sc_data c = ∅) →
      evict_outcome s order now c c
  | evict_one k e c' :
      0 < maxEntries s → maxEntries s < sc_count c + 1 →
      sc_data c !! k = Some e → (k, e) ∈ take (Z.to_nat evictionSampleSize) (order (sc_data c)) →
      (∀ k' e', (k', e') ∈ take (Z.to_nat evictionSampleSize) (order (sc_data c)) →
         f64_lt (score_of (policy s) now e) (score_of (policy s) now e') = false) →
      sc_data c' = delete k (sc_data c) → sc_count c' = sc_count c - 1 →
      sc_evicted c' = sc_evicted c + 1 →
      version_of (sc_shard c') k = bump1 (version_of (sc_shard c) k) →
      evict_outcome s order now c c'.

(** Eviction removes nothing while the store is within its bound or the
    receiving shard is empty; otherwise it removes exactly one entry, whose
    score under the configured policy no entry of the sample exceeds, counts
    it and moves its WATCH version. *)
Theorem evictIfNeeded_outcome s order now c :
  map_order order → sc_data c !! "" = None →
  evict_outcome s order now c (evictIfNeededLocked s order now c).2.
Proof.
  intros Ho Hempty. unfold evictIfNeededLocked.
  destruct (Z.leb_spec (maxEntries s) 0); [apply evict_none; auto|]. go_step.
  destruct (Z.leb_spec (sc_count c + 1) (maxEntries s)); [apply evict_none; auto|].
  unfold pickEvictionVictimLocked. go_step.
  destruct (victim_loop _ _ _ _ _ _) as [[k sc]|] eqn:Hv.
  - destruct (victim_loop_max _ _ _ _ _ _ _ _ Hv) as ([?|(e & Hin & ->)] & _ & Hmax); [done|].
    unfold sample in *. rewrite Z.sub_0_r in *.
    assert (Hk : sc_data c !! k = Some e).
    { apply elem_of_map_to_list. rewrite <- (Ho (sc_data c)).
      apply elem_of_take in Hin as (i & Hi & _). by eapply list_elem_of_lookup_2. }
    destruct (String.eqb_spec k "") as [->|_]; [congruence|]. go_step.
    eapply (evict_one _ _ _ _ k e); try done; destruct c as [[d t vs] cnt ev]; unfold sc_data in *; simpl in *.
    + by rewrite Hk.
    + unfold version_of; simpl. by rewrite lookup_insert_eq.
  - assert (Hnil : order (sc_data c) = []).
    { destruct (order (sc_data c)) as [|[k0 e0] l]; [done|]. cbn [victim_loop] in Hv.
      change (evictionSampleSize <=? 0) with false in Hv. cbv iota in Hv.
      destruct (victim_loop_Some (policy s) now evictionSampleSize l (0 + 1)
        (k0, Score (policy s) (entry_signals e0 now))) as [? Hs]. congruence. }
    apply evict_none. right; right. apply map_to_list_empty_iff.
    pose proof (Ho (sc_data c)) as Hp. rewrite Hnil in Hp. by apply Permutation_nil_l in Hp.
Qed.

Definition victim_e (la : time) : Entry := mkEntry KindString (to_bytes "v") ∅ [] ∅ ∅ None la 1.
Definition victim_c : shardCtx :=
  mkCtx (mkShard {[ "a" := victim_e 10; "b" := victim_e 3 ]} ∅ ∅) 2 0.
Definition victim_s : Store := newStore 1 2 None.

Lemma evictIfNeeded_outcome_witness :
  evict_outcome victim_s map_to_list 20000000000 victim_c
    (evictIfNeededLocked victim_s map_to_list 20000000000 victim_c).2 ∧
  (map_to_list (sc_data (evictIfNeededLocked victim_s map_to_list 20000000000 victim_c).2)).*1 = ["a"].
Proof.
  split; [|vm_compute; reflexivity].
  apply evictIfNeeded_outcome; [intros m; reflexivity|vm_compute; reflexivity].
Defined.
