(* ===== verification/Ttl.v ===== *)
(** * The reaper (internal/storage/ttl/reaper.go)

    [Sweepable] is the Go interface the reaper is written against; [E] is what
    the Go methods read from their surroundings (the clock and the runtime's
    map order).  [SweepableLaws] is what a store promises the reaper: the
    reaper's theorem is proved from it, and memstore discharges it. *)

From S2P Require Import Prelude.
From S2P Require Import GoStd.
From S2P Require Import Shard.
From S2P Require Import Store.
From S2P Require Import ShardSpec.
From S2P Require Import StoreSpec.
From S2P Require Import EngineMulti.
From S2P Require Import KeySpace.

Open Scope Z_scope.

Class Sweepable (S E : Type) := {
  sw_NumShards : S → Z;
  sw_SweepShard : E → Z → Z → S → Z * S;
}.

Record Reaper := mkReaper { interval : duration; sampleSize : Z }.

Definition New (interval : duration) (sampleSize : Z) : Reaper :=
  mkReaper (if interval <=? 0 then 100 * Millisecond else interval)
           (if sampleSize <=? 0 then 20 else sampleSize).

Section tick.
Context {S E : Type} `{Sweepable S E}.

Fixpoint tick_loop (e : E) (r : Reaper) (is_ : list nat) (s : S) : S :=
  match is_ with
  | [] => s
  | i :: is_ => tick_loop e r is_ (sw_SweepShard e (Z.of_nat i) (sampleSize r) s).2
  end.
Definition tick (e : E) (r : Reaper) (s : S) : S :=
  tick_loop e r (seq 0 (Z.to_nat (sw_NumShards s))) s.

(** [Run] ticks until its context is cancelled: the readings of the clock at
    the ticks that happened. *)
Fixpoint Run (r : Reaper) (es : list E) (s : S) : S :=
  match es with [] => s | e :: es => Run r es (tick e r s) end.
End tick.

(** What a sweepable store promises. [sw_clean e s i]: shard [i] holds no
    entry that is expired for [e]; [sw_tracked s i]: how many keys with an
    expiry it indexes; [sw_same e]: what clients can tell apart from [e] on. *)
Class SweepableLaws (S E : Type) `{Sweepable S E} := {
  sw_ok : E → S → Prop;
  sw_clean : E → S → nat → Prop;
  sw_tracked : S → nat → Z;
  sw_same : E → S → S → Prop;
  sw_same_po :: ∀ e, PreOrder (sw_same e);
  sw_law_ok e s i n : sw_ok e s → Z.of_nat i < sw_NumShards s → sw_ok e (sw_SweepShard e (Z.of_nat i) n s).2;
  sw_law_shards e s i n : sw_ok e s → Z.of_nat i < sw_NumShards s →
    sw_NumShards (sw_SweepShard e (Z.of_nat i) n s).2 = sw_NumShards s;
  sw_law_same e s i n : sw_ok e s → Z.of_nat i < sw_NumShards s →
    sw_same e s (sw_SweepShard e (Z.of_nat i) n s).2;
  sw_law_keep e s i j n : sw_ok e s → Z.of_nat i < sw_NumShards s →
    sw_clean e s j → sw_clean e (sw_SweepShard e (Z.of_nat i) n s).2 j;
  sw_law_full e s i n : sw_ok e s → Z.of_nat i < sw_NumShards s → sw_tracked s i ≤ n →
    sw_clean e (sw_SweepShard e (Z.of_nat i) n s).2 i;
  sw_law_tracked e s i j n : sw_ok e s → Z.of_nat i < sw_NumShards s →
    sw_tracked (sw_SweepShard e (Z.of_nat i) n s).2 j ≤ sw_tracked s j;
}.

Section reaper.
Context {S E : Type} `{SweepableLaws S E}.

Lemma tick_loop_ok e r is_ : ∀ s, sw_ok e s → (∀ i, i ∈ is_ → Z.of_nat i < sw_NumShards s) →
  sw_ok e (tick_loop e r is_ s) ∧ sw_same e s (tick_loop e r is_ s) ∧
  sw_NumShards (tick_loop e r is_ s) = sw_NumShards s ∧
  (∀ i, sw_clean e s i → sw_clean e (tick_loop e r is_ s) i) ∧
  (∀ i, i ∈ is_ → sw_tracked s i ≤ sampleSize r → sw_clean e (tick_loop e r is_ s) i).
Proof.
  induction is_ as [|i is_ IH]; intros s Hs Hi; cbn [tick_loop].
  - split_and!; [done|reflexivity|done|done|]. by intros i ?%elem_of_nil.
  - assert (Hlt : Z.of_nat i < sw_NumShards s) by (apply Hi; by left).
    set (s1 := (sw_SweepShard e (Z.of_nat i) (sampleSize r) s).2).
    destruct (IH s1) as (I2 & S2 & N2 & K2 & F2).
    + by apply sw_law_ok.
    + intros j Hj. unfold s1. rewrite sw_law_shards by done. apply Hi. by right.
    + split_and!; [done| |by rewrite N2; apply sw_law_shards|..].
      * etransitivity; [by apply sw_law_same|exact S2].
      * intros j Hj. apply K2. by apply sw_law_keep.
      * intros j [->|Hj]%elem_of_cons Ht.
        -- apply K2. by apply sw_law_full.
        -- apply F2; [done|]. etransitivity; [by apply sw_law_tracked|done].
Qed.
End reaper.

(** ** memstore is sweepable *)

Definition sweep_env : Type := time * (gset string → list string).

#[export] Instance Store_Sweepable : Sweepable Store sweep_env := {|
  sw_NumShards := NumShards;
  sw_SweepShard := λ e i n s, SweepShard e.1 e.2 (Z.to_nat i) n s;
|}.

Definition store_clean (e : sweep_env) (s : Store) (i : nat) : Prop :=
  ∀ k ent, indexOf s k = i → entry_at s k = Some ent → expired ent e.1 = false.
Definition store_same (e : sweep_env) (s s' : Store) : Prop :=
  ∀ t k, e.1 ≤ t → live_at t s' k = live_at t s k.
Definition store_tracked (s : Store) (i : nat) : Z := Z.of_nat (size (ttlKeys (shards s !!! i))).

Lemma SweepShard_drops (e : sweep_env) s i n :
  store_inv s ∧ range_order e.2 → Z.of_nat i < NumShards s →
  drops (λ k en, expired en e.1 = true) s (SweepShard e.1 e.2 (Z.to_nat (Z.of_nat i)) n s).2 ∧
  (store_tracked s i ≤ n → store_clean e (SweepShard e.1 e.2 (Z.to_nat (Z.of_nat i)) n s).2 i).
Proof.
  intros [I Ho] Hi. rewrite Nat2Z.id.
  destruct (SweepShard_ok e.1 e.2 s i n I Ho) as (D & _ & _ & Hf); [unfold NumShards, len in Hi; lia|].
  split; [done|]. intros Hn k ent Hk. rewrite (indexOf_config _ _ _ (dr_config _ _ _ D)) in Hk. by apply (Hf Hn).
Qed.

Lemma drops_tracked P s s' j : store_inv s → drops P s s' → store_tracked s' j ≤ store_tracked s j.
Proof.
  intros I D. pose proof (dr_inv _ _ _ D) as I'.
  assert (Hlen : length (shards s') = length (shards s)).
  { destruct (dr_config _ _ _ D) as [Hc _]. unfold NumShards, len in Hc. lia. }
  unfold store_tracked. destruct (decide (j < length (shards s))%nat) as [Hj|Hj].
  - destruct (lookup_lt_is_Some_2 (shards s) j Hj) as [sh Hsh].
    destruct (lookup_lt_is_Some_2 (shards s') j) as [sh' Hsh']; [lia|].
    rewrite (list_lookup_total_correct _ _ _ Hsh), (list_lookup_total_correct _ _ _ Hsh').
    apply inj_le, subseteq_size. intros k.
    rewrite (inv_ttl (si_shard s I _ _ Hsh)), (inv_ttl (si_shard s' I' _ _ Hsh')).
    intros (e & He & Hx). destruct (inv_entry (si_shard s' I' _ _ Hsh') _ _ He) as [_ Hk].
    assert (He' : entry_at s' k = Some e).
    { unfold entry_at, shard_at, indexOf. by rewrite Hk, (list_lookup_total_correct _ _ _ Hsh'). }
    destruct (dr_key _ _ _ D k) as [[HE _]|(? & _ & _ & HE & _)]; [|congruence].
    exists e. split; [|done]. rewrite <- He', HE. unfold entry_at, shard_at.
    rewrite <- (indexOf_config _ _ k (dr_config _ _ _ D)). unfold indexOf. by rewrite Hk, (list_lookup_total_correct _ _ _ Hsh).
  - rewrite !list_lookup_total_alt, !lookup_ge_None_2 by lia. done.
Qed.

#[export] Program Instance Store_SweepableLaws : SweepableLaws Store sweep_env := {|
  sw_ok := λ e s, store_inv s ∧ range_order e.2;
  sw_clean := store_clean;
  sw_tracked := store_tracked;
  sw_same := store_same;
|}.
Next Obligation. intros e. split; [by intros s t k|]. intros s1 s2 s3 H1 H2 t k Ht. by rewrite H2, H1. Qed.
Next Obligation.
  intros e s i n Hs Hi. destruct (SweepShard_drops e s i n Hs Hi) as [D _]. split; [apply D|apply Hs].
Qed.
Next Obligation. intros e s i n Hs Hi. by destruct (SweepShard_drops e s i n Hs Hi) as [[_ [Hc _] _] _]. Qed.
Next Obligation.
  intros e s i n Hs Hi t k Ht. destruct (SweepShard_drops e s i n Hs Hi) as [D _]. unfold live_at. simpl.
  destruct (dr_key _ _ _ D k) as [[-> _]|(en & -> & Hx & -> & _)]; [done|].
  simpl. by rewrite (expired_later en e.1 t).
Qed.
Next Obligation.
  intros e s i j n Hs Hi Hc k ent Hk He. destruct (SweepShard_drops e s i n Hs Hi) as [D _].
  change (sw_SweepShard e (Z.of_nat i) n s) with (SweepShard e.1 e.2 (Z.to_nat (Z.of_nat i)) n s) in *.
  rewrite (indexOf_config _ _ k (dr_config _ _ _ D)) in Hk.
  destruct (dr_key _ _ _ D k) as [[HE _]|(? & _ & _ & HE & _)]; rewrite HE in He; [by apply (Hc k)|done].
Qed.
Next Obligation. intros e s i n Hs Hi. by apply (SweepShard_drops e s i n Hs Hi). Qed.
Next Obligation. intros e s i j n Hs Hi. destruct (SweepShard_drops e s i n Hs Hi) as [D _]. by apply (drops_tracked _ _ _ _ (proj1 Hs) D). Qed.

(** A tick of the reaper visits every shard, changes nothing a client can
    see from that moment on, and keeps the store well-formed; when no shard
    indexes more keys with an expiry than the sample size, no expired entry
    is left anywhere in the store. *)
Theorem tick_spec (r : Reaper) (now : time) (order : gset string → list string) (s : Store) :
  store_inv s → range_order order →
  let s' := tick ((now, order) : sweep_env) r s in
  store_inv s' ∧ (∀ t k, now ≤ t → live_at t s' k = live_at t s k) ∧
  ((∀ i, store_tracked s i ≤ sampleSize r) → ∀ k e, entry_at s' k = Some e → expired e now = false).
Proof.
  intros I Ho. cbv zeta. unfold tick.
  assert (Hlt : ∀ i, i ∈ seq 0 (Z.to_nat (NumShards s)) → Z.of_nat i < NumShards s).
  { intros i Hi%elem_of_seq. unfold NumShards, len in *. lia. }
  set (env := (now, order) : sweep_env). assert (Hok : sw_ok env s) by (by split).
  destruct (tick_loop_ok env r _ s Hok Hlt) as ([I' _] & Hs & HN & _ & Hf).
  split_and!; [done|exact Hs|]. intros Hn k e He.
  refine (Hf (indexOf _ k) _ (Hn _) k e eq_refl He).
  apply elem_of_seq. split; [lia|]. pose proof (index_lt _ k I') as Hi.
  change (NumShards (tick_loop env r (seq 0 (Z.to_nat (NumShards s))) s) = NumShards s) in HN.
  unfold NumShards, len in *. lia.
Qed.

Definition reaped : Store := closeShard 0 (setEntryLocked "k"
  (mkEntry KindString (to_bytes "v") ∅ [] ∅ ∅ (Some 10) 5 1) (openShard 0 (newStore 1 0 None))).2 (newStore 1 0 None).
Lemma reaped_inv : store_inv reaped.
Proof.
  pose proof (newStore_inv 1 0 None eq_refl) as I.
  eapply (onShard_wrote _ I "k" _ 1 (setEntryLocked "k" _)); [apply wrote_set|by intros e [= <-]].
Qed.

Lemma tick_spec_witness :
  entryCount reaped = 1 ∧ entryCount (tick ((20, elements) : sweep_env) (New 0 0) reaped) = 0 ∧
  live_at 25 (tick ((20, elements) : sweep_env) (New 0 0) reaped) "k" = live_at 25 reaped "k".
Proof.
  split; [reflexivity|]. split; [vm_compute; reflexivity|].
  assert (Ho : range_order elements) by (intros X; split; [apply NoDup_elements|intros k; apply elem_of_elements]).
  destruct (tick_spec (New 0 0) 20 elements reaped reaped_inv Ho) as (_ & H & _).
  apply H. discriminate.
Defined.
