(* ===== verification/RespCodec.v ===== *)
(** * The RESP2 wire protocol (internal/server/resp/types.go, errors.go)

    Command decoding from a connection's byte stream, reply encoding, and the
    error texts.  A reader is the string of the bytes still to come, up to the
    end of the stream; a reply is a value, [write] its encoding.  Commands the
    server's own writer encodes are read back exactly, whatever their bytes;
    every reply reads back as the value it stands for, with two exceptions the
    theorems exhibit: an error text that quotes a client's CR LF, and an empty
    byte slice that became nil. *)

From S2P Require Import Prelude.
From S2P Require Import GoStd.

Open Scope Z_scope.
#[local] Set Warnings "-register-all".

Definition CR : ascii := "013".
Definition LF : ascii := "010".
Definition CRLF : string := String CR (String LF "").

(** ** Reading commands *)

(** What ends a connection's read loop. *)
Inductive rerr := EOF | ErrUnexpectedEOF | ErrProtocol.

(** The outcome of a read: a value and the unread bytes, an error, or a
    run-time panic. *)
Inductive read (A : Type) : Type :=
  | Got (a : A) (rest : string)
  | ReadErr (e : rerr)
  | ReadPanic.
Arguments Got {A} a rest.
Arguments ReadErr {A} e.
Arguments ReadPanic {A}.

(** [bufio.Reader.ReadString('\n')]; [None] is the end of the stream. *)
Fixpoint ReadString (s : string) : option (string * string) :=
  match s with
  | EmptyString => None
  | String c s =>
      if Ascii.eqb c LF then Some (String c "", s)
      else match ReadString s with
           | Some (line, rest) => Some (String c line, rest)
           | None => None
           end
  end.

(** [strings.TrimRight(line, "\r\n")] *)
Definition is_crlf (c : ascii) : bool := Ascii.eqb c CR || Ascii.eqb c LF.
Fixpoint TrimRight (s : string) : string :=
  match s with
  | EmptyString => EmptyString
  | String c s =>
      match TrimRight s with
      | EmptyString => if is_crlf c then EmptyString else String c EmptyString
      | t => String c t
      end
  end.

Definition readLine (s : string) : read string :=
  match ReadString s with
  | Some (line, rest) => Got (TrimRight line) rest
  | None => ReadErr EOF
  end.

(** [io.ReadFull] of [n] bytes. *)
Fixpoint ReadFull (s : string) (n : Z) : option (string * string) :=
  if n <=? 0 then Some ("", s)
  else match s with
       | EmptyString => None
       | String c s =>
           match ReadFull s (n - 1) with
           | Some (buf, rest) => Some (String c buf, rest)
           | None => None
           end
       end.

(** The first [n] bytes of a slice. *)
Definition prefix_bytes (buf : string) (n : Z) : string := String.substring 0 (Z.to_nat n) buf.

(** The largest allocation the run-time grants on 64-bit Linux; [make] panics
    on a negative length and on a larger size. *)
Definition maxAlloc : Z := 2 ^ 48.
Definition make_ok (n elemSize : Z) : bool := (0 <=? n) && (n * elemSize <=? maxAlloc).
(** The size of a [string] header. *)
Definition stringSize : Z := 16.

(** The loop of [readArrayCommand]: [todo] arguments remain.  An iteration
    consumes at least a header's newline, so the stream's length bounds the
    number of iterations. *)
Fixpoint readArgs (fuel : nat) (todo : Z) (args : list string) (s : string) : read (list string) :=
  match fuel with
  | O => ReadErr EOF
  | S fuel =>
      if todo <=? 0 then Got args s
      else
        match readLine s with
        | Got hdr s =>
            match hdr with
            | String "$" num =>
                match Atoi num with
                | None => ReadErr ErrProtocol
                | Some blen =>
                    if blen <? 0 then readArgs fuel (todo - 1) (args ++ [""]) s
                    else
                      let size := wrap64 (blen + 2) in
                      if negb (make_ok size 1) then ReadPanic
                      else match ReadFull s size with
                           | None => ReadErr (if String.eqb s "" then EOF else ErrUnexpectedEOF)
                           | Some (buf, s) => readArgs fuel (todo - 1) (args ++ [prefix_bytes buf blen]) s
                           end
                end
            | _ => ReadErr ErrProtocol
            end
        | ReadErr e => ReadErr e
        | ReadPanic => ReadPanic
        end
  end.

Definition readArrayCommand (s : string) : read (list string) :=
  match readLine s with
  | Got line s =>
      match line with
      | String "*" num =>
          match Atoi num with
          | None => ReadErr ErrProtocol
          | Some n =>
              if n <=? 0 then Got [] s
              else if negb (make_ok n stringSize) then ReadPanic
              else readArgs (S (String.length s)) n [] s
          end
      | _ => ReadErr ErrProtocol
      end
  | ReadErr e => ReadErr e
  | ReadPanic => ReadPanic
  end.

Section inline.
Context `{UnicodeTables}.

Definition readInlineCommand (s : string) : read (list string) :=
  match readLine s with
  | Got line s =>
      let line := TrimSpace line in
      if String.eqb line "" then Got [] s else Got (Fields line) s
  | ReadErr e => ReadErr e
  | ReadPanic => ReadPanic
  end.

Definition ReadCommand (s : string) : read (list string) :=
  match s with
  | EmptyString => ReadErr EOF
  | String "*" _ => readArrayCommand s
  | _ => readInlineCommand s
  end.
End inline.

(** ** Writing replies *)

(** [Reply], a function from a writer, as the data its constructors take.
    [Several] is the loop of a subscription reply, which writes one reply per
    channel. *)
Inductive Reply :=
  | Simple (s : string)
  | Err (msg : string)
  | Int (n : Z)
  | Bulk (b : gobytes)
  | NullArray
  | ArraySlice (items : list Reply)
  | Several (items : list Reply).

Definition BulkString (s : string) : Reply := Bulk (to_bytes s).
Definition NullBulk : Reply := Bulk nilb.
Definition OK : Reply := Simple "OK".

Definition WriteSimpleString (s : string) : string := "+" +:+ s +:+ CRLF.
Definition WriteError (s : string) : string := "-" +:+ s +:+ CRLF.
Definition WriteInteger (n : Z) : string := ":" +:+ FormatInt n +:+ CRLF.
Definition WriteBulk (b : gobytes) : string :=
  match b with
  | None => "$-1" +:+ CRLF
  | Some s => "$" +:+ Itoa (slen s) +:+ CRLF +:+ s +:+ CRLF
  end.
Definition WriteArrayHeader (n : Z) : string := "*" +:+ Itoa n +:+ CRLF.

(** The bytes a reply appends to the writer. *)
Fixpoint write (r : Reply) : string :=
  match r with
  | Simple s => WriteSimpleString s
  | Err msg => WriteError msg
  | Int n => WriteInteger n
  | Bulk b => WriteBulk b
  | NullArray => WriteArrayHeader (-1)
  | ArraySlice items =>
      WriteArrayHeader (len items) +:+
      (fix write_all (l : list Reply) : string :=
         match l with [] => "" | it :: l => write it +:+ write_all l end) items
  | Several items =>
      (fix write_all (l : list Reply) : string :=
         match l with [] => "" | it :: l => write it +:+ write_all l end) items
  end.
Fixpoint write_all (l : list Reply) : string :=
  match l with [] => "" | it :: l => write it +:+ write_all l end.

(** ** Error texts (errors.go) *)

Definition ErrWrongTypeMsg : string := "WRONGTYPE Operation against a key holding the wrong kind of value".
Definition ErrNotIntegerMsg : string := "ERR value is not an integer or out of range".
Definition ErrNotFloatMsg : string := "ERR value is not a valid float".
Definition ErrSyntaxMsg : string := "ERR syntax error".
Definition ErrNoAuthMsg : string := "NOAUTH Authentication required.".
Definition ErrInvalidPasswordMsg : string := "WRONGPASS invalid username-password pair or user is disabled.".
Definition ErrNoProtoMsg : string := "NOPROTO unsupported protocol version".
Definition ErrWrongDBMsg : string := "ERR DB index is out of range".
Definition ErrNoSuchKeyMsg : string := "ERR no such key".
Definition ErrInvalidJSONMsg : string := "ERR invalid variables JSON".
Definition ErrCostNegativeMsg : string := "ERR COST must be a non-negative float".
Definition ErrInvalidToolArgsJSONMsg : string := "ERR invalid args JSON".
Definition ErrInvalidVectorJSONMsg : string := "ERR invalid vector JSON".
Definition ErrInvalidMetadataJSONMsg : string := "ERR invalid metadata JSON".
Definition ErrNoSuchMemoryMsg : string := "ERR no such memory".
Definition ErrWorkspaceNotAuthorized `{UnicodeTables} (workspace : string) : string :=
  "NOPERM this connection is not authorized for workspace " +:+ Quote workspace.

Fixpoint Join (sep : string) (l : list string) : string :=
  match l with
  | [] => ""
  | [x] => x
  | x :: l => x +:+ sep +:+ Join sep l
  end.

Definition ErrUnknownCommand (name : string) (args : list string) : string :=
  "ERR unknown command '" +:+ name +:+ "', with args beginning with: " +:+
  Join ", " ((λ a, "'" +:+ a +:+ "'") <$> args).

Definition ErrWrongNumberOfArgs `{UnicodeTables} (cmd : string) : string :=
  "ERR wrong number of arguments for '" +:+ ToLower cmd +:+ "' command".

Definition ErrFromStorage (err : goerr) : Reply :=
  match err with
  | ErrWrongType => Err ErrWrongTypeMsg
  | ErrNotInteger => Err ErrNotIntegerMsg
  | ErrNotFloat => Err ErrNotFloatMsg
  | ErrIndexOutOfRange => Err "ERR index out of range"
  | ErrNoSuchKey => Err ErrNoSuchKeyMsg
  end.

(** ** Text without line breaks *)

Fixpoint no_crlf (s : string) : bool :=
  match s with EmptyString => true | String c s => negb (is_crlf c) && no_crlf s end.

Lemma no_crlf_app a b : no_crlf (a +:+ b) = no_crlf a && no_crlf b.
Proof. induction a as [|c a IH]; autorewrite with go; [done|]. cbn. by rewrite IH, andb_assoc. Qed.

Lemma digit_no_crlf d : 0 ≤ d ≤ 9 → is_crlf (digit_char d) = false.
Proof.
  intros Hd. assert (Hc : d = 0 ∨ d = 1 ∨ d = 2 ∨ d = 3 ∨ d = 4 ∨ d = 5 ∨ d = 6 ∨ d = 7 ∨ d = 8 ∨ d = 9) by lia.
  repeat destruct Hc as [->|Hc]; [reflexivity..|subst; reflexivity].
Qed.
Lemma format_digits_no_crlf fuel : ∀ n acc, no_crlf acc = true → no_crlf (format_digits fuel n acc) = true.
Proof.
  induction fuel as [|fuel IH]; intros n acc Ha; [done|]. cbn [format_digits].
  assert (Hc : no_crlf (String (digit_char (n `mod` 10)) acc) = true).
  { cbn. pose proof (Z.mod_pos_bound n 10). by rewrite digit_no_crlf, Ha by lia. }
  case_match; [done|]. by apply IH.
Qed.
Lemma FormatInt_no_crlf n : no_crlf (FormatInt n) = true.
Proof. unfold FormatInt, FormatUint. case_match; cbn [no_crlf]; by rewrite format_digits_no_crlf. Qed.

Lemma ReadString_line l rest : no_crlf l = true →
  ReadString (l +:+ CRLF +:+ rest) = Some (l +:+ CRLF, rest).
Proof.
  induction l as [|c l IH]; autorewrite with go; [done|]. cbn. unfold is_crlf.
  destruct (Ascii.eqb c LF); [by rewrite orb_true_r|]. intros [_ Hl]%andb_true_iff. unfold CRLF in *. by rewrite IH.
Qed.
Lemma TrimRight_line l : no_crlf l = true → TrimRight (l +:+ CRLF) = l.
Proof.
  induction l as [|c l IH]; autorewrite with go; [done|]. cbn. intros [Hc Hl]%andb_true_iff.
  rewrite IH by done. destruct l; [|done]. by destruct (is_crlf c).
Qed.
Lemma readLine_line l rest : no_crlf l = true → readLine (l +:+ CRLF +:+ rest) = Got l rest.
Proof. intros Hl. unfold readLine. by rewrite ReadString_line, TrimRight_line. Qed.

Lemma slen_cons c s : slen (String c s) = slen s + 1.
Proof. unfold slen. cbn. lia. Qed.
Lemma slen_nonneg s : 0 ≤ slen s.
Proof. unfold slen. lia. Qed.
Lemma slen_app a b : slen (a +:+ b) = slen a + slen b.
Proof. unfold slen. rewrite length_app_str. lia. Qed.

Lemma ReadFull_app a rest : ReadFull (a +:+ rest) (slen a) = Some (a, rest).
Proof.
  induction a as [|c a IH]; autorewrite with go; [by destruct rest|].
  cbn [ReadFull]. pose proof (slen_nonneg a). rewrite slen_cons.
  destruct (Z.leb_spec (slen a + 1) 0); [lia|]. replace (slen a + 1 - 1) with (slen a) by lia. by rewrite IH.
Qed.
Lemma prefix_bytes_app a b : prefix_bytes (a +:+ b) (slen a) = a.
Proof.
  unfold prefix_bytes, slen. rewrite Nat2Z.id. induction a as [|c a IH]; autorewrite with go; [by destruct b|].
  cbn. by rewrite IH.
Qed.

(** ** Commands read back *)

(** One encoded argument. *)
Lemma write_BulkString a : write (BulkString a) = String "$" (Itoa (slen a)) +:+ CRLF +:+ a +:+ CRLF.
Proof. reflexivity. Qed.
Lemma write_ArraySlice items : write (ArraySlice items) = String "*" (Itoa (len items)) +:+ CRLF +:+ write_all items.
Proof.
  change (write (ArraySlice items)) with (WriteArrayHeader (len items) +:+ write_all items).
  unfold WriteArrayHeader. by rewrite !str_app_assoc.
Qed.

(** A command the client library encodes as an array of bulk strings. *)
Definition encode (args : list string) : string := write (ArraySlice (BulkString <$> args)).

(** The sizes the decoder can allocate. *)
Definition sendable (args : list string) : Prop :=
  args ≠ [] ∧ len args * stringSize ≤ maxAlloc ∧ Forall (λ a, slen a + 2 ≤ maxAlloc) args.

Lemma readArgs_encoded args : ∀ fuel acc rest, (length args < fuel)%nat →
  Forall (λ a, slen a + 2 ≤ maxAlloc) args →
  readArgs fuel (len args) acc (write_all (BulkString <$> args) +:+ rest) = Got (acc ++ args) rest.
Proof.
  induction args as [|a args IH]; intros fuel acc rest Hf Ha; (destruct fuel as [|fuel]; [cbn in Hf; lia|]).
  - cbn. by rewrite app_nil_r.
  - apply Forall_cons in Ha as [Ha Has]. cbn [readArgs fmap list_fmap write_all].
    assert (Hl : len (a :: args) = len args + 1) by (unfold len; cbn; lia).
    rewrite Hl. assert (0 ≤ len args) by (unfold len; lia). destruct (Z.leb_spec (len args + 1) 0); [lia|].
    rewrite write_BulkString, !str_app_assoc, readLine_line by (cbn; apply FormatInt_no_crlf).
    pose proof (slen_nonneg a). unfold maxAlloc in Ha.
    assert (HI : int64_range (slen a)) by (unfold int64_range, minInt64, maxInt64; lia).
    assert (HI2 : int64_range (slen a + 2)) by (unfold int64_range, minInt64, maxInt64; lia).
    change (Atoi (Itoa (slen a))) with (ParseInt (FormatInt (slen a))). rewrite ParseInt_FormatInt by done.
    destruct (Z.ltb_spec (slen a) 0); [lia|]. rewrite wrap64_id by done. unfold make_ok, maxAlloc.
    rewrite (proj2 (Z.leb_le _ _)), (proj2 (Z.leb_le _ _)) by lia. cbn [negb andb].
    replace (slen a + 2) with (slen (a +:+ CRLF)) by (by rewrite slen_app).
    rewrite <- (str_app_assoc a CRLF (_ +:+ rest)), ReadFull_app, prefix_bytes_app.
    replace (len args + 1 - 1) with (len args) by lia.
    rewrite IH; [by rewrite <- (assoc_L (++))|cbn in Hf; lia|done].
Qed.

(** Each argument takes bytes, so the stream's length is enough fuel. *)
Lemma write_all_length args rest : (length args ≤ String.length (write_all (BulkString <$> args) +:+ rest))%nat.
Proof.
  induction args as [|a args IH]; [cbn; lia|]. cbn [fmap list_fmap write_all length].
  rewrite write_BulkString, !str_app_assoc. autorewrite with go. cbn [String.length].
  rewrite !length_app_str in *. lia.
Qed.

(** C17: a command the writer encodes as an array of bulk strings is read back
    as exactly the same arguments, whatever bytes they hold (CR, LF and NUL
    included), and the reader is left at the first byte after it: pipelined
    commands are read one by one. *)
Theorem command_roundtrip `{UnicodeTables} args rest : sendable args →
  ReadCommand (encode args +:+ rest) = Got args rest.
Proof.
  intros (Hne & Hn & Ha). unfold encode. rewrite write_ArraySlice.
  change (ReadCommand ?s) with (readArrayCommand s). unfold readArrayCommand.
  rewrite !str_app_assoc, readLine_line by (cbn; apply FormatInt_no_crlf).
  assert (Hl : 0 < len args) by (destruct args; [done|unfold len; cbn; lia]).
  assert (Hlen : len (BulkString <$> args) = len args) by (unfold len; by rewrite length_fmap).
  unfold stringSize, maxAlloc in Hn. rewrite Hlen.
  change (Atoi (Itoa (len args))) with (ParseInt (FormatInt (len args))).
  rewrite ParseInt_FormatInt by (unfold int64_range, minInt64, maxInt64; lia).
  destruct (Z.leb_spec (len args) 0); [lia|]. unfold make_ok, maxAlloc, stringSize.
  rewrite (proj2 (Z.leb_le _ _)), (proj2 (Z.leb_le _ _)) by lia. cbn [negb andb].
  pose proof (write_all_length args rest). by rewrite readArgs_encoded by (done || lia).
Qed.

(** ** Reading consumes, and looks at nothing else *)

(** [f], reading [s], returned [a] and left [rest] after consuming [used]. *)
Definition consumes {A} (f : string → option (A * string)) (s : string) (a : A) (rest used : string) : Prop :=
  s = used +:+ rest ∧ ∀ t, f (used +:+ t) = Some (a, t).

Lemma ReadString_consumes s line rest : ReadString s = Some (line, rest) →
  line ≠ "" ∧ consumes ReadString s line rest line.
Proof.
  unfold consumes. revert line rest. induction s as [|c s IH]; intros line rest; cbn; [done|].
  destruct (Ascii.eqb c LF) eqn:E; [intros [= <- <-]|].
  - split_and!; [done|done|]. intros t. autorewrite with go. cbn. by rewrite E.
  - destruct (ReadString s) as [[l r]|]; [|done]. intros [= <- <-].
    destruct (IH l r eq_refl) as (_ & -> & Ht). split_and!; [done|done|].
    intros t. autorewrite with go. cbn. by rewrite E, Ht.
Qed.

Lemma ReadFull_consumes s : ∀ n buf rest, ReadFull s n = Some (buf, rest) →
  consumes (λ s, ReadFull s n) s buf rest buf.
Proof.
  unfold consumes. induction s as [|c s IH]; intros n buf rest; cbn [ReadFull]; (destruct (Z.leb_spec n 0); [intros [= <- <-]|]).
  - split; [done|]. intros t. autorewrite with go. destruct t; cbn; (destruct (Z.leb_spec n 0); [done|lia]).
  - done.
  - split; [done|]. intros t. autorewrite with go. destruct t; cbn; (destruct (Z.leb_spec n 0); [done|lia]).
  - destruct (ReadFull s (n - 1)) as [[b r]|] eqn:E; [|done]. intros [= <- <-].
    destruct (IH _ _ _ E) as [-> Ht]. split; [done|]. intros t. autorewrite with go. cbn.
    destruct (Z.leb_spec n 0); [lia|]. by rewrite Ht.
Qed.

(** The same for the readers that may also fail. *)
Definition reads {A} (f : string → read A) (s : string) (a : A) (rest used : string) : Prop :=
  s = used +:+ rest ∧ ∀ t, f (used +:+ t) = Got a t.

Lemma readLine_reads s line rest : readLine s = Got line rest → ∃ used, used ≠ "" ∧ reads readLine s line rest used.
Proof.
  unfold readLine, reads. destruct (ReadString s) as [[l r]|] eqn:E; [|done]. intros [= <- <-].
  destruct (ReadString_consumes _ _ _ E) as (Hne & -> & Ht). exists l. split_and!; [done|done|].
  intros t. by rewrite Ht.
Qed.

Lemma readArgs_reads : ∀ fuel todo args s r rest, readArgs fuel todo args s = Got r rest →
  ∃ used, s = used +:+ rest ∧
    ∀ t f, (String.length used < f)%nat → readArgs f todo args (used +:+ t) = Got r t.
Proof.
  induction fuel as [|fuel IH]; intros todo args s r rest; cbn [readArgs]; [done|].
  destruct (Z.leb_spec todo 0) as [Ht|Ht].
  { intros [= <- <-]. exists "". split; [done|]. intros t [|f] Hf; [cbn in Hf; lia|]. cbn [readArgs].
    destruct (Z.leb_spec todo 0); [done|lia]. }
  destruct (readLine s) as [hdr s1| |] eqn:Eh; [|done|done].
  destruct (readLine_reads _ _ _ Eh) as (u1 & Hne & -> & H1).
  assert (Hpos : (0 < String.length u1)%nat) by (destruct u1; [done|cbn; lia]).
  destruct hdr as [|c num]; [done|].
  assert (Hc : c = "$"%char ∨ c ≠ "$"%char) by (destruct (ascii_dec c "$"); auto).
  destruct Hc as [->|Hc]; [|destruct c as [[] [] [] [] [] [] [] []]; done].
  destruct (Atoi num) as [blen|] eqn:Ea; [|done].
  destruct (Z.ltb_spec blen 0) as [Hb|Hb].
  - intros (u2 & -> & H2)%IH. exists (u1 +:+ u2). rewrite str_app_assoc. split; [done|].
    intros t [|f] Hf; [lia|]. rewrite str_app_assoc. cbn [readArgs]. rewrite length_app_str in Hf.
    destruct (Z.leb_spec todo 0); [lia|]. rewrite H1, Ea. destruct (Z.ltb_spec blen 0); [|lia]. apply H2. lia.
  - destruct (make_ok (wrap64 (blen + 2)) 1) eqn:Em; cbn [negb]; [|done].
    destruct (ReadFull s1 (wrap64 (blen + 2))) as [[buf s2]|] eqn:Ef; [|done].
    destruct (ReadFull_consumes _ _ _ _ Ef) as [-> Hf2].
    intros (u2 & -> & H2)%IH. exists (u1 +:+ buf +:+ u2). rewrite !str_app_assoc. split; [done|].
    intros t [|f] Hf; [lia|]. rewrite !str_app_assoc. cbn [readArgs]. rewrite !length_app_str in Hf.
    destruct (Z.leb_spec todo 0); [lia|]. rewrite H1, Ea. destruct (Z.ltb_spec blen 0); [lia|].
    rewrite Em. cbn [negb]. rewrite Hf2. apply H2. lia.
Qed.

Lemma readArrayCommand_reads s args rest : readArrayCommand s = Got args rest →
  ∃ used, used ≠ "" ∧ reads readArrayCommand s args rest used.
Proof.
  unfold readArrayCommand, reads. destruct (readLine s) as [line s1| |] eqn:El; [|done|done].
  destruct (readLine_reads _ _ _ El) as (u1 & Hne & -> & H1).
  destruct line as [|c num]; [done|].
  assert (Hc : c = "*"%char ∨ c ≠ "*"%char) by (destruct (ascii_dec c "*"); auto).
  destruct Hc as [->|Hc]; [|destruct c as [[] [] [] [] [] [] [] []]; done].
  destruct (Atoi num) as [n|] eqn:Ea; [|done].
  destruct (Z.leb_spec n 0) as [Hn|Hn].
  - intros [= <- <-]. exists u1. split_and!; [done|done|]. intros t. rewrite H1, Ea.
    destruct (Z.leb_spec n 0); [done|lia].
  - destruct (make_ok n stringSize) eqn:Em; cbn [negb]; [|done].
    intros (u2 & -> & H2)%readArgs_reads. exists (u1 +:+ u2). rewrite str_app_assoc. split_and!; [by destruct u1|done|].
    intros t. rewrite str_app_assoc, H1, Ea. destruct (Z.leb_spec n 0); [lia|]. rewrite Em. cbn [negb].
    apply H2. rewrite length_app_str. lia.
Qed.

(** C18: a command that was read took at least one byte, and the answer depends
    on the bytes it took only: whatever follows them in the stream is left
    for the next read.  So reading a finite stream command by command comes
    to an end, and the arrival of more bytes never changes an earlier
    command. *)
Theorem read_command_stream `{UnicodeTables} s args rest : ReadCommand s = Got args rest →
  ∃ used, used ≠ "" ∧ s = used +:+ rest ∧ ∀ t, ReadCommand (used +:+ t) = Got args t.
Proof.
  destruct s as [|c s]; [done|]. intros HR.
  assert (Hc : c = "*"%char ∨ c ≠ "*"%char) by (destruct (ascii_dec c "*"); auto).
  destruct Hc as [->|Hc].
  - destruct (readArrayCommand_reads _ _ _ HR) as ([|d u] & Hne & Hs & Ht); [done|]. injection Hs as <- Hs.
    exists (String "*" u). split_and!; [done|by rewrite Hs|]. intros t. exact (Ht t).
  - assert (HI : ∀ s', ReadCommand (String c s') = readInlineCommand (String c s'))
      by (intros s'; destruct c as [[] [] [] [] [] [] [] []]; done).
    rewrite HI in HR. unfold readInlineCommand in HR. destruct (readLine (String c s)) as [line s1| |] eqn:El; [|done|done].
    destruct (readLine_reads _ _ _ El) as ([|d u] & Hne & Hs & Ht); [done|]. injection Hs as <- Hs.
    exists (String c u). split_and!; [done| |].
    + case_match; injection HR as _ <-; by rewrite Hs.
    + intros t. specialize (Ht t). autorewrite with go in *. rewrite HI. unfold readInlineCommand. rewrite Ht.
      case_match; by injection HR as <- _.
Qed.

(** A client can make the reader panic, and with it the process, with one
    line of a few bytes: an array header announcing more elements than a slice
    may have, or (as a first argument) a bulk length near the largest int64,
    which overflows when the two bytes of the line end are added. *)
Theorem read_command_panics `{UnicodeTables} n rest :
  (maxAlloc < n * stringSize → int64_range n →
     ReadCommand ("*" +:+ Itoa n +:+ CRLF +:+ rest) = ReadPanic) ∧
  (maxAlloc < n + 2 → int64_range n →
     ReadCommand ("*1" +:+ CRLF +:+ "$" +:+ Itoa n +:+ CRLF +:+ rest) = ReadPanic).
Proof.
  assert (HP : ∀ n, int64_range n → Atoi (Itoa n) = Some n) by (intros; by apply ParseInt_FormatInt).
  unfold maxAlloc, stringSize. split; intros Hn Hr; unfold ReadCommand.
  - change ("*" +:+ Itoa n +:+ CRLF +:+ rest) with (String "*" (Itoa n) +:+ CRLF +:+ rest).
    change (readArrayCommand (String "*" (Itoa n) +:+ CRLF +:+ rest) = ReadPanic). unfold readArrayCommand.
    rewrite readLine_line by (cbn; apply FormatInt_no_crlf). rewrite HP by done.
    destruct (Z.leb_spec n 0); [lia|]. unfold make_ok, maxAlloc, stringSize.
    by rewrite (proj2 (Z.leb_gt (n * 16) _)), andb_false_r by lia.
  - change ("$" +:+ Itoa n +:+ CRLF +:+ rest) with (String "$" (Itoa n) +:+ CRLF +:+ rest).
    set (s := String "$" (Itoa n) +:+ CRLF +:+ rest).
    change (readArrayCommand ("*1" +:+ CRLF +:+ s) = ReadPanic). unfold readArrayCommand.
    rewrite readLine_line by done. change (Atoi "1") with (Some 1).
    change (1 <=? 0) with false. change (make_ok 1 stringSize) with true. cbn [negb].
    cbn [readArgs]. change (1 <=? 0) with false. subst s. rewrite readLine_line by (cbn; apply FormatInt_no_crlf).
    rewrite HP by done. destruct (Z.ltb_spec n 0); [lia|].
    assert (Hm : make_ok (wrap64 (n + 2)) 1 = false); [|by rewrite Hm].
    unfold make_ok, maxAlloc. unfold int64_range, minInt64, maxInt64 in Hr.
    destruct (decide (n + 2 ≤ maxInt64)) as [Hle|Hgt]; unfold maxInt64 in *.
    + rewrite wrap64_id by (unfold int64_range, minInt64, maxInt64; lia).
      by rewrite (proj2 (Z.leb_gt ((n + 2) * 1) _)), andb_false_r by lia.
    + assert (Hw : wrap64 (n + 2) = n + 2 - 2 ^ 64); [|by rewrite Hw, (proj2 (Z.leb_gt 0 _)) by lia].
      unfold wrap64. rewrite <- (Z.mod_unique (n + 2 + 2 ^ 63) (2 ^ 64) 1 (n + 2 - 2 ^ 63)); lia.
Qed.

(** ** What a RESP2 client reads *)

(** The values of the protocol. *)
Inductive rvalue :=
  | VSimple (s : string)
  | VError (s : string)
  | VInt (n : Z)
  | VBulk (b : option string)
  | VArray (a : option (list rvalue)).

(** The text up to the first CR LF. *)
Fixpoint crlf_line (s : string) : option (string * string) :=
  match s with
  | EmptyString => None
  | String c s =>
      match (if Ascii.eqb c CR then strip_prefix (String LF "") s else None) with
      | Some rest => Some ("", rest)
      | None => match crlf_line s with Some (l, rest) => Some (String c l, rest) | None => None end
      end
  end.

Fixpoint decode (fuel : nat) (s : string) : option (rvalue * string) :=
  match fuel with
  | O => None
  | S fuel =>
      match crlf_line s with
      | Some (String "+" t, rest) => Some (VSimple t, rest)
      | Some (String "-" t, rest) => Some (VError t, rest)
      | Some (String ":" t, rest) => match ParseInt t with Some n => Some (VInt n, rest) | None => None end
      | Some (String "$" t, rest) =>
          match ParseInt t with
          | Some n =>
              if n <? 0 then Some (VBulk None, rest)
              else match ReadFull rest n with
                   | Some (b, rest) =>
                       match strip_prefix CRLF rest with Some rest => Some (VBulk (Some b), rest) | None => None end
                   | None => None
                   end
          | None => None
          end
      | Some (String "*" t, rest) =>
          match ParseInt t with
          | Some n =>
              if n <? 0 then Some (VArray None, rest)
              else match (fix items (k : nat) (s : string) : option (list rvalue * string) :=
                            match k with
                            | O => Some ([], s)
                            | S k => match decode fuel s with
                                     | Some (v, s) => match items k s with Some (vs, s) => Some (v :: vs, s) | None => None end
                                     | None => None
                                     end
                            end) (Z.to_nat n) rest with
                   | Some (vs, rest) => Some (VArray (Some vs), rest)
                   | None => None
                   end
          | None => None
          end
      | _ => None
      end
  end.

(** The value a reply stands for; [Several] is not one value. *)
Fixpoint value (r : Reply) : rvalue :=
  match r with
  | Simple s => VSimple s
  | Err s => VError s
  | Int n => VInt n
  | Bulk b => VBulk b
  | NullArray => VArray None
  | ArraySlice items => VArray (Some (value <$> items))
  | Several _ => VArray None
  end.

(** Replies whose one-line texts stay on one line, with lengths and integers
    of 64 bits. *)
Fixpoint clean (r : Reply) : Prop :=
  match r with
  | Simple s | Err s => no_crlf s = true
  | Int n => int64_range n
  | Bulk b => slen (bytes_of b) ≤ maxInt64
  | NullArray => True
  | ArraySlice items => len items ≤ maxInt64 ∧ (fix all (l : list Reply) : Prop :=
      match l with [] => True | r :: l => clean r ∧ all l end) items
  | Several _ => False
  end.
Fixpoint depth (r : Reply) : nat :=
  match r with
  | ArraySlice items => S (list_max (depth <$> items))
  | _ => 1%nat
  end.

Lemma crlf_line_app l rest : no_crlf l = true → crlf_line (l +:+ CRLF +:+ rest) = Some (l, rest).
Proof.
  induction l as [|c l IH]; autorewrite with go; [done|]. cbn. unfold is_crlf.
  destruct (Ascii.eqb c CR); [done|]. intros [_ Hl]%andb_true_iff. unfold CRLF in *. by rewrite IH.
Qed.

(** Induction over nested replies. *)
Lemma Reply_ind' (P : Reply → Prop) :
  (∀ s, P (Simple s)) → (∀ s, P (Err s)) → (∀ n, P (Int n)) → (∀ b, P (Bulk b)) → P NullArray →
  (∀ items, Forall P items → P (ArraySlice items)) → (∀ items, P (Several items)) → ∀ r, P r.
Proof.
  intros H1 H2 H3 H4 H5 H6 H7. fix IH 1.
  intros [s|s|n|b| |items|items]; [apply H1|apply H2|apply H3|apply H4|apply H5|apply H6|apply H7].
  induction items as [|r l IHl]; constructor; [apply IH|apply IHl].
Qed.

(** C38: what the server writes for a reply is read by a RESP2 client as the
    value of that reply, and nothing after it is touched.  The null bulk
    string is the value of the nil slice only: an empty non-nil slice is read
    as an empty string. *)
Theorem reply_roundtrip r rest : clean r → decode (depth r) (write r +:+ rest) = Some (value r, rest).
Proof.
  cut (∀ fuel, clean r → (depth r ≤ fuel)%nat → ∀ rest, decode fuel (write r +:+ rest) = Some (value r, rest));
    [intros H Hc; by apply H|].
  induction r as [s|s|n|b| |items IH|items] using Reply_ind'; intros [|fuel] Hc Hf rest'; try (cbn in Hf; lia).
  - cbn [write]. unfold WriteSimpleString. rewrite !str_app_assoc. change ("+" +:+ s +:+ ?x) with (String "+" s +:+ x).
    cbn [decode]. by rewrite crlf_line_app.
  - cbn [write]. unfold WriteError. rewrite !str_app_assoc. change ("-" +:+ s +:+ ?x) with (String "-" s +:+ x).
    cbn [decode]. by rewrite crlf_line_app.
  - cbn [write]. unfold WriteInteger. rewrite !str_app_assoc.
    change (":" +:+ FormatInt n +:+ ?x) with (String ":" (FormatInt n) +:+ x).
    cbn [decode]. rewrite crlf_line_app by (cbn; apply FormatInt_no_crlf). by rewrite ParseInt_FormatInt.
  - cbn [write]. destruct b as [b|]; [|done]. cbn [clean bytes_of default] in Hc. unfold WriteBulk, Itoa.
    rewrite !str_app_assoc. change ("$" +:+ FormatInt ?n +:+ ?x) with (String "$" (FormatInt n) +:+ x).
    cbn [decode]. rewrite crlf_line_app by (cbn; apply FormatInt_no_crlf). pose proof (slen_nonneg b).
    rewrite ParseInt_FormatInt by (unfold int64_range, minInt64 in *; simpl in Hc; lia).
    destruct (Z.ltb_spec (slen b) 0); [lia|]. rewrite ReadFull_app.
    by rewrite (proj2 (strip_prefix_Some CRLF _ rest')).
  - done.
  - rewrite write_ArraySlice, !str_app_assoc. cbn [decode]. unfold Itoa.
    rewrite crlf_line_app by (cbn; apply FormatInt_no_crlf). destruct Hc as [Hl Hc].
    assert (0 ≤ len items) by (unfold len; lia).
    rewrite ParseInt_FormatInt by (unfold int64_range, minInt64 in *; lia).
    destruct (Z.ltb_spec (len items) 0); [lia|]. unfold len. rewrite Nat2Z.id. cbn [value].
    assert (Hd : Forall (λ r, depth r ≤ fuel)%nat items).
    { cbn [depth] in Hf. apply Forall_forall. intros r Hr.
      assert (depth r ≤ list_max (depth <$> items))%nat; [|lia].
      pose proof (proj1 (list_max_le (depth <$> items) _) (le_n _)) as Hm.
      rewrite Forall_forall in Hm. apply Hm. apply list_elem_of_fmap. eauto. }
    clear Hf Hl. match goal with |- context [(?F (length items) (write_all items +:+ rest'))] => set (go := F) end.
    assert (Hgo : go (length items) (write_all items +:+ rest') = Some (value <$> items, rest')); [|by rewrite Hgo].
    induction IH as [|r items Hr IH IH2]; [done|]. destruct Hc as [Hc1 Hc2]. apply Forall_cons in Hd as [Hd1 Hd2].
    cbn [length write_all fmap list_fmap]. rewrite str_app_assoc.
    change (go (S (length items)) ?x) with
      (match decode fuel x with
       | Some (v, s1) => match go (length items) s1 with Some (vs, s2) => Some (v :: vs, s2) | None => None end
       | None => None end).
    rewrite Hr by done. by rewrite IH2 by (done || (unfold len in *; cbn in *; lia)).
  - done.
Qed.

(** An error that quotes a client's bytes does not encode them: a command
    name that is unknown, followed by an argument starting with CR LF, makes
    the server send a complete error reply and then the rest of the argument,
    which the client reads as further replies. *)
Theorem unknown_command_splits name payload : no_crlf name = true →
  decode 1 (write (Err (ErrUnknownCommand name [CRLF +:+ payload]))) =
  Some (VError ("ERR unknown command '" +:+ name +:+ "', with args beginning with: '"), payload +:+ "'" +:+ CRLF).
Proof.
  intros Hn. cbn [write]. unfold WriteError, ErrUnknownCommand. cbn [fmap list_fmap Join].
  set (l := "ERR unknown command '" +:+ name +:+ "', with args beginning with: '").
  assert (Hl : no_crlf (String "-" l) = true) by (unfold l; cbn; rewrite !no_crlf_app; cbn; by rewrite Hn).
  assert (E : ErrUnknownCommand name [CRLF +:+ payload] = l +:+ CRLF +:+ payload +:+ "'").
  { unfold l, ErrUnknownCommand. cbn [fmap list_fmap Join]. rewrite !str_app_assoc. reflexivity. }
  unfold ErrUnknownCommand in E. cbn [fmap list_fmap Join] in E. rewrite E, !str_app_assoc.
  change ("-" +:+ l +:+ ?x) with (String "-" l +:+ x). cbn [decode]. by rewrite crlf_line_app.
Qed.

(** ** Concrete runs *)

#[local] Instance codec_tables : UnicodeTables := ascii_only.

Lemma sendable_example : sendable ["SET"; CRLF; ""].
Proof.
  split; [discriminate|]. split; [vm_compute; discriminate|].
  do 3 (constructor; [vm_compute; discriminate|]). constructor.
Qed.

Lemma command_roundtrip_witness :
  encode ["SET"; CRLF; ""] = "*3" +:+ CRLF +:+ "$3" +:+ CRLF +:+ "SET" +:+ CRLF +:+ "$2" +:+ CRLF +:+ CRLF +:+ CRLF
                             +:+ "$0" +:+ CRLF +:+ CRLF ∧
  ReadCommand (encode ["SET"; CRLF; ""] +:+ "PING") = Got ["SET"; CRLF; ""] "PING".
Proof. split; [vm_compute; reflexivity|exact (command_roundtrip _ "PING" sendable_example)]. Defined.

Lemma read_command_stream_witness :
  ∃ used, used ≠ "" ∧ (" get  a" +:+ CRLF +:+ "x")%string = used +:+ "x" ∧
    ∀ t, ReadCommand (used +:+ t) = Got ["get"; "a"] t.
Proof. apply (read_command_stream (" get  a" +:+ CRLF +:+ "x") ["get"; "a"] "x"). vm_compute. reflexivity. Defined.

Lemma read_command_panics_witness :
  ReadCommand ("*17592186044417" +:+ CRLF +:+ "") = ReadPanic ∧
  ReadCommand ("*1" +:+ CRLF +:+ "$9223372036854775807" +:+ CRLF +:+ "") = ReadPanic.
Proof.
  split.
  - apply (proj1 (read_command_panics 17592186044417 "")); [reflexivity|split; vm_compute; discriminate].
  - apply (proj2 (read_command_panics 9223372036854775807 "")); [reflexivity|split; vm_compute; discriminate].
Defined.

Lemma reply_roundtrip_witness :
  decode 2 (write (ArraySlice [Int (-5); NullBulk; BulkString CRLF; Simple "QUEUED"]) +:+ "$") =
  Some (VArray (Some [VInt (-5); VBulk None; VBulk (Some CRLF); VSimple "QUEUED"]), "$").
Proof.
  apply (reply_roundtrip (ArraySlice [Int (-5); NullBulk; BulkString CRLF; Simple "QUEUED"]) "$").
  cbn [clean]. split; [vm_compute; discriminate|]. split; [split; vm_compute; discriminate|].
  split; [vm_compute; discriminate|]. split; [vm_compute; discriminate|]. split; [reflexivity|exact I].
Defined.

Lemma unknown_command_splits_witness :
  decode 1 (write (Err (ErrUnknownCommand "FOO" [CRLF +:+ "+OK" +:+ CRLF +:+ "x"]))) =
    Some (VError "ERR unknown command 'FOO', with args beginning with: '", "+OK" +:+ CRLF +:+ "x'" +:+ CRLF) ∧
  decode 1 ("+OK" +:+ CRLF +:+ "x'" +:+ CRLF) = Some (VSimple "OK", "x'" +:+ CRLF).
Proof.
  split; [|vm_compute; reflexivity].
  exact (unknown_command_splits "FOO" ("+OK" +:+ CRLF +:+ "x") eq_refl).
Defined.
