(* ===== verification/PubSub.v ===== *)
(** * The publish/subscribe broker (internal/server/resp/pubsub.go)

    Connections are identified by numbers.  The broker's two tables and the
    [subCh] channels of the connections are one state, because publishing
    reaches the channels of other connections. *)

From S2P Require Import Prelude.
From S2P Require Import GoStd.
From S2P Require Import Glob.
From S2P Require Import RespCodec.

Open Scope Z_scope.
Open Scope go_scope.

Module pubsub.

(** A connection's [*ClientState]. *)
Abbreviation conn := nat (only parsing).

Record Message := mkMessage { Channel : string; Pattern : string; Payload : string }.
(** A Go channel: what is buffered, and whether it was closed. *)
Record chan := mkChan { buf : list Message; closed : bool }.
(** [make(chan Message, 64)] *)
Definition subChCapacity : Z := 64.

Record PubSub := mkPubSub {
  channels : gmap string (gset conn);
  patterns : gmap string (gset conn);
  subChs : gmap conn chan;             (** absent: a nil [subCh] *)
}.
Definition NewPubSub : PubSub := mkPubSub ∅ ∅ ∅.

Definition add_sub (cs : conn) (name : string) (m : gmap string (gset conn)) : gmap string (gset conn) :=
  <[name := {[cs]} ∪ default ∅ (m !! name)]> m.
Definition remove_sub (cs : conn) (name : string) (m : gmap string (gset conn)) : gmap string (gset conn) :=
  match m !! name with
  | None => m
  | Some subs =>
      let subs := subs ∖ {[cs]} in
      if decide (size subs = 0%nat) then delete name m else <[name := subs]> m
  end.
(** The loops of [UnsubscribeAll] delete [cs] from every set, and the sets
    that become empty; the range order does not matter. *)
Definition remove_everywhere (cs : conn) (m : gmap string (gset conn)) : gmap string (gset conn) :=
  omap (λ subs, let subs := subs ∖ {[cs]} in if decide (size subs = 0%nat) then None else Some subs) m.

Definition Subscribe (cs : conn) (channel : string) (p : PubSub) : PubSub :=
  mkPubSub (add_sub cs channel (channels p)) (patterns p) (subChs p).
Definition Unsubscribe (cs : conn) (channel : string) (p : PubSub) : PubSub :=
  mkPubSub (remove_sub cs channel (channels p)) (patterns p) (subChs p).
Definition SubscribePattern (cs : conn) (pattern : string) (p : PubSub) : PubSub :=
  mkPubSub (channels p) (add_sub cs pattern (patterns p)) (subChs p).
Definition UnsubscribePattern (cs : conn) (pattern : string) (p : PubSub) : PubSub :=
  mkPubSub (channels p) (remove_sub cs pattern (patterns p)) (subChs p).
Definition UnsubscribeAll (cs : conn) (p : PubSub) : PubSub :=
  mkPubSub (remove_everywhere cs (channels p)) (remove_everywhere cs (patterns p)) (subChs p).

Record delivery := mkDelivery { d_cs : conn; d_pattern : string }.

(** The range orders of one [Publish]: over a set of subscribers, and over
    the patterns. *)
Record Orders := mkOrders {
  conn_order : gset conn → list conn;
  pattern_order : gmap string (gset conn) → list (string * gset conn);
}.

Definition targets (o : Orders) (channel : string) (p : PubSub) : list delivery :=
  ((λ cs, mkDelivery cs "") <$> conn_order o (default ∅ (channels p !! channel))) ++
  (pattern_order o (patterns p) ≫= λ '(pat, subs),
     if resp_globMatch pat channel then (λ cs, mkDelivery cs pat) <$> conn_order o subs else []).

(** The body of the loop after the lock is released: a send that does not
    wait, which panics on a closed channel. *)
Definition send (channel payload : string) (d : delivery) (p : PubSub) : outcome bool * PubSub :=
  match subChs p !! d_cs d with
  | None => (Return false, p)
  | Some c =>
      if closed c then (Panic, p)
      else if len (buf c) <? subChCapacity then
        (Return true, mkPubSub (channels p) (patterns p)
           (<[d_cs d := mkChan (buf c ++ [mkMessage channel (d_pattern d) payload]) false]> (subChs p)))
      else (Return false, p)
  end.
Fixpoint deliver (channel payload : string) (ds : list delivery) (delivered : Z) (p : PubSub) : outcome Z * PubSub :=
  match ds with
  | [] => (Return delivered, p)
  | d :: ds =>
      match send channel payload d p with
      | (Return ok, p) => deliver channel payload ds (if ok : bool then delivered + 1 else delivered) p
      | (Fail, p) => (Fail, p)
      | (Panic, p) => (Panic, p)
      end
  end.
Definition Publish (o : Orders) (channel payload : string) (p : PubSub) : outcome Z * PubSub :=
  deliver channel payload (targets o channel p) 0 p.

(** ** Connections (handlers_pubsub.go) *)

Definition ensureSubscriberState (cs : conn) (p : PubSub) : PubSub :=
  match subChs p !! cs with
  | Some _ => p
  | None => mkPubSub (channels p) (patterns p) (<[cs := mkChan [] false]> (subChs p))
  end.

Definition close (cs : conn) (p : PubSub) : PubSub :=
  mkPubSub (channels p) (patterns p) (alter (λ c, mkChan (buf c) true) cs (subChs p)).
Definition cleanupSubscriptions (cs : conn) (p : PubSub) : PubSub :=
  match subChs p !! cs with
  | None => p
  | Some _ => close cs (UnsubscribeAll cs p)
  end.

(** The forwarder goroutine takes a message and writes it; [None] when there
    is none, or the channel is nil. *)
Definition receive (cs : conn) (p : PubSub) : option Message * PubSub :=
  match subChs p !! cs with
  | Some (mkChan (m :: b) cl) => (Some m, mkPubSub (channels p) (patterns p) (<[cs := mkChan b cl]> (subChs p)))
  | _ => (None, p)
  end.
Definition push_reply (msg : Message) : Reply :=
  if negb (String.eqb (Pattern msg) "") then
    ArraySlice [BulkString "pmessage"; BulkString (Pattern msg); BulkString (Channel msg); Bulk (to_bytes (Payload msg))]
  else ArraySlice [BulkString "message"; BulkString (Channel msg); Bulk (to_bytes (Payload msg))].

End pubsub.

Import pubsub.

(** ** The broker's invariant *)

Definition subscribed (m : gmap string (gset conn)) (cs : conn) (name : string) : Prop :=
  ∃ subs, m !! name = Some subs ∧ cs ∈ subs.

(** Every registered subscriber has an open channel, within its capacity, and
    no empty set of subscribers is kept. *)
Record broker_ok (p : PubSub) : Prop := {
  bk_open : ∀ cs name, subscribed (channels p) cs name ∨ subscribed (patterns p) cs name →
              ∃ c, subChs p !! cs = Some c ∧ closed c = false;
  bk_cap : ∀ cs c, subChs p !! cs = Some c → len (buf c) ≤ subChCapacity;
  bk_nonempty : ∀ name, channels p !! name ≠ Some ∅ ∧ patterns p !! name ≠ Some ∅;
}.

Lemma subscribed_add cs name m cs' name' :
  subscribed (add_sub cs name m) cs' name' ↔ (cs' = cs ∧ name' = name) ∨ subscribed m cs' name'.
Proof.
  unfold subscribed, add_sub. destruct (decide (name' = name)) as [->|Hne].
  - rewrite lookup_insert_eq. split.
    + intros (subs & [= <-] & [->%elem_of_singleton|Hin]%elem_of_union); [by left|right].
      destruct (m !! name) as [s|]; [by exists s|by apply elem_of_empty in Hin].
    + intros [[-> _]|(s & E & Hin)]; (eexists; split; [done|]); [set_solver|]. rewrite E. set_solver.
  - rewrite lookup_insert_ne by done. split; [by right|by intros [[_ ?]|?]].
Qed.
Lemma only_member (subs : gset nat) cs cs' : subs ∖ {[cs]} ≡ ∅ → cs' ∈ subs → cs' = cs.
Proof.
  intros HE Hin. destruct (decide (cs' = cs)) as [|Hne]; [done|]. destruct (HE cs') as [H _].
  exfalso. apply (not_elem_of_empty (C := gset nat) cs'), H. apply elem_of_difference. split; [done|]. by rewrite elem_of_singleton.
Qed.
Lemma subscribed_remove cs name m cs' name' :
  subscribed (remove_sub cs name m) cs' name' ↔ subscribed m cs' name' ∧ ¬ (cs' = cs ∧ name' = name).
Proof.
  unfold subscribed, remove_sub. destruct (m !! name) as [subs|] eqn:E; [case_decide as D|].
  - apply size_empty_inv in D. destruct (decide (name' = name)) as [->|Hne].
    + rewrite lookup_delete_eq, E. split; [by intros (? & ? & _)|]. intros [(s & [= <-] & Hin) Hn].
      destruct Hn. split; [|done]. by apply (only_member subs).
    + rewrite lookup_delete_ne by done. split; [intros ?; split; [done|by intros [_ ?]]|by intros [? _]].
  - destruct (decide (name' = name)) as [->|Hne].
    + rewrite lookup_insert_eq, E. split.
      * intros (s & [= <-] & Hin). split; [exists subs; set_solver|set_solver].
      * intros [(s & [= <-] & Hin) Hn]. eexists. split; [done|]. set_solver.
    + rewrite lookup_insert_ne by done. split; [intros ?; split; [done|by intros [_ ?]]|by intros [? _]].
  - split; [|by intros [? _]]. intros (s & Es & Hin). split; [eauto|]. intros [-> ->]. congruence.
Qed.
Lemma subscribed_everywhere cs m cs' name' :
  subscribed (remove_everywhere cs m) cs' name' ↔ subscribed m cs' name' ∧ cs' ≠ cs.
Proof.
  unfold subscribed, remove_everywhere. setoid_rewrite lookup_omap.
  destruct (m !! name') as [subs|] eqn:E; cbn; [|split; [by intros (? & ? & _)|by intros [(? & ? & _) _]]]. case_decide as D.
  - apply size_empty_inv in D. split; [by intros (? & ? & _)|]. intros [(s & [= <-] & Hin) Hn].
    by destruct (Hn (only_member _ _ _ D Hin)).
  - split; [intros (s & [= <-] & Hin); split; [exists subs; set_solver|set_solver]|].
    intros [(s & [= <-] & Hin) Hn]. eexists. split; [done|]. set_solver.
Qed.

Lemma nonempty_add cs name m : (∀ n, m !! n ≠ Some ∅) → ∀ n, add_sub cs name m !! n ≠ Some ∅.
Proof.
  intros Hm n. unfold add_sub. destruct (decide (n = name)) as [->|Hne].
  - rewrite lookup_insert_eq. intros [= E]. assert (cs ∈ (∅ : gset conn)); [|set_solver]. rewrite <- E. set_solver.
  - by rewrite lookup_insert_ne.
Qed.
Lemma nonempty_remove cs name m : (∀ n, m !! n ≠ Some ∅) → ∀ n, remove_sub cs name m !! n ≠ Some ∅.
Proof.
  intros Hm n. unfold remove_sub. destruct (m !! name) as [subs|] eqn:E; [|done]. case_decide as D.
  - destruct (decide (n = name)) as [->|Hne]; [by rewrite lookup_delete_eq|by rewrite lookup_delete_ne].
  - destruct (decide (n = name)) as [->|Hne]; [|by rewrite lookup_insert_ne].
    rewrite lookup_insert_eq. intros [= E2]. apply D. by rewrite E2, size_empty.
Qed.
Lemma nonempty_everywhere cs m : ∀ n, remove_everywhere cs m !! n ≠ Some ∅.
Proof.
  intros n. unfold remove_everywhere. rewrite lookup_omap. destruct (m !! n) as [subs|]; cbn; [|done].
  case_decide as D; [done|]. intros [= E]. apply D. by rewrite E, size_empty.
Qed.

(** The orders range over what is there. *)
Definition orders_ok (o : Orders) : Prop :=
  (∀ s, conn_order o s ≡ₚ elements s) ∧ (∀ m, pattern_order o m ≡ₚ map_to_list m).

(** ** Steps

    What connections and their forwarders do, each under the broker's lock;
    a connection that was closed issues no command. *)

Definition issuing (cs : conn) (p : PubSub) : Prop := ∀ c, subChs p !! cs = Some c → closed c = false.

(** The connection has its channel. *)
Definition live (cs : conn) (p : PubSub) : Prop := ∃ c, subChs p !! cs = Some c ∧ closed c = false.

Inductive step (p : PubSub) : PubSub → Prop :=
  | step_ensure cs : issuing cs p → step p (ensureSubscriberState cs p)
  | step_subscribe cs ch : live cs p → step p (Subscribe cs ch p)
  | step_psubscribe cs pat : live cs p → step p (SubscribePattern cs pat p)
  | step_unsubscribe cs ch : step p (Unsubscribe cs ch p)
  | step_punsubscribe cs pat : step p (UnsubscribePattern cs pat p)
  | step_publish o ch payload n p' : orders_ok o → Publish o ch payload p = (Return n, p') → step p p'
  | step_receive cs : step p (receive cs p).2
  | step_close cs : step p (cleanupSubscriptions cs p).
Definition reachable (p : PubSub) : Prop := rtc step NewPubSub p.

Lemma ensure_ok cs p : broker_ok p → issuing cs p →
  broker_ok (ensureSubscriberState cs p) ∧ ∃ c, subChs (ensureSubscriberState cs p) !! cs = Some c ∧ closed c = false.
Proof.
  intros I Hi. unfold ensureSubscriberState. destruct (subChs p !! cs) as [c|] eqn:E; [by eauto|].
  split; [|exists (mkChan [] false); cbn; by rewrite lookup_insert_eq]. destruct I as [I1 I2 I3]. split; cbn.
  - intros cs' name Hs. destruct (I1 cs' name Hs) as (c & Hc & ?). exists c. split; [|done].
    rewrite lookup_insert_ne; [done|]. intros ->. congruence.
  - intros cs' c [[_ <-]|[_ Hc]]%lookup_insert_Some; [done|by eapply I2].
  - done.
Qed.

Lemma send_ok ch payload d p : broker_ok p → issuing (d_cs d) p →
  ∃ b p', send ch payload d p = (Return b, p') ∧ broker_ok p' ∧ channels p' = channels p ∧ patterns p' = patterns p ∧
    (∀ c, issuing c p → issuing c p').
Proof.
  intros I Hi. unfold send. destruct (subChs p !! d_cs d) as [c|] eqn:E; [|by eexists _, _].
  rewrite (Hi c E). destruct (Z.ltb_spec (len (buf c)) subChCapacity) as [Hlt|]; [|by eexists _, _].
  eexists _, _. split; [done|]. split_and!; [|done|done|].
  - destruct I as [I1 I2 I3]. split; cbn; [| |done].
    + intros cs name Hs. destruct (I1 cs name Hs) as (c' & Hc & Hcl). destruct (decide (cs = d_cs d)) as [->|Hne].
      * rewrite lookup_insert_eq. by eexists.
      * rewrite lookup_insert_ne by done. eauto.
    + intros cs c' [[_ <-]|[_ Hc]]%lookup_insert_Some; [|by eapply I2]. unfold len in *. cbn [buf].
      rewrite length_app. cbn [length]. lia.
  - intros cs Hcs c'. cbn. intros [[_ <-]|[_ Hc]]%lookup_insert_Some; [done|by apply Hcs].
Qed.
Lemma deliver_ok ch payload ds : ∀ k p, broker_ok p → Forall (λ d, issuing (d_cs d) p) ds →
  ∃ n p', deliver ch payload ds k p = (Return n, p') ∧ broker_ok p' ∧ channels p' = channels p ∧ patterns p' = patterns p.
Proof.
  induction ds as [|d ds IH]; intros k p I HD; cbn [deliver]; [by eexists _, _|].
  apply Forall_cons in HD as [Hd HD]. destruct (send_ok ch payload d p I Hd) as (b & p' & -> & I' & E1 & E2 & Hi).
  destruct (IH (if b then k + 1 else k) p' I') as (n & p2 & -> & ? & E3 & E4); [eapply Forall_impl; [exact HD|auto]|].
  exists n, p2. split_and!; [done|done|congruence|congruence].
Qed.

Lemma elem_of_targets o ch p d : orders_ok o →
  d ∈ targets o ch p ↔
  d_pattern d = "" ∧ subscribed (channels p) (d_cs d) ch ∨
  subscribed (patterns p) (d_cs d) (d_pattern d) ∧ resp_globMatch (d_pattern d) ch = true.
Proof.
  intros [O1 O2]. unfold targets, subscribed. rewrite elem_of_app, list_elem_of_fmap, list_elem_of_bind.
  setoid_rewrite O1. setoid_rewrite elem_of_elements. split.
  - intros [(cs & -> & Hin)|([pat subs] & Hin & Hp)].
    + left. cbn. split; [done|]. destruct (channels p !! ch) as [s|]; [by exists s|by apply elem_of_empty in Hin].
    + right. rewrite O2, elem_of_map_to_list in Hp. destruct (resp_globMatch pat ch) eqn:E; [|by apply elem_of_nil in Hin].
      apply list_elem_of_fmap in Hin as (cs & -> & Hin). rewrite O1, elem_of_elements in Hin. cbn [d_cs d_pattern]. eauto.
  - destruct d as [cs pat]. cbn [d_cs d_pattern]. intros [[-> (s & E & Hin)]|[(s & E & Hin) Hg]].
    + left. exists cs. rewrite E. done.
    + right. exists (pat, s). rewrite O2, elem_of_map_to_list, Hg. split; [|done].
      apply list_elem_of_fmap. exists cs. split; [done|]. by rewrite O1, elem_of_elements.
Qed.

Lemma targets_issuing o ch p : orders_ok o → broker_ok p → Forall (λ d, issuing (d_cs d) p) (targets o ch p).
Proof.
  intros Ho I. apply Forall_forall. intros d Hd c Hc. apply elem_of_targets in Hd; [|done].
  assert (HS : ∃ name, subscribed (channels p) (d_cs d) name ∨ subscribed (patterns p) (d_cs d) name)
    by (destruct Hd as [[_ ?]|[? _]]; eauto).
  destruct HS as [name HS]. destruct (bk_open p I _ _ HS) as (c' & Hc' & ?). congruence.
Qed.

Lemma step_ok p p' : broker_ok p → step p p' → broker_ok p'.
Proof.
  intros I Hs. destruct Hs as [cs Hi|cs ch Hi|cs pat Hi|cs ch|cs pat|o ch payload n p' Ho HP|cs|cs].
  - by apply ensure_ok.
  - destruct I as [I1 I2 I3]. split; cbn; [|done|].
    + intros cs' name. rewrite subscribed_add. intros [[[-> _]|?]|?]; eauto.
    + intros name. split; [apply nonempty_add; intros n|]; apply I3.
  - destruct I as [I1 I2 I3]. split; cbn; [|done|].
    + intros cs' name. rewrite subscribed_add. intros [?|[[-> _]|?]]; eauto.
    + intros name. split; [|apply nonempty_add; intros n]; apply I3.
  - destruct I as [I1 I2 I3]. split; cbn; [|done|].
    + intros cs' name. rewrite subscribed_remove. intros [[? _]|?]; eauto.
    + intros name. split; [apply nonempty_remove; intros n|]; apply I3.
  - destruct I as [I1 I2 I3]. split; cbn; [|done|].
    + intros cs' name. rewrite subscribed_remove. intros [?|[? _]]; eauto.
    + intros name. split; [|apply nonempty_remove; intros n]; apply I3.
  - destruct (deliver_ok ch payload (targets o ch p) 0 p I (targets_issuing o ch p Ho I)) as (n' & p2 & E & ? & _).
    unfold Publish in HP. rewrite E in HP. by injection HP as <- <-.
  - unfold receive. destruct (subChs p !! cs) as [[[|m b] cl]|] eqn:E; [done| |done].
    destruct I as [I1 I2 I3]. split; cbn; [| |done].
    + intros cs' name Hs. destruct (I1 cs' name Hs) as (c & Hc & Hcl). destruct (decide (cs' = cs)) as [->|Hne].
      * rewrite lookup_insert_eq. eexists. split; [done|]. rewrite E in Hc. by injection Hc as <-.
      * rewrite lookup_insert_ne by done. eauto.
    + intros cs' c [[-> <-]|[_ Hc]]%lookup_insert_Some; [|by eapply I2].
      specialize (I2 _ _ E). unfold len in *. cbn [buf length] in *. lia.
  - unfold cleanupSubscriptions. destruct (subChs p !! cs) as [c|] eqn:E; [|done].
    destruct I as [I1 I2 I3]. split; cbn.
    + intros cs' name. rewrite !subscribed_everywhere. intros Hs.
      assert (Hne : cs' ≠ cs) by (by destruct Hs as [[_ ?]|[_ ?]]).
      destruct (I1 cs' name) as (c' & Hc & ?); [destruct Hs as [[? _]|[? _]]; auto|].
      exists c'. by rewrite lookup_alter_ne.
    + intros cs' c' [(-> & x & Hx & ->)|[_ Hc]]%lookup_alter_Some; [by eapply (I2 _ x)|by eapply I2].
    + intros name. split; apply nonempty_everywhere.
Qed.
(** A channel that was made stays. *)
Lemma step_present p p' cs : step p p' → is_Some (subChs p !! cs) → is_Some (subChs p' !! cs).
Proof.
  intros Hs Hp. destruct Hs as [cs' Hi|cs' ch Hi|cs' pat Hi|cs' ch|cs' pat|o ch payload n p' Ho HP|cs'|cs']; cbn; try done.
  - unfold ensureSubscriberState. destruct (subChs p !! cs') eqn:E; [done|]. cbn. rewrite lookup_insert_is_Some'. tauto.
  - unfold Publish in HP. revert HP. generalize (targets o ch p) 0. clear Ho. intros ds k. revert k p Hp.
    induction ds as [|d ds IH]; intros k p Hp; cbn [deliver]; [by intros [= _ <-]|].
    unfold send. destruct (subChs p !! d_cs d) as [c|] eqn:E; [|by apply IH].
    destruct (closed c); [done|]. destruct (len (buf c) <? subChCapacity); [|by apply IH].
    apply IH. cbn. rewrite lookup_insert_is_Some'. tauto.
  - unfold receive. destruct (subChs p !! cs') as [[[|m b] cl]|]; [done| |done]. cbn. rewrite lookup_insert_is_Some'. tauto.
  - unfold cleanupSubscriptions. destruct (subChs p !! cs'); [|done]. cbn. by rewrite lookup_alter_is_Some.
Qed.
Lemma step_live p p' cs : step p p' → live cs p → issuing cs p' → live cs p'.
Proof.
  intros Hs (c & Hc & _) Hi. destruct (step_present p p' cs Hs) as [c' Hc']; [by exists c|].
  exists c'. split; [done|]. by apply Hi.
Qed.
Lemma live_issuing cs p : live cs p → issuing cs p.
Proof. intros (c & Hc & Hcl) c' Hc'. congruence. Qed.

Lemma reachable_ok p : reachable p → broker_ok p.
Proof.
  assert (H0 : broker_ok NewPubSub).
  { split; cbn; [|by intros cs c; rewrite lookup_empty|by intros name; rewrite lookup_empty].
    intros cs name [(s & E & _)|(s & E & _)]; by rewrite lookup_empty in E. }
  unfold reachable. intros H. remember NewPubSub as q. clear Heqq. induction H; [done|]. eauto using step_ok.
Qed.

Lemma publish_issuing o ch payload p n p' cs : Publish o ch payload p = (Return n, p') →
  issuing cs p → issuing cs p'.
Proof.
  unfold Publish. generalize (targets o ch p) 0. intros ds. revert p.
  induction ds as [|d ds IH]; intros p k; cbn [deliver]; [by intros [= _ <-]|].
  unfold send. destruct (subChs p !! d_cs d) as [c|] eqn:E; [|by apply IH].
  destruct (closed c) eqn:Ecl; [done|]. destruct (len (buf c) <? subChCapacity); [|by apply IH].
  intros HD Hi. eapply IH; [exact HD|]. intros c'. cbn. intros [[_ <-]|[_ Hc]]%lookup_insert_Some; [done|by apply Hi].
Qed.

(** ** What publishing delivers *)

(** Messages waiting in the connections' channels. *)
Definition pending (p : PubSub) : Z := sum_map (λ kc, len (buf kc.2)) (map_to_list (subChs p)).

Lemma sum_map_perm {A} (f : A → Z) l k : l ≡ₚ k → sum_map f l = sum_map f k.
Proof. unfold sum_map. induction 1; cbn [foldr]; lia. Qed.
Lemma pending_insert p cs c c' chs pats : subChs p !! cs = Some c →
  pending (mkPubSub chs pats (<[cs := c']> (subChs p))) = pending p - len (buf c) + len (buf c').
Proof.
  intros E. unfold pending. cbn [subChs].
  assert (HP : ∀ x, <[cs := x]> (delete cs (subChs p)) !! cs = Some x) by (intros; apply lookup_insert_eq).
  assert (HS : ∀ x, sum_map (λ kc, len (buf kc.2)) (map_to_list (<[cs := x]> (delete cs (subChs p)))) =
    len (buf x) + sum_map (λ kc, len (buf kc.2)) (map_to_list (delete cs (subChs p)))).
  { intros x. by rewrite (sum_map_perm _ _ _ (map_to_list_insert _ _ _ (lookup_delete_eq _ _))). }
  rewrite <- (insert_delete_eq (subChs p) cs c'), HS. rewrite <- (insert_delete_id _ _ _ E) at 2. rewrite HS. lia.
Qed.

(** The messages for one connection among the deliveries. *)
Definition messages (ch payload : string) (ds : list delivery) (c : conn) : list Message :=
  (λ d, mkMessage ch (d_pattern d) payload) <$> filter (λ d, d_cs d = c) ds.
(** Appending what there is room for. *)
Definition accept (ms : list Message) (c : chan) : chan :=
  mkChan (buf c ++ take (Z.to_nat (subChCapacity - len (buf c))) ms) (closed c).

Lemma accept_nil c : accept [] c = c.
Proof. unfold accept. rewrite take_nil, app_nil_r. by destruct c. Qed.
Lemma accept_cons m ms c : closed c = false → len (buf c) ≤ subChCapacity →
  accept (m :: ms) c =
  if len (buf c) <? subChCapacity then accept ms (mkChan (buf c ++ [m]) false) else accept ms c.
Proof.
  intros Hcl Hc. unfold accept, len in *. cbn [buf closed]. rewrite Hcl. destruct (Z.ltb_spec (Z.of_nat (length (buf c))) subChCapacity).
  - rewrite <- (assoc_L (++)), length_app. cbn [length app].
    replace (Z.to_nat (subChCapacity - Z.of_nat (length (buf c))))
      with (S (Z.to_nat (subChCapacity - Z.of_nat (length (buf c) + 1)))) by lia. done.
  - replace (Z.to_nat (subChCapacity - Z.of_nat (length (buf c)))) with 0%nat by lia. done.
Qed.

Lemma deliver_spec ch payload ds : ∀ k p, broker_ok p → Forall (λ d, issuing (d_cs d) p) ds →
  ∃ n p', deliver ch payload ds k p = (Return (k + n), p') ∧ channels p' = channels p ∧ patterns p' = patterns p ∧
    n = pending p' - pending p ∧
    ∀ c, subChs p' !! c = accept (messages ch payload ds c) <$> subChs p !! c.
Proof.
  induction ds as [|d ds IH]; intros k p I HD; cbn [deliver].
  { exists 0, p. split_and!; [by rewrite Z.add_0_r|done|done|lia|]. intros c. unfold messages.
    rewrite filter_nil. destruct (subChs p !! c); cbn; [by rewrite accept_nil|done]. }
  apply Forall_cons in HD as [Hd HD].
  destruct (send_ok ch payload d p I Hd) as (b & p1 & Es & I1 & E1 & E2 & Hi). rewrite Es.
  destruct (IH (if b then k + 1 else k) p1 I1) as (n & p' & -> & E3 & E4 & En & HC);
    [eapply Forall_impl; [exact HD|auto]|].
  assert (Hb : pending p1 = pending p + (if b then 1 else 0) ∧ ∀ c, accept (messages ch payload ds c) <$> subChs p1 !! c =
    accept (messages ch payload (d :: ds) c) <$> subChs p !! c).
  { assert (Hother : ∀ c, c ≠ d_cs d → messages ch payload (d :: ds) c = messages ch payload ds c)
      by (intros c Hc; unfold messages; by rewrite filter_cons_False by congruence).
    assert (Hsame : messages ch payload (d :: ds) (d_cs d) = mkMessage ch (d_pattern d) payload :: messages ch payload ds (d_cs d))
      by (unfold messages; by rewrite filter_cons_True).
    unfold send in Es. destruct (subChs p !! d_cs d) as [cd|] eqn:Ed.
    - specialize (Hd cd Ed). pose proof (bk_cap p I _ _ Ed) as Hcap. rewrite Hd in Es.
      pose proof (accept_cons (mkMessage ch (d_pattern d) payload) (messages ch payload ds (d_cs d)) cd Hd Hcap) as HA.
      destruct (len (buf cd) <? subChCapacity); injection Es as <- <-.
      + split; [rewrite (pending_insert _ _ cd _ _ _ Ed); cbn [buf]; unfold len; rewrite length_app; cbn [length]; lia|].
        intros c. cbn [subChs]. destruct (decide (c = d_cs d)) as [->|Hne].
        * rewrite lookup_insert_eq, Ed, Hsame. cbn. by rewrite HA.
        * by rewrite lookup_insert_ne, Hother.
      + split; [lia|]. intros c. destruct (decide (c = d_cs d)) as [->|Hne]; [|by rewrite Hother].
        rewrite Ed, Hsame. cbn. by rewrite HA.
    - injection Es as <- <-. split; [lia|]. intros c.
      destruct (decide (c = d_cs d)) as [->|Hne]; [by rewrite Ed|by rewrite Hother]. }
  destruct Hb as [Hp Hc]. exists (n + if b then 1 else 0), p'. split_and!.
  - do 2 f_equal. destruct b; lia.
  - congruence.
  - congruence.
  - lia.
  - intros c. by rewrite HC, Hc.
Qed.

(** One message for a direct subscription, one per matching pattern. *)
Definition expected (p : PubSub) (ch payload : string) (c : conn) : list Message :=
  (if decide (c ∈ default ∅ (channels p !! ch)) then [mkMessage ch "" payload] else []) ++
  ((λ kv : string * gset conn, mkMessage ch kv.1 payload) <$>
     filter (λ kv : string * gset conn, c ∈ kv.2 ∧ resp_globMatch kv.1 ch = true) (map_to_list (patterns p))).

Lemma filter_conns o (s : gset nat) pat c : orders_ok o →
  filter (λ d, d_cs d = c) ((λ cs, mkDelivery cs pat) <$> conn_order o s) ≡ₚ
  if decide (c ∈ s) then [mkDelivery c pat] else [].
Proof.
  intros [O1 _]. rewrite O1. pose proof (NoDup_elements s) as Hnd.
  assert (Hin : c ∈ elements s ↔ c ∈ s) by apply elem_of_elements.
  rewrite <- (decide_ext _ _ [mkDelivery c pat] [] Hin).
  clear Hin. induction (elements s) as [|x l IH]; [done|]. apply NoDup_cons in Hnd as [Hx Hnd]. rewrite fmap_cons.
  destruct (decide (x = c)) as [->|Hne].
  - rewrite filter_cons_True by done. rewrite decide_True by (by left). rewrite IH by done. by rewrite decide_False.
  - rewrite filter_cons_False by done. rewrite IH by done. apply reflexive_eq, decide_ext.
    rewrite elem_of_cons. naive_solver.
Qed.

Lemma messages_expected o p ch payload c : orders_ok o →
  messages ch payload (targets o ch p) c ≡ₚ expected p ch payload c.
Proof.
  intros Ho. unfold messages, targets, expected. rewrite filter_app, fmap_app. apply Permutation_app.
  { rewrite filter_conns by done. by case_decide. }
  rewrite (proj2 Ho).
  induction (map_to_list (patterns p)) as [|[pat subs] l IH]; [done|].
  cbn [mbind list_bind]. rewrite filter_app, fmap_app, IH. clear IH.
  rewrite (filter_cons (λ kv : string * gset conn, c ∈ kv.2 ∧ _)). cbn [fst snd].
  destruct (resp_globMatch pat ch) eqn:Eg.
  - rewrite filter_conns by done. case_decide as D1; case_decide as D2; try tauto; done.
  - rewrite filter_nil. case_decide as D2; [by destruct D2|done].
Qed.

(** C22: publishing reaches exactly the subscribers.  In every state the
    connections can bring the broker into, [Publish] does not panic, changes
    no subscription, puts into each connection's channel one message per
    direct subscription and one per matching pattern, in order and as far as
    its 64 places go, and answers with the number of messages put. *)
Theorem publish_spec p o ch payload : reachable p → orders_ok o →
  ∃ n p', Publish o ch payload p = (Return n, p') ∧
    channels p' = channels p ∧ patterns p' = patterns p ∧ n = pending p' - pending p ∧
    ∀ c, ∃ ms, ms ≡ₚ expected p ch payload c ∧ subChs p' !! c = accept ms <$> subChs p !! c ∧
               (expected p ch payload c ≠ [] → is_Some (subChs p !! c)).
Proof.
  intros HR Ho. pose proof (reachable_ok p HR) as I. unfold Publish.
  destruct (deliver_spec ch payload (targets o ch p) 0 p I (targets_issuing o ch p Ho I)) as (n & p' & E & E1 & E2 & En & HC).
  exists n, p'. split_and!; [exact E|done..|]. intros c. exists (messages ch payload (targets o ch p) c).
  pose proof (messages_expected o p ch payload c Ho) as HM. split_and!; [done|done|]. intros Hne.
  destruct (messages ch payload (targets o ch p) c) as [|m ms] eqn:Em; [by apply Permutation_nil_l in HM|].
  assert (Hm : m ∈ messages ch payload (targets o ch p) c) by (rewrite Em; by left).
  unfold messages in Hm. apply list_elem_of_fmap in Hm as (d & _ & [<- Hd]%list_elem_of_filter).
  pose proof (targets_issuing o ch p Ho I) as HT. apply elem_of_targets in Hd; [|done].
  assert (HS : ∃ name, subscribed (channels p) (d_cs d) name ∨ subscribed (patterns p) (d_cs d) name)
    by (destruct Hd as [[_ ?]|[? _]]; eauto).
  destruct HS as [name HS]. destruct (bk_open p I _ _ HS) as (c' & Hc' & _). by rewrite Hc'.
Qed.

(** Publishing races with a closing connection.  [Publish] collects its
    targets under the lock but sends after releasing it: when a connection it
    is about to send to is cleaned up in between, the send hits a closed
    channel, and a send on a closed channel panics even in a [select] with a
    default, taking the server down. *)
Theorem publish_close_race p o ch payload d : reachable p → orders_ok o →
  d ∈ targets o ch p →
  (deliver ch payload (targets o ch p) 0 (cleanupSubscriptions (d_cs d) p)).1 = Panic.
Proof.
  intros HR Ho Hd. pose proof (reachable_ok p HR) as I.
  assert (I' : broker_ok (cleanupSubscriptions (d_cs d) p)) by (eapply step_ok; [exact I|apply step_close]).
  assert (Hc : ∃ c, subChs (cleanupSubscriptions (d_cs d) p) !! d_cs d = Some c ∧ closed c = true).
  { pose proof Hd as Hd'. apply elem_of_targets in Hd'; [|done].
    assert (HS : ∃ name, subscribed (channels p) (d_cs d) name ∨ subscribed (patterns p) (d_cs d) name)
      by (destruct Hd' as [[_ ?]|[? _]]; eauto).
    destruct HS as [name HS]. destruct (bk_open p I _ _ HS) as (c & Hc & _). unfold cleanupSubscriptions. rewrite Hc.
    exists (mkChan (buf c) true). cbn. by rewrite lookup_alter_eq, Hc. }
  revert Hd Hc I'. generalize (cleanupSubscriptions (d_cs d) p) 0. clear HR I. intros q k Hd Hc I'.
  revert q k Hc I'. induction (targets o ch p) as [|d' ds IH]; intros q k Hc I'; [by apply elem_of_nil in Hd|].
  cbn [deliver]. destruct (decide (d_cs d' = d_cs d)) as [E|Hne].
  - destruct Hc as (c & Hc & Hcl). unfold send. by rewrite E, Hc, Hcl.
  - apply elem_of_cons in Hd as [->|Hd]; [done|]. specialize (IH Hd).
    unfold send. destruct (subChs q !! d_cs d') as [c'|] eqn:E'; [|by apply IH].
    destruct (closed c') eqn:Ecl; [done|].
    pose proof (send_ok ch payload d' q I') as HS. unfold send, issuing in HS. rewrite E' in HS.
    destruct (HS ltac:(intros ? [= <-]; done)) as (b & q' & HS' & I2 & _). rewrite Ecl in HS'.
    destruct (len (buf c') <? subChCapacity); injection HS' as <- <-; apply IH; [|done|done|done].
    destruct Hc as (c & Hc & Hcl). exists c. cbn. by rewrite lookup_insert_ne.
Qed.

(** ** Two subscribers, one of them by pattern *)

Definition id_orders : Orders := mkOrders elements map_to_list.
Lemma id_orders_ok : orders_ok id_orders.
Proof. by split. Qed.
Definition two_subs : PubSub :=
  SubscribePattern 2 "new*" (ensureSubscriberState 2 (Subscribe 1 "news" (ensureSubscriberState 1 NewPubSub))).
Lemma two_subs_reachable : reachable two_subs.
Proof.
  eapply rtc_l; [apply (step_ensure _ 1); by intros c Hc|].
  eapply rtc_l; [apply (step_subscribe _ 1 "news"); by exists (mkChan [] false)|].
  eapply rtc_l; [apply (step_ensure _ 2); by intros c Hc|].
  eapply rtc_l; [apply (step_psubscribe _ 2 "new*"); by exists (mkChan [] false)|]. apply rtc_refl.
Qed.
Lemma publish_spec_witness :
  (Publish id_orders "news" "hi" two_subs).1 = Return 2 ∧
  subChs (Publish id_orders "news" "hi" two_subs).2 !! 2%nat = Some (mkChan [mkMessage "news" "new*" "hi"] false).
Proof.
  destruct (publish_spec two_subs id_orders "news" "hi" two_subs_reachable id_orders_ok) as (n & p' & E & _ & _ & En & HC).
  destruct (HC 2%nat) as (ms & Hms & Hlk & _). split; [vm_compute; reflexivity|]. rewrite E. cbn [snd]. rewrite Hlk.
  assert (Hx : expected two_subs "news" "hi" 2%nat = [mkMessage "news" "new*" "hi"]) by (vm_compute; reflexivity).
  rewrite Hx in Hms. apply Permutation_singleton_r in Hms as ->. vm_compute. reflexivity.
Defined.
Lemma publish_close_race_witness :
  (deliver "news" "hi" (targets id_orders "news" two_subs) 0 (cleanupSubscriptions 1%nat two_subs)).1 = Panic.
Proof.
  apply (publish_close_race two_subs id_orders "news" "hi" (mkDelivery 1 "") two_subs_reachable id_orders_ok).
  apply elem_of_targets; [exact id_orders_ok|]. left. split; [reflexivity|]. exists {[1%nat]}.
  split; [vm_compute; reflexivity|by apply elem_of_singleton].
Defined.
