(* ===== verification/Server.v ===== *)
(** * Connections and command dispatch (internal/server/resp/client.go, dispatch.go)

    The world a command handler runs in: the shared dependencies, the
    connection's own state, and the oracles of the run-time (clock, map
    iteration order).  Handlers are programs in a state monad with panics: an
    index past the end of the arguments is a panic, as in Go.  [dispatch] is
    the registry's [Handle]. *)

From S2P Require Import Prelude.
From S2P Require Import GoStd.
From S2P Require Import Auth.
From S2P Require Import Similarity.
From S2P Require Import Caches.
From S2P Require Import Semantic.
From S2P Require Import Vector.
From S2P Require Import Memory.
From S2P Require Import Graph.
From S2P Require Import Metrics.
From S2P Require Import Analytics.
From S2P Require Import Providers.
From S2P Require Import Shard.
From S2P Require Import Store.
From S2P Require Import StoreSet.
From S2P Require Import RespCodec.
From S2P Require Import PubSub.

Open Scope Z_scope.
Open Scope go_scope.

(** ** State *)

Definition defaultWorkspace : string := "default".

(** The channel [subCh] is in the broker's state ([pubsub.subChs]). *)
Record ClientState := mkClientState {
  Authenticated : bool;
  Name : string;
  Workspace : string;
  Quit : bool;
  InMulti : bool;
  MultiError : bool;
  Queued : list (list string);
  Watched : gmap string Z;              (** a nil map reads as an empty one *)
  Subscriptions : gset string;
  PSubscriptions : gset string;
}.

Definition NewClientState : ClientState :=
  mkClientState false "" defaultWorkspace false false false [] ∅ ∅ ∅.

(** The dependencies the connections share.  The registry is the argument of
    [dispatch]; the consolidator holds the memory store and the completion
    provider, which are here and in [Services]. *)
Record Deps := mkDeps {
  Engine : Store;
  Auth : auth.Authenticator;
  Metrics_ : metrics.Metrics;
  PubSub_ : pubsub.PubSub;
  SemanticCache_ : semantic.SemanticCache;
  PromptCache_ : prompt.PromptCache;
  ToolCache_ : toolcache.ToolCache;
  VectorStore_ : vector.Store;
  MemoryStore_ : memory.Store;
  Analytics_ : analytics.Tracker;
  GraphStore_ : graph.Store;
}.
(** What server.go builds around an engine and an authenticator. *)
Definition newDeps (e : Store) (a : auth.Authenticator) : Deps :=
  mkDeps e a metrics.NewMetrics pubsub.NewPubSub semantic.New prompt.NewPromptCache toolcache.New vector.New
         memory.New analytics.New graph.New.

(** What one connection's command runs on: [me] is the connection, [ticks]
    counts the calls that consulted an oracle. *)
Record World := mkWorld { deps : Deps; cs : ClientState; me : pubsub.conn; ticks : nat }.

Definition set_Engine (e : Store) (d : Deps) : Deps :=
  mkDeps e (Auth d) (Metrics_ d) (PubSub_ d) (SemanticCache_ d) (PromptCache_ d) (ToolCache_ d) (VectorStore_ d)
         (MemoryStore_ d) (Analytics_ d) (GraphStore_ d).
Definition set_Metrics (m : metrics.Metrics) (d : Deps) : Deps :=
  mkDeps (Engine d) (Auth d) m (PubSub_ d) (SemanticCache_ d) (PromptCache_ d) (ToolCache_ d) (VectorStore_ d)
         (MemoryStore_ d) (Analytics_ d) (GraphStore_ d).
Definition set_PubSub (p : pubsub.PubSub) (d : Deps) : Deps :=
  mkDeps (Engine d) (Auth d) (Metrics_ d) p (SemanticCache_ d) (PromptCache_ d) (ToolCache_ d) (VectorStore_ d)
         (MemoryStore_ d) (Analytics_ d) (GraphStore_ d).
Definition set_SemanticCache (c : semantic.SemanticCache) (d : Deps) : Deps :=
  mkDeps (Engine d) (Auth d) (Metrics_ d) (PubSub_ d) c (PromptCache_ d) (ToolCache_ d) (VectorStore_ d)
         (MemoryStore_ d) (Analytics_ d) (GraphStore_ d).
Definition set_PromptCache (c : prompt.PromptCache) (d : Deps) : Deps :=
  mkDeps (Engine d) (Auth d) (Metrics_ d) (PubSub_ d) (SemanticCache_ d) c (ToolCache_ d) (VectorStore_ d)
         (MemoryStore_ d) (Analytics_ d) (GraphStore_ d).
Definition set_ToolCache (c : toolcache.ToolCache) (d : Deps) : Deps :=
  mkDeps (Engine d) (Auth d) (Metrics_ d) (PubSub_ d) (SemanticCache_ d) (PromptCache_ d) c (VectorStore_ d)
         (MemoryStore_ d) (Analytics_ d) (GraphStore_ d).
Definition set_VectorStore (v : vector.Store) (d : Deps) : Deps :=
  mkDeps (Engine d) (Auth d) (Metrics_ d) (PubSub_ d) (SemanticCache_ d) (PromptCache_ d) (ToolCache_ d) v
         (MemoryStore_ d) (Analytics_ d) (GraphStore_ d).
Definition set_MemoryStore (m : memory.Store) (d : Deps) : Deps :=
  mkDeps (Engine d) (Auth d) (Metrics_ d) (PubSub_ d) (SemanticCache_ d) (PromptCache_ d) (ToolCache_ d) (VectorStore_ d)
         m (Analytics_ d) (GraphStore_ d).
Definition set_Analytics (t : analytics.Tracker) (d : Deps) : Deps :=
  mkDeps (Engine d) (Auth d) (Metrics_ d) (PubSub_ d) (SemanticCache_ d) (PromptCache_ d) (ToolCache_ d) (VectorStore_ d)
         (MemoryStore_ d) t (GraphStore_ d).
Definition set_GraphStore (g : graph.Store) (d : Deps) : Deps :=
  mkDeps (Engine d) (Auth d) (Metrics_ d) (PubSub_ d) (SemanticCache_ d) (PromptCache_ d) (ToolCache_ d) (VectorStore_ d)
         (MemoryStore_ d) (Analytics_ d) g.
Definition set_deps (d : Deps) (w : World) : World := mkWorld d (cs w) (me w) (ticks w).
Definition set_cs (c : ClientState) (w : World) : World := mkWorld (deps w) c (me w) (ticks w).

Definition set_Authenticated (c : ClientState) : ClientState :=
  mkClientState true (Name c) (Workspace c) (Quit c) (InMulti c) (MultiError c) (Queued c) (Watched c)
                (Subscriptions c) (PSubscriptions c).
Definition set_Workspace (ws : string) (c : ClientState) : ClientState :=
  mkClientState (Authenticated c) (Name c) ws (Quit c) (InMulti c) (MultiError c) (Queued c) (Watched c)
                (Subscriptions c) (PSubscriptions c).
Definition set_Name (n : string) (c : ClientState) : ClientState :=
  mkClientState (Authenticated c) n (Workspace c) (Quit c) (InMulti c) (MultiError c) (Queued c) (Watched c)
                (Subscriptions c) (PSubscriptions c).
Definition set_Quit (c : ClientState) : ClientState :=
  mkClientState (Authenticated c) (Name c) (Workspace c) true (InMulti c) (MultiError c) (Queued c) (Watched c)
                (Subscriptions c) (PSubscriptions c).
Definition set_Multi (inMulti multiErr : bool) (queued : list (list string)) (c : ClientState) : ClientState :=
  mkClientState (Authenticated c) (Name c) (Workspace c) (Quit c) inMulti multiErr queued (Watched c)
                (Subscriptions c) (PSubscriptions c).
Definition set_MultiError (c : ClientState) : ClientState := set_Multi (InMulti c) true (Queued c) c.
Definition set_Watched (m : gmap string Z) (c : ClientState) : ClientState :=
  mkClientState (Authenticated c) (Name c) (Workspace c) (Quit c) (InMulti c) (MultiError c) (Queued c) m
                (Subscriptions c) (PSubscriptions c).
Definition set_Subscriptions (subs psubs : gset string) (c : ClientState) : ClientState :=
  mkClientState (Authenticated c) (Name c) (Workspace c) (Quit c) (InMulti c) (MultiError c) (Queued c) (Watched c)
                subs psubs.

Definition authorizedForWorkspace (w : World) (workspace : string) : bool :=
  if negb (auth.MultiWorkspace (Auth (deps w))) then true
  else String.eqb workspace (Workspace (cs w)).

(** ** The run-time's oracles

    The [n]-th consultation reads the clock at [clock n] and ranges over maps
    in the orders given for [n]. *)
Class Runtime := {
  clock : nat → time;
  data_order : nat → DataOrder;
  set_order : nat → SetOrder;
  vec_order : nat → gmap string vector.vecEntry → list (string * vector.vecEntry);
  mem_order : nat → gmap string memory.Memory → list (string * memory.Memory);
  edge_order : nat → Z → gmap graph.edgeKey graph.Edge → list graph.Edge;
  sub_orders : nat → pubsub.Orders;
  latency_order : nat → gmap string metrics.latencyAccumulator → list (string * metrics.latencyAccumulator);
  tables :: UnicodeTables;
}.

(** A range visits every element once. *)
Class RuntimeLaws `{Runtime} : Prop := {
  sub_orders_ok n : orders_ok (sub_orders n);
}.

(** Maps in the order of their keys' codes, ASCII text, a clock of one's
    choice: to run examples with. *)
Definition plain_runtime (c : nat → time) : Runtime := {|
  clock := c;
  data_order := λ _ m, map_to_list m;
  set_order := λ _ s, elements s;
  vec_order := λ _ m, map_to_list m;
  mem_order := λ _ m, map_to_list m;
  edge_order := λ _ _ m, snd <$> map_to_list m;
  sub_orders := λ _, id_orders;
  latency_order := λ _ m, map_to_list m;
  tables := ascii_only |}.
Lemma plain_runtime_laws c : @RuntimeLaws (plain_runtime c).
Proof. split. intros n. apply id_orders_ok. Qed.

(** ** Handlers *)

(** A handler's computation; [None] is a panic. *)
Definition H (A : Type) : Type := ST World (option A).

Definition hret {A} (a : A) : H A := ret (Some a).
Definition hpanic {A} : H A := ret None.
Definition hbind {A B} (m : H A) (k : A → H B) : H B :=
  bind m (λ oa, match oa with Some a => k a | None => ret None end).
Notation "'do!' x ':=' m 'in' k" := (hbind m (λ x, k))
  (at level 10, x binder, m at level 200, k at level 200) : go_scope.

(** [args[i]] and [args[i:]] *)
Definition arg (args : list string) (i : nat) : H string :=
  match args !! i with Some a => hret a | None => hpanic end.
Definition args_from (args : list string) (i : nat) : H (list string) :=
  if decide (i ≤ length args)%nat then hret (drop i args) else hpanic.

Definition get_cs : H ClientState := λ w, (Some (cs w), w).
Definition put_cs (f : ClientState → ClientState) : H unit := λ w, (Some tt, set_cs (f (cs w)) w).
Definition get_Auth : H auth.Authenticator := λ w, (Some (Auth (deps w)), w).

(** A call of a component: [sel] and [upd] are its field of [Deps], the number
    is the tick of the oracles it consults. *)
Definition on {C A} (sel : Deps → C) (upd : C → Deps → Deps) (f : nat → C → A * C) : H A := λ w,
  let '(a, c) := f (ticks w) (sel (deps w)) in
  (Some a, mkWorld (upd c (deps w)) (cs w) (me w) (S (ticks w))).
(** Recording something on the metrics or the tracker consults no oracle. *)
Definition metric (f : metrics.Metrics → metrics.Metrics) : H unit := λ w,
  (Some tt, set_deps (set_Metrics (f (Metrics_ (deps w))) (deps w)) w).
Definition analytic (f : analytics.Tracker → analytics.Tracker) : H unit := λ w,
  (Some tt, set_deps (set_Analytics (f (Analytics_ (deps w))) (deps w)) w).
(** An error is handed to the handler, a panic goes on. *)
Definition check_panic {A} (o : outcome A) : H (option A) :=
  match o with Return a => hret (Some a) | Fail => hret None | Panic => hpanic end.

(** A call of the storage engine for the connection's workspace, consulting the
    oracles [n] times from the current tick on; most calls do so once.  Every
    eviction calls [KeyEvicted], the engine's [onEvict]. *)
Definition engineN {A} (n : nat) (f : nat → string → StoreM A) : H A := λ w,
  let '(a, e) := f (ticks w) (Workspace (cs w)) (Engine (deps w)) in
  let evicted := Z.to_nat (evictions e - evictions (Engine (deps w))) in
  let m := Nat.iter evicted metrics.KeyEvicted (Metrics_ (deps w)) in
  (Some a, mkWorld (set_Metrics m (set_Engine e (deps w))) (cs w) (me w) (n + ticks w)).
Definition engine {A} (f : nat → string → StoreM A) : H A := engineN 1 f.

Definition HandlerFunc : Type := list string → H Reply.

Record Command := mkCommand {
  cmd_Name : string;
  MinArgs : Z;
  MaxArgs : Z;
  AllowedNoAuth : bool;
  NoQueue : bool;
  Handler : HandlerFunc;
}.

Definition arityOK (c : Command) (n : Z) : bool :=
  if n <? MinArgs c then false
  else if (0 <=? MaxArgs c) && (MaxArgs c <? n) then false
  else true.

(** ** The registry *)

Notation Registry := (gmap string Command).
Definition NewRegistry : Registry := ∅.

Section registry.
Context `{Runtime}.

Definition Register (cmd : Command) (r : Registry) : Registry := <[ToUpper (cmd_Name cmd) := cmd]> r.
Definition Lookup (name : string) (r : Registry) : option Command := r !! ToUpper name.

(** [Handle]; a nil reply ([None] under [Some]) writes nothing. *)
Definition dispatch (r : Registry) (args : list string) : H (option Reply) :=
  match args with
  | [] => hret None
  | a0 :: rest =>
      match r !! ToUpper a0 with
      | None =>
          do! c := get_cs in
          do! _ := (if InMulti c then put_cs set_MultiError else hret tt) in
          hret (Some (Err (ErrUnknownCommand a0 rest)))
      | Some cmd =>
          do! a := get_Auth in
          do! c := get_cs in
          if auth.Required a && negb (Authenticated c) && negb (AllowedNoAuth cmd)
          then hret (Some (Err ErrNoAuthMsg))
          else if InMulti c && negb (NoQueue cmd) then
            if negb (arityOK cmd (len args)) then
              do! _ := put_cs set_MultiError in
              hret (Some (Err (ErrWrongNumberOfArgs (cmd_Name cmd))))
            else
              do! _ := put_cs (λ c, set_Multi (InMulti c) (MultiError c) (Queued c ++ [args]) c) in
              hret (Some (Simple "QUEUED"))
          else if negb (arityOK cmd (len args)) then
            hret (Some (Err (ErrWrongNumberOfArgs (cmd_Name cmd))))
          else
            do! r := Handler cmd args in hret (Some r)
      end
  end.
End registry.
