(* ===== verification/HandlersKV.v ===== *)
(** * Connection, string and key-space commands
    (internal/server/resp/handlers_conn.go, handlers_string.go,
    handlers_generic.go)

    One definition per handler, in the source's order.  An option loop is a
    recursion on the arguments still to look at. *)

From S2P Require Import Prelude.
From S2P Require Import GoStd.
From S2P Require Import Auth.
From S2P Require Import Shard.
From S2P Require Import Store.
From S2P Require Import Metrics.
From S2P Require Import RespCodec.
From S2P Require Import Server.

Open Scope Z_scope.
Open Scope go_scope.

Section handlers.
Context `{Runtime}.

(** ** handlers_conn.go *)

Definition cachepotVersion : string := "0.7.0".

Definition handlePing : HandlerFunc := λ args,
  if len args =? 2 then do! m := arg args 1 in hret (BulkString m)
  else hret (Simple "PONG").

Definition handleEcho : HandlerFunc := λ args,
  do! m := arg args 1 in hret (BulkString m).

Definition handleSelect : HandlerFunc := λ args,
  do! a := arg args 1 in
  match Atoi a with
  | None => hret (Err ErrNotIntegerMsg)
  | Some n => if negb (n =? 0) then hret (Err ErrWrongDBMsg) else hret OK
  end.

(** The body the two ways to authenticate share: [None] once the password is
    accepted and the state updated, else the error. *)
Definition authenticate (password : string) : H (option Reply) :=
  do! a := get_Auth in
  if auth.MultiWorkspace a then
    match auth.WorkspaceForPassword a password with
    | None => hret (Some (Err ErrInvalidPasswordMsg))
    | Some workspace =>
        do! _ := put_cs (λ c, set_Workspace workspace (set_Authenticated c)) in hret None
    end
  else if negb (auth.Check_ a password) then hret (Some (Err ErrInvalidPasswordMsg))
  else do! _ := put_cs set_Authenticated in hret None.

Fixpoint hello_opts (args : list string) : H (option Reply) :=
  match args with
  | [] => hret None
  | opt :: args =>
      let opt := ToUpper opt in
      if String.eqb opt "AUTH" then
        match args with
        | _ :: password :: args =>
            do! e := authenticate password in
            match e with Some r => hret (Some r) | None => hello_opts args end
        | _ => hret (Some (Err ErrSyntaxMsg))
        end
      else if String.eqb opt "SETNAME" then
        match args with
        | name :: args => do! _ := put_cs (set_Name name) in hello_opts args
        | _ => hret (Some (Err ErrSyntaxMsg))
        end
      else hret (Some (Err ErrSyntaxMsg))
  end.

Definition helloReply : Reply := ArraySlice
  [BulkString "server"; BulkString "cachepot"; BulkString "version"; BulkString cachepotVersion;
   BulkString "proto"; Int 2; BulkString "id"; Int 1; BulkString "mode"; BulkString "standalone";
   BulkString "role"; BulkString "master"; BulkString "modules"; ArraySlice []].

Definition handleHello : HandlerFunc := λ args,
  do! opts := args_from args 1 in
  let '(proto, opts) := match opts with
                        | p :: rest => match Atoi p with Some _ => (p, rest) | None => ("2", opts) end
                        | [] => ("2", opts)
                        end in
  do! e := hello_opts opts in
  match e with
  | Some r => hret r
  | None =>
      if negb (String.eqb proto "2") then hret (Err ErrNoProtoMsg) else
      do! a := get_Auth in
      do! c := get_cs in
      if auth.Required a && negb (Authenticated c) then hret (Err ErrNoAuthMsg)
      else hret helloReply
  end.

Definition ErrAuthNotSet : string :=
  "ERR Client sent AUTH, but no password is set. Did you mean AUTH <username> <password>?".

Definition handleAuth : HandlerFunc := λ args,
  do! password := (if len args =? 2 then arg args 1 else if len args =? 3 then arg args 2 else hret "") in
  do! a := get_Auth in
  if negb (auth.Required a) then hret (Err ErrAuthNotSet) else
  do! e := authenticate password in
  hret (default OK e).

Definition handleClient : HandlerFunc := λ args,
  do! a1 := arg args 1 in
  let sub := ToUpper a1 in
  if String.eqb sub "GETNAME" then do! c := get_cs in hret (BulkString (Name c))
  else if String.eqb sub "SETNAME" then
    if negb (len args =? 3) then hret (Err (ErrWrongNumberOfArgs "client|setname"))
    else do! name := arg args 2 in do! _ := put_cs (set_Name name) in hret OK
  else hret (Err ("ERR Unknown subcommand or wrong number of arguments for '" +:+ a1 +:+ "'")).

(** [commands] is the number of registered commands. *)
Definition handleCommand (commands : Z) : HandlerFunc := λ args,
  if 2 <=? len args then
    do! a1 := arg args 1 in
    if EqualFold a1 "COUNT" then hret (Int commands) else hret (ArraySlice [])
  else hret (ArraySlice []).

Definition info_line (name : string) (n : Z) : string := name +:+ ":" +:+ FormatInt n +:+ CRLF.
Definition handleInfo : HandlerFunc := λ args w,
  let snap := metrics.Snapshot (latency_order (ticks w)) (Metrics_ (deps w)) in
  (Some (BulkString (
     "# Server" +:+ CRLF +:+ "redis_version:7.0.0" +:+ CRLF +:+
     "cachepot_version:" +:+ cachepotVersion +:+ CRLF +:+
     CRLF +:+ "# Clients" +:+ CRLF +:+ info_line "connected_clients" (metrics.ConnectionsActive snap) +:+
     CRLF +:+ "# Stats" +:+ CRLF +:+
     info_line "total_connections_received" (metrics.ConnectionsTotal snap) +:+
     info_line "total_commands_processed" (metrics.CommandsTotal snap) +:+
     info_line "rejected_connections" (metrics.ConnectionsRejected snap))), w).

Definition handleQuit : HandlerFunc := λ args,
  do! _ := put_cs set_Quit in hret OK.

(** ** handlers_string.go *)

(** The reply for an engine's answer. *)
Definition reply_of {A} (r : result A) (k : A → Reply) : Reply :=
  match r with Error err => ErrFromStorage err | Ok a => k a end.
Definition bulk_or_null (v : gobytes * bool) : Reply := if v.2 then Bulk v.1 else NullBulk.

Definition handleGet : HandlerFunc := λ args,
  do! key := arg args 1 in
  do! r := engine (λ t ws, Get (clock t) ws key) in
  hret (reply_of r bulk_or_null).

Definition seconds (n : Z) : duration := wrap64 (n * Second).
Definition millis (n : Z) : duration := wrap64 (n * Millisecond).

Definition with_TTL (d : duration) (o : SetOpts) : SetOpts :=
  mkSetOpts d (so_OnlyIfNX o) (so_OnlyIfXX o) (so_GetOld o).

Fixpoint set_opts (args : list string) (opts : SetOpts) : Reply + SetOpts :=
  match args with
  | [] => inr opts
  | a :: args =>
      let a := ToUpper a in
      if String.eqb a "EX" then
        match args with
        | v :: args =>
            match ParseInt v with
            | None => inl (Err ErrNotIntegerMsg)
            | Some secs => set_opts args (with_TTL (seconds secs) opts)
            end
        | [] => inl (Err ErrSyntaxMsg)
        end
      else if String.eqb a "PX" then
        match args with
        | v :: args =>
            match ParseInt v with
            | None => inl (Err ErrNotIntegerMsg)
            | Some ms => set_opts args (with_TTL (millis ms) opts)
            end
        | [] => inl (Err ErrSyntaxMsg)
        end
      else if String.eqb a "NX" then
        set_opts args (mkSetOpts (so_TTL opts) true (so_OnlyIfXX opts) (so_GetOld opts))
      else if String.eqb a "XX" then
        set_opts args (mkSetOpts (so_TTL opts) (so_OnlyIfNX opts) true (so_GetOld opts))
      else if String.eqb a "GET" then
        set_opts args (mkSetOpts (so_TTL opts) (so_OnlyIfNX opts) (so_OnlyIfXX opts) true)
      else inl (Err ErrSyntaxMsg)
  end.

Definition engine_Set (key : string) (val : gobytes) (opts : SetOpts) : H (result (bool * gobytes * bool)) :=
  engine (λ t ws, Set_ (clock t) (data_order t) ws key val opts).

Definition handleSet : HandlerFunc := λ args,
  do! key := arg args 1 in
  do! v := arg args 2 in
  do! rest := args_from args 3 in
  match set_opts rest noOpts with
  | inl r => hret r
  | inr opts =>
      if so_OnlyIfNX opts && so_OnlyIfXX opts then hret (Err ErrSyntaxMsg) else
      do! r := engine_Set key (to_bytes v) opts in
      hret (reply_of r (λ '(ok, prev, hadPrev),
        if so_GetOld opts then (if hadPrev then Bulk prev else NullBulk)
        else if negb ok then NullBulk else OK))
  end.

Fixpoint mget_loop (keys : list string) : H (list Reply) :=
  match keys with
  | [] => hret []
  | k :: keys =>
      do! r := engine (λ t ws, Get (clock t) ws k) in
      do! items := mget_loop keys in
      hret (match r with Error _ => NullBulk | Ok v => bulk_or_null v end :: items)
  end.
Definition handleMGet : HandlerFunc := λ args,
  do! keys := args_from args 1 in
  do! items := mget_loop keys in
  hret (ArraySlice items).

Fixpoint mset_loop (pairs : list string) : H Reply :=
  match pairs with
  | [] => hret OK
  | [_] => hpanic
  | k :: v :: pairs =>
      do! r := engine_Set k (to_bytes v) noOpts in
      match r with
      | Error err => hret (ErrFromStorage err)
      | Ok _ => mset_loop pairs
      end
  end.
Definition handleMSet : HandlerFunc := λ args,
  do! pairs := args_from args 1 in
  if negb (len pairs `mod` 2 =? 0) then hret (Err (ErrWrongNumberOfArgs "mset"))
  else mset_loop pairs.

Definition incrBy (key : string) (delta : Z) : H (result Z) :=
  do! r := engine (λ t ws, Get (clock t) ws key) in
  match r with
  | Error err => hret (Error err)
  | Ok (val, ok) =>
      match (if ok then ParseInt (bytes_of val) else Some 0) with
      | None => hret (Error ErrNotInteger)
      | Some cur =>
          let next := wrap64 (cur + delta) in
          do! r := engine_Set key (to_bytes (FormatInt next)) noOpts in
          hret (match r with Error err => Error err | Ok _ => Ok next end)
      end
  end.

Definition handleIncr : HandlerFunc := λ args,
  do! key := arg args 1 in
  do! r := incrBy key 1 in hret (reply_of r Int).
Definition handleDecr : HandlerFunc := λ args,
  do! key := arg args 1 in
  do! r := incrBy key (-1) in hret (reply_of r Int).
Definition handleIncrBy : HandlerFunc := λ args,
  do! a2 := arg args 2 in
  match ParseInt a2 with
  | None => hret (Err ErrNotIntegerMsg)
  | Some delta => do! key := arg args 1 in do! r := incrBy key delta in hret (reply_of r Int)
  end.
Definition handleDecrBy : HandlerFunc := λ args,
  do! a2 := arg args 2 in
  match ParseInt a2 with
  | None => hret (Err ErrNotIntegerMsg)
  | Some delta => do! key := arg args 1 in do! r := incrBy key (wrap64 (- delta)) in hret (reply_of r Int)
  end.

Definition handleAppend : HandlerFunc := λ args,
  do! key := arg args 1 in
  do! add := arg args 2 in
  do! r := engine (λ t ws, Get (clock t) ws key) in
  match r with
  | Error err => hret (ErrFromStorage err)
  | Ok (val, ok) =>
      (** [append(append([]byte(nil), val...), add...)]: nil when both are empty *)
      let newVal := if ok then clone (to_bytes (bytes_of val +:+ add)) else to_bytes add in
      do! r := engine_Set key newVal noOpts in
      hret (reply_of r (λ _, Int (slen (bytes_of newVal))))
  end.

Definition handleStrlen : HandlerFunc := λ args,
  do! key := arg args 1 in
  do! r := engine (λ t ws, Get (clock t) ws key) in
  hret (reply_of r (λ '(val, ok), if ok then Int (slen (bytes_of val)) else Int 0)).

(** ** handlers_generic.go *)

Definition bool_int (b : bool) : Reply := if b then Int 1 else Int 0.

Definition handleDel : HandlerFunc := λ args,
  do! keys := args_from args 1 in
  do! n := engine (λ t ws, Del (clock t) ws keys) in hret (Int n).
Definition handleExists : HandlerFunc := λ args,
  do! keys := args_from args 1 in
  do! n := engine (λ t ws, Exists (clock t) ws keys) in hret (Int n).

Definition handleExpire : HandlerFunc := λ args,
  do! a2 := arg args 2 in
  match ParseInt a2 with
  | None => hret (Err ErrNotIntegerMsg)
  | Some secs =>
      do! key := arg args 1 in
      do! b := engine (λ t ws, Expire (clock t) ws key (seconds secs)) in hret (bool_int b)
  end.
Definition handlePExpire : HandlerFunc := λ args,
  do! a2 := arg args 2 in
  match ParseInt a2 with
  | None => hret (Err ErrNotIntegerMsg)
  | Some ms =>
      do! key := arg args 1 in
      do! b := engine (λ t ws, Expire (clock t) ws key (millis ms)) in hret (bool_int b)
  end.

Definition handleTTL : HandlerFunc := λ args,
  do! key := arg args 1 in
  do! r := engine (λ t ws, TTL (clock t) ws key) in
  let '(ttl, hasTTL, exists_) := r in
  if negb exists_ then hret (Int (-2))
  else if negb hasTTL then hret (Int (-1))
  else
    let secs := Z.quot ttl Second in
    hret (Int (if negb (Z.rem ttl Second =? 0) then secs + 1 else secs)).
Definition handlePTTL : HandlerFunc := λ args,
  do! key := arg args 1 in
  do! r := engine (λ t ws, TTL (clock t) ws key) in
  let '(ttl, hasTTL, exists_) := r in
  if negb exists_ then hret (Int (-2))
  else if negb hasTTL then hret (Int (-1))
  else hret (Int (Z.quot ttl Millisecond)).

Definition handlePersist : HandlerFunc := λ args,
  do! key := arg args 1 in
  do! b := engine (λ t ws, Persist (clock t) ws key) in hret (bool_int b).

Definition handleType : HandlerFunc := λ args,
  do! key := arg args 1 in
  do! r := engine (λ t ws, Type_ (clock t) ws key) in
  let '(ty, ok) := r in
  if negb ok then hret (Simple "none") else hret (Simple ty).

Definition handleKeys : HandlerFunc := λ args,
  do! pattern := arg args 1 in
  do! keys := engine (λ t ws, Keys (clock t) ws pattern) in
  hret (ArraySlice (BulkString <$> keys)).

Fixpoint scan_opts (args : list string) (match_ : string) (count : Z) : Reply + string * Z :=
  match args with
  | [] => inr (match_, count)
  | a :: args =>
      let a := ToUpper a in
      if String.eqb a "MATCH" then
        match args with
        | m :: args => scan_opts args m count
        | [] => inl (Err ErrSyntaxMsg)
        end
      else if String.eqb a "COUNT" then
        match args with
        | v :: args =>
            match Atoi v with
            | None => inl (Err ErrNotIntegerMsg)
            | Some c => scan_opts args match_ c
            end
        | [] => inl (Err ErrSyntaxMsg)
        end
      else inl (Err ErrSyntaxMsg)
  end.
Definition handleScan : HandlerFunc := λ args,
  do! a1 := arg args 1 in
  match ParseUint a1 with
  | None => hret (Err ErrNotIntegerMsg)
  | Some cursor =>
      do! rest := args_from args 2 in
      match scan_opts rest "*" 10 with
      | inl r => hret r
      | inr (match_, count) =>
          do! r := engine (λ t ws, Scan (clock t) ws cursor match_ count) in
          let '(next, keys) := r in
          hret (ArraySlice [BulkString (FormatUint next); ArraySlice (BulkString <$> keys)])
      end
  end.

Definition handleRename : HandlerFunc := λ args,
  do! a1 := arg args 1 in
  do! a2 := arg args 2 in
  do! b := engine (λ t ws, Rename (clock t) ws a1 a2) in
  if negb b then hret (Err ErrNoSuchKeyMsg) else hret OK.

Definition handleFlushDB : HandlerFunc := λ args,
  do! _ := engine (λ t ws, FlushDB ws) in hret OK.
Definition handleFlushAll : HandlerFunc := λ args,
  do! _ := engine (λ t ws, FlushDB ws) in hret OK.

(** ** Registration *)

Definition RegisterConn (commands : Z) : list Command := [
  mkCommand "PING" 1 2 false false handlePing;
  mkCommand "ECHO" 2 2 false false handleEcho;
  mkCommand "SELECT" 2 2 false false handleSelect;
  mkCommand "HELLO" 1 (-1) true false handleHello;
  mkCommand "AUTH" 2 3 true false handleAuth;
  mkCommand "CLIENT" 2 (-1) false false handleClient;
  mkCommand "COMMAND" 1 (-1) true false (handleCommand commands);
  mkCommand "INFO" 1 2 true false handleInfo;
  mkCommand "QUIT" 1 1 true true handleQuit].

Definition RegisterGeneric : list Command := [
  mkCommand "DEL" 2 (-1) false false handleDel;
  mkCommand "EXISTS" 2 (-1) false false handleExists;
  mkCommand "EXPIRE" 3 3 false false handleExpire;
  mkCommand "PEXPIRE" 3 3 false false handlePExpire;
  mkCommand "TTL" 2 2 false false handleTTL;
  mkCommand "PTTL" 2 2 false false handlePTTL;
  mkCommand "PERSIST" 2 2 false false handlePersist;
  mkCommand "TYPE" 2 2 false false handleType;
  mkCommand "KEYS" 2 2 false false handleKeys;
  mkCommand "SCAN" 2 (-1) false false handleScan;
  mkCommand "RENAME" 3 3 false false handleRename;
  mkCommand "FLUSHDB" 1 (-1) false false handleFlushDB;
  mkCommand "FLUSHALL" 1 (-1) false false handleFlushAll].

Definition RegisterString : list Command := [
  mkCommand "GET" 2 2 false false handleGet;
  mkCommand "SET" 3 (-1) false false handleSet;
  mkCommand "MGET" 2 (-1) false false handleMGet;
  mkCommand "MSET" 3 (-1) false false handleMSet;
  mkCommand "INCR" 2 2 false false handleIncr;
  mkCommand "INCRBY" 3 3 false false handleIncrBy;
  mkCommand "DECR" 2 2 false false handleDecr;
  mkCommand "DECRBY" 3 3 false false handleDecrBy;
  mkCommand "APPEND" 3 3 false false handleAppend;
  mkCommand "STRLEN" 2 2 false false handleStrlen].
End handlers.
