(* ===== verification/HandlersData.v ===== *)
(** * Hash, list, set and sorted-set commands
    (internal/server/resp/handlers_hash.go, handlers_list.go,
    handlers_set.go, handlers_zset.go) *)

From S2P Require Import Prelude.
From S2P Require Import GoStd.
From S2P Require Import Shard.
From S2P Require Import Store.
From S2P Require Import StoreHash.
From S2P Require Import StoreList.
From S2P Require Import StoreSet.
From S2P Require Import StoreZSet.
From S2P Require Import RespCodec.
From S2P Require Import Server.
From S2P Require Import HandlersKV.

Open Scope Z_scope.
Open Scope go_scope.

(** [strconv.ParseFloat] and [strconv.FormatFloat(f, 'g', -1, 64)], the
    decimal texts of doubles. *)
Class FloatText := {
  ParseFloat : string → option float64;
  FormatFloat : float64 → string;
}.

Section handlers.
Context `{Runtime}.

Definition bulks (vals : list gobytes) : Reply := ArraySlice (Bulk <$> vals).
Definition strings_reply (l : list string) : Reply := ArraySlice (BulkString <$> l).

(** ** handlers_hash.go *)

(** [fields[pairs[i]] = []byte(pairs[i+1])]: [None] is an index out of range. *)
Fixpoint hset_fields (pairs : list string) (fields : gmap string gobytes) : option (gmap string gobytes) :=
  match pairs with
  | [] => Some fields
  | [_] => None
  | f :: v :: pairs => hset_fields pairs (<[f := to_bytes v]> fields)
  end.

Definition handleHSet : HandlerFunc := λ args,
  do! key := arg args 1 in
  do! pairs := args_from args 2 in
  if negb (len pairs `mod` 2 =? 0) then hret (Err (ErrWrongNumberOfArgs "hset")) else
  match hset_fields pairs ∅ with
  | None => hpanic
  | Some fields =>
      do! r := engine (λ t ws, HSet (clock t) (data_order t) ws key fields) in
      hret (reply_of r Int)
  end.

Definition handleHGet : HandlerFunc := λ args,
  do! key := arg args 1 in
  do! field := arg args 2 in
  do! r := engine (λ t ws, HGet (clock t) ws key field) in
  hret (reply_of r bulk_or_null).

Definition hgetall_items (m : gmap string gobytes) : list Reply :=
  sort_Strings (map_to_list m).*1 ≫= λ k, [BulkString k; Bulk (default nilb (m !! k))].
Definition handleHGetAll : HandlerFunc := λ args,
  do! key := arg args 1 in
  do! r := engine (λ t ws, HGetAll (clock t) ws key) in
  hret (reply_of r (λ '(m, ok), if ok then ArraySlice (hgetall_items m) else ArraySlice [])).

Definition handleHDel : HandlerFunc := λ args,
  do! key := arg args 1 in
  do! fields := args_from args 2 in
  do! r := engine (λ t ws, HDel (clock t) ws key fields) in
  hret (reply_of r Int).

Definition handleHExists : HandlerFunc := λ args,
  do! key := arg args 1 in
  do! field := arg args 2 in
  do! r := engine (λ t ws, HExists (clock t) ws key field) in
  hret (reply_of r bool_int).

Definition handleHKeys : HandlerFunc := λ args,
  do! key := arg args 1 in
  do! r := engine (λ t ws, HKeys (clock t) ws key) in
  hret (reply_of r (λ v, strings_reply v.1)).

Definition handleHVals : HandlerFunc := λ args,
  do! key := arg args 1 in
  do! r := engine (λ t ws, HVals (clock t) ws key) in
  hret (reply_of r (λ v, bulks v.1)).

Definition handleHLen : HandlerFunc := λ args,
  do! key := arg args 1 in
  do! r := engine (λ t ws, HLen (clock t) ws key) in
  hret (reply_of r Int).

(** A nil value becomes a null bulk, as [Bulk] itself writes it. *)
Definition handleHMGet : HandlerFunc := λ args,
  do! key := arg args 1 in
  do! fields := args_from args 2 in
  do! r := engine (λ t ws, HMGet (clock t) ws key fields) in
  hret (reply_of r (λ vals, ArraySlice ((λ v, match v with None => NullBulk | Some _ => Bulk v end) <$> vals))).

Definition handleHIncrBy : HandlerFunc := λ args,
  do! a3 := arg args 3 in
  match ParseInt a3 with
  | None => hret (Err ErrNotIntegerMsg)
  | Some delta =>
      do! key := arg args 1 in
      do! field := arg args 2 in
      do! r := engine (λ t ws, HIncrBy (clock t) (data_order t) ws key field delta) in
      hret (reply_of r Int)
  end.

(** ** handlers_list.go *)

Definition handleLPush : HandlerFunc := λ args,
  do! vals := args_from args 2 in
  do! key := arg args 1 in
  do! r := engine (λ t ws, LPush (clock t) (data_order t) ws key (to_bytes <$> vals)) in
  hret (reply_of r Int).
Definition handleRPush : HandlerFunc := λ args,
  do! vals := args_from args 2 in
  do! key := arg args 1 in
  do! r := engine (λ t ws, RPush (clock t) (data_order t) ws key (to_bytes <$> vals)) in
  hret (reply_of r Int).

Definition handleLPop : HandlerFunc := λ args,
  do! key := arg args 1 in
  do! r := engine (λ t ws, LPop (clock t) ws key) in
  hret (reply_of r bulk_or_null).
Definition handleRPop : HandlerFunc := λ args,
  do! key := arg args 1 in
  do! r := engine (λ t ws, RPop (clock t) ws key) in
  hret (reply_of r bulk_or_null).

Definition handleLRange : HandlerFunc := λ args,
  do! a2 := arg args 2 in
  match Atoi a2 with
  | None => hret (Err ErrNotIntegerMsg)
  | Some start =>
      do! a3 := arg args 3 in
      match Atoi a3 with
      | None => hret (Err ErrNotIntegerMsg)
      | Some stop =>
          do! key := arg args 1 in
          do! r := engine (λ t ws, LRange (clock t) ws key start stop) in
          hret (reply_of r bulks)
      end
  end.

Definition handleLLen : HandlerFunc := λ args,
  do! key := arg args 1 in
  do! r := engine (λ t ws, LLen (clock t) ws key) in
  hret (reply_of r Int).

Definition handleLIndex : HandlerFunc := λ args,
  do! a2 := arg args 2 in
  match Atoi a2 with
  | None => hret (Err ErrNotIntegerMsg)
  | Some idx =>
      do! key := arg args 1 in
      do! r := engine (λ t ws, LIndex (clock t) ws key idx) in
      hret (reply_of r bulk_or_null)
  end.

Definition handleLSet : HandlerFunc := λ args,
  do! a2 := arg args 2 in
  match Atoi a2 with
  | None => hret (Err ErrNotIntegerMsg)
  | Some idx =>
      do! key := arg args 1 in
      do! v := arg args 3 in
      do! r := engine (λ t ws, LSet (clock t) ws key idx (to_bytes v)) in
      hret (reply_of r (λ _, OK))
  end.

Definition handleLRem : HandlerFunc := λ args,
  do! a2 := arg args 2 in
  match Atoi a2 with
  | None => hret (Err ErrNotIntegerMsg)
  | Some count =>
      do! key := arg args 1 in
      do! v := arg args 3 in
      do! r := engine (λ t ws, LRem (clock t) ws key count (to_bytes v)) in
      hret (reply_of r Int)
  end.

(** ** handlers_set.go *)

Definition handleSAdd : HandlerFunc := λ args,
  do! members := args_from args 2 in
  do! key := arg args 1 in
  do! r := engine (λ t ws, SAdd (clock t) (data_order t) ws key (to_bytes <$> members)) in
  hret (reply_of r Int).
Definition handleSRem : HandlerFunc := λ args,
  do! members := args_from args 2 in
  do! key := arg args 1 in
  do! r := engine (λ t ws, SRem (clock t) ws key (to_bytes <$> members)) in
  hret (reply_of r Int).

Definition handleSMembers : HandlerFunc := λ args,
  do! key := arg args 1 in
  do! r := engine (λ t ws, SMembers (clock t) (set_order t) ws key) in
  hret (reply_of r bulks).

Definition handleSIsMember : HandlerFunc := λ args,
  do! key := arg args 1 in
  do! member := arg args 2 in
  do! r := engine (λ t ws, SIsMember (clock t) ws key (to_bytes member)) in
  hret (reply_of r bool_int).

Definition handleSCard : HandlerFunc := λ args,
  do! key := arg args 1 in
  do! r := engine (λ t ws, SCard (clock t) ws key) in
  hret (reply_of r Int).

(** The set operations read the clock once per key: ticks [t], [t + 1], ... *)
Definition handleSInter : HandlerFunc := λ args,
  do! keys := args_from args 1 in
  do! r := engineN (length keys) (λ t ws, SInter (λ i, clock (t + i)%nat) (set_order t) ws keys) in
  hret (reply_of r bulks).
Definition handleSUnion : HandlerFunc := λ args,
  do! keys := args_from args 1 in
  do! r := engineN (length keys) (λ t ws, SUnion (λ i, clock (t + i)%nat) (set_order t) ws keys) in
  hret (reply_of r bulks).
Definition handleSDiff : HandlerFunc := λ args,
  do! keys := args_from args 1 in
  do! r := engineN (length keys) (λ t ws, SDiff (λ i, clock (t + i)%nat) (set_order t) ws keys) in
  hret (reply_of r bulks).

(** ** handlers_zset.go *)

Context `{FloatText}.

Definition formatFloat (f : float64) : string := FormatFloat f.
Definition parseScoreArg (s : string) : option float64 :=
  if String.eqb s "-inf" then Some (f64_Inf true)
  else if String.eqb s "+inf" || String.eqb s "inf" then Some (f64_Inf false)
  else ParseFloat s.

Definition zmembersReply (members : list ZMember) (withScores : bool) : Reply :=
  ArraySlice (members ≫= λ m,
    BulkString (zm_Member m) :: (if withScores then [BulkString (formatFloat (zm_Score m))] else [])).

Inductive zadd_parse := ZMembers (m : gmap string float64) | ZBadScore | ZPanic.
Fixpoint zadd_members (pairs : list string) (members : gmap string float64) : zadd_parse :=
  match pairs with
  | [] => ZMembers members
  | s :: pairs =>
      match parseScoreArg s with
      | None => ZBadScore
      | Some score =>
          match pairs with
          | [] => ZPanic
          | m :: pairs => zadd_members pairs (<[m := score]> members)
          end
      end
  end.
Definition handleZAdd : HandlerFunc := λ args,
  do! key := arg args 1 in
  do! pairs := args_from args 2 in
  if (len pairs =? 0) || negb (len pairs `mod` 2 =? 0) then hret (Err ErrSyntaxMsg) else
  match zadd_members pairs ∅ with
  | ZBadScore => hret (Err ErrNotFloatMsg)
  | ZPanic => hpanic
  | ZMembers members =>
      do! r := engine (λ t ws, ZAdd (clock t) (data_order t) ws key members) in
      hret (reply_of r Int)
  end.

Definition handleZRem : HandlerFunc := λ args,
  do! key := arg args 1 in
  do! members := args_from args 2 in
  do! r := engine (λ t ws, ZRem (clock t) ws key members) in
  hret (reply_of r Int).

Definition parseZRangeArgs (args : list string) : H (Reply + Z * Z * bool) :=
  do! a2 := arg args 2 in
  match Atoi a2 with
  | None => hret (inl (Err ErrNotIntegerMsg))
  | Some start =>
      do! a3 := arg args 3 in
      match Atoi a3 with
      | None => hret (inl (Err ErrNotIntegerMsg))
      | Some stop =>
          if len args =? 5 then
            do! a4 := arg args 4 in
            if negb (String.eqb (ToUpper a4) "WITHSCORES") then hret (inl (Err ErrSyntaxMsg))
            else hret (inr (start, stop, true))
          else hret (inr (start, stop, false))
      end
  end.

Definition handleZRange : HandlerFunc := λ args,
  do! p := parseZRangeArgs args in
  match p with
  | inl errReply => hret errReply
  | inr (start, stop, withScores) =>
      do! key := arg args 1 in
      do! r := engine (λ t ws, ZRange (clock t) ws key start stop withScores) in
      hret (reply_of r (λ members, zmembersReply members withScores))
  end.
Definition handleZRevRange : HandlerFunc := λ args,
  do! p := parseZRangeArgs args in
  match p with
  | inl errReply => hret errReply
  | inr (start, stop, withScores) =>
      do! key := arg args 1 in
      do! r := engine (λ t ws, ZRevRange (clock t) ws key start stop withScores) in
      hret (reply_of r (λ members, zmembersReply members withScores))
  end.

Definition handleZScore : HandlerFunc := λ args,
  do! key := arg args 1 in
  do! member := arg args 2 in
  do! r := engine (λ t ws, ZScore (clock t) ws key member) in
  hret (reply_of r (λ '(score, ok), if ok then BulkString (formatFloat score) else NullBulk)).

Definition handleZRank : HandlerFunc := λ args,
  do! key := arg args 1 in
  do! member := arg args 2 in
  do! r := engine (λ t ws, ZRank (clock t) ws key member) in
  hret (reply_of r (λ '(rank, ok), if ok then Int rank else NullBulk)).

Definition handleZCard : HandlerFunc := λ args,
  do! key := arg args 1 in
  do! r := engine (λ t ws, ZCard (clock t) ws key) in
  hret (reply_of r Int).

Definition handleZIncrBy : HandlerFunc := λ args,
  do! a2 := arg args 2 in
  match parseScoreArg a2 with
  | None => hret (Err ErrNotFloatMsg)
  | Some delta =>
      do! key := arg args 1 in
      do! member := arg args 3 in
      do! r := engine (λ t ws, ZIncrBy (clock t) (data_order t) ws key member delta) in
      hret (reply_of r (λ s, BulkString (formatFloat s)))
  end.

Definition handleZRangeByScore : HandlerFunc := λ args,
  do! a2 := arg args 2 in
  match parseScoreArg a2 with
  | None => hret (Err ErrNotFloatMsg)
  | Some min =>
      do! a3 := arg args 3 in
      match parseScoreArg a3 with
      | None => hret (Err ErrNotFloatMsg)
      | Some max =>
          do! key := arg args 1 in
          do! r := engine (λ t ws, ZRangeByScore (clock t) ws key min max) in
          hret (reply_of r (λ members, zmembersReply members false))
      end
  end.

(** ** Registration *)

Definition RegisterHash : list Command := [
  mkCommand "HSET" 4 (-1) false false handleHSet;
  mkCommand "HGET" 3 3 false false handleHGet;
  mkCommand "HGETALL" 2 2 false false handleHGetAll;
  mkCommand "HDEL" 3 (-1) false false handleHDel;
  mkCommand "HEXISTS" 3 3 false false handleHExists;
  mkCommand "HKEYS" 2 2 false false handleHKeys;
  mkCommand "HVALS" 2 2 false false handleHVals;
  mkCommand "HLEN" 2 2 false false handleHLen;
  mkCommand "HMGET" 3 (-1) false false handleHMGet;
  mkCommand "HINCRBY" 4 4 false false handleHIncrBy].

Definition RegisterList : list Command := [
  mkCommand "LPUSH" 3 (-1) false false handleLPush;
  mkCommand "RPUSH" 3 (-1) false false handleRPush;
  mkCommand "LPOP" 2 2 false false handleLPop;
  mkCommand "RPOP" 2 2 false false handleRPop;
  mkCommand "LRANGE" 4 4 false false handleLRange;
  mkCommand "LLEN" 2 2 false false handleLLen;
  mkCommand "LINDEX" 3 3 false false handleLIndex;
  mkCommand "LSET" 4 4 false false handleLSet;
  mkCommand "LREM" 4 4 false false handleLRem].

Definition RegisterSet : list Command := [
  mkCommand "SADD" 3 (-1) false false handleSAdd;
  mkCommand "SREM" 3 (-1) false false handleSRem;
  mkCommand "SMEMBERS" 2 2 false false handleSMembers;
  mkCommand "SISMEMBER" 3 3 false false handleSIsMember;
  mkCommand "SCARD" 2 2 false false handleSCard;
  mkCommand "SINTER" 2 (-1) false false handleSInter;
  mkCommand "SUNION" 2 (-1) false false handleSUnion;
  mkCommand "SDIFF" 2 (-1) false false handleSDiff].

Definition RegisterZSet : list Command := [
  mkCommand "ZADD" 4 (-1) false false handleZAdd;
  mkCommand "ZREM" 3 (-1) false false handleZRem;
  mkCommand "ZRANGE" 4 5 false false handleZRange;
  mkCommand "ZREVRANGE" 4 5 false false handleZRevRange;
  mkCommand "ZSCORE" 3 3 false false handleZScore;
  mkCommand "ZRANK" 3 3 false false handleZRank;
  mkCommand "ZCARD" 2 2 false false handleZCard;
  mkCommand "ZINCRBY" 4 4 false false handleZIncrBy;
  mkCommand "ZRANGEBYSCORE" 4 4 false false handleZRangeByScore].
End handlers.
