(* ===== verification/Calls.v ===== *)
(** * Calls from the handlers into the components

    The shared components as the commands reach them: the providers through
    their instrumented wrappers, the caches and stores, and the two
    operations that chain several of them, [Consolidate]
    (internal/consolidate/consolidate.go) and [Extract]
    (internal/graph/extract.go). *)

From S2P Require Import Prelude.
From S2P Require Import GoStd.
From S2P Require Import Similarity.
From S2P Require Import Caches.
From S2P Require Import Semantic.
From S2P Require Import Vector.
From S2P Require Import Memory.
From S2P Require Import Graph.
From S2P Require Import Consolidate.
From S2P Require Import Providers.
From S2P Require Import RespCodec.
From S2P Require Import Server.

Open Scope Z_scope.
Open Scope go_scope.

Section calls.
Context `{Runtime} `{Services} `{Encoding}.

(** ** Providers *)

(** What the instrumented [EmbedOne] of [text] records; the component that
    asked for it consults the same provider. *)
Definition embedding (text : string) : H unit := λ w,
  let '(m, t) := (InstrumentedEmbedOne embedder_Name (embedder (ticks w)) text
                    (Metrics_ (deps w), Analytics_ (deps w))).2 in
  (Some tt, set_deps (set_Analytics t (set_Metrics m (deps w))) w).

(** The instrumented [Complete]; [None] is an error. *)
Definition completion (systemPrompt userPrompt : string) : H (option string) := λ w,
  let '(text, (m, t)) := Complete completer_Name (completer (ticks w) systemPrompt userPrompt)
                           (Metrics_ (deps w), Analytics_ (deps w)) in
  (Some text, mkWorld (set_Analytics t (set_Metrics m (deps w))) (cs w) (me w) (S (ticks w))).

(** ** The caches *)

Definition SemanticCache_Set (prompt model temp response : string) (ttl : duration) (cost : float64) : H (option unit) :=
  do! _ := embedding prompt in
  do! o := on SemanticCache_ set_SemanticCache
             (λ n, semantic.Set_ (embedder n) (clock n) prompt model temp response ttl cost) in
  check_panic o.
Definition SemanticCache_Get (prompt model temp : string) (threshold : float64) : H (option (option (string * float64))) :=
  do! _ := embedding prompt in
  do! o := on SemanticCache_ set_SemanticCache
             (λ n, semantic.Get (embedder n) (clock n) prompt model temp threshold) in
  check_panic o.
Definition PromptCache_Set (key response : string) (ttl : duration) (cost : float64) : H unit :=
  on PromptCache_ set_PromptCache (λ n p, (tt, prompt.Set_ (clock n) key response ttl cost p)).
Definition PromptCache_Get (key : string) : H (option (string * float64)) :=
  on PromptCache_ set_PromptCache (λ n, prompt.Get (clock n) key).
Definition ToolCache_Set (key result : string) (ttl : duration) : H unit :=
  on ToolCache_ set_ToolCache (λ n c, (tt, toolcache.Set_ (clock n) key result ttl c)).
Definition ToolCache_Get (key : string) : H (option string) :=
  on ToolCache_ set_ToolCache (λ n, toolcache.Get (clock n) key).

(** ** The vector store *)

Definition VectorStore_Upsert (namespace id : string) (v : vec) (md : gmap string string) (txt : string) : H unit :=
  on VectorStore_ set_VectorStore (λ _ s, (tt, vector.Upsert namespace id v md txt s)).
Definition VectorStore_Search (namespace : string) (v : vec) (k : Z) (metric : vector.DistanceMetric)
    (filter : gmap string string) (hybrid : option vector.HybridOpts) : H (list vector.Result) :=
  on VectorStore_ set_VectorStore (λ n s, (vector.Search (vec_order n) namespace v k metric filter hybrid s, s)).
Definition VectorStore_Delete (namespace id : string) : H bool :=
  on VectorStore_ set_VectorStore (λ _, vector.Delete namespace id).

(** ** Agent memory: an empty workspace is refused before embedding *)

Definition MemoryStore_Put (m : memory.Memory) (ttl : duration) : H (option string) :=
  do! _ := (if String.eqb (memory.WorkspaceID m) "" then hret tt else embedding (memory.Content m)) in
  do! o := on MemoryStore_ set_MemoryStore (λ n, memory.Put (embedder n) (newID n) (clock n) m ttl) in
  check_panic o.
Definition MemoryStore_Get (workspaceID id : string) : H (option memory.Memory) :=
  on MemoryStore_ set_MemoryStore (λ n, memory.Get (clock n) workspaceID id).
Definition MemoryStore_Search (workspaceID query : string) (opts : memory.SearchOptions)
    : H (option (list memory.SearchResult)) :=
  do! _ := embedding query in
  do! o := on MemoryStore_ set_MemoryStore
             (λ n, memory.Search (embedder n) (vec_order n) (clock n) workspaceID query opts) in
  check_panic o.
Definition MemoryStore_List (workspaceID : string) (opts : memory.ListOptions) : H (list memory.Memory) :=
  on MemoryStore_ set_MemoryStore (λ n, memory.List_ (mem_order n) (clock n) workspaceID opts).
Definition MemoryStore_History (workspaceID id : string) : H (list memory.Memory) :=
  on MemoryStore_ set_MemoryStore (λ n, memory.History (clock n) workspaceID id).

(** ** Consolidation *)

Definition Consolidate (workspaceID agentID : string) (kind : memory.Kind) (dedupThreshold : float64)
    : H (option consolidate.Result) :=
  let dedupThreshold := consolidate.effective_threshold dedupThreshold in
  do! all := MemoryStore_List workspaceID (memory.mkListOptions agentID (Some kind)) in
  let sourceCount := len all in
  if sourceCount =? 0 then hret (Some (consolidate.mkResult "" 0 0)) else
  let reps := consolidate.dedupe all dedupThreshold in
  do! summary := completion consolidate.summarySystemPrompt (consolidate.userPrompt reps) in
  match summary with
  | None => hret None
  | Some summary =>
      do! summaryID := MemoryStore_Put
                         (consolidate.summaryMemory workspaceID agentID summary kind sourceCount (len reps)) 0 in
      match summaryID with
      | None => hret None
      | Some summaryID => hret (Some (consolidate.mkResult summaryID sourceCount (len reps)))
      end
  end.

(** ** The knowledge graph *)

Definition extractor (raw : option string) : graph.Extractor :=
  {| graph.Complete := λ _, raw; graph.Unmarshal := UnmarshalExtraction |}.
Definition Extract (workspaceID memoryID memoryContent : string) : H (option (Z * Z)) :=
  do! raw := completion extractSystemPrompt memoryContent in
  do! o := on GraphStore_ set_GraphStore
             (λ _, @graph.Extract (extractor raw) workspaceID memoryID memoryContent) in
  check_panic o.
Definition GraphStore_Related (workspace nodeID : string) (depth : Z) : H (list graph.RelatedNode) :=
  on GraphStore_ set_GraphStore (λ n g, (graph.Related (edge_order n) workspace nodeID depth g, g)).

(** ** Errors of the components *)

(** [Err] of the error's text after the prefix. *)
Definition error_reply : H Reply := λ w, (Some (Err ("ERR " +:+ errText (ticks w))), w).

Definition authorized (workspace : string) : H bool := λ w, (Some (authorizedForWorkspace w workspace), w).

End calls.
