(* ===== verification/HandlersCache.v ===== *)
(** * Cache commands (internal/server/resp/handlers_semantic.go,
    handlers_toolcache.go)

    CACHE.SEMANTIC, CACHE.PROMPT and TOOL.CACHE: option parsing, the calls of
    the caches, and the hit, miss and savings counts. *)

From S2P Require Import Prelude.
From S2P Require Import GoStd.
From S2P Require Import Caches.
From S2P Require Import Metrics.
From S2P Require Import Analytics.
From S2P Require Import Providers.
From S2P Require Import RespCodec.
From S2P Require Import Server.
From S2P Require Import HandlersKV.
From S2P Require Import HandlersData.
From S2P Require Import Calls.

Open Scope Z_scope.
Open Scope go_scope.

Section cache.
Context `{Runtime} `{FloatText} `{KeyCodec} `{Services} `{Encoding}.

(** ** Options *)

(** The TTL option of every command that has one. *)
Definition parseTTL (v : string) : Reply + duration :=
  match ParseInt v with
  | None => inl (Err ErrNotIntegerMsg)
  | Some secs => inr (if 0 <? secs then seconds secs else 0)
  end.
Definition parseCostArg (s : string) : Reply + float64 :=
  match ParseFloat s with
  | None => inl (Err ErrNotFloatMsg)
  | Some v => if f64_lt v f64_zero then inl (Err ErrCostNegativeMsg) else inr v
  end.

Definition defaultSemanticModel : string := "default".
Definition defaultSemanticTemp : string := "0".
Definition defaultSemanticThreshold : float64 := f64_lit 85 100.

Record semset := mkSemset { o_model : string; o_temp : string; o_ttl : duration; o_cost : float64 }.
Fixpoint semset_opts (args : list string) (o : semset) : Reply + semset :=
  match args with
  | [] => inr o
  | [_] => inl (Err ErrSyntaxMsg)
  | a :: v :: args =>
      let a := ToUpper a in
      if String.eqb a "MODEL" then semset_opts args (mkSemset v (o_temp o) (o_ttl o) (o_cost o))
      else if String.eqb a "TEMP" then
        match ParseFloat v with
        | None => inl (Err ErrNotFloatMsg)
        | Some _ => semset_opts args (mkSemset (o_model o) v (o_ttl o) (o_cost o))
        end
      else if String.eqb a "TTL" then
        match parseTTL v with
        | inl r => inl r
        | inr ttl => semset_opts args (mkSemset (o_model o) (o_temp o) ttl (o_cost o))
        end
      else if String.eqb a "COST" then
        match parseCostArg v with
        | inl r => inl r
        | inr c => semset_opts args (mkSemset (o_model o) (o_temp o) (o_ttl o) c)
        end
      else inl (Err ErrSyntaxMsg)
  end.

Record semget := mkSemget { g_model : string; g_temp : string; g_threshold : float64 }.
Fixpoint semget_opts (args : list string) (o : semget) : Reply + semget :=
  match args with
  | [] => inr o
  | [_] => inl (Err ErrSyntaxMsg)
  | a :: v :: args =>
      let a := ToUpper a in
      if String.eqb a "MODEL" then semget_opts args (mkSemget v (g_temp o) (g_threshold o))
      else if String.eqb a "TEMP" then
        match ParseFloat v with
        | None => inl (Err ErrNotFloatMsg)
        | Some _ => semget_opts args (mkSemget (g_model o) v (g_threshold o))
        end
      else if String.eqb a "THRESHOLD" then
        match ParseFloat v with
        | None => inl (Err ErrNotFloatMsg)
        | Some t => semget_opts args (mkSemget (g_model o) (g_temp o) t)
        end
      else inl (Err ErrSyntaxMsg)
  end.

(** TTL and COST of CACHE.PROMPT SET *)
Fixpoint promptset_opts (args : list string) (ttl : duration) (cost : float64) : Reply + (duration * float64) :=
  match args with
  | [] => inr (ttl, cost)
  | [_] => inl (Err ErrSyntaxMsg)
  | a :: v :: args =>
      let a := ToUpper a in
      if String.eqb a "TTL" then
        match parseTTL v with inl r => inl r | inr ttl => promptset_opts args ttl cost end
      else if String.eqb a "COST" then
        match parseCostArg v with inl r => inl r | inr c => promptset_opts args ttl c end
      else inl (Err ErrSyntaxMsg)
  end.

Fixpoint toolcache_opts (args : list string) (ttl : duration) : Reply + duration :=
  match args with
  | [] => inr ttl
  | [_] => inl (Err ErrSyntaxMsg)
  | a :: v :: args =>
      if String.eqb (ToUpper a) "TTL" then
        match parseTTL v with inl r => inl r | inr ttl => toolcache_opts args ttl end
      else inl (Err ErrSyntaxMsg)
  end.

(** ** CACHE.SEMANTIC *)

Definition handleCacheSemanticSet : HandlerFunc := λ args,
  if len args <? 4 then hret (Err (ErrWrongNumberOfArgs "cache.semantic")) else
  do! prompt := arg args 2 in
  do! response := arg args 3 in
  do! rest := args_from args 4 in
  match semset_opts rest (mkSemset defaultSemanticModel defaultSemanticTemp 0 f64_zero) with
  | inl r => hret r
  | inr o =>
      do! ok := SemanticCache_Set prompt (o_model o) (o_temp o) response (o_ttl o) (o_cost o) in
      match ok with None => error_reply | Some _ => hret OK end
  end.

(** The savings of a hit, for the cache and the text that identify it. *)
Definition record_savings (cacheType prompt : string) (cost : float64) : H unit :=
  if f64_lt f64_zero cost then analytic (analytics.RecordCacheHitSavings cacheType prompt cost) else hret tt.

Definition handleCacheSemanticGet : HandlerFunc := λ args,
  if len args <? 3 then hret (Err (ErrWrongNumberOfArgs "cache.semantic")) else
  do! prompt := arg args 2 in
  do! rest := args_from args 3 in
  match semget_opts rest (mkSemget defaultSemanticModel defaultSemanticTemp defaultSemanticThreshold) with
  | inl r => hret r
  | inr o =>
      do! ok := SemanticCache_Get prompt (g_model o) (g_temp o) (g_threshold o) in
      match ok with
      | None => error_reply
      | Some None => do! _ := metric metrics.SemanticCacheMiss in hret NullBulk
      | Some (Some (response, cost)) =>
          do! _ := metric metrics.SemanticCacheHit in
          do! _ := record_savings "semantic" prompt cost in
          hret (BulkString response)
      end
  end.

Definition handleCacheSemantic : HandlerFunc := λ args,
  do! a1 := arg args 1 in
  let sub := ToUpper a1 in
  if String.eqb sub "SET" then handleCacheSemanticSet args
  else if String.eqb sub "GET" then handleCacheSemanticGet args
  else hret (Err ErrSyntaxMsg).

(** ** CACHE.PROMPT *)

Definition handleCachePromptSet : HandlerFunc := λ args,
  if len args <? 6 then hret (Err (ErrWrongNumberOfArgs "cache.prompt")) else
  do! template := arg args 2 in
  do! variablesJSON := arg args 3 in
  do! model := arg args 4 in
  do! response := arg args 5 in
  do! rest := args_from args 6 in
  match promptset_opts rest 0 f64_zero with
  | inl r => hret r
  | inr (ttl, cost) =>
      match TemplateKey template variablesJSON model with
      | Return key => do! _ := PromptCache_Set key response ttl cost in hret OK
      | Fail => hret (Err ErrInvalidJSONMsg)
      | Panic => hpanic
      end
  end.

Definition handleCachePromptGet : HandlerFunc := λ args,
  if negb (len args =? 5) then hret (Err (ErrWrongNumberOfArgs "cache.prompt")) else
  do! template := arg args 2 in
  do! variablesJSON := arg args 3 in
  do! model := arg args 4 in
  match TemplateKey template variablesJSON model with
  | Return key =>
      do! r := PromptCache_Get key in
      match r with
      | None => do! _ := metric metrics.PromptCacheMiss in hret NullBulk
      | Some (response, cost) =>
          do! _ := metric metrics.PromptCacheHit in
          do! _ := record_savings "prompt" template cost in
          hret (BulkString response)
      end
  | Fail => hret (Err ErrInvalidJSONMsg)
  | Panic => hpanic
  end.

Definition handleCachePrompt : HandlerFunc := λ args,
  do! a1 := arg args 1 in
  let sub := ToUpper a1 in
  if String.eqb sub "SET" then handleCachePromptSet args
  else if String.eqb sub "GET" then handleCachePromptGet args
  else hret (Err ErrSyntaxMsg).

Definition RegisterSemantic : list Command := [
  mkCommand "CACHE.SEMANTIC" 2 (-1) false false handleCacheSemantic;
  mkCommand "CACHE.PROMPT" 2 (-1) false false handleCachePrompt].

(** ** TOOL.CACHE *)

Definition handleToolCacheSet : HandlerFunc := λ args,
  if len args <? 5 then hret (Err (ErrWrongNumberOfArgs "tool.cache")) else
  do! toolName := arg args 2 in
  do! argsJSON := arg args 3 in
  do! result := arg args 4 in
  do! rest := args_from args 5 in
  match toolcache_opts rest 0 with
  | inl r => hret r
  | inr ttl =>
      match ToolKey toolName argsJSON with
      | Return key => do! _ := ToolCache_Set key result ttl in hret OK
      | Fail => hret (Err ErrInvalidToolArgsJSONMsg)
      | Panic => hpanic
      end
  end.

Definition handleToolCacheGet : HandlerFunc := λ args,
  if negb (len args =? 4) then hret (Err (ErrWrongNumberOfArgs "tool.cache")) else
  do! toolName := arg args 2 in
  do! argsJSON := arg args 3 in
  match ToolKey toolName argsJSON with
  | Return key =>
      do! r := ToolCache_Get key in
      match r with
      | None => do! _ := metric metrics.ToolCacheMiss in hret NullBulk
      | Some result => do! _ := metric metrics.ToolCacheHit in hret (BulkString result)
      end
  | Fail => hret (Err ErrInvalidToolArgsJSONMsg)
  | Panic => hpanic
  end.

Definition handleToolCache : HandlerFunc := λ args,
  do! a1 := arg args 1 in
  let sub := ToUpper a1 in
  if String.eqb sub "SET" then handleToolCacheSet args
  else if String.eqb sub "GET" then handleToolCacheGet args
  else hret (Err ErrSyntaxMsg).

Definition RegisterToolCache : list Command := [mkCommand "TOOL.CACHE" 2 (-1) false false handleToolCache].
End cache.
