(* ===== verification/HandlersVector.v ===== *)
(** * Vector commands (internal/server/resp/handlers_vector.go)

    VECTOR.UPSERT, VECTOR.SEARCH and VECTOR.DELETE, and the isolation check in
    front of every command that names a workspace. *)

From S2P Require Import Prelude.
From S2P Require Import GoStd.
From S2P Require Import Similarity.
From S2P Require Import Vector.
From S2P Require Import Memory.
From S2P Require Import Graph.
From S2P Require Import Consolidate.
From S2P Require Import Metrics.
From S2P Require Import Providers.
From S2P Require Import RespCodec.
From S2P Require Import Server.
From S2P Require Import HandlersKV.
From S2P Require Import HandlersData.
From S2P Require Import Calls.
From S2P Require Import HandlersCache.

Open Scope Z_scope.
Open Scope go_scope.

Section vector_memory.
Context `{Runtime} `{FloatText} `{Services} `{Encoding}.

(** The isolation check in front of a handler's work. *)
Definition guarded (workspace : string) (k : H Reply) : H Reply :=
  do! ok := authorized workspace in
  if negb ok then hret (Err (ErrWorkspaceNotAuthorized workspace)) else k.

(** A ranked result, with its score if asked for. *)
Definition scored (withScores : bool) (id : string) (score : float64) : list Reply :=
  if withScores then [BulkString id; BulkString (formatFloat score)] else [BulkString id].

(** ** handlers_vector.go *)

Definition defaultSearchK : Z := 10.
Definition defaultHybridAlpha : float64 := f64_lit 1 2.

Fixpoint upsert_opts (args : list string) (metadata : gmap string string) (text : string)
    : Reply + (gmap string string * string) :=
  match args with
  | [] => inr (metadata, text)
  | a :: args =>
      let a := ToUpper a in
      if String.eqb a "METADATA" then
        match args with
        | [] => inl (Err ErrSyntaxMsg)
        | v :: args =>
            match parseMetadataJSON v with
            | None => inl (Err ErrInvalidMetadataJSONMsg)
            | Some m => upsert_opts args m text
            end
        end
      else if String.eqb a "TEXT" then
        match args with
        | [] => inl (Err ErrSyntaxMsg)
        | v :: args => upsert_opts args metadata v
        end
      else inl (Err ErrSyntaxMsg)
  end.

Definition handleVectorUpsert : HandlerFunc := λ args,
  do! namespace := arg args 1 in
  do! id := arg args 2 in
  guarded namespace (
    do! a3 := arg args 3 in
    match parseVectorJSON a3 with
    | None => hret (Err ErrInvalidVectorJSONMsg)
    | Some v =>
        do! rest := args_from args 4 in
        match upsert_opts rest ∅ "" with
        | inl r => hret r
        | inr (metadata, text) => do! _ := VectorStore_Upsert namespace id v metadata text in hret OK
        end
    end).

Record vsearch := mkVsearch {
  v_k : Z; v_metric : vector.DistanceMetric; v_filter : gmap string string;
  v_hybrid : option vector.HybridOpts; v_withScores : bool;
}.
Fixpoint vsearch_opts (args : list string) (o : vsearch) : Reply + vsearch :=
  match args with
  | [] => inr o
  | a :: args =>
      let a := ToUpper a in
      if String.eqb a "K" then
        match args with
        | [] => inl (Err ErrSyntaxMsg)
        | v :: args =>
            match Atoi v with
            | None => inl (Err ErrNotIntegerMsg)
            | Some n => vsearch_opts args (mkVsearch n (v_metric o) (v_filter o) (v_hybrid o) (v_withScores o))
            end
        end
      else if String.eqb a "METRIC" then
        match args with
        | [] => inl (Err ErrSyntaxMsg)
        | v :: args =>
            match parseMetric v with
            | None => inl (Err ErrSyntaxMsg)
            | Some m => vsearch_opts args (mkVsearch (v_k o) m (v_filter o) (v_hybrid o) (v_withScores o))
            end
        end
      else if String.eqb a "FILTER" then
        match args with
        | k :: v :: args =>
            vsearch_opts args (mkVsearch (v_k o) (v_metric o) (<[k := v]> (v_filter o)) (v_hybrid o) (v_withScores o))
        | _ => inl (Err ErrSyntaxMsg)
        end
      else if String.eqb a "HYBRID" then
        let with_alpha q alpha :=
          mkVsearch (v_k o) (v_metric o) (v_filter o) (Some (vector.mkHybridOpts q alpha)) (v_withScores o) in
        match args with
        | [] => inl (Err ErrSyntaxMsg)
        | q :: args =>
            match args with
            | b :: args' =>
                if String.eqb (ToUpper b) "ALPHA" then
                  match args' with
                  | [] => inl (Err ErrSyntaxMsg)
                  | v :: args' =>
                      match ParseFloat v with
                      | None => inl (Err ErrNotFloatMsg)
                      | Some alpha => vsearch_opts args' (with_alpha q alpha)
                      end
                  end
                else vsearch_opts args (with_alpha q defaultHybridAlpha)
            | [] => vsearch_opts args (with_alpha q defaultHybridAlpha)
            end
        end
      else if String.eqb a "WITHSCORES" then
        vsearch_opts args (mkVsearch (v_k o) (v_metric o) (v_filter o) (v_hybrid o) true)
      else inl (Err ErrSyntaxMsg)
  end.

Definition handleVectorSearch : HandlerFunc := λ args,
  do! namespace := arg args 1 in
  guarded namespace (
    do! a2 := arg args 2 in
    match parseVectorJSON a2 with
    | None => hret (Err ErrInvalidVectorJSONMsg)
    | Some v =>
        do! rest := args_from args 3 in
        match vsearch_opts rest (mkVsearch defaultSearchK vector.Cosine ∅ None false) with
        | inl r => hret r
        | inr o =>
            do! results := VectorStore_Search namespace v (v_k o) (v_metric o) (v_filter o) (v_hybrid o) in
            do! _ := metric metrics.VectorSearchPerformed in
            hret (ArraySlice (results ≫= λ res, scored (v_withScores o) (vector.ID res) (vector.Score res)))
        end
    end).

Definition handleVectorDelete : HandlerFunc := λ args,
  do! namespace := arg args 1 in
  do! id := arg args 2 in
  guarded namespace (
    do! deleted := VectorStore_Delete namespace id in
    hret (if deleted : bool then Int 1 else Int 0)).

Definition RegisterVector : list Command := [
  mkCommand "VECTOR.UPSERT" 4 (-1) false false handleVectorUpsert;
  mkCommand "VECTOR.SEARCH" 3 (-1) false false handleVectorSearch;
  mkCommand "VECTOR.DELETE" 3 3 false false handleVectorDelete].
End vector_memory.
