(* ===== verification/HandlersMemory.v ===== *)
(** * Agent-memory, consolidation and knowledge-graph commands
    (internal/server/resp/handlers_memory.go, handlers_agent.go,
    handlers_consolidate.go, handlers_graph.go)

    Every command that names a workspace checks it against the connection's,
    except SUMMARY.CREATE. *)

From S2P Require Import Prelude.
From S2P Require Import GoStd.
From S2P Require Import Memory.
From S2P Require Import Graph.
From S2P Require Import Consolidate.
From S2P Require Import Metrics.
From S2P Require Import Providers.
From S2P Require Import RespCodec.
From S2P Require Import Server.
From S2P Require Import HandlersKV.
From S2P Require Import HandlersData.
From S2P Require Import Calls.
From S2P Require Import HandlersCache.
From S2P Require Import HandlersVector.

Open Scope Z_scope.
Open Scope go_scope.

Definition defaultMemoryWorkspace : string := "default".
Definition defaultMemoryKind : memory.Kind := memory.LongTerm.
Definition defaultMemorySearchK : Z := 10.
Definition defaultSummaryKind : memory.Kind := memory.Episodic.
Definition defaultGraphDepth : Z := 1.

Section memory_handlers.
Context `{Runtime} `{FloatText} `{Services} `{Encoding}.

(** ** Options *)

(** The options of MEMORY.PUT and, without ID, of AGENT.REMEMBER. *)
Record putopts := mkPutopts {
  p_id : string; p_workspace : string; p_kind : memory.Kind; p_metadata : gmap string string; p_ttl : duration;
}.
Fixpoint put_opts (withID : bool) (args : list string) (o : putopts) : Reply + putopts :=
  match args with
  | [] => inr o
  | [_] => inl (Err ErrSyntaxMsg)
  | a :: v :: args =>
      let a := ToUpper a in
      if withID && String.eqb a "ID" then
        put_opts withID args (mkPutopts v (p_workspace o) (p_kind o) (p_metadata o) (p_ttl o))
      else if String.eqb a "WORKSPACE" then
        put_opts withID args (mkPutopts (p_id o) v (p_kind o) (p_metadata o) (p_ttl o))
      else if String.eqb a "KIND" then
        match memory.ParseKind v with
        | None => inl (Err ErrSyntaxMsg)
        | Some k => put_opts withID args (mkPutopts (p_id o) (p_workspace o) k (p_metadata o) (p_ttl o))
        end
      else if String.eqb a "METADATA" then
        match parseMetadataJSON v with
        | None => inl (Err ErrInvalidMetadataJSONMsg)
        | Some m => put_opts withID args (mkPutopts (p_id o) (p_workspace o) (p_kind o) m (p_ttl o))
        end
      else if String.eqb a "TTL" then
        match parseTTL v with
        | inl r => inl r
        | inr ttl => put_opts withID args (mkPutopts (p_id o) (p_workspace o) (p_kind o) (p_metadata o) ttl)
        end
      else inl (Err ErrSyntaxMsg)
  end.

(** The options of MEMORY.SEARCH (with AGENT) and AGENT.RECALL (with
    WORKSPACE). *)
Record searchopts := mkSearchopts {
  s_agent : string; s_workspace : string; s_kind : option memory.Kind; s_k : Z; s_threshold : option float64;
  s_withScores : bool;
}.
Fixpoint search_opts (recall : bool) (args : list string) (o : searchopts) : Reply + searchopts :=
  match args with
  | [] => inr o
  | a :: args =>
      let a := ToUpper a in
      if String.eqb a "WITHSCORES" then
        search_opts recall args (mkSearchopts (s_agent o) (s_workspace o) (s_kind o) (s_k o) (s_threshold o) true)
      else if negb (negb recall && String.eqb a "AGENT" || recall && String.eqb a "WORKSPACE" ||
                    String.eqb a "KIND" || String.eqb a "K" || String.eqb a "THRESHOLD") then inl (Err ErrSyntaxMsg)
      else
        match args with
        | [] => inl (Err ErrSyntaxMsg)
        | v :: args =>
            if String.eqb a "AGENT" then
              search_opts recall args (mkSearchopts v (s_workspace o) (s_kind o) (s_k o) (s_threshold o) (s_withScores o))
            else if String.eqb a "WORKSPACE" then
              search_opts recall args (mkSearchopts (s_agent o) v (s_kind o) (s_k o) (s_threshold o) (s_withScores o))
            else if String.eqb a "KIND" then
              match memory.ParseKind v with
              | None => inl (Err ErrSyntaxMsg)
              | Some k =>
                  search_opts recall args
                    (mkSearchopts (s_agent o) (s_workspace o) (Some k) (s_k o) (s_threshold o) (s_withScores o))
              end
            else if String.eqb a "K" then
              match Atoi v with
              | None => inl (Err ErrNotIntegerMsg)
              | Some n =>
                  search_opts recall args
                    (mkSearchopts (s_agent o) (s_workspace o) (s_kind o) n (s_threshold o) (s_withScores o))
              end
            else
              match ParseFloat v with
              | None => inl (Err ErrNotFloatMsg)
              | Some t =>
                  search_opts recall args
                    (mkSearchopts (s_agent o) (s_workspace o) (s_kind o) (s_k o) (Some t) (s_withScores o))
              end
        end
  end.

(** ** MEMORY.PUT and AGENT.REMEMBER *)

(** The part both commands share once their options are read. *)
Definition put_memory (agentID content : string) (o : putopts) : H Reply :=
  guarded (p_workspace o) (
    do! storedID := MemoryStore_Put
      (memory.mkMemory (p_id o) agentID (p_workspace o) (p_kind o) content [] (p_metadata o) 0 0 None) (p_ttl o) in
    match storedID with
    | None => error_reply
    | Some storedID => do! _ := metric metrics.MemoryWrite in hret (BulkString storedID)
    end).

Definition handleMemoryPut : HandlerFunc := λ args,
  do! agentID := arg args 1 in
  do! content := arg args 2 in
  do! rest := args_from args 3 in
  match put_opts true rest (mkPutopts "" defaultMemoryWorkspace defaultMemoryKind ∅ 0) with
  | inl r => hret r
  | inr o => put_memory agentID content o
  end.

Definition handleAgentRemember : HandlerFunc := λ args,
  do! agentID := arg args 1 in
  do! content := arg args 2 in
  do! rest := args_from args 3 in
  match put_opts false rest (mkPutopts "" defaultMemoryWorkspace defaultMemoryKind ∅ 0) with
  | inl r => hret r
  | inr o => put_memory agentID content o
  end.

(** ** MEMORY.GET and MEMORY.HISTORY *)

Definition memoryFieldsReply (m : memory.Memory) : option (list Reply) :=
  match Marshal (JObject (map (λ kv, (kv.1, JString kv.2)) (map_to_list (memory.Metadata m)))) with
  | None => None
  | Some metadataJSON => Some [
      BulkString "id"; BulkString (memory.ID m);
      BulkString "agent_id"; BulkString (memory.AgentID m);
      BulkString "kind"; BulkString (memory.Kind_String (memory.Kind_ m));
      BulkString "content"; BulkString (memory.Content m);
      BulkString "metadata"; BulkString metadataJSON;
      BulkString "created_at"; BulkString (FormatRFC3339 (memory.CreatedAt m));
      BulkString "version"; BulkString (Itoa (memory.Version m))]
  end.

Definition handleMemoryGet : HandlerFunc := λ args,
  do! workspace := arg args 1 in
  do! id := arg args 2 in
  guarded workspace (
    do! m := MemoryStore_Get workspace id in
    do! _ := metric metrics.MemoryRead in
    match m with
    | None => hret NullArray
    | Some m => match memoryFieldsReply m with None => error_reply | Some fields => hret (ArraySlice fields) end
    end).

Fixpoint history_items (versions : list memory.Memory) : option (list Reply) :=
  match versions with
  | [] => Some []
  | v :: versions =>
      match memoryFieldsReply v with
      | None => None
      | Some fields => match history_items versions with None => None | Some items => Some (ArraySlice fields :: items) end
      end
  end.

Definition history_limit (args : list string) : Reply + Z :=
  match drop 3 args with
  | [] => inr 0
  | [a3; a4] =>
      if negb (EqualFold a3 "LIMIT") then inl (Err ErrSyntaxMsg)
      else match Atoi a4 with None => inl (Err ErrNotIntegerMsg) | Some n => inr n end
  | _ => inl (Err ErrSyntaxMsg)
  end.

Definition limit_versions {A} (limit : Z) (versions : list A) : list A :=
  if (0 <? limit) && (limit <? len versions) then drop (Z.to_nat (len versions - limit)) versions else versions.

(** The nil slice is the empty list: a record that is found has a version. *)
Definition handleMemoryHistory : HandlerFunc := λ args,
  do! workspace := arg args 1 in
  do! id := arg args 2 in
  guarded workspace (
    match history_limit args with
    | inl r => hret r
    | inr limit =>
        do! versions := MemoryStore_History workspace id in
        do! _ := metric metrics.MemoryRead in
        match versions with
        | [] => hret NullArray
        | _ =>
            match history_items (limit_versions limit versions) with
            | None => error_reply
            | Some items => hret (ArraySlice items)
            end
        end
    end).

(** ** MEMORY.SEARCH and AGENT.RECALL *)

Definition search_memory (query : string) (o : searchopts) : H Reply :=
  do! results := MemoryStore_Search (s_workspace o) query
                   (memory.mkSearchOptions (s_agent o) (s_kind o) (s_k o) (s_threshold o)) in
  match results with
  | None => error_reply
  | Some results =>
      do! _ := metric metrics.MemoryRead in
      hret (ArraySlice (results ≫= λ r, scored (s_withScores o) (memory.sr_ID r) (memory.sr_Score r)))
  end.

Definition handleMemorySearch : HandlerFunc := λ args,
  do! workspace := arg args 1 in
  do! query := arg args 2 in
  guarded workspace (
    do! rest := args_from args 3 in
    match search_opts false rest (mkSearchopts "" workspace None defaultMemorySearchK None false) with
    | inl r => hret r
    | inr o => search_memory query o
    end).

Definition handleAgentRecall : HandlerFunc := λ args,
  do! agentID := arg args 1 in
  do! query := arg args 2 in
  do! rest := args_from args 3 in
  match search_opts true rest (mkSearchopts agentID defaultMemoryWorkspace None defaultMemorySearchK None false) with
  | inl r => hret r
  | inr o => guarded (s_workspace o) (search_memory query o)
  end.

Definition RegisterMemory : list Command := [
  mkCommand "MEMORY.PUT" 3 (-1) false false handleMemoryPut;
  mkCommand "MEMORY.GET" 3 3 false false handleMemoryGet;
  mkCommand "MEMORY.SEARCH" 3 (-1) false false handleMemorySearch;
  mkCommand "MEMORY.HISTORY" 3 5 false false handleMemoryHistory].
Definition RegisterAgent : list Command := [
  mkCommand "AGENT.REMEMBER" 3 (-1) false false handleAgentRemember;
  mkCommand "AGENT.RECALL" 3 (-1) false false handleAgentRecall].

(** ** SUMMARY.CREATE *)

Record sumopts := mkSumopts { u_workspace : string; u_kind : memory.Kind; u_threshold : float64 }.
Fixpoint summary_opts (args : list string) (o : sumopts) : Reply + sumopts :=
  match args with
  | [] => inr o
  | [_] => inl (Err ErrSyntaxMsg)
  | a :: v :: args =>
      let a := ToUpper a in
      if String.eqb a "WORKSPACE" then summary_opts args (mkSumopts v (u_kind o) (u_threshold o))
      else if String.eqb a "KIND" then
        match memory.ParseKind v with
        | None => inl (Err ErrSyntaxMsg)
        | Some k => summary_opts args (mkSumopts (u_workspace o) k (u_threshold o))
        end
      else if String.eqb a "DEDUP_THRESHOLD" then
        match ParseFloat v with
        | None => inl (Err ErrNotFloatMsg)
        | Some t => summary_opts args (mkSumopts (u_workspace o) (u_kind o) t)
        end
      else inl (Err ErrSyntaxMsg)
  end.

Definition handleSummaryCreate : HandlerFunc := λ args,
  do! agentID := arg args 1 in
  do! rest := args_from args 2 in
  match summary_opts rest (mkSumopts defaultMemoryWorkspace defaultSummaryKind f64_zero) with
  | inl r => hret r
  | inr o =>
      do! result := Consolidate (u_workspace o) agentID (u_kind o) (u_threshold o) in
      match result with
      | None => error_reply
      | Some result =>
          do! _ := metric metrics.ConsolidationPerformed in
          do! _ := metric (metrics.MemoriesDeduped
                             (consolidate.SourceCount result - consolidate.DedupedCount result)) in
          hret (if consolidate.SourceCount result =? 0 then NullBulk else BulkString (consolidate.SummaryID result))
      end
  end.
Definition RegisterConsolidate : list Command := [mkCommand "SUMMARY.CREATE" 2 (-1) false false handleSummaryCreate].

(** ** GRAPH.EXTRACT and GRAPH.RELATED *)

Definition handleGraphExtract : HandlerFunc := λ args,
  do! workspace := arg args 1 in
  do! memoryID := arg args 2 in
  guarded workspace (
    do! m := MemoryStore_Get workspace memoryID in
    match m with
    | None => hret (Err ErrNoSuchMemoryMsg)
    | Some m =>
        do! r := Extract workspace (memory.ID m) (memory.Content m) in
        match r with
        | None => error_reply
        | Some (entities, relations) =>
            do! _ := metric metrics.GraphExtractionPerformed in
            do! _ := metric (metrics.EntitiesExtracted entities) in
            do! _ := metric (metrics.RelationsExtracted relations) in
            hret (ArraySlice [Int entities; Int relations])
        end
    end).

Fixpoint related_opts (args : list string) (depth : Z) : Reply + Z :=
  match args with
  | [] => inr depth
  | [_] => inl (Err ErrSyntaxMsg)
  | a :: v :: args =>
      if String.eqb (ToUpper a) "DEPTH" then
        match Atoi v with
        | None => inl (Err ErrNotIntegerMsg)
        | Some n => if n <=? 0 then inl (Err ErrSyntaxMsg) else related_opts args n
        end
      else inl (Err ErrSyntaxMsg)
  end.

Definition handleGraphRelated : HandlerFunc := λ args,
  do! workspace := arg args 1 in
  do! nodeID := arg args 2 in
  guarded workspace (
    do! rest := args_from args 3 in
    match related_opts rest defaultGraphDepth with
    | inl r => hret r
    | inr depth =>
        do! related := GraphStore_Related workspace nodeID depth in
        hret (ArraySlice ((λ r, BulkString (graph.ID (graph.rn_Node r))) <$> related))
    end).
Definition RegisterGraph : list Command := [
  mkCommand "GRAPH.EXTRACT" 3 3 false false handleGraphExtract;
  mkCommand "GRAPH.RELATED" 3 (-1) false false handleGraphRelated].
End memory_handlers.
