(* ===== verification/HandlersPubSub.v ===== *)
(** * Subscription commands (internal/server/resp/handlers_pubsub.go)

    SUBSCRIBE and its relatives answer with a reply that, while it is being
    written, updates the broker once per channel; the connection writes it
    before it does anything else, so the updates are part of the handler
    here. *)

From S2P Require Import Prelude.
From S2P Require Import GoStd.
From S2P Require Import RespCodec.
From S2P Require Import PubSub.
From S2P Require Import Server.

Open Scope Z_scope.
Open Scope go_scope.

Section pubsub_handlers.
Context `{Runtime}.

(** A call of the broker by this connection. *)
Definition broker {A} (f : nat → pubsub.conn → pubsub.PubSub → A * pubsub.PubSub) : H A := λ w,
  on PubSub_ set_PubSub (λ n, f n (me w)) w.
Definition broker_do (f : pubsub.conn → pubsub.PubSub → pubsub.PubSub) : H unit :=
  broker (λ _ cs p, (tt, f cs p)).
(** [cs.subCh != nil] *)
Definition has_subCh : H bool := broker (λ _ cs p, (bool_decide (is_Some (pubsub.subChs p !! cs)), p)).

Definition subscription_reply (what : string) (ch : gobytes) : H Reply :=
  do! c := get_cs in
  hret (ArraySlice [BulkString what; Bulk ch;
                    Int (Z.of_nat (size (Subscriptions c)) + Z.of_nat (size (PSubscriptions c)))]).

Fixpoint subscribe_loop (channels : list string) : H (list Reply) :=
  match channels with
  | [] => hret []
  | ch :: channels =>
      do! _ := put_cs (λ c, set_Subscriptions ({[ch]} ∪ Subscriptions c) (PSubscriptions c) c) in
      do! _ := broker_do (λ cs, pubsub.Subscribe cs ch) in
      do! r := subscription_reply "subscribe" (to_bytes ch) in
      do! rs := subscribe_loop channels in
      hret (r :: rs)
  end.
Definition handleSubscribe : HandlerFunc := λ args,
  do! _ := broker_do pubsub.ensureSubscriberState in
  do! channels := args_from args 1 in
  do! rs := subscribe_loop channels in
  hret (Several rs).

Fixpoint psubscribe_loop (patterns : list string) : H (list Reply) :=
  match patterns with
  | [] => hret []
  | pat :: patterns =>
      do! _ := put_cs (λ c, set_Subscriptions (Subscriptions c) ({[pat]} ∪ PSubscriptions c) c) in
      do! _ := broker_do (λ cs, pubsub.SubscribePattern cs pat) in
      do! r := subscription_reply "psubscribe" (to_bytes pat) in
      do! rs := psubscribe_loop patterns in
      hret (r :: rs)
  end.
Definition handlePSubscribe : HandlerFunc := λ args,
  do! _ := broker_do pubsub.ensureSubscriberState in
  do! patterns := args_from args 1 in
  do! rs := psubscribe_loop patterns in
  hret (Several rs).

Fixpoint unsubscribe_loop (channels : list string) : H (list Reply) :=
  match channels with
  | [] => hret []
  | ch :: channels =>
      do! _ := put_cs (λ c, set_Subscriptions (Subscriptions c ∖ {[ch]}) (PSubscriptions c) c) in
      do! live := has_subCh in
      do! _ := (if live : bool then broker_do (λ cs, pubsub.Unsubscribe cs ch) else hret tt) in
      do! r := subscription_reply "unsubscribe" (to_bytes ch) in
      do! rs := unsubscribe_loop channels in
      hret (r :: rs)
  end.
(** The connection's own subscriptions, in the runtime's range order. *)
Definition own_subscriptions (sel : ClientState → gset string) : H (list string) := λ w,
  (Some (set_order (ticks w) (sel (cs w))), mkWorld (deps w) (cs w) (me w) (S (ticks w))).
Definition handleUnsubscribe : HandlerFunc := λ args,
  do! channels := args_from args 1 in
  do! channels := (match channels with [] => own_subscriptions Subscriptions | _ => hret channels end) in
  match channels with
  | [] => subscription_reply "unsubscribe" nilb
  | _ => do! rs := unsubscribe_loop channels in hret (Several rs)
  end.

Fixpoint punsubscribe_loop (patterns : list string) : H (list Reply) :=
  match patterns with
  | [] => hret []
  | pat :: patterns =>
      do! _ := put_cs (λ c, set_Subscriptions (Subscriptions c) (PSubscriptions c ∖ {[pat]}) c) in
      do! live := has_subCh in
      do! _ := (if live : bool then broker_do (λ cs, pubsub.UnsubscribePattern cs pat) else hret tt) in
      do! r := subscription_reply "punsubscribe" (to_bytes pat) in
      do! rs := punsubscribe_loop patterns in
      hret (r :: rs)
  end.
Definition handlePUnsubscribe : HandlerFunc := λ args,
  do! patterns := args_from args 1 in
  do! patterns := (match patterns with [] => own_subscriptions PSubscriptions | _ => hret patterns end) in
  match patterns with
  | [] => subscription_reply "punsubscribe" nilb
  | _ => do! rs := punsubscribe_loop patterns in hret (Several rs)
  end.

Definition handlePublish : HandlerFunc := λ args,
  do! channel := arg args 1 in
  do! payload := arg args 2 in
  do! o := broker (λ n _, pubsub.Publish (sub_orders n) channel payload) in
  do! n := check_panic o in
  match n with None => hpanic | Some n => hret (Int n) end.

Definition RegisterPubSub : list Command := [
  mkCommand "SUBSCRIBE" 2 (-1) false true handleSubscribe;
  mkCommand "UNSUBSCRIBE" 1 (-1) false true handleUnsubscribe;
  mkCommand "PUBLISH" 3 3 false false handlePublish;
  mkCommand "PSUBSCRIBE" 2 (-1) false true handlePSubscribe;
  mkCommand "PUNSUBSCRIBE" 1 (-1) false true handlePUnsubscribe].
End pubsub_handlers.
