(* ===== verification/Mcp.v ===== *)
(** * The MCP front door (internal/mcp/server.go)

    The tools run on the same shared components as the RESP commands, through
    the same calls.  The SDK decodes a request into a tool's input and encodes
    its output; a tool answers or is an error.  There is no authentication:
    the connection's state is neither read nor written. *)

From S2P Require Import Prelude.
From S2P Require Import GoStd.
From S2P Require Import Floats.
From S2P Require Import Similarity.
From S2P Require Import Caches.
From S2P Require Import Vector.
From S2P Require Import Memory.
From S2P Require Import Graph.
From S2P Require Import Consolidate.
From S2P Require Import Metrics.
From S2P Require Import Analytics.
From S2P Require Import Providers.
From S2P Require Import RespCodec.
From S2P Require Import Server.
From S2P Require Import HandlersKV.
From S2P Require Import HandlersData.
From S2P Require Import Calls.
From S2P Require Import HandlersCache.
From S2P Require Import HandlersVector.
From S2P Require Import HandlersMemory.

Open Scope Z_scope.
Open Scope go_scope.

Module mcp.

Definition defaultSemanticModel : string := "default".
Definition defaultSemanticTemp : string := "0".
Definition defaultSemanticThreshold : float64 := f64_lit 85 100.
Definition defaultSearchK : Z := 10.
Definition defaultMemoryWorkspace : string := "default".
Definition defaultMemoryKind : memory.Kind := memory.LongTerm.
Definition defaultMemorySearchK : Z := 10.
Definition defaultSummaryKind : memory.Kind := memory.Episodic.
Definition defaultGraphDepth : Z := 1.

(** The errors, with what their texts quote. *)
Inductive toolError :=
  | UnknownMetric (s : string)
  | BadTemp (s : string)
  | NegativeCost (c : float64)
  | InvalidJSON (field : string)
  | UnknownKind (s : string)
  | NoSuchMemory (id workspace : string)
  | Failed (text : string).

(** ** Inputs and outputs

    Absent optional fields are the zero value, or [None] for pointers. *)

Record CacheSemanticSetInput := mkSemanticSet {
  css_Prompt : string; css_Response : string; css_Model : string; css_Temp : string; css_TTLSeconds : Z; css_Cost : float64 }.
Record CacheSemanticGetInput := mkSemanticGet {
  csg_Prompt : string; csg_Model : string; csg_Temp : string; csg_Threshold : option float64 }.
Record CachePromptSetInput := mkPromptSet {
  cps_Template : string; cps_VariablesJSON : string; cps_Model : string; cps_Response : string; cps_TTLSeconds : Z;
  cps_Cost : float64 }.
Record CachePromptGetInput := mkPromptGet { cpg_Template : string; cpg_VariablesJSON : string; cpg_Model : string }.
Record ToolCacheSetInput := mkToolSet { tcs_ToolName : string; tcs_ArgsJSON : string; tcs_Result : string; tcs_TTLSeconds : Z }.
Record ToolCacheGetInput := mkToolGet { tcg_ToolName : string; tcg_ArgsJSON : string }.
Record StoreVectorInput := mkStoreVector {
  sv_Namespace : string; sv_ID : string; sv_Vector : vec; sv_Metadata : gmap string string; sv_Text : string }.
Record FindSimilarInput := mkFindSimilar {
  fs_Namespace : string; fs_Vector : vec; fs_K : option Z; fs_Metric : string; fs_Filter : gmap string string }.
Record DeleteVectorInput := mkDeleteVector { dv_Namespace : string; dv_ID : string }.
Record RememberInput := mkRemember {
  rm_AgentID : string; rm_Content : string; rm_Workspace : string; rm_Kind : string; rm_Metadata : gmap string string;
  rm_TTLSeconds : Z }.
Record RecallInput := mkRecall {
  rc_AgentID : string; rc_Query : string; rc_Workspace : string; rc_Kind : string; rc_K : Z; rc_Threshold : option float64 }.
Record MemoryHistoryInput := mkHistory { mh_Workspace : string; mh_ID : string; mh_Limit : Z }.
Record ConsolidateInput := mkConsolidate {
  cn_AgentID : string; cn_Workspace : string; cn_Kind : string; cn_DedupThreshold : float64 }.
Record ExtractEntitiesInput := mkExtract { ee_Workspace : string; ee_MemoryID : string }.
Record FindRelatedInput := mkRelated { fr_Workspace : string; fr_NodeID : string; fr_Depth : Z }.

Record MemoryVersion := mkVersion {
  mv_ID : string; mv_AgentID : string; mv_Kind : string; mv_Content : string; mv_Metadata : gmap string string;
  mv_CreatedAt : string; mv_Version : Z }.
Inductive output :=
  | OK
  | Found (found : bool) (text : string)
  | Matches (results : list (string * float64))
  | Deleted (deleted : bool)
  | Stored (id : string)
  | Versions (versions : list MemoryVersion)
  | Summary (summaryID : string) (sourceCount dedupedCount : Z)
  | Extracted (entities relations : Z)
  | Related (results : list (string * string * Z)).

Section tools.
Context `{Runtime} `{FloatText} `{KeyCodec} `{Services} `{Encoding}.

Definition answer : Type := toolError + output.

Definition parseMetric (s : string) : toolError + vector.DistanceMetric :=
  let t := ToUpper (TrimSpace s) in
  if String.eqb t "" || String.eqb t "COSINE" then inr vector.Cosine
  else if String.eqb t "DOT" then inr vector.Dot
  else if String.eqb t "EUCLIDEAN" then inr vector.Euclidean
  else inl (UnknownMetric s).
Definition ttlFromSeconds (secs : Z) : duration := if 0 <? secs then seconds secs else 0.

Definition or_default (s d : string) : string := if String.eqb s "" then d else s.
Definition failure : H answer := λ w, (Some (inl (Failed (errText (ticks w)))), w).
Definition recorded (tool : string) (k : H answer) : H answer := do! _ := metric (metrics.MCPCallRecorded tool) in k.
(** A temperature is empty or a number. *)
Definition temp_of (temp : string) : toolError + string :=
  if String.eqb temp "" then inr defaultSemanticTemp
  else match ParseFloat temp with None => inl (BadTemp temp) | Some _ => inr temp end.
Definition kind_of (d : memory.Kind) (kind : string) : toolError + memory.Kind :=
  if String.eqb kind "" then inr d
  else match memory.ParseKind kind with None => inl (UnknownKind kind) | Some k => inr k end.

(** ** Caches *)

Definition cacheSemanticSet (i : CacheSemanticSetInput) : H answer := recorded "cache_semantic_set" (
  let model := or_default (css_Model i) defaultSemanticModel in
  match temp_of (css_Temp i) with
  | inl err => hret (inl err)
  | inr temp =>
      if f64_lt (css_Cost i) f64_zero then hret (inl (NegativeCost (css_Cost i))) else
      do! ok := SemanticCache_Set (css_Prompt i) model temp (css_Response i) (ttlFromSeconds (css_TTLSeconds i)) (css_Cost i) in
      match ok with None => failure | Some _ => hret (inr OK) end
  end).

Definition cacheSemanticGet (i : CacheSemanticGetInput) : H answer := recorded "cache_semantic_get" (
  let model := or_default (csg_Model i) defaultSemanticModel in
  match temp_of (csg_Temp i) with
  | inl err => hret (inl err)
  | inr temp =>
      let threshold := default defaultSemanticThreshold (csg_Threshold i) in
      do! r := SemanticCache_Get (csg_Prompt i) model temp threshold in
      match r with
      | None => failure
      | Some (Some (response, cost)) =>
          do! _ := metric metrics.SemanticCacheHit in
          do! _ := record_savings "semantic" (csg_Prompt i) cost in
          hret (inr (Found true response))
      | Some None => do! _ := metric metrics.SemanticCacheMiss in hret (inr (Found false ""))
      end
  end).

Definition cachePromptSet (i : CachePromptSetInput) : H answer := recorded "cache_prompt_set" (
  if f64_lt (cps_Cost i) f64_zero then hret (inl (NegativeCost (cps_Cost i))) else
  match TemplateKey (cps_Template i) (cps_VariablesJSON i) (cps_Model i) with
  | Return key => do! _ := PromptCache_Set key (cps_Response i) (ttlFromSeconds (cps_TTLSeconds i)) (cps_Cost i) in hret (inr OK)
  | Fail => hret (inl (InvalidJSON "variables_json"))
  | Panic => hpanic
  end).

Definition cachePromptGet (i : CachePromptGetInput) : H answer := recorded "cache_prompt_get" (
  match TemplateKey (cpg_Template i) (cpg_VariablesJSON i) (cpg_Model i) with
  | Return key =>
      do! r := PromptCache_Get key in
      match r with
      | Some (response, cost) =>
          do! _ := metric metrics.PromptCacheHit in
          do! _ := record_savings "prompt" (cpg_Template i) cost in
          hret (inr (Found true response))
      | None => do! _ := metric metrics.PromptCacheMiss in hret (inr (Found false ""))
      end
  | Fail => hret (inl (InvalidJSON "variables_json"))
  | Panic => hpanic
  end).

Definition toolCacheSet (i : ToolCacheSetInput) : H answer := recorded "tool_cache_set" (
  match ToolKey (tcs_ToolName i) (tcs_ArgsJSON i) with
  | Return key => do! _ := ToolCache_Set key (tcs_Result i) (ttlFromSeconds (tcs_TTLSeconds i)) in hret (inr OK)
  | Fail => hret (inl (InvalidJSON "args_json"))
  | Panic => hpanic
  end).

Definition toolCacheGet (i : ToolCacheGetInput) : H answer := recorded "tool_cache_get" (
  match ToolKey (tcg_ToolName i) (tcg_ArgsJSON i) with
  | Return key =>
      do! r := ToolCache_Get key in
      match r with
      | Some result => do! _ := metric metrics.ToolCacheHit in hret (inr (Found true result))
      | None => do! _ := metric metrics.ToolCacheMiss in hret (inr (Found false ""))
      end
  | Fail => hret (inl (InvalidJSON "args_json"))
  | Panic => hpanic
  end).

(** ** Vectors *)

Definition storeVector (i : StoreVectorInput) : H answer := recorded "store_vector" (
  do! _ := VectorStore_Upsert (sv_Namespace i) (sv_ID i) (sv_Vector i) (sv_Metadata i) (sv_Text i) in hret (inr OK)).

Definition findSimilar (i : FindSimilarInput) : H answer := recorded "find_similar" (
  match parseMetric (fs_Metric i) with
  | inl err => hret (inl err)
  | inr m =>
      let k := default defaultSearchK (fs_K i) in
      do! results := VectorStore_Search (fs_Namespace i) (fs_Vector i) k m (fs_Filter i) None in
      do! _ := metric metrics.VectorSearchPerformed in
      hret (inr (Matches ((λ r, (vector.ID r, vector.Score r)) <$> results)))
  end).

Definition deleteVector (i : DeleteVectorInput) : H answer := recorded "delete_vector" (
  do! deleted := VectorStore_Delete (dv_Namespace i) (dv_ID i) in hret (inr (Deleted deleted))).

(** ** Memories *)

Definition remember (i : RememberInput) : H answer := recorded "remember" (
  let workspace := or_default (rm_Workspace i) defaultMemoryWorkspace in
  match kind_of defaultMemoryKind (rm_Kind i) with
  | inl err => hret (inl err)
  | inr kind =>
      do! id := MemoryStore_Put
        (memory.mkMemory "" (rm_AgentID i) workspace kind (rm_Content i) [] (rm_Metadata i) 0 0 None)
        (ttlFromSeconds (rm_TTLSeconds i)) in
      match id with
      | None => failure
      | Some id => do! _ := metric metrics.MemoryWrite in hret (inr (Stored id))
      end
  end).

Definition recall (i : RecallInput) : H answer := recorded "recall" (
  let workspace := or_default (rc_Workspace i) defaultMemoryWorkspace in
  let search kind :=
    let k := if rc_K i =? 0 then defaultMemorySearchK else rc_K i in
    do! results := MemoryStore_Search workspace (rc_Query i) (memory.mkSearchOptions (rc_AgentID i) kind k (rc_Threshold i)) in
    match results with
    | None => failure
    | Some results =>
        do! _ := metric metrics.MemoryRead in
        hret (inr (Matches ((λ r, (memory.sr_ID r, memory.sr_Score r)) <$> results)))
    end in
  if String.eqb (rc_Kind i) "" then search None
  else match memory.ParseKind (rc_Kind i) with
       | None => hret (inl (UnknownKind (rc_Kind i)))
       | Some k => search (Some k)
       end).

Definition version_of (v : memory.Memory) : MemoryVersion :=
  mkVersion (memory.ID v) (memory.AgentID v) (memory.Kind_String (memory.Kind_ v)) (memory.Content v) (memory.Metadata v)
    (FormatRFC3339 (memory.CreatedAt v)) (memory.Version v).
Definition memoryHistory (i : MemoryHistoryInput) : H answer := recorded "memory_history" (
  let workspace := or_default (mh_Workspace i) defaultMemoryWorkspace in
  do! versions := MemoryStore_History workspace (mh_ID i) in
  do! _ := metric metrics.MemoryRead in
  hret (inr (Versions (version_of <$> limit_versions (mh_Limit i) versions)))).

Definition consolidate_ (i : ConsolidateInput) : H answer := recorded "consolidate" (
  let workspace := or_default (cn_Workspace i) defaultMemoryWorkspace in
  match kind_of defaultSummaryKind (cn_Kind i) with
  | inl err => hret (inl err)
  | inr kind =>
      do! result := Consolidate workspace (cn_AgentID i) kind (cn_DedupThreshold i) in
      match result with
      | None => failure
      | Some r =>
          do! _ := metric metrics.ConsolidationPerformed in
          do! _ := metric (metrics.MemoriesDeduped (consolidate.SourceCount r - consolidate.DedupedCount r)) in
          hret (inr (Summary (consolidate.SummaryID r) (consolidate.SourceCount r) (consolidate.DedupedCount r)))
      end
  end).

(** ** The graph *)

Definition extractEntities (i : ExtractEntitiesInput) : H answer := recorded "extract_entities" (
  let workspace := or_default (ee_Workspace i) defaultMemoryWorkspace in
  do! mem := MemoryStore_Get workspace (ee_MemoryID i) in
  match mem with
  | None => hret (inl (NoSuchMemory (ee_MemoryID i) workspace))
  | Some mem =>
      do! r := Extract workspace (memory.ID mem) (memory.Content mem) in
      match r with
      | None => failure
      | Some (entities, relations) =>
          do! _ := metric metrics.GraphExtractionPerformed in
          do! _ := metric (metrics.EntitiesExtracted entities) in
          do! _ := metric (metrics.RelationsExtracted relations) in
          hret (inr (Extracted entities relations))
      end
  end).

Definition findRelated (i : FindRelatedInput) : H answer := recorded "find_related" (
  let workspace := or_default (fr_Workspace i) defaultMemoryWorkspace in
  let depth := if fr_Depth i <=? 0 then defaultGraphDepth else fr_Depth i in
  do! related := GraphStore_Related workspace (fr_NodeID i) depth in
  hret (inr (Related ((λ r, (graph.ID (graph.rn_Node r), graph.Label (graph.rn_Node r), graph.rn_Hops r)) <$> related)))).

(** ** The registered tools *)

Inductive call :=
  | Cache_semantic_set (i : CacheSemanticSetInput)
  | Cache_semantic_get (i : CacheSemanticGetInput)
  | Cache_prompt_set (i : CachePromptSetInput)
  | Cache_prompt_get (i : CachePromptGetInput)
  | Tool_cache_set (i : ToolCacheSetInput)
  | Tool_cache_get (i : ToolCacheGetInput)
  | Store_vector (i : StoreVectorInput)
  | Find_similar (i : FindSimilarInput)
  | Delete_vector (i : DeleteVectorInput)
  | Remember (i : RememberInput)
  | Recall (i : RecallInput)
  | Memory_history (i : MemoryHistoryInput)
  | Consolidate_ (i : ConsolidateInput)
  | Extract_entities (i : ExtractEntitiesInput)
  | Find_related (i : FindRelatedInput).

Definition CallTool (c : call) : H answer :=
  match c with
  | Cache_semantic_set i => cacheSemanticSet i
  | Cache_semantic_get i => cacheSemanticGet i
  | Cache_prompt_set i => cachePromptSet i
  | Cache_prompt_get i => cachePromptGet i
  | Tool_cache_set i => toolCacheSet i
  | Tool_cache_get i => toolCacheGet i
  | Store_vector i => storeVector i
  | Find_similar i => findSimilar i
  | Delete_vector i => deleteVector i
  | Remember i => remember i
  | Recall i => recall i
  | Memory_history i => memoryHistory i
  | Consolidate_ i => consolidate_ i
  | Extract_entities i => extractEntities i
  | Find_related i => findRelated i
  end.
End tools.
End mcp.
