(* ===== verification/McpSpec.v ===== *)
(** * What the MCP tools do

    Every tool call answers, is counted once, and touches neither the key
    space nor the broker nor a connection.  Where a RESP command spells the
    same request, the two front doors have the same effect and the same
    answer. *)

From S2P Require Import Prelude.
From S2P Require Import GoStd.
From S2P Require Import Floats.
From S2P Require Import Auth.
From S2P Require Import Similarity.
From S2P Require Import Caches.
From S2P Require Import Semantic.
From S2P Require Import Vector.
From S2P Require Import Memory.
From S2P Require Import Graph.
From S2P Require Import Consolidate.
From S2P Require Import Metrics.
From S2P Require Import Analytics.
From S2P Require Import Providers.
From S2P Require Import Backends.
From S2P Require Import Store.
From S2P Require Import RespCodec.
From S2P Require Import PubSub.
From S2P Require Import Server.
From S2P Require Import HandlersKV.
From S2P Require Import HandlersData.
From S2P Require Import Calls.
From S2P Require Import HandlersCache.
From S2P Require Import HandlersVector.
From S2P Require Import HandlersMemory.
From S2P Require Import Mcp.

Open Scope Z_scope.
Open Scope go_scope.

(** ** What a tool call leaves alone *)

Record mcp_frame (w w' : World) : Prop := {
  mf_cs : cs w' = cs w;
  mf_me : me w' = me w;
  mf_engine : Engine (deps w') = Engine (deps w);
  mf_auth : Auth (deps w') = Auth (deps w);
  mf_broker : PubSub_ (deps w') = PubSub_ (deps w);
  mf_calls : metrics.mcpCallsByTool (Metrics_ (deps w')) = metrics.mcpCallsByTool (Metrics_ (deps w));
  mf_total : metrics.counters (Metrics_ (deps w')) metrics.mcpCallsTotal =
             metrics.counters (Metrics_ (deps w)) metrics.mcpCallsTotal;
}.
Lemma mcp_frame_refl w : mcp_frame w w.
Proof. done. Qed.
Lemma mcp_frame_trans w1 w2 w3 : mcp_frame w1 w2 → mcp_frame w2 w3 → mcp_frame w1 w3.
Proof. intros [] []. split; congruence. Qed.

(** The metrics keep the counts of MCP calls. *)
Definition keeps_calls (m m' : metrics.Metrics) : Prop :=
  metrics.mcpCallsByTool m' = metrics.mcpCallsByTool m ∧
  metrics.counters m' metrics.mcpCallsTotal = metrics.counters m metrics.mcpCallsTotal.

Section framed.
Context `{Runtime} `{Services} `{Encoding} {HS : ServicesLaws}.

(** [m] answers and leaves alone what tools leave alone. *)
Definition framed {A} (m : H A) : Prop := ∀ w, ∃ a w', m w = (Some a, w') ∧ mcp_frame w w'.

Lemma framed_ret {A} (a : A) : framed (hret a).
Proof. intros w. by exists a, w. Qed.
Lemma framed_bind {A B} (m : H A) (k : A → H B) : framed m → (∀ a, framed (k a)) → framed (hbind m k).
Proof.
  intros Hm Hk w. destruct (Hm w) as (a & w1 & E & F1). destruct (Hk a w1) as (b & w2 & E2 & F2).
  exists b, w2. unfold hbind, bind. rewrite E. split; [done|by eapply mcp_frame_trans].
Qed.
Lemma framed_on {C A} (sel : Deps → C) upd (f : nat → C → A * C) :
  (∀ c d, Engine (upd c d) = Engine d ∧ Auth (upd c d) = Auth d ∧ PubSub_ (upd c d) = PubSub_ d ∧
          Metrics_ (upd c d) = Metrics_ d) → framed (on sel upd f).
Proof.
  intros Hu w. unfold on. destruct (f (ticks w) (sel (deps w))) as [a c]. destruct (Hu c (deps w)) as (E1 & E2 & E3 & E4).
  eexists _, _. split; [reflexivity|]. split; cbn; by rewrite ?E4.
Qed.
Lemma framed_on_check {C A} (sel : Deps → C) upd (f : nat → C → outcome A * C) :
  (∀ c d, Engine (upd c d) = Engine d ∧ Auth (upd c d) = Auth d ∧ PubSub_ (upd c d) = PubSub_ d ∧
          Metrics_ (upd c d) = Metrics_ d) → (∀ n c, (f n c).1 ≠ Panic) → framed (hbind (on sel upd f) check_panic).
Proof.
  intros Hu Hf w. destruct (framed_on sel upd f Hu w) as (o & w1 & E & F). unfold hbind, bind. rewrite E.
  assert (Ho : o ≠ Panic).
  { revert E. unfold on. specialize (Hf (ticks w) (sel (deps w))). destruct (f (ticks w) (sel (deps w))).
    intros [= <- _]. done. }
  destruct o; [..|done]; eexists _, _; (split; [reflexivity|done]).
Qed.
Lemma framed_metric f : (∀ m, keeps_calls m (f m)) → framed (metric f).
Proof. intros Hf w. eexists _, _. split; [reflexivity|]. destruct (Hf (Metrics_ (deps w))). by split. Qed.
Lemma framed_analytic f : framed (analytic f).
Proof. intros w. by eexists _, _. Qed.
Lemma framed_failure : framed mcp.failure.
Proof. intros w. by eexists _, _. Qed.
Lemma framed_embedding text : framed (embedding text).
Proof.
  intros w. unfold embedding, InstrumentedEmbedOne, EmbedBatchWithUsage, Embed.
  destruct (embed.EmbedBatchWithUsage _) as [up|]; eexists _, _; (split; [reflexivity|]);
    split; try done; cbn; by destruct (failed _).
Qed.
Lemma framed_completion sys user : framed (completion sys user).
Proof.
  intros w. unfold completion, Complete. eexists _, _. split; [reflexivity|]. split; try done; cbn; by destruct (failed _).
Qed.
End framed.

Create HintDb framed.
#[export] Hint Resolve framed_ret framed_analytic framed_failure framed_embedding framed_completion : framed.
#[export] Hint Extern 1 (framed (on _ _ _)) => (apply framed_on; intros; split_and!; reflexivity) : framed.
#[export] Hint Extern 1 (framed (metric _)) => (apply framed_metric; intros; split; reflexivity) : framed.
Ltac framed_step :=
  match goal with
  | |- framed (hbind (on _ _ _) _) => apply framed_on_check; [by intros|intros ? ?]
  | |- framed (hbind _ _) => apply framed_bind; [|intros ?]
  | |- framed (match ?x with _ => _ end) => destruct x eqn:?
  | |- framed (let _ := _ in _) => cbv zeta
  | |- framed _ => solve [auto with framed]
  end.
Ltac framed_tac := repeat framed_step.

Section frame.
Context `{Runtime} `{FloatText} `{KeyCodec} `{Services} `{Encoding} {HS : ServicesLaws}.

Lemma framed_SemanticCache_Set p m t r ttl c : framed (SemanticCache_Set p m t r ttl c).
Proof. unfold SemanticCache_Set. framed_tac. apply Set_no_panic, embed_total. Qed.
Lemma framed_SemanticCache_Get p m t th : framed (SemanticCache_Get p m t th).
Proof. unfold SemanticCache_Get. framed_tac. apply Get_no_panic, embed_total. Qed.
Lemma framed_MemoryStore_Put m ttl : framed (MemoryStore_Put m ttl).
Proof. unfold MemoryStore_Put. framed_tac. apply Put_no_panic, embed_total. Qed.
Lemma framed_MemoryStore_Search ws q o : framed (MemoryStore_Search ws q o).
Proof. unfold MemoryStore_Search. framed_tac. apply Search_no_panic, embed_total. Qed.
Lemma framed_Extract ws id content : framed (Extract ws id content).
Proof. unfold Extract. framed_tac. apply Extract_no_panic. Qed.
Hint Resolve framed_SemanticCache_Set framed_SemanticCache_Get framed_MemoryStore_Put framed_MemoryStore_Search
  framed_Extract : framed.
Lemma framed_Consolidate ws agent kind th : framed (Consolidate ws agent kind th).
Proof. unfold Consolidate, MemoryStore_List. framed_tac. Qed.
Lemma framed_record_savings kind text cost : framed (record_savings kind text cost).
Proof. unfold record_savings. framed_tac. Qed.
Hint Resolve framed_Consolidate framed_record_savings : framed.

(** The name a tool is registered and counted under. *)
Definition tool_name (c : mcp.call) : string :=
  match c with
  | mcp.Cache_semantic_set _ => "cache_semantic_set" | mcp.Cache_semantic_get _ => "cache_semantic_get"
  | mcp.Cache_prompt_set _ => "cache_prompt_set" | mcp.Cache_prompt_get _ => "cache_prompt_get"
  | mcp.Tool_cache_set _ => "tool_cache_set" | mcp.Tool_cache_get _ => "tool_cache_get"
  | mcp.Store_vector _ => "store_vector" | mcp.Find_similar _ => "find_similar" | mcp.Delete_vector _ => "delete_vector"
  | mcp.Remember _ => "remember" | mcp.Recall _ => "recall" | mcp.Memory_history _ => "memory_history"
  | mcp.Consolidate_ _ => "consolidate"
  | mcp.Extract_entities _ => "extract_entities" | mcp.Find_related _ => "find_related"
  end.
(** The world with the call counted. *)
Definition counted_call (c : mcp.call) (w : World) : World :=
  set_deps (set_Metrics (metrics.MCPCallRecorded (tool_name c) (Metrics_ (deps w))) (deps w)) w.

(** What follows the count. *)
Lemma CallTool_framed c w : ∃ a w', mcp.CallTool c w = (Some a, w') ∧ mcp_frame (counted_call c w) w'.
Proof.
  assert (HR : ∀ k, framed k → ∃ a w', mcp.recorded (tool_name c) k w = (Some a, w') ∧ mcp_frame (counted_call c w) w')
    by (intros k Hk; apply (Hk (counted_call c w))).
  destruct c as [i|i|i|i|i|i|i|i|i|i|i|i|i|i|i]; cbn [mcp.CallTool tool_name] in *; apply HR;
    unfold PromptCache_Set, PromptCache_Get, ToolCache_Set, ToolCache_Get, VectorStore_Upsert, VectorStore_Search,
      VectorStore_Delete, MemoryStore_Get, MemoryStore_History, GraphStore_Related, TemplateKey, ToolKey in *; framed_tac;
    exfalso; by case_match.
Qed.
End frame.

(** Every MCP tool call answers, with an output or an error, and is counted
    exactly once, in the total and under the tool's name; it leaves the key
    space, the authenticator, the broker and the connection it runs beside as
    they are. *)
Theorem mcp_call_spec `{Runtime} `{FloatText} `{KeyCodec} `{ServicesLaws} `{Encoding} c w :
  ∃ a w', mcp.CallTool c w = (Some a, w') ∧
    let m := Metrics_ (deps w) in let m' := Metrics_ (deps w') in
    metrics.mcpCallsByTool m' =
      <[tool_name c := wrap64 (default 0 (metrics.mcpCallsByTool m !! tool_name c) + 1)]> (metrics.mcpCallsByTool m) ∧
    metrics.counters m' metrics.mcpCallsTotal = wrap64 (metrics.counters m metrics.mcpCallsTotal + 1) ∧
    Engine (deps w') = Engine (deps w) ∧ Auth (deps w') = Auth (deps w) ∧ PubSub_ (deps w') = PubSub_ (deps w) ∧
    cs w' = cs w ∧ me w' = me w.
Proof.
  destruct (CallTool_framed c w) as (a & w' & E & F). exists a, w'. split; [done|]. cbv zeta.
  destruct F as [F1 F2 F3 F4 F5 F6 F7]. by split_and!.
Qed.
