(* ===== verification/FrontDoors.v ===== *)
(** * Two front doors onto the same state

    An MCP tool call and the RESP command that spells the same request run to
    the same world and give corresponding answers. *)

From S2P Require Import Prelude.
From S2P Require Import GoStd.
From S2P Require Import Floats.
From S2P Require Import Auth.
From S2P Require Import Similarity.
From S2P Require Import Caches.
From S2P Require Import Semantic.
From S2P Require Import Vector.
From S2P Require Import Memory.
From S2P Require Import Graph.
From S2P Require Import Consolidate.
From S2P Require Import Metrics.
From S2P Require Import Analytics.
From S2P Require Import Providers.
From S2P Require Import Backends.
From S2P Require Import Store.
From S2P Require Import RespCodec.
From S2P Require Import PubSub.
From S2P Require Import Server.
From S2P Require Import HandlersKV.
From S2P Require Import HandlersData.
From S2P Require Import Calls.
From S2P Require Import HandlersCache.
From S2P Require Import HandlersVector.
From S2P Require Import HandlersMemory.
From S2P Require Import Mcp.
From S2P Require Import McpSpec.

Open Scope Z_scope.
Open Scope go_scope.

(** ** Spelling a request as a command *)

(** An option that is left out when empty. *)
Definition opt (name v : string) : list string := if String.eqb v "" then [] else [name; v].
Definition filter_args (l : list (string * string)) : list string := l ≫= λ kv, ["FILTER"; kv.1; kv.2].

Section spells.
Context `{Runtime} `{FloatText} `{KeyCodec} `{Services} `{Encoding}.

(** [args] spells the tool call: numbers and JSON are any texts that read as
    the tool's decoded values. *)
Inductive spells : mcp.call → list string → Prop :=
  | sp_semantic_set p r model temp ttl cost c :
      int64_range ttl → ParseFloat c = Some cost →
      spells (mcp.Cache_semantic_set (mcp.mkSemanticSet p r model temp ttl cost))
        (["CACHE.SEMANTIC"; "SET"; p; r] ++ opt "MODEL" model ++ opt "TEMP" temp ++ ["TTL"; Itoa ttl; "COST"; c])
  | sp_semantic_get p model temp th t :
      ParseFloat t = Some th →
      spells (mcp.Cache_semantic_get (mcp.mkSemanticGet p model temp (Some th)))
        (["CACHE.SEMANTIC"; "GET"; p] ++ opt "MODEL" model ++ opt "TEMP" temp ++ ["THRESHOLD"; t])
  | sp_semantic_get_default p model temp :
      spells (mcp.Cache_semantic_get (mcp.mkSemanticGet p model temp None))
        (["CACHE.SEMANTIC"; "GET"; p] ++ opt "MODEL" model ++ opt "TEMP" temp)
  | sp_prompt_set t v model r ttl cost c :
      int64_range ttl → ParseFloat c = Some cost →
      spells (mcp.Cache_prompt_set (mcp.mkPromptSet t v model r ttl cost))
        ["CACHE.PROMPT"; "SET"; t; v; model; r; "TTL"; Itoa ttl; "COST"; c]
  | sp_prompt_get t v model :
      spells (mcp.Cache_prompt_get (mcp.mkPromptGet t v model)) ["CACHE.PROMPT"; "GET"; t; v; model]
  | sp_tool_set n a r ttl :
      int64_range ttl →
      spells (mcp.Tool_cache_set (mcp.mkToolSet n a r ttl)) ["TOOL.CACHE"; "SET"; n; a; r; "TTL"; Itoa ttl]
  | sp_tool_get n a :
      spells (mcp.Tool_cache_get (mcp.mkToolGet n a)) ["TOOL.CACHE"; "GET"; n; a]
  | sp_store_vector ns id v vt md mt txt :
      parseVectorJSON vt = Some v → parseMetadataJSON mt = Some md →
      spells (mcp.Store_vector (mcp.mkStoreVector ns id v md txt))
        ["VECTOR.UPSERT"; ns; id; vt; "METADATA"; mt; "TEXT"; txt]
  | sp_find_similar ns v vt k m filter :
      parseVectorJSON vt = Some v → int64_range k → TrimSpace m = m → (m ≠ "" → ToUpper m ≠ "") →
      spells (mcp.Find_similar (mcp.mkFindSimilar ns v (Some k) m filter))
        (["VECTOR.SEARCH"; ns; vt; "K"; Itoa k] ++ opt "METRIC" m ++ filter_args (map_to_list filter) ++ ["WITHSCORES"])
  | sp_delete_vector ns id :
      spells (mcp.Delete_vector (mcp.mkDeleteVector ns id)) ["VECTOR.DELETE"; ns; id]
  | sp_remember agent content ws kind md mt ttl :
      parseMetadataJSON mt = Some md → int64_range ttl →
      spells (mcp.Remember (mcp.mkRemember agent content ws kind md ttl))
        (["AGENT.REMEMBER"; agent; content] ++ opt "WORKSPACE" ws ++ opt "KIND" kind ++
         ["METADATA"; mt; "TTL"; Itoa ttl])
  | sp_recall agent q ws kind k th t :
      int64_range k → ParseFloat t = Some th →
      spells (mcp.Recall (mcp.mkRecall agent q ws kind k (Some th)))
        (["AGENT.RECALL"; agent; q] ++ opt "WORKSPACE" ws ++ opt "KIND" kind ++
         (if k =? 0 then [] else ["K"; Itoa k]) ++ ["THRESHOLD"; t; "WITHSCORES"])
  | sp_history ws id limit :
      int64_range limit →
      spells (mcp.Memory_history (mcp.mkHistory ws id limit))
        ["MEMORY.HISTORY"; mcp.or_default ws "default"; id; "LIMIT"; Itoa limit]
  | sp_consolidate agent ws kind th t :
      ParseFloat t = Some th →
      spells (mcp.Consolidate_ (mcp.mkConsolidate agent ws kind th))
        (["SUMMARY.CREATE"; agent] ++ opt "WORKSPACE" ws ++ opt "KIND" kind ++ ["DEDUP_THRESHOLD"; t])
  | sp_extract ws id :
      spells (mcp.Extract_entities (mcp.mkExtract ws id)) ["GRAPH.EXTRACT"; mcp.or_default ws "default"; id]
  | sp_related ws id depth :
      int64_range depth → 0 < depth →
      spells (mcp.Find_related (mcp.mkRelated ws id depth))
        ["GRAPH.RELATED"; mcp.or_default ws "default"; id; "DEPTH"; Itoa depth].

(** The command's handler, as registered. *)
Definition handler_of (c : mcp.call) : HandlerFunc :=
  match c with
  | mcp.Cache_semantic_set _ | mcp.Cache_semantic_get _ => handleCacheSemantic
  | mcp.Cache_prompt_set _ | mcp.Cache_prompt_get _ => handleCachePrompt
  | mcp.Tool_cache_set _ | mcp.Tool_cache_get _ => handleToolCache
  | mcp.Store_vector _ => handleVectorUpsert
  | mcp.Find_similar _ => handleVectorSearch
  | mcp.Delete_vector _ => handleVectorDelete
  | mcp.Remember _ => handleAgentRemember
  | mcp.Recall _ => handleAgentRecall
  | mcp.Memory_history _ => handleMemoryHistory
  | mcp.Consolidate_ _ => handleSummaryCreate
  | mcp.Extract_entities _ => handleGraphExtract
  | mcp.Find_related _ => handleGraphRelated
  end.
(** The workspace the command is refused for, if the connection is in another. *)
Definition guarded_workspace (c : mcp.call) : option string :=
  match c with
  | mcp.Store_vector i => Some (mcp.sv_Namespace i)
  | mcp.Find_similar i => Some (mcp.fs_Namespace i)
  | mcp.Delete_vector i => Some (mcp.dv_Namespace i)
  | mcp.Remember i => Some (mcp.or_default (mcp.rm_Workspace i) "default")
  | mcp.Recall i => Some (mcp.or_default (mcp.rc_Workspace i) "default")
  | mcp.Memory_history i => Some (mcp.or_default (mcp.mh_Workspace i) "default")
  | mcp.Extract_entities i => Some (mcp.or_default (mcp.ee_Workspace i) "default")
  | mcp.Find_related i => Some (mcp.or_default (mcp.fr_Workspace i) "default")
  | _ => None
  end.
Definition authorised (c : mcp.call) (w : World) : Prop :=
  ∀ ws, guarded_workspace c = Some ws → authorizedForWorkspace w ws = true.

(** The reply that says what the answer says. *)
Inductive renders : mcp.answer → Reply → Prop :=
  | rn_OK : renders (inr mcp.OK) OK
  | rn_found s : renders (inr (mcp.Found true s)) (BulkString s)
  | rn_missing : renders (inr (mcp.Found false "")) NullBulk
  | rn_matches l : renders (inr (mcp.Matches l)) (ArraySlice (l ≫= λ r, scored true r.1 r.2))
  | rn_deleted b : renders (inr (mcp.Deleted b)) (if b : bool then Int 1 else Int 0)
  | rn_stored id : renders (inr (mcp.Stored id)) (BulkString id)
  | rn_no_versions : renders (inr (mcp.Versions [])) NullArray
  | rn_versions l items : l ≠ [] → history_items l = Some items →
      renders (inr (mcp.Versions (mcp.version_of <$> l))) (ArraySlice items)
  | rn_summary id n m : n ≠ 0 → renders (inr (mcp.Summary id n m)) (BulkString id)
  | rn_no_summary id m : renders (inr (mcp.Summary id 0 m)) NullBulk
  | rn_extracted n m : renders (inr (mcp.Extracted n m)) (ArraySlice [Int n; Int m])
  | rn_related l : renders (inr (mcp.Related l)) (ArraySlice ((λ r, BulkString r.1.1) <$> l))
  | rn_metric s : renders (inl (mcp.UnknownMetric s)) (Err ErrSyntaxMsg)
  | rn_temp s : renders (inl (mcp.BadTemp s)) (Err ErrNotFloatMsg)
  | rn_cost c : renders (inl (mcp.NegativeCost c)) (Err ErrCostNegativeMsg)
  | rn_variables : renders (inl (mcp.InvalidJSON "variables_json")) (Err ErrInvalidJSONMsg)
  | rn_args : renders (inl (mcp.InvalidJSON "args_json")) (Err ErrInvalidToolArgsJSONMsg)
  | rn_kind s : renders (inl (mcp.UnknownKind s)) (Err ErrSyntaxMsg)
  | rn_memory id ws : renders (inl (mcp.NoSuchMemory id ws)) (Err ErrNoSuchMemoryMsg)
  | rn_failed s : renders (inl (mcp.Failed s)) (Err ("ERR " +:+ s)).

(** ** Running two computations side by side *)

Definition corresponds {A B} (R : A → B → Prop) (x : option A * World) (y : option B * World) : Prop :=
  x.2 = y.2 ∧ match x.1, y.1 with Some a, Some b => R a b | None, None => True | _, _ => False end.
Definition sim {A B} (R : A → B → Prop) (m1 : H A) (m2 : H B) : Prop := ∀ w, corresponds R (m1 w) (m2 w).

Lemma sim_ret {A B} (R : A → B → Prop) a b : R a b → sim R (hret a) (hret b).
Proof. by intros HR w. Qed.
Lemma sim_bind {A B C} (R : A → B → Prop) (m : H C) (k1 : C → H A) (k2 : C → H B) :
  (∀ x, sim R (k1 x) (k2 x)) → sim R (hbind m k1) (hbind m k2).
Proof.
  intros Hk w. unfold hbind, bind. destruct (m w) as [[x|] w']; [apply Hk|by split].
Qed.
Lemma sim_failure : sim renders mcp.failure error_reply.
Proof. intros w. split; [done|]. constructor. Qed.
Lemma sim_panic {A B} (R : A → B → Prop) : sim R hpanic hpanic.
Proof. by intros w. Qed.

(** Reading the arguments of a concrete command. *)
Lemma arg_bind args i a {A} (k : string → H A) : args !! i = Some a → hbind (arg args i) k = k a.
Proof. intros E. unfold arg. rewrite E. reflexivity. Qed.
Lemma args_from_bind args n rest {A} (k : list string → H A) : drop n args = rest → (n ≤ length args)%nat →
  hbind (args_from args n) k = k rest.
Proof. intros <- Hn. unfold args_from. rewrite decide_True by done. reflexivity. Qed.
Lemma recorded_run tool k c w : tool = tool_name c → mcp.recorded tool k w = k (counted_call c w).
Proof. by intros ->. Qed.
Lemma sim_at {A B} (R : A → B → Prop) m1 m2 w : sim R m1 m2 → corresponds R (m1 w) (m2 w).
Proof. intros Hs. apply Hs. Qed.
Lemma authorised_at c w ws : authorised c w → guarded_workspace c = Some ws →
  authorizedForWorkspace (counted_call c w) ws = true.
Proof. intros Ha Hg. apply (Ha ws Hg). Qed.
Lemma guarded_ok ws k w : authorizedForWorkspace w ws = true → guarded ws k w = k w.
Proof. intros E. unfold guarded, hbind, bind, authorized. by rewrite E. Qed.
Lemma Atoi_Itoa n : int64_range n → Atoi (Itoa n) = Some n.
Proof. apply ParseInt_FormatInt. Qed.
Lemma parseTTL_Itoa n : int64_range n → parseTTL (Itoa n) = inr (mcp.ttlFromSeconds n).
Proof. intros Hn. unfold parseTTL, Itoa. by rewrite (ParseInt_FormatInt n Hn). Qed.
End spells.

(** Evaluates the comparison of option names. *)
Ltac names :=
  repeat match goal with
  | |- context [ToUpper (String ?c ?s)] =>
      let t := eval vm_compute in (ToUpper (String c s)) in change (ToUpper (String c s)) with t
  | |- context [String.eqb (String ?a ?s) (String ?b ?t)] =>
      let r := eval vm_compute in (String.eqb (String a s) (String b t)) in
      change (String.eqb (String a s) (String b t)) with r
  end; cbv iota; cbn [andb orb negb].
(** Evaluates the reads of a command's leading arguments. *)
Ltac reads :=
  repeat first
    [ erewrite arg_bind by reflexivity
    | erewrite args_from_bind by (first [reflexivity | cbn [app length]; lia]) ];
  cbn [app drop]; rewrite ?drop_0; names.
(** Both computations make the same calls. *)
Ltac sims :=
  repeat match goal with
  | |- sim _ (hbind _ _) (hbind _ _) => apply sim_bind; intros ?
  | |- sim _ (hret _) (hret _) => apply sim_ret
  | |- sim _ hpanic hpanic => apply sim_panic
  | |- sim _ mcp.failure error_reply => apply sim_failure
  | |- sim _ (match ?x with _ => _ end) (match ?x with _ => _ end) => destruct x
  end.
Ltac enough_args := unfold len; cbn [app length]; rewrite ?length_app; cbn [length]; lia.

Section tools.
Context `{Runtime} `{FloatText} `{KeyCodec} `{Services} `{Encoding}.

(** ** The caches *)

Lemma semset_spelled model temp ttl cost c : int64_range ttl → ParseFloat c = Some cost →
  semset_opts (opt "MODEL" model ++ opt "TEMP" temp ++ ["TTL"; Itoa ttl; "COST"; c])
    (mkSemset defaultSemanticModel defaultSemanticTemp 0 f64_zero) =
  match mcp.temp_of temp with
  | inl _ => inl (Err ErrNotFloatMsg)
  | inr t => if f64_lt cost f64_zero then inl (Err ErrCostNegativeMsg)
             else inr (mkSemset (mcp.or_default model mcp.defaultSemanticModel) t (mcp.ttlFromSeconds ttl) cost)
  end.
Proof.
  intros Ht Hc. unfold opt, mcp.or_default, mcp.temp_of.
  destruct (String.eqb model ""), (String.eqb temp ""); cbn [app semset_opts o_model o_temp o_ttl o_cost]; names;
    try (destruct (ParseFloat temp); [|done]); rewrite (parseTTL_Itoa ttl Ht); unfold parseCostArg; rewrite Hc;
    by destruct (f64_lt cost f64_zero).
Qed.
Lemma semget_spelled model temp l :
  semget_opts (opt "MODEL" model ++ opt "TEMP" temp ++ l)
    (mkSemget defaultSemanticModel defaultSemanticTemp defaultSemanticThreshold) =
  match mcp.temp_of temp with
  | inl _ => inl (Err ErrNotFloatMsg)
  | inr t => semget_opts l (mkSemget (mcp.or_default model mcp.defaultSemanticModel) t defaultSemanticThreshold)
  end.
Proof.
  unfold opt, mcp.or_default, mcp.temp_of.
  destruct (String.eqb model ""), (String.eqb temp ""); cbn [app semget_opts g_model g_temp g_threshold]; names;
    try (destruct (ParseFloat temp); [|done]); done.
Qed.
Lemma temp_of_error temp e : mcp.temp_of temp = inl e → renders (inl e) (Err ErrNotFloatMsg).
Proof. unfold mcp.temp_of. repeat case_match; intros [= <-]. constructor. Qed.

Lemma sim_record_savings kind text cost {A B} (R : A → B → Prop) k1 k2 : (∀ x, sim R (k1 x) (k2 x)) →
  sim R (hbind (record_savings kind text cost) k1) (hbind (record_savings kind text cost) k2).
Proof. apply sim_bind. Qed.

Lemma doors_semantic_set p r model temp ttl cost c w : int64_range ttl → ParseFloat c = Some cost →
  let call := mcp.Cache_semantic_set (mcp.mkSemanticSet p r model temp ttl cost) in
  corresponds renders (mcp.CallTool call w)
    (handleCacheSemantic
       (["CACHE.SEMANTIC"; "SET"; p; r] ++ opt "MODEL" model ++ opt "TEMP" temp ++ ["TTL"; Itoa ttl; "COST"; c])
       (counted_call call w)).
Proof.
  intros Ht Hc call. cbn [mcp.CallTool call]. unfold mcp.cacheSemanticSet. rewrite (recorded_run _ _ call) by done.
  apply sim_at. unfold handleCacheSemantic. reads. unfold handleCacheSemanticSet.
  replace (len _ <? 4) with false by (symmetry; apply Z.ltb_ge; enough_args). reads.
  rewrite (semset_spelled _ _ _ _ _ Ht Hc). cbn [mcp.css_Temp mcp.css_Model mcp.css_Cost].
  destruct (mcp.temp_of temp) as [e|t] eqn:Et; [apply sim_ret; by eapply temp_of_error|].
  destruct (f64_lt cost f64_zero); [apply sim_ret; constructor|]. sims. constructor.
Qed.

Lemma doors_semantic_get p model temp th l w :
  (l = [] ∧ th = None ∨ ∃ t v, l = ["THRESHOLD"; t] ∧ th = Some v ∧ ParseFloat t = Some v) →
  let call := mcp.Cache_semantic_get (mcp.mkSemanticGet p model temp th) in
  corresponds renders (mcp.CallTool call w)
    (handleCacheSemantic (["CACHE.SEMANTIC"; "GET"; p] ++ opt "MODEL" model ++ opt "TEMP" temp ++ l) (counted_call call w)).
Proof.
  intros Hl call. cbn [mcp.CallTool call]. unfold mcp.cacheSemanticGet. rewrite (recorded_run _ _ call) by done.
  apply sim_at. unfold handleCacheSemantic. reads. unfold handleCacheSemanticGet.
  replace (len _ <? 3) with false by (symmetry; apply Z.ltb_ge; enough_args). reads.
  rewrite semget_spelled. cbn [mcp.csg_Temp mcp.csg_Model mcp.csg_Threshold].
  destruct (mcp.temp_of temp) as [e|t] eqn:Et; [apply sim_ret; by eapply temp_of_error|].
  assert (E : semget_opts l (mkSemget (mcp.or_default model mcp.defaultSemanticModel) t defaultSemanticThreshold) =
              inr (mkSemget (mcp.or_default model mcp.defaultSemanticModel) t (default mcp.defaultSemanticThreshold th))).
  { destruct Hl as [[-> ->]|(tt & v & -> & -> & Hv)]; [done|]. cbn [semget_opts]. names. by rewrite Hv. }
  rewrite E. sims; constructor.
Qed.

Lemma doors_prompt_set t v model r ttl cost c w : int64_range ttl → ParseFloat c = Some cost →
  let call := mcp.Cache_prompt_set (mcp.mkPromptSet t v model r ttl cost) in
  corresponds renders (mcp.CallTool call w)
    (handleCachePrompt ["CACHE.PROMPT"; "SET"; t; v; model; r; "TTL"; Itoa ttl; "COST"; c] (counted_call call w)).
Proof.
  intros Ht Hc call. cbn [mcp.CallTool call]. unfold mcp.cachePromptSet. rewrite (recorded_run _ _ call) by done.
  apply sim_at. unfold handleCachePrompt. reads. unfold handleCachePromptSet.
  replace (len _ <? 6) with false by done. reads. cbn [promptset_opts]. names. rewrite (parseTTL_Itoa ttl Ht).
  unfold parseCostArg. rewrite Hc. cbn [mcp.cps_Cost mcp.cps_Template mcp.cps_VariablesJSON mcp.cps_Model].
  destruct (f64_lt cost f64_zero); [apply sim_ret; constructor|]. sims; constructor.
Qed.

Lemma doors_prompt_get t v model w :
  let call := mcp.Cache_prompt_get (mcp.mkPromptGet t v model) in
  corresponds renders (mcp.CallTool call w)
    (handleCachePrompt ["CACHE.PROMPT"; "GET"; t; v; model] (counted_call call w)).
Proof.
  intros call. cbn [mcp.CallTool call]. unfold mcp.cachePromptGet. rewrite (recorded_run _ _ call) by done.
  apply sim_at. unfold handleCachePrompt. reads. unfold handleCachePromptGet.
  replace (len _ =? 5) with true by done. reads. cbn [mcp.cpg_Template mcp.cpg_VariablesJSON mcp.cpg_Model].
  sims; constructor.
Qed.

Lemma doors_tool_set n a r ttl w : int64_range ttl →
  let call := mcp.Tool_cache_set (mcp.mkToolSet n a r ttl) in
  corresponds renders (mcp.CallTool call w)
    (handleToolCache ["TOOL.CACHE"; "SET"; n; a; r; "TTL"; Itoa ttl] (counted_call call w)).
Proof.
  intros Ht call. cbn [mcp.CallTool call]. unfold mcp.toolCacheSet. rewrite (recorded_run _ _ call) by done.
  apply sim_at. unfold handleToolCache. reads. unfold handleToolCacheSet.
  replace (len _ <? 5) with false by done. reads. cbn [toolcache_opts]. names. rewrite (parseTTL_Itoa ttl Ht).
  cbn [mcp.tcs_ToolName mcp.tcs_ArgsJSON]. sims; constructor.
Qed.

Lemma doors_tool_get n a w :
  let call := mcp.Tool_cache_get (mcp.mkToolGet n a) in
  corresponds renders (mcp.CallTool call w)
    (handleToolCache ["TOOL.CACHE"; "GET"; n; a] (counted_call call w)).
Proof.
  intros call. cbn [mcp.CallTool call]. unfold mcp.toolCacheGet. rewrite (recorded_run _ _ call) by done.
  apply sim_at. unfold handleToolCache. reads. unfold handleToolCacheGet.
  replace (len _ =? 4) with true by done. reads. cbn [mcp.tcg_ToolName mcp.tcg_ArgsJSON]. sims; constructor.
Qed.

(** ** The agent stores, for an authorised connection *)

Lemma doors_store_vector ns id v vt md mt txt w :
  let call := mcp.Store_vector (mcp.mkStoreVector ns id v md txt) in
  authorised call w → parseVectorJSON vt = Some v → parseMetadataJSON mt = Some md →
  corresponds renders (mcp.CallTool call w)
    (handleVectorUpsert ["VECTOR.UPSERT"; ns; id; vt; "METADATA"; mt; "TEXT"; txt] (counted_call call w)).
Proof.
  intros call Ha Hv Hm. cbn [mcp.CallTool call]. unfold mcp.storeVector. rewrite (recorded_run _ _ call) by done.
  unfold handleVectorUpsert. reads. rewrite guarded_ok by (by apply authorised_at). apply sim_at. reads. rewrite Hv. reads.
  cbn [upsert_opts]. names. rewrite Hm. cbn [upsert_opts]. names. sims. constructor.
Qed.

Lemma vsearch_filters fl : ∀ o rest, vsearch_opts (filter_args fl ++ rest) o =
  vsearch_opts rest (mkVsearch (v_k o) (v_metric o) (foldl (λ m kv, <[kv.1 := kv.2]> m) (v_filter o) fl) (v_hybrid o)
                       (v_withScores o)).
Proof.
  induction fl as [|[k v] fl IH]; intros o rest; cbn [foldl]; [by destruct o|].
  unfold filter_args. cbn [mbind list_bind app fst snd]. cbn [vsearch_opts]. names. apply IH.
Qed.
Lemma foldl_insert_list (l : list (string * string)) : NoDup l.*1 → ∀ m : gmap string string,
  foldl (λ m kv, <[kv.1 := kv.2]> m) m l = list_to_map l ∪ m.
Proof.
  induction l as [|[k v] l IH]; intros Hnd m; cbn [foldl].
  - cbn [list_to_map foldr]. by rewrite (left_id_L ∅ (∪)).
  - rewrite fmap_cons in Hnd. apply NoDup_cons in Hnd as [Hk Hnd]. rewrite IH by done. cbn [list_to_map fst snd foldr].
    rewrite <- insert_union_r by (by apply not_elem_of_list_to_map_1). by rewrite insert_union_l.
Qed.
Lemma foldl_filter (m : gmap string string) : foldl (λ m kv, <[kv.1 := kv.2]> m) ∅ (map_to_list m) = m.
Proof.
  rewrite foldl_insert_list by apply NoDup_fst_map_to_list. by rewrite list_to_map_to_list, (right_id_L ∅ (∪)).
Qed.

Lemma render_matches {A} (f : A → string * float64) l :
  renders (inr (mcp.Matches (f <$> l))) (ArraySlice (l ≫= λ r, scored true (f r).1 (f r).2)).
Proof.
  replace (l ≫= _) with ((f <$> l) ≫= λ r, scored true r.1 r.2) by (by rewrite list_fmap_bind). constructor.
Qed.

Lemma doors_find_similar ns v vt k m filter w :
  let call := mcp.Find_similar (mcp.mkFindSimilar ns v (Some k) m filter) in
  authorised call w → parseVectorJSON vt = Some v → int64_range k → TrimSpace m = m → (m ≠ "" → ToUpper m ≠ "") →
  corresponds renders (mcp.CallTool call w)
    (handleVectorSearch
       (["VECTOR.SEARCH"; ns; vt; "K"; Itoa k] ++ opt "METRIC" m ++ filter_args (map_to_list filter) ++ ["WITHSCORES"])
       (counted_call call w)).
Proof.
  intros call Ha Hv Hk Hm Hu. cbn [mcp.CallTool call]. unfold mcp.findSimilar. rewrite (recorded_run _ _ call) by done.
  unfold handleVectorSearch. reads. rewrite guarded_ok by (by apply authorised_at). apply sim_at. reads. rewrite Hv. reads.
  cbn [vsearch_opts]. names. rewrite (Atoi_Itoa k Hk). cbn [v_k v_metric v_filter v_hybrid v_withScores mcp.fs_Metric].
  assert (E : ∀ metric0, vsearch_opts (filter_args (map_to_list filter) ++ ["WITHSCORES"]) (mkVsearch k metric0 ∅ None false) =
              inr (mkVsearch k metric0 filter None true)).
  { intros m0. rewrite vsearch_filters. cbn [vsearch_opts v_k v_metric v_filter v_hybrid v_withScores]. names.
    by rewrite foldl_filter. }
  assert (Hsim : ∀ m0, sim renders
    (do! results := VectorStore_Search ns v k m0 filter None in
     do! _ := metric metrics.VectorSearchPerformed in
     hret (inr (mcp.Matches ((λ r, (vector.ID r, vector.Score r)) <$> results))))
    (do! results := VectorStore_Search ns v k m0 filter None in
     do! _ := metric metrics.VectorSearchPerformed in
     hret (ArraySlice (results ≫= λ res, scored true (vector.ID res) (vector.Score res))))).
  { intros m0. sims. apply (render_matches (λ r, (vector.ID r, vector.Score r))). }
  unfold mcp.parseMetric, opt. rewrite Hm. destruct (String.eqb_spec m "") as [->|Hne]; cbn [app].
  - rewrite E. names. apply Hsim.
  - cbn [vsearch_opts]. names. unfold parseMetric. cbn [v_k v_filter v_hybrid v_withScores].
    destruct (String.eqb_spec (ToUpper m) "") as [E0|_]; [by destruct (Hu Hne)|]. cbn [orb].
    repeat (destruct (String.eqb (ToUpper m) _); [rewrite E; apply Hsim|]). apply sim_ret. constructor.
Qed.

Lemma doors_delete_vector ns id w :
  let call := mcp.Delete_vector (mcp.mkDeleteVector ns id) in
  authorised call w →
  corresponds renders (mcp.CallTool call w) (handleVectorDelete ["VECTOR.DELETE"; ns; id] (counted_call call w)).
Proof.
  intros call Ha. cbn [mcp.CallTool call]. unfold mcp.deleteVector. rewrite (recorded_run _ _ call) by done.
  unfold handleVectorDelete. reads. rewrite guarded_ok by (by apply authorised_at). apply sim_at. reads. sims. constructor.
Qed.

(** The options before METADATA and THRESHOLD, left out when empty. *)
Lemma put_spelled ws kind mt md ttl : parseMetadataJSON mt = Some md → int64_range ttl →
  put_opts false (opt "WORKSPACE" ws ++ opt "KIND" kind ++ ["METADATA"; mt; "TTL"; Itoa ttl])
    (mkPutopts "" defaultMemoryWorkspace defaultMemoryKind ∅ 0) =
  match mcp.kind_of mcp.defaultMemoryKind kind with
  | inl _ => inl (Err ErrSyntaxMsg)
  | inr k => inr (mkPutopts "" (mcp.or_default ws "default") k md (mcp.ttlFromSeconds ttl))
  end.
Proof.
  intros Hm Ht. unfold opt, mcp.or_default, mcp.kind_of.
  destruct (String.eqb ws ""), (String.eqb kind "");
    cbn [app put_opts p_id p_workspace p_kind p_metadata p_ttl]; names;
    try (destruct (memory.ParseKind kind); [|done]); rewrite Hm, (parseTTL_Itoa ttl Ht); done.
Qed.
Lemma kind_of_error d kind e : mcp.kind_of d kind = inl e → renders (inl e) (Err ErrSyntaxMsg).
Proof. unfold mcp.kind_of. repeat case_match; intros [= <-]. constructor. Qed.

Lemma doors_remember agent content ws kind md mt ttl w :
  let call := mcp.Remember (mcp.mkRemember agent content ws kind md ttl) in
  authorised call w → parseMetadataJSON mt = Some md → int64_range ttl →
  corresponds renders (mcp.CallTool call w)
    (handleAgentRemember
       (["AGENT.REMEMBER"; agent; content] ++ opt "WORKSPACE" ws ++ opt "KIND" kind ++ ["METADATA"; mt; "TTL"; Itoa ttl])
       (counted_call call w)).
Proof.
  intros call Ha Hm Ht. cbn [mcp.CallTool call]. unfold mcp.remember. rewrite (recorded_run _ _ call) by done.
  unfold handleAgentRemember. reads. rewrite (put_spelled _ _ _ _ _ Hm Ht). cbn [mcp.rm_Kind].
  destruct (mcp.kind_of mcp.defaultMemoryKind kind) as [e|k] eqn:Ek.
  { apply sim_at, sim_ret. by eapply kind_of_error. }
  unfold put_memory. cbn [p_workspace]. rewrite guarded_ok by (by apply authorised_at). apply sim_at. sims. constructor.
Qed.

Lemma recall_spelled agent ws kind k th t : int64_range k → ParseFloat t = Some th →
  search_opts true
    (opt "WORKSPACE" ws ++ opt "KIND" kind ++ (if k =? 0 then [] else ["K"; Itoa k]) ++ ["THRESHOLD"; t; "WITHSCORES"])
    (mkSearchopts agent defaultMemoryWorkspace None defaultMemorySearchK None false) =
  let found kd := inr (mkSearchopts agent (mcp.or_default ws "default") kd
                         (if k =? 0 then mcp.defaultMemorySearchK else k) (Some th) true) in
  if String.eqb kind "" then found None
  else match memory.ParseKind kind with None => inl (Err ErrSyntaxMsg) | Some kd => found (Some kd) end.
Proof.
  intros Hk Ht. cbv zeta. unfold opt, mcp.or_default.
  destruct (String.eqb ws ""), (String.eqb kind "");
    cbn [app search_opts s_agent s_workspace s_kind s_k s_threshold s_withScores]; names;
    try (destruct (memory.ParseKind kind); [|done]); destruct (k =? 0);
    cbn [app search_opts s_agent s_workspace s_kind s_k s_threshold s_withScores]; names;
    rewrite ?(Atoi_Itoa k Hk); names; rewrite Ht; done.
Qed.

Lemma doors_recall agent q ws kind k th t w :
  let call := mcp.Recall (mcp.mkRecall agent q ws kind k (Some th)) in
  authorised call w → int64_range k → ParseFloat t = Some th →
  corresponds renders (mcp.CallTool call w)
    (handleAgentRecall
       (["AGENT.RECALL"; agent; q] ++ opt "WORKSPACE" ws ++ opt "KIND" kind ++
        (if k =? 0 then [] else ["K"; Itoa k]) ++ ["THRESHOLD"; t; "WITHSCORES"])
       (counted_call call w)).
Proof.
  intros call Ha Hk Ht. cbn [mcp.CallTool call]. unfold mcp.recall. rewrite (recorded_run _ _ call) by done.
  unfold handleAgentRecall. reads. rewrite (recall_spelled _ _ _ _ _ _ Hk Ht). cbv zeta.
  cbn [mcp.rc_Kind mcp.rc_K mcp.rc_Workspace mcp.rc_AgentID mcp.rc_Query mcp.rc_Threshold].
  destruct (String.eqb kind ""); [|destruct (memory.ParseKind kind); [|apply sim_at, sim_ret; constructor]];
    cbn [s_workspace]; (rewrite guarded_ok by (by apply authorised_at)); apply sim_at; unfold search_memory; sims;
    apply (render_matches (λ r, (memory.sr_ID r, memory.sr_Score r))).
Qed.

Lemma doors_history ws id limit w :
  let call := mcp.Memory_history (mcp.mkHistory ws id limit) in
  authorised call w → int64_range limit → (∀ kvs, Marshal (JObject (map (λ kv, (kv.1, JString kv.2)) kvs)) ≠ None) →
  corresponds renders (mcp.CallTool call w)
    (handleMemoryHistory ["MEMORY.HISTORY"; mcp.or_default ws "default"; id; "LIMIT"; Itoa limit] (counted_call call w)).
Proof.
  intros call Ha Hl Hj. cbn [mcp.CallTool call]. unfold mcp.memoryHistory. rewrite (recorded_run _ _ call) by done.
  unfold handleMemoryHistory. reads. rewrite guarded_ok by (by apply authorised_at). apply sim_at.
  unfold history_limit. cbn [drop]. change (EqualFold "LIMIT" "LIMIT") with true. cbn [negb]. rewrite (Atoi_Itoa _ Hl).
  cbn [mcp.mh_Limit mcp.mh_Workspace mcp.mh_ID]. sims.
  assert (Hi : ∀ l, ∃ items, history_items l = Some items).
  { induction l as [|m l [items IH]]; [by eexists|]. cbn [history_items]. unfold memoryFieldsReply.
    specialize (Hj (map_to_list (memory.Metadata m))). destruct (Marshal _); [|done]. rewrite IH. by eexists. }
  destruct x as [|m l].
  - assert (E : limit_versions limit (@nil memory.Memory) = []) 
      by (unfold limit_versions; case_match; by rewrite ?drop_nil).
    rewrite E. apply sim_ret. constructor.
  - destruct (Hi (limit_versions limit (m :: l))) as [items E]. rewrite E. apply sim_ret. constructor; [|done].
    unfold limit_versions. destruct (Z.ltb_spec 0 limit), (Z.ltb_spec limit (len (m :: l))); cbn [andb]; try done.
    intros Hd%(f_equal length). rewrite length_drop in Hd. unfold len in *. cbn [length] in *. lia.
Qed.

Lemma summary_spelled ws kind th t : ParseFloat t = Some th →
  summary_opts (opt "WORKSPACE" ws ++ opt "KIND" kind ++ ["DEDUP_THRESHOLD"; t])
    (mkSumopts defaultMemoryWorkspace defaultSummaryKind f64_zero) =
  match mcp.kind_of mcp.defaultSummaryKind kind with
  | inl _ => inl (Err ErrSyntaxMsg)
  | inr k => inr (mkSumopts (mcp.or_default ws "default") k th)
  end.
Proof.
  intros Ht. unfold opt, mcp.or_default, mcp.kind_of.
  destruct (String.eqb ws ""), (String.eqb kind "");
    cbn [app summary_opts u_workspace u_kind u_threshold]; names;
    try (destruct (memory.ParseKind kind); [|done]); rewrite Ht; done.
Qed.
Lemma doors_consolidate agent ws kind th t w : ParseFloat t = Some th →
  let call := mcp.Consolidate_ (mcp.mkConsolidate agent ws kind th) in
  corresponds renders (mcp.CallTool call w)
    (handleSummaryCreate
       (["SUMMARY.CREATE"; agent] ++ opt "WORKSPACE" ws ++ opt "KIND" kind ++ ["DEDUP_THRESHOLD"; t])
       (counted_call call w)).
Proof.
  intros Ht call. cbn [mcp.CallTool call]. unfold mcp.consolidate_. rewrite (recorded_run _ _ call) by done.
  apply sim_at. unfold handleSummaryCreate. reads. rewrite (summary_spelled _ _ _ _ Ht). cbn [mcp.cn_Kind].
  destruct (mcp.kind_of mcp.defaultSummaryKind kind) as [e|k] eqn:Ek; [apply sim_ret; by eapply kind_of_error|].
  sims. match goal with r : consolidate.Result |- _ => destruct r as [id n m] end. cbn.
  destruct (Z.eqb_spec n 0) as [->|Hn]; [apply rn_no_summary|by apply rn_summary].
Qed.

Lemma doors_extract ws id w :
  let call := mcp.Extract_entities (mcp.mkExtract ws id) in
  authorised call w →
  corresponds renders (mcp.CallTool call w)
    (handleGraphExtract ["GRAPH.EXTRACT"; mcp.or_default ws "default"; id] (counted_call call w)).
Proof.
  intros call Ha. cbn [mcp.CallTool call]. unfold mcp.extractEntities. rewrite (recorded_run _ _ call) by done.
  unfold handleGraphExtract. reads. rewrite guarded_ok by (by apply authorised_at). apply sim_at. sims; constructor.
Qed.

Lemma doors_related ws id depth w :
  let call := mcp.Find_related (mcp.mkRelated ws id depth) in
  authorised call w → int64_range depth → 0 < depth →
  corresponds renders (mcp.CallTool call w)
    (handleGraphRelated ["GRAPH.RELATED"; mcp.or_default ws "default"; id; "DEPTH"; Itoa depth] (counted_call call w)).
Proof.
  intros call Ha Hd Hp. cbn [mcp.CallTool call]. unfold mcp.findRelated. rewrite (recorded_run _ _ call) by done.
  unfold handleGraphRelated. reads. rewrite guarded_ok by (by apply authorised_at). apply sim_at. reads.
  cbn [related_opts]. names. rewrite (Atoi_Itoa _ Hd). replace (depth <=? 0) with false by (symmetry; apply Z.leb_gt; lia).
  cbn [mcp.fr_Depth]. replace (depth <=? 0) with false by (symmetry; apply Z.leb_gt; lia). sims.
  match goal with |- renders (inr (mcp.Related (?f <$> ?l))) (ArraySlice (?g <$> ?l)) =>
    replace (g <$> l) with ((λ r, BulkString r.1.1) <$> (f <$> l)) by (by rewrite <- list_fmap_compose) end.
  constructor.
Qed.
End tools.

(** C12: MCP tools and RESP commands are two front doors onto the same state.  A
    tool call and a command that spells the same request, on a connection that
    is authorised for the workspace if the command checks one, lead from the
    world with the call counted to the same world, and the reply says what the
    tool's answer says, errors included.  The tool itself checks no
    authorisation. *)
Theorem mcp_matches_resp `{Runtime} `{FloatText} `{KeyCodec} `{ServicesLaws} `{Encoding} c args w :
  spells c args → authorised c w →
  (∀ kvs, Marshal (JObject (map (λ kv, (kv.1, JString kv.2)) kvs)) ≠ None) →
  ∃ a r w', mcp.CallTool c w = (Some a, w') ∧ handler_of c args (counted_call c w) = (Some r, w') ∧ renders a r.
Proof.
  intros Hs Ha Hj. destruct (CallTool_framed c w) as (a & w' & E & _).
  assert (HC : corresponds renders (mcp.CallTool c w) (handler_of c args (counted_call c w))).
  { destruct Hs; cbn [handler_of].
    - by apply doors_semantic_set.
    - apply doors_semantic_get. right. by exists t, th.
    - rewrite <- (app_nil_r (opt "TEMP" temp)). apply doors_semantic_get. by left.
    - by apply doors_prompt_set.
    - by apply doors_prompt_get.
    - by apply doors_tool_set.
    - by apply doors_tool_get.
    - by apply doors_store_vector.
    - by apply doors_find_similar.
    - by apply doors_delete_vector.
    - by apply doors_remember.
    - by apply doors_recall.
    - by apply doors_history.
    - by apply doors_consolidate.
    - by apply doors_extract.
    - by apply doors_related. }
  rewrite E in HC |- *. destruct HC as [Hw HR]. cbn [fst snd] in Hw, HR.
  destruct (handler_of c args (counted_call c w)) as [[r|] w2]; [|done]. cbn [fst snd] in Hw, HR. subst w2. by exists a, r, w'.
Qed.

(** ** A memory of workspace b, through both doors *)

#[local] Instance doors_runtime : Runtime := plain_runtime Z.of_nat.
#[local] Instance doors_floats : FloatText := {| ParseFloat := λ _, None; FormatFloat := λ _, "" |}.
#[local] Existing Instance toy_codec.
#[local] Instance doors_rand : RandSource := {| Float64 := λ _ _, f64_lit 3 4 |}.
#[local] Instance doors_services : Services := {|
  embedder := λ _, embed_mock.provider (embed_mock.NewMock 2); embedder_Name := embed_mock.Name;
  completer := λ _, llm_mock.Complete; completer_Name := llm_mock.Name;
  newID := λ n, Some "generated"; errText := λ _, "" |}.
#[local] Instance doors_services_laws : ServicesLaws := mock_laws _ _ _ _.
#[local] Instance doors_encoding : Encoding := {|
  Unmarshal := λ _, Some (JObject []); Marshal := λ _, Some "{}"; UnmarshalExtraction := λ _, None;
  FormatRFC3339 := λ _, "" |}.

Definition doors_world : World :=
  mkWorld (newDeps (newStore 4 0 None) (auth.NewMultiWorkspace [auth.mkCredential "b" "pb"]))
    (set_Workspace "b" NewClientState) 0 0.
Definition doors_call : mcp.call := mcp.Remember (mcp.mkRemember "g" "note" "b" "" ∅ 60).

Lemma mcp_matches_resp_witness :
  (mcp.CallTool doors_call doors_world).1 = Some (inr (mcp.Stored "generated")) ∧
  ∃ a r w', mcp.CallTool doors_call doors_world = (Some a, w') ∧
    handleAgentRemember ["AGENT.REMEMBER"; "g"; "note"; "WORKSPACE"; "b"; "METADATA"; "{}"; "TTL"; "60"]
      (counted_call doors_call doors_world) = (Some r, w') ∧ renders a r.
Proof.
  split; [vm_compute; reflexivity|].
  apply (mcp_matches_resp doors_call
           ["AGENT.REMEMBER"; "g"; "note"; "WORKSPACE"; "b"; "METADATA"; "{}"; "TTL"; "60"] doors_world).
  - apply (sp_remember "g" "note" "b" "" ∅ "{}" 60); [reflexivity|split; vm_compute; discriminate].
  - intros ws [= <-]. reflexivity.
  - discriminate.
Defined.

(** The MCP tool trims the metric's name, which the command does not. *)
Lemma metric_names_differ : mcp.parseMetric " cosine" = inr vector.Cosine ∧ parseMetric " cosine" = None.
Proof. split; reflexivity. Qed.

(** No authorisation stands in front of a tool: a connection of workspace a is
    refused by the command, and the same request through MCP is served. *)
Lemma mcp_serves_any_workspace :
  let w := mkWorld (deps doors_world) (set_Workspace "a" NewClientState) 0 0 in
  (handleAgentRemember ["AGENT.REMEMBER"; "g"; "note"; "WORKSPACE"; "b"] w).1 =
    Some (Err (ErrWorkspaceNotAuthorized "b")) ∧
  (mcp.CallTool doors_call w).1 = Some (inr (mcp.Stored "generated")).
Proof. split; vm_compute; reflexivity. Qed.

Lemma mcp_call_spec_witness :
  ∃ a w', mcp.CallTool doors_call doors_world = (Some a, w') ∧
    let m := Metrics_ (deps doors_world) in let m' := Metrics_ (deps w') in
    metrics.mcpCallsByTool m' =
      <[tool_name doors_call := wrap64 (default 0 (metrics.mcpCallsByTool m !! tool_name doors_call) + 1)]>
        (metrics.mcpCallsByTool m) ∧
    metrics.counters m' metrics.mcpCallsTotal = wrap64 (metrics.counters m metrics.mcpCallsTotal + 1) ∧
    Engine (deps w') = Engine (deps doors_world) ∧ Auth (deps w') = Auth (deps doors_world) ∧
    PubSub_ (deps w') = PubSub_ (deps doors_world) ∧
    cs w' = cs doors_world ∧ me w' = me doors_world.
Proof. exact (mcp_call_spec doors_call doors_world). Defined.
