(* ===== verification/Session.v ===== *)
(** * Transactions, the command table and the connection loop
    (internal/server/resp/handlers_tx.go, registry_all.go,
    metrics_family.go, conn.go)

    [Handle] ties the knot between the registry and EXEC, which dispatches
    the queued commands again.  [HandleConn] is the loop of one connection
    over the bytes its client sends. *)

From S2P Require Import Prelude.
From S2P Require Import GoStd.
From S2P Require Import Shard.
From S2P Require Import Store.
From S2P Require Import Caches.
From S2P Require Import Metrics.
From S2P Require Import Providers.
From S2P Require Import RespCodec.
From S2P Require Import PubSub.
From S2P Require Import Server.
From S2P Require Import HandlersKV.
From S2P Require Import HandlersData.
From S2P Require Import HandlersCache.
From S2P Require Import HandlersVector.
From S2P Require Import HandlersMemory.
From S2P Require Import HandlersPubSub.

Open Scope Z_scope.
Open Scope go_scope.

Section tx.
Context `{Runtime}.

(** ** handlers_tx.go *)

Definition handleMulti : HandlerFunc := λ args,
  do! c := get_cs in
  if InMulti c then hret (Err "ERR MULTI calls can not be nested")
  else do! _ := put_cs (set_Multi true false []) in hret OK.

Definition handleDiscard : HandlerFunc := λ args,
  do! c := get_cs in
  if negb (InMulti c) then hret (Err "ERR DISCARD without MULTI")
  else do! _ := put_cs (λ c, set_Watched ∅ (set_Multi false false [] c)) in hret OK.

Definition engine_version (key : string) : H Z := engineN 0 (λ _ ws, WatchVersion ws key).

Fixpoint watch_loop (keys : list string) : H unit :=
  match keys with
  | [] => hret tt
  | key :: keys =>
      do! ver := engine_version key in
      do! _ := put_cs (λ c, set_Watched (<[key := ver]> (Watched c)) c) in
      watch_loop keys
  end.
Definition handleWatch : HandlerFunc := λ args,
  do! c := get_cs in
  if InMulti c then hret (Err "ERR WATCH inside MULTI is not allowed") else
  do! keys := args_from args 1 in
  do! _ := watch_loop keys in
  hret OK.

Definition handleUnwatch : HandlerFunc := λ args,
  do! _ := put_cs (set_Watched ∅) in hret OK.

(** Whether every watched key still has its version; ranging over the map in
    any order gives the same answer. *)
Fixpoint unchanged (watched : list (string * Z)) : H bool :=
  match watched with
  | [] => hret true
  | (key, ver) :: watched =>
      do! v := engine_version key in
      if negb (v =? ver) then hret false else unchanged watched
  end.

(** The queued commands, dispatched one after the other.  Writing a nil reply
    inside the array would be a nil function call. *)
Fixpoint exec_loop (handle : list string → H (option Reply)) (queued : list (list string)) : H (list Reply) :=
  match queued with
  | [] => hret []
  | qargs :: queued =>
      do! r := handle qargs in
      match r with
      | None => hpanic
      | Some r => do! replies := exec_loop handle queued in hret (r :: replies)
      end
  end.

Definition ErrExecAbort : string := "EXECABORT Transaction discarded because of previous errors.".

(** [Engine.Exec] runs the loop while holding the transaction mutex. *)
Definition handleExec (handle : list string → H (option Reply)) : HandlerFunc := λ args,
  do! c := get_cs in
  if negb (InMulti c) then hret (Err "ERR EXEC without MULTI") else
  do! _ := put_cs (λ c, set_Watched ∅ (set_Multi false false [] c)) in
  if MultiError c then hret (Err ErrExecAbort) else
  do! ok := unchanged (map_to_list (Watched c)) in
  if negb ok then hret NullArray else
  do! replies := exec_loop handle (Queued c) in
  hret (ArraySlice replies).

Definition RegisterTx (handle : list string → H (option Reply)) : list Command := [
  mkCommand "MULTI" 1 1 false true handleMulti;
  mkCommand "EXEC" 1 1 false true (handleExec handle);
  mkCommand "DISCARD" 1 1 false true handleDiscard;
  mkCommand "WATCH" 2 (-1) false true handleWatch;
  mkCommand "UNWATCH" 1 1 false true handleUnwatch].

(** ** registry_all.go *)

Context `{FloatText} `{KeyCodec} `{Services} `{Encoding}.

Definition commands (handle : list string → H (option Reply)) (count : Z) : list Command :=
  RegisterConn count ++ RegisterGeneric ++ RegisterString ++ RegisterHash ++ RegisterList ++
  RegisterSet ++ RegisterZSet ++ RegisterPubSub ++ RegisterTx handle ++ RegisterSemantic ++ RegisterToolCache ++
  RegisterVector ++ RegisterMemory ++ RegisterAgent ++ RegisterConsolidate ++ RegisterGraph.
Definition RegisterAll (handle : list string → H (option Reply)) (count : Z) : Registry :=
  foldl (λ r c, Register c r) NewRegistry (commands handle count).
(** [len(Registry.commands)] *)
Definition commandCount : Z := Z.of_nat (size (RegisterAll (λ _, hpanic) 0)).

(** EXEC dispatches queued commands, none of which can be EXEC again: two
    levels are enough. *)
Fixpoint Handle (fuel : nat) (args : list string) : H (option Reply) :=
  match fuel with
  | O => hpanic
  | S fuel => dispatch (RegisterAll (Handle fuel) commandCount) args
  end.

(** ** metrics_family.go *)

Definition coreFamilies : gmap string string :=
  let family (f : string) (names : list string) := (λ n, (n, f)) <$> names in
  list_to_map (
    family "connection" ["PING"; "ECHO"; "SELECT"; "HELLO"; "AUTH"; "CLIENT"; "COMMAND"; "INFO"; "QUIT"] ++
    family "generic" ["DEL"; "EXISTS"; "EXPIRE"; "PEXPIRE"; "TTL"; "PTTL"; "PERSIST"; "TYPE"; "KEYS"; "SCAN"; "RENAME";
                      "FLUSHDB"; "FLUSHALL"] ++
    family "strings" ["GET"; "SET"; "MGET"; "MSET"; "INCR"; "INCRBY"; "DECR"; "DECRBY"; "APPEND"; "STRLEN"] ++
    family "hash" ["HSET"; "HGET"; "HGETALL"; "HDEL"; "HEXISTS"; "HKEYS"; "HVALS"; "HLEN"; "HMGET"; "HINCRBY"] ++
    family "list" ["LPUSH"; "RPUSH"; "LPOP"; "RPOP"; "LRANGE"; "LLEN"; "LINDEX"; "LSET"; "LREM"] ++
    family "set" ["SADD"; "SREM"; "SMEMBERS"; "SISMEMBER"; "SCARD"; "SINTER"; "SUNION"; "SDIFF"] ++
    family "sorted-set" ["ZADD"; "ZREM"; "ZRANGE"; "ZREVRANGE"; "ZSCORE"; "ZRANK"; "ZCARD"; "ZINCRBY"; "ZRANGEBYSCORE"] ++
    family "pubsub" ["SUBSCRIBE"; "UNSUBSCRIBE"; "PUBLISH"; "PSUBSCRIBE"] ++
    family "transactions" ["MULTI"; "EXEC"; "DISCARD"; "WATCH"; "UNWATCH"]).
Definition moduleFamilies : gmap string string :=
  list_to_map [("CACHE", "semantic-cache"); ("TOOL", "tool-cache"); ("VECTOR", "vector");
               ("MEMORY", "agent-memory"); ("AGENT", "agent-memory")].

(** [upper[:i]] for the index [i] of the first dot. *)
Fixpoint before_dot (s : string) : option string :=
  match s with
  | EmptyString => None
  | String c s => if Ascii.eqb c "." then Some "" else String c <$> before_dot s
  end.
Definition commandFamily (name : string) : string :=
  let upper := ToUpper name in
  match before_dot upper with
  | Some m => match moduleFamilies !! m with Some fam => fam | None => ToLower m end
  | None => match coreFamilies !! upper with Some fam => fam | None => "other" end
  end.

(** ** conn.go

    The forwarder's pushes ([pubsub.receive]) are written under the same lock
    as the replies, between them; they are not part of the output here. *)

(** After a command that began at [start]: its latency, and the count. *)
Definition executed (args : list string) (start : time) (w : World) : World :=
  let since := time_Sub (clock (ticks w)) start in
  let m := metrics.RecordCommandLatency (commandFamily (default "" (head args))) since (Metrics_ (deps w)) in
  set_deps (set_Metrics (metrics.CommandExecuted m) (deps w)) w.

Definition writeReply (r : option Reply) : string := match r with None => "" | Some r => write r end.

(** The deferred calls, in the order they run. *)
Definition teardown (w : World) : World :=
  let d := set_PubSub (pubsub.cleanupSubscriptions (me w) (PubSub_ (deps w))) (deps w) in
  set_deps (set_Metrics (metrics.ConnectionClosed (Metrics_ d)) d) w.

(** How a connection ended, the bytes its client was sent, and the world. *)
Inductive ended := Closed (sent : string) (w : World) | Crashed.

(** What the network decides: whether bytes beyond the ones consumed have
    arrived ([more], for the unread part of the stream), how many bytes the
    full write buffer pushed out early ([spill]), and whether writing fails,
    with how many more bytes delivered ([broken]). *)
Class Network := {
  more : string → bool;
  spill : string → nat;
  broken : string → option nat;
}.
Class NetworkLaws `{Network} := { more_end : more "" = false }.

Fixpoint conn_loop `{Network} (fuel : nat) (s : string) (w : World) (buf sent : string) : ended :=
  match fuel with
  | O => Crashed
  | S fuel =>
      match ReadCommand s with
      | ReadErr _ => Closed sent w
      | ReadPanic => Crashed
      | Got [] s => conn_loop fuel s w buf sent
      | Got args s =>
          let start := clock (ticks w) in
          match Handle 2 args w with
          | (None, _) => Crashed
          | (Some r, w) =>
              let w := executed args start w in
              let buf := buf +:+ writeReply r in
              match broken s with
              | Some n => Closed (sent +:+ String.substring 0 n buf) w
              | None =>
                  if Quit (cs w) then Closed (sent +:+ buf) w
                  else if more s then
                    conn_loop fuel s w (String.substring (spill s) (String.length buf) buf)
                              (sent +:+ String.substring 0 (spill s) buf)
                  else conn_loop fuel s w "" (sent +:+ buf)
              end
          end
      end
  end.

(** A connection that was just accepted, with the whole of its client's bytes. *)
Definition accept_conn (conn_id : pubsub.conn) (d : Deps) (t : nat) : World :=
  mkWorld (set_Metrics (metrics.ConnectionOpened (Metrics_ d)) d) NewClientState conn_id t.
Definition HandleConn `{Network} (fuel : nat) (s : string) (conn_id : pubsub.conn) (d : Deps) (t : nat) : ended :=
  match conn_loop fuel s (accept_conn conn_id d t) "" "" with
  | Closed sent w => Closed sent (teardown w)
  | Crashed => Crashed
  end.
End tx.
