(* ===== verification/SessionSpec.v ===== *)
(** * Command dispatch never panics, and what EXEC does

    A handler's Hoare triples, the safety of every registered handler under
    its declared arity, the queue invariant of MULTI, and the properties of
    the connection loop. *)

From S2P Require Import Prelude.
From S2P Require Import GoStd.
From S2P Require Import Auth.
From S2P Require Import Shard.
From S2P Require Import Store.
From S2P Require Import Similarity.
From S2P Require Import Caches.
From S2P Require Import Semantic.
From S2P Require Import Memory.
From S2P Require Import Graph.
From S2P Require Import Providers.
From S2P Require Import RespCodec.
From S2P Require Import PubSub.
From S2P Require Import Server.
From S2P Require Import HandlersKV.
From S2P Require Import HandlersData.
From S2P Require Import Calls.
From S2P Require Import HandlersCache.
From S2P Require Import HandlersVector.
From S2P Require Import HandlersMemory.
From S2P Require Import HandlersPubSub.
From S2P Require Import Session.

Open Scope Z_scope.
Open Scope go_scope.

(** ** Panic-free computations *)

(** From a world in [P], [m] returns, in a world in [P]. *)
Definition safe {A} (P : World → Prop) (m : H A) : Prop :=
  ∀ w, P w → ∃ a w', m w = (Some a, w') ∧ P w'.

(** The broker is sound, and this connection's channel is not closed. *)
Definition session_ok (w : World) : Prop :=
  broker_ok (PubSub_ (deps w)) ∧ issuing (me w) (PubSub_ (deps w)).

Definition with_broker (p : pubsub.PubSub) (w : World) : World := set_deps (set_PubSub p (deps w)) w.

(** [P] looks at the connection's transaction state and at the broker only,
    which it requires to be sound and lets make steps. *)
Record on_tx (P : World → Prop) : Prop := {
  ot_same w w' : InMulti (cs w) = InMulti (cs w') → Queued (cs w) = Queued (cs w') →
    PubSub_ (deps w) = PubSub_ (deps w') → me w = me w' → P w → P w';
  ot_ok w : P w → session_ok w;
  ot_step w p' : P w → step (PubSub_ (deps w)) p' → issuing (me w) p' → P (with_broker p' w);
}.

Section safe.
Context (P : World → Prop) (HP : on_tx P).

Lemma safe_ret {A} (a : A) : safe P (hret a).
Proof. intros w Hw. by exists a, w. Qed.
Lemma safe_bind {A B} (m : H A) (k : A → H B) : safe P m → (∀ a, safe P (k a)) → safe P (hbind m k).
Proof.
  intros Hm Hk w Hw. destruct (Hm w Hw) as (a & w1 & E & Hw1). unfold hbind, bind. rewrite E. by apply Hk.
Qed.
Lemma safe_arg args i : (i < length args)%nat → safe P (arg args i).
Proof.
  intros Hi. unfold arg. destruct (lookup_lt_is_Some_2 args i Hi) as [a ->]. apply safe_ret.
Qed.
Lemma safe_args_from args i : (i ≤ length args)%nat → safe P (args_from args i).
Proof. intros Hi. unfold args_from. rewrite decide_True by done. apply safe_ret. Qed.
Lemma safe_get_cs : safe P get_cs.
Proof. intros w Hw. by exists (cs w), w. Qed.
Lemma safe_get_Auth : safe P get_Auth.
Proof. intros w Hw. by exists (Auth (deps w)), w. Qed.
Lemma safe_put_cs f : (∀ c, InMulti (f c) = InMulti c ∧ Queued (f c) = Queued c) → safe P (put_cs f).
Proof using HP.
  intros Hf w Hw. eexists _, _. split; [reflexivity|]. destruct (Hf (cs w)) as [E1 E2].
  by apply (ot_same P HP w).
Qed.
Lemma safe_engineN {A} n (f : nat → string → StoreM A) : safe P (engineN n f).
Proof using HP.
  intros w Hw. unfold engineN. destruct (f (ticks w) (Workspace (cs w)) (Engine (deps w))) as [a e].
  eexists _, _. split; [reflexivity|]. by apply (ot_same P HP w).
Qed.
Lemma safe_on {C A} (sel : Deps → C) upd (f : nat → C → A * C) :
  (∀ c d, PubSub_ (upd c d) = PubSub_ d) → safe P (on sel upd f).
Proof using HP.
  intros Hu w Hw. unfold on. destruct (f (ticks w) (sel (deps w))) as [a c].
  eexists _, _. split; [reflexivity|]. apply (ot_same P HP w); try done. cbn. by rewrite Hu.
Qed.
(** A component that does not panic. *)
Lemma safe_on_check {C A} (sel : Deps → C) upd (f : nat → C → outcome A * C) :
  (∀ c d, PubSub_ (upd c d) = PubSub_ d) → (∀ n c, (f n c).1 ≠ Panic) →
  safe P (hbind (on sel upd f) check_panic).
Proof using HP.
  intros Hu Hf w Hw. unfold hbind, bind, on. specialize (Hf (ticks w) (sel (deps w))).
  assert (HP' : ∀ c, P (mkWorld (upd c (deps w)) (cs w) (me w) (S (ticks w))))
    by (intros c; apply (ot_same P HP w); try done; cbn; by rewrite Hu).
  destruct (f (ticks w) (sel (deps w))) as [[a| |] c]; [..|done]; by eexists _, _.
Qed.
Lemma safe_metric f : safe P (metric f).
Proof using HP. intros w Hw. eexists _, _. split; [reflexivity|]. by apply (ot_same P HP w). Qed.
Lemma safe_analytic f : safe P (analytic f).
Proof using HP. intros w Hw. eexists _, _. split; [reflexivity|]. by apply (ot_same P HP w). Qed.
Lemma safe_handleInfo `{Runtime} args : safe P (handleInfo args).
Proof using HP. intros w Hw. by eexists _, _. Qed.

(** ** The broker *)

Lemma safe_broker {A} (f : nat → pubsub.conn → pubsub.PubSub → A * pubsub.PubSub) :
  (∀ w, P w → let p := PubSub_ (deps w) in let p' := (f (ticks w) (me w) p).2 in
     p' = p ∨ step p p' ∧ issuing (me w) p') →
  safe P (broker f).
Proof using HP.
  intros Hf w Hw. unfold broker, on. specialize (Hf w Hw). cbv zeta in Hf.
  destruct (f (ticks w) (me w) (PubSub_ (deps w))) as [a p'] eqn:E.
  eexists _, _. split; [reflexivity|]. cbn [snd] in Hf. destruct Hf as [->|[Hs Hi]].
  - by apply (ot_same P HP w).
  - apply (ot_same P HP (with_broker p' w)); try done. by apply (ot_step P HP).
Qed.
End safe.

Create HintDb safe.
#[export] Hint Resolve safe_ret safe_get_cs safe_get_Auth safe_engineN safe_metric safe_analytic safe_handleInfo : safe.
#[export] Hint Extern 1 (safe _ (on _ _ _)) => (apply safe_on; [assumption|reflexivity]) : safe.
#[export] Hint Extern 1 (safe _ (arg _ _)) => (apply safe_arg; unfold len in *; lia) : safe.
#[export] Hint Extern 1 (safe _ (args_from _ _)) => (apply safe_args_from; unfold len in *; lia) : safe.
#[export] Hint Extern 1 (safe _ (put_cs _)) => (apply safe_put_cs; [assumption|intros; split; reflexivity]) : safe.

(** Walks through a handler: binds, case analyses, and the hints at the leaves. *)
Ltac safe_step :=
  match goal with
  | |- safe _ (hbind _ _) => apply safe_bind; [|intros ?]
  | |- safe _ (engine _) => unfold engine
  | |- safe _ (let '(_, _) := ?x in _) => destruct x
  | |- safe _ (match ?x with _ => _ end) => destruct x eqn:?
  | |- safe _ _ => solve [auto with safe]
  end.
Ltac safe_tac := repeat safe_step.

Lemma arity_min c n : arityOK c n = true → MinArgs c ≤ n ∧ (0 ≤ MaxArgs c → n ≤ MaxArgs c).
Proof.
  unfold arityOK. destruct (Z.ltb_spec n (MinArgs c)); [done|].
  destruct (Z.leb_spec 0 (MaxArgs c)), (Z.ltb_spec (MaxArgs c) n); cbn; intros; try done; lia.
Qed.

(** The handler is safe on every argument list its arity admits. *)
Definition good (P : World → Prop) (c : Command) : Prop :=
  ∀ args, arityOK c (len args) = true → safe P (Handler c args).

Lemma good_intro P nm lo hi b1 b2 h :
  (∀ args, lo ≤ len args → (0 ≤ hi → len args ≤ hi) → safe P (h args)) → good P (mkCommand nm lo hi b1 b2 h).
Proof. intros Hh args Ha%arity_min. apply Hh; apply Ha. Qed.

Ltac good_list := repeat (apply Forall_cons; split); try apply Forall_nil_2;
  apply good_intro; intros args Hlo Hhi; unfold len in *.

Section handlers.
Context `{Runtime} `{FloatText} `{KeyCodec}.
Context (P : World → Prop) (HP : on_tx P).

Lemma safe_authenticate pw : safe P (authenticate pw).
Proof using HP. unfold authenticate. safe_tac. Qed.
Hint Resolve safe_authenticate : safe.

Lemma safe_hello_opts args : safe P (hello_opts args).
Proof using HP.
  induction args as [args IH] using (induction_ltof1 _ length). unfold ltof in IH.
  destruct args as [|opt args]; cbn [hello_opts]; [safe_tac|]. repeat case_match; simplify_eq/=; safe_tac.
Qed.
Hint Resolve safe_hello_opts : safe.

Lemma RegisterConn_good n : Forall (good P) (RegisterConn n).
Proof using HP.
  good_list.
  - unfold handlePing. safe_tac.
  - unfold handleEcho. safe_tac.
  - unfold handleSelect. safe_tac.
  - unfold handleHello. safe_tac.
  - unfold handleAuth. safe_tac.
  - unfold handleClient. safe_tac.
  - unfold handleCommand. safe_tac.
  - safe_tac.
  - unfold handleQuit. safe_tac.
Qed.

Lemma RegisterGeneric_good : Forall (good P) RegisterGeneric.
Proof using HP.
  good_list; [unfold handleDel|unfold handleExists|unfold handleExpire|unfold handlePExpire|unfold handleTTL
    |unfold handlePTTL|unfold handlePersist|unfold handleType|unfold handleKeys|unfold handleScan
    |unfold handleRename|unfold handleFlushDB|unfold handleFlushAll]; safe_tac.
Qed.

Lemma safe_mget_loop keys : safe P (mget_loop keys).
Proof using HP. induction keys; cbn [mget_loop]; safe_tac. Qed.
(** Two by two, an even number of arguments never runs out in the middle. *)
Lemma even_ind (Q : list string → Prop) :
  Q [] → (∀ a b l, len l `mod` 2 = 0 → Q l → Q (a :: b :: l)) → ∀ l, len l `mod` 2 = 0 → Q l.
Proof.
  intros HQ0 HQ2 l. induction l as [l IH] using (induction_ltof1 _ length). unfold ltof in IH.
  destruct l as [|a [|b l]]; intros Hl; [done|vm_compute in Hl; discriminate|].
  assert (Hl' : len l `mod` 2 = 0).
  { revert Hl. unfold len. cbn [length]. rewrite !Nat2Z.inj_succ.
    replace (Z.succ (Z.succ (Z.of_nat (length l)))) with (Z.of_nat (length l) + 1 * 2) by lia.
    by rewrite Z_mod_plus_full. }
  apply HQ2; [done|]. apply IH; [simpl; lia|done].
Qed.
Lemma safe_mset_loop pairs : len pairs `mod` 2 = 0 → safe P (mset_loop pairs).
Proof using HP.
  revert pairs. apply even_ind; cbn [mset_loop]; [safe_tac|]. intros k v pairs _ IH.
  unfold engine_Set. safe_tac.
Qed.
Lemma safe_incrBy key d : safe P (incrBy key d).
Proof using HP. unfold incrBy, engine_Set. safe_tac. Qed.
Hint Resolve safe_mget_loop safe_incrBy : safe.

Lemma RegisterString_good : Forall (good P) RegisterString.
Proof using HP.
  good_list; [unfold handleGet|unfold handleSet, engine_Set|unfold handleMGet|unfold handleMSet|unfold handleIncr
    |unfold handleIncrBy|unfold handleDecr|unfold handleDecrBy|unfold handleAppend, engine_Set|unfold handleStrlen]; safe_tac.
  apply safe_mset_loop. by apply Z.eqb_eq, negb_false_iff.
Qed.

Lemma hset_fields_even pairs m : len pairs `mod` 2 = 0 → is_Some (hset_fields pairs m).
Proof. intros Hp. revert pairs Hp m. apply (even_ind (λ pairs, ∀ m, is_Some (hset_fields pairs m))); cbn; eauto. Qed.
Lemma zadd_members_even pairs m : len pairs `mod` 2 = 0 → zadd_members pairs m ≠ ZPanic.
Proof.
  intros Hp. revert pairs Hp m. apply (even_ind (λ pairs, ∀ m, zadd_members pairs m ≠ ZPanic)); cbn; [done|].
  intros s b l _ IH m. by destruct (parseScoreArg s).
Qed.

Lemma RegisterHash_good : Forall (good P) RegisterHash.
Proof using HP.
  good_list; [unfold handleHSet|unfold handleHGet|unfold handleHGetAll|unfold handleHDel|unfold handleHExists
    |unfold handleHKeys|unfold handleHVals|unfold handleHLen|unfold handleHMGet|unfold handleHIncrBy]; safe_tac.
  match goal with E : hset_fields ?l _ = None, E2 : negb _ = false |- _ =>
    apply negb_false_iff, Z.eqb_eq in E2; destruct (hset_fields_even l ∅ E2) end. congruence.
Qed.
Lemma RegisterList_good : Forall (good P) RegisterList.
Proof using HP.
  good_list; [unfold handleLPush|unfold handleRPush|unfold handleLPop|unfold handleRPop|unfold handleLRange
    |unfold handleLLen|unfold handleLIndex|unfold handleLSet|unfold handleLRem]; safe_tac.
Qed.
Lemma RegisterSet_good : Forall (good P) RegisterSet.
Proof using HP.
  good_list; [unfold handleSAdd|unfold handleSRem|unfold handleSMembers|unfold handleSIsMember|unfold handleSCard
    |unfold handleSInter|unfold handleSUnion|unfold handleSDiff]; safe_tac.
Qed.
Lemma safe_parseZRangeArgs args : (4 ≤ length args)%nat → safe P (parseZRangeArgs args).
Proof using HP.
  intros Hl. unfold parseZRangeArgs. safe_tac.
Qed.
Hint Extern 1 (safe _ (parseZRangeArgs _)) => (apply safe_parseZRangeArgs; unfold len in *; lia) : safe.
Lemma RegisterZSet_good : Forall (good P) RegisterZSet.
Proof using HP.
  good_list; [unfold handleZAdd|unfold handleZRem|unfold handleZRange|unfold handleZRevRange|unfold handleZScore
    |unfold handleZRank|unfold handleZCard|unfold handleZIncrBy|unfold handleZRangeByScore]; safe_tac.
  match goal with E : zadd_members ?l _ = ZPanic, E2 : _ || _ = false |- _ =>
    apply orb_false_iff in E2 as [_ E2]; apply negb_false_iff, Z.eqb_eq in E2;
    destruct (zadd_members_even l ∅ E2 E) end.
Qed.
(** ** Component calls *)

Context `{Services} `{Encoding} {HR : RuntimeLaws} {HS : ServicesLaws}.

Lemma safe_embedding text : safe P (embedding text).
Proof using HP.
  intros w Hw. unfold embedding.
  destruct (InstrumentedEmbedOne embedder_Name (embedder (ticks w)) text (Metrics_ (deps w), Analytics_ (deps w))).2 as [m t].
  eexists _, _. split; [reflexivity|]. by apply (ot_same P HP w).
Qed.
Lemma safe_completion sys user : safe P (completion sys user).
Proof using HP.
  intros w Hw. unfold completion.
  destruct (Complete completer_Name (completer (ticks w) sys user) (Metrics_ (deps w), Analytics_ (deps w))) as [o [m t]].
  eexists _, _. split; [reflexivity|]. by apply (ot_same P HP w).
Qed.
Lemma safe_error_reply : safe P error_reply.
Proof using Type. intros w Hw. by eexists _, _. Qed.
Lemma safe_authorized ws : safe P (authorized ws).
Proof using Type. intros w Hw. by eexists _, _. Qed.
Hint Resolve safe_embedding safe_completion safe_error_reply safe_authorized : safe.

Lemma safe_SemanticCache_Set pr model temp resp ttl co : safe P (SemanticCache_Set pr model temp resp ttl co).
Proof using HP HS.
  unfold SemanticCache_Set. apply safe_bind; [auto with safe|]. intros _.
  apply safe_on_check; [done|done|]. intros n c. apply Set_no_panic, embed_total.
Qed.
Lemma safe_SemanticCache_Get pr model temp th : safe P (SemanticCache_Get pr model temp th).
Proof using HP HS.
  unfold SemanticCache_Get. apply safe_bind; [auto with safe|]. intros _.
  apply safe_on_check; [done|done|]. intros n c. apply Get_no_panic, embed_total.
Qed.
Lemma safe_MemoryStore_Put m ttl : safe P (MemoryStore_Put m ttl).
Proof using HP HS.
  unfold MemoryStore_Put. apply safe_bind; [case_match; auto with safe|]. intros _.
  apply safe_on_check; [done|done|]. intros n c. apply Put_no_panic, embed_total.
Qed.
Lemma safe_MemoryStore_Search ws q o : safe P (MemoryStore_Search ws q o).
Proof using HP HS.
  unfold MemoryStore_Search. apply safe_bind; [auto with safe|]. intros _.
  apply safe_on_check; [done|done|]. intros n c. apply Search_no_panic, embed_total.
Qed.
Lemma safe_Extract ws id content : safe P (Extract ws id content).
Proof using HP.
  unfold Extract. apply safe_bind; [auto with safe|]. intros raw.
  apply safe_on_check; [done|done|]. intros n c. apply Extract_no_panic.
Qed.
Hint Resolve safe_SemanticCache_Set safe_SemanticCache_Get safe_MemoryStore_Put safe_MemoryStore_Search safe_Extract : safe.
Lemma safe_Consolidate ws agent kind th : safe P (Consolidate ws agent kind th).
Proof using HP HS. unfold Consolidate, MemoryStore_List. safe_tac. Qed.
Hint Resolve safe_Consolidate : safe.
Lemma safe_guarded ws k : safe P k → safe P (guarded ws k).
Proof using Type. intros Hk. unfold guarded. safe_tac. Qed.
Lemma safe_put_memory a c o : safe P (put_memory a c o).
Proof using HP HS. unfold put_memory. apply safe_guarded. safe_tac. Qed.
Lemma safe_search_memory q o : safe P (search_memory q o).
Proof using HP HS. unfold search_memory. safe_tac. Qed.
Hint Resolve safe_put_memory safe_search_memory : safe.

(** The commands of the AI layer; [guarded] is a bind. *)
Ltac ai_tac := unfold guarded, record_savings; safe_tac.

Lemma RegisterToolCache_good : Forall (good P) RegisterToolCache.
Proof using HP.
  good_list. unfold handleToolCache, handleToolCacheSet, handleToolCacheGet, ToolCache_Set, ToolCache_Get, ToolKey.
  ai_tac; by case_match.
Qed.
Lemma RegisterSemantic_good : Forall (good P) RegisterSemantic.
Proof using HP HS.
  good_list.
  - unfold handleCacheSemantic, handleCacheSemanticSet, handleCacheSemanticGet. ai_tac.
  - unfold handleCachePrompt, handleCachePromptSet, handleCachePromptGet, PromptCache_Set, PromptCache_Get, TemplateKey.
    ai_tac; by case_match.
Qed.
Lemma RegisterVector_good : Forall (good P) RegisterVector.
Proof using HP.
  good_list.
  - unfold handleVectorUpsert, VectorStore_Upsert. ai_tac.
  - unfold handleVectorSearch, VectorStore_Search. ai_tac.
  - unfold handleVectorDelete, VectorStore_Delete. ai_tac.
Qed.
Lemma RegisterMemory_good : Forall (good P) RegisterMemory.
Proof using HP HS.
  good_list.
  - unfold handleMemoryPut. ai_tac.
  - unfold handleMemoryGet, MemoryStore_Get. ai_tac.
  - unfold handleMemorySearch. ai_tac.
  - unfold handleMemoryHistory, MemoryStore_History. ai_tac.
Qed.
Lemma RegisterAgent_good : Forall (good P) RegisterAgent.
Proof using HP HS.
  good_list; [unfold handleAgentRemember; ai_tac|unfold handleAgentRecall; ai_tac].
Qed.
Lemma RegisterConsolidate_good : Forall (good P) RegisterConsolidate.
Proof using HP HS. good_list. unfold handleSummaryCreate. ai_tac. Qed.
Lemma RegisterGraph_good : Forall (good P) RegisterGraph.
Proof using HP.
  good_list; [unfold handleGraphExtract, MemoryStore_Get; ai_tac|unfold handleGraphRelated, GraphStore_Related; ai_tac].
Qed.

(** ** Subscriptions *)

(** A connection that has subscribed. *)
Definition subscriber (w : World) : Prop := P w ∧ live (me w) (PubSub_ (deps w)).
Lemma subscriber_on_tx : on_tx subscriber.
Proof using HP.
  split; unfold subscriber.
  - intros w w' E1 E2 E3 E4 [Hw Hl]. split; [by apply (ot_same P HP w)|]. by rewrite <- E3, <- E4.
  - intros w [Hw _]. by apply (ot_ok P HP).
  - intros w p' [Hw Hl] Hs Hi. split; [by apply (ot_step P HP)|]. by eapply step_live.
Qed.
Lemma safe_weaken {A} (m : H A) : safe subscriber m → ∀ w, subscriber w → ∃ a w', m w = (Some a, w') ∧ P w'.
Proof using Type. intros Hm w Hw. destruct (Hm w Hw) as (a & w' & E & Hw' & _). eauto. Qed.

Lemma safe_own_subscriptions sel : safe P (own_subscriptions sel).
Proof using HP. intros w Hw. eexists _, _. split; [reflexivity|]. by apply (ot_same P HP w). Qed.
Lemma safe_has_subCh : safe P has_subCh.
Proof using HP. apply (safe_broker P HP). intros w Hw. by left. Qed.
Lemma safe_Unsubscribe ch : safe P (broker_do (λ cs, pubsub.Unsubscribe cs ch)).
Proof using HP.
  apply (safe_broker P HP). intros w Hw. right. split; [apply step_unsubscribe|]. by apply (ot_ok P HP).
Qed.
Lemma safe_UnsubscribePattern pat : safe P (broker_do (λ cs, pubsub.UnsubscribePattern cs pat)).
Proof using HP.
  apply (safe_broker P HP). intros w Hw. right. split; [apply step_punsubscribe|]. by apply (ot_ok P HP).
Qed.
Lemma safe_subscription_reply what ch : safe P (subscription_reply what ch).
Proof using Type. unfold subscription_reply. safe_tac. Qed.
Hint Resolve safe_own_subscriptions safe_has_subCh safe_Unsubscribe safe_UnsubscribePattern safe_subscription_reply : safe.
Lemma safe_unsubscribe_loop channels : safe P (unsubscribe_loop channels).
Proof using HP. induction channels; cbn [unsubscribe_loop]; safe_tac. Qed.
Lemma safe_punsubscribe_loop patterns : safe P (punsubscribe_loop patterns).
Proof using HP. induction patterns; cbn [punsubscribe_loop]; safe_tac. Qed.
Hint Resolve safe_unsubscribe_loop safe_punsubscribe_loop : safe.

(** After [ensureSubscriberState] the connection is a subscriber. *)
Lemma ensure_subscriber {A} (k : unit → H A) : (∀ u, safe subscriber (k u)) →
  safe P (hbind (broker_do pubsub.ensureSubscriberState) k).
Proof using HP.
  intros Hk w Hw. unfold hbind, bind, broker_do, broker, on. destruct (ot_ok P HP w Hw) as [HB HI].
  destruct (ensure_ok (me w) _ HB HI) as [HB' HL]. apply (safe_weaken _ (Hk tt)). split; [|done].
  apply (ot_same P HP (with_broker (pubsub.ensureSubscriberState (me w) (PubSub_ (deps w))) w)); try done.
  apply (ot_step P HP); [done|by apply step_ensure|by apply live_issuing].
Qed.
End handlers.

Section subscribing.
Context `{Runtime} (Q : World → Prop) (HQ : on_tx Q) (HL : ∀ w, Q w → live (me w) (PubSub_ (deps w))).

Lemma safe_Subscribe ch : safe Q (broker_do (λ cs, pubsub.Subscribe cs ch)).
Proof using HQ HL.
  apply (safe_broker Q HQ). intros w Hw. right. split; [by apply step_subscribe, HL|]. by apply (ot_ok Q HQ).
Qed.
Lemma safe_SubscribePattern pat : safe Q (broker_do (λ cs, pubsub.SubscribePattern cs pat)).
Proof using HQ HL.
  apply (safe_broker Q HQ). intros w Hw. right. split; [by apply step_psubscribe, HL|]. by apply (ot_ok Q HQ).
Qed.
Hint Resolve safe_Subscribe safe_SubscribePattern safe_subscription_reply : safe.
Lemma safe_subscribe_loop channels : safe Q (subscribe_loop channels).
Proof using HQ HL. induction channels; cbn [subscribe_loop]; safe_tac. Qed.
Lemma safe_psubscribe_loop patterns : safe Q (psubscribe_loop patterns).
Proof using HQ HL. induction patterns; cbn [psubscribe_loop]; safe_tac. Qed.
End subscribing.

Section pubsub_commands.
Context `{Runtime} {HR : RuntimeLaws} (P : World → Prop) (HP : on_tx P).
Hint Resolve safe_own_subscriptions safe_unsubscribe_loop safe_punsubscribe_loop safe_subscription_reply : safe.

Lemma safe_handlePublish args : (3 ≤ length args)%nat → safe P (handlePublish args).
Proof using HP HR.
  intros Hl. unfold handlePublish. apply safe_bind; [apply safe_arg; lia|]. intros ch.
  apply safe_bind; [apply safe_arg; lia|]. intros payload w Hw. destruct (ot_ok P HP w Hw) as [HB HI].
  destruct (deliver_ok ch payload (pubsub.targets (sub_orders (ticks w)) ch (PubSub_ (deps w))) 0 _ HB)
    as (n & p' & E & _ & _); [by apply targets_issuing; [apply sub_orders_ok|]|].
  unfold hbind, bind, broker, on, pubsub.Publish. rewrite E. cbn. eexists _, _. split; [reflexivity|].
  apply (ot_same P HP (with_broker p' w)); try done.
  assert (Hs : step (PubSub_ (deps w)) p') by (eapply step_publish; [apply sub_orders_ok|exact E]).
  apply (ot_step P HP); [done|done|]. by eapply publish_issuing.
Qed.

Lemma RegisterPubSub_good : Forall (good P) RegisterPubSub.
Proof using HP HR.
  pose proof (subscriber_on_tx P HP) as HQ.
  good_list.
  - unfold handleSubscribe. apply ensure_subscriber; [done|]. intros _.
    apply safe_bind; [apply safe_args_from; lia|]. intros chs.
    apply safe_bind; [|intros rs; apply safe_ret]. apply safe_subscribe_loop; [done|by intros w []].
  - unfold handleUnsubscribe. safe_tac.
  - apply safe_handlePublish. lia.
  - unfold handlePSubscribe. apply ensure_subscriber; [done|]. intros _.
    apply safe_bind; [apply safe_args_from; lia|]. intros chs.
    apply safe_bind; [|intros rs; apply safe_ret]. apply safe_psubscribe_loop; [done|by intros w []].
  - unfold handlePUnsubscribe. safe_tac.
Qed.
End pubsub_commands.

(** ** The command table *)

(** What dispatch looks at besides the handler. *)
Definition meta (c : Command) : string * Z * Z * bool * bool :=
  (cmd_Name c, MinArgs c, MaxArgs c, AllowedNoAuth c, NoQueue c).

Section table.
Context `{Runtime} `{FloatText} `{KeyCodec} `{Services} `{Encoding}.

Lemma register_meta (l : list Command) : ∀ r,
  meta <$> foldl (λ r c, Register c r) r l = foldl (λ m x, <[ToUpper (x.1.1.1.1) := x]> m) (meta <$> r) (meta <$> l).
Proof.
  induction l as [|c l IH]; intros r; [done|]. rewrite fmap_cons. cbn [foldl]. rewrite IH. unfold Register.
  by rewrite fmap_insert.
Qed.
(** The table's metadata does not depend on how EXEC dispatches. *)
Lemma RegisterAll_meta h1 n1 h2 n2 : meta <$> RegisterAll h1 n1 = meta <$> RegisterAll h2 n2.
Proof. unfold RegisterAll. by rewrite !register_meta. Qed.

Lemma register_lookup (l : list Command) : ∀ r k c,
  foldl (λ r c, Register c r) r l !! k = Some c → (c ∈ l ∧ ToUpper (cmd_Name c) = k) ∨ r !! k = Some c.
Proof.
  induction l as [|c' l IH]; intros r k c; cbn [foldl]; [auto|].
  intros [[Hin Hk]|Hr]%IH; [left; split; [by right|done]|].
  unfold Register in Hr. destruct (decide (ToUpper (cmd_Name c') = k)) as [<-|Hne].
  - rewrite lookup_insert_eq in Hr. injection Hr as ->. left. split; [by left|done].
  - rewrite lookup_insert_ne in Hr by done. by right.
Qed.
Lemma RegisterAll_entry h n k c : RegisterAll h n !! k = Some c → c ∈ commands h n ∧ ToUpper (cmd_Name c) = k.
Proof. intros [?|Hr]%register_lookup; [done|]. unfold NewRegistry in Hr. by rewrite lookup_empty in Hr. Qed.
Lemma RegisterAll_lookup h n k c : RegisterAll h n !! k = Some c → c ∈ commands h n.
Proof. by intros [? _]%RegisterAll_entry. Qed.

(** An entry of the queue names a registered command that may be queued, with
    an accepted number of arguments. *)
Definition queued_ok (args : list string) : Prop :=
  ∃ a0 rest c, args = a0 :: rest ∧ RegisterAll (λ _, hpanic) 0 !! ToUpper a0 = Some c ∧
    NoQueue c = false ∧ arityOK c (len args) = true.
(** Between two commands: the queue is runnable, the broker sound, and this
    connection not closed. *)
Definition queue_ok (w : World) : Prop := Forall queued_ok (Queued (cs w)) ∧ session_ok w.

Lemma queue_ok_on_tx : on_tx queue_ok.
Proof.
  unfold queue_ok, session_ok. split.
  - by intros w w' _ -> -> ->.
  - by intros w [_ ?].
  - intros w p' [HQ [HB HI]] Hs Hi. split_and!; [done| |done]. by eapply step_ok.
Qed.

Lemma queued_ok_any h n args : queued_ok args ↔
  ∃ a0 rest c, args = a0 :: rest ∧ RegisterAll h n !! ToUpper a0 = Some c ∧
    NoQueue c = false ∧ arityOK c (len args) = true.
Proof.
  assert (Hdir : ∀ h1 n1 h2 n2 a0 c, RegisterAll h1 n1 !! ToUpper a0 = Some c →
    ∃ c', RegisterAll h2 n2 !! ToUpper a0 = Some c' ∧ meta c' = meta c).
  { intros h1 n1 h2 n2 a0 c Hc. pose proof (f_equal (.!! ToUpper a0) (RegisterAll_meta h1 n1 h2 n2)) as E.
    cbv beta in E. rewrite !lookup_fmap, Hc in E. destruct (RegisterAll h2 n2 !! ToUpper a0) as [c'|]; [|done].
    exists c'. cbn in E. split; congruence. }
  split; intros (a0 & rest & c & -> & Hc & Hq & Ha).
  - destruct (Hdir _ _ h n _ _ Hc) as (c' & Hc' & [= _ E1 E2 _ E3]). exists a0, rest, c'.
    split_and!; [done|done|congruence|]. unfold arityOK in *. by rewrite E1, E2.
  - destruct (Hdir _ _ (λ _, hpanic) 0 _ _ Hc) as (c' & Hc' & [= _ E1 E2 _ E3]). exists a0, rest, c'.
    split_and!; [done|done|congruence|]. unfold arityOK in *. by rewrite E1, E2.
Qed.

(** ** Transactions are safe *)

Lemma safe_put_multi b1 b2 f : safe queue_ok (put_cs (λ c, set_Watched (f c) (set_Multi b1 b2 [] c))).
Proof. intros w Hw. eexists _, _. split; [reflexivity|]. split; [constructor|apply Hw]. Qed.
Lemma safe_put_begin : safe queue_ok (put_cs (set_Multi true false [])).
Proof. intros w Hw. eexists _, _. split; [reflexivity|]. split; [constructor|apply Hw]. Qed.
Hint Resolve safe_put_begin queue_ok_on_tx : safe.
Hint Extern 1 (safe _ (put_cs (λ c, set_Watched _ (set_Multi _ _ [] c)))) => apply (safe_put_multi _ _ (λ _, ∅)) : safe.

Lemma safe_watch_loop keys : safe queue_ok (watch_loop keys).
Proof.
  pose proof queue_ok_on_tx as HP. induction keys; cbn [watch_loop]; unfold engine_version; safe_tac.
Qed.
Lemma safe_unchanged l : safe queue_ok (unchanged l).
Proof.
  pose proof queue_ok_on_tx as HP. induction l as [|[k v] l IH]; cbn [unchanged]; unfold engine_version; safe_tac.
Qed.
Hint Resolve safe_watch_loop safe_unchanged : safe.

(** [m] produces a reply. *)
Definition replies (m : H (option Reply)) : Prop :=
  ∀ w, queue_ok w → ∃ r w', m w = (Some (Some r), w') ∧ queue_ok w'.

Lemma safe_exec_loop handle queued : (∀ a, queued_ok a → replies (handle a)) →
  Forall queued_ok queued → safe queue_ok (exec_loop handle queued).
Proof.
  intros Hh HQ. induction HQ as [|a queued Ha HQ IH]; cbn [exec_loop]; [safe_tac|]. intros w Hw.
  destruct (Hh a Ha w Hw) as (r & w1 & E1 & Hw1). destruct (IH w1 Hw1) as (rs & w2 & E2 & Hw2).
  exists (r :: rs), w2. split; [|done]. unfold hbind, bind. rewrite E1. cbn. by rewrite E2.
Qed.
Lemma safe_handleExec handle args : (∀ a, queued_ok a → replies (handle a)) → safe queue_ok (handleExec handle args).
Proof.
  intros Hh w Hw. unfold handleExec. unfold hbind at 1, bind at 1, get_cs at 1.
  assert (HS : safe queue_ok (if negb (InMulti (cs w)) then hret (Err "ERR EXEC without MULTI") else
    do! _ := put_cs (λ c, set_Watched ∅ (set_Multi false false [] c)) in
    if MultiError (cs w) then hret (Err ErrExecAbort) else
    do! ok := unchanged (map_to_list (Watched (cs w))) in
    if negb ok then hret NullArray else
    do! replies := exec_loop handle (Queued (cs w)) in hret (ArraySlice replies))); [|by apply HS].
  safe_tac. apply safe_exec_loop; [done|apply Hw].
Qed.

Context {HR : RuntimeLaws} {HS : ServicesLaws}.

Lemma commands_good h n c : c ∈ commands h n →
  good queue_ok c ∨ c = mkCommand "EXEC" 1 1 false true (handleExec h).
Proof using HR HS.
  pose proof queue_ok_on_tx as HP.
  assert (HT : Forall (λ c, good queue_ok c ∨ c = mkCommand "EXEC" 1 1 false true (handleExec h)) (RegisterTx h)).
  { repeat (apply Forall_cons; split); [left|right; reflexivity|left|left|left|by apply Forall_nil_2];
      apply good_intro; intros args Hlo Hhi; unfold handleMulti, handleDiscard, handleWatch, handleUnwatch; safe_tac. }
  assert (HL : ∀ l, Forall (good queue_ok) l → Forall (λ c, good queue_ok c ∨ c = mkCommand "EXEC" 1 1 false true (handleExec h)) l).
  { intros l Hl. eapply Forall_impl; [exact Hl|auto]. }
  intros Hc. revert c Hc. apply Forall_forall. unfold commands.
  repeat apply Forall_app_2; try exact HT; apply HL;
    [by apply RegisterConn_good|by apply RegisterGeneric_good|by apply RegisterString_good|by apply RegisterHash_good
    |by apply RegisterList_good|by apply RegisterSet_good|by apply RegisterZSet_good|by apply RegisterPubSub_good
    |by apply RegisterSemantic_good|by apply RegisterToolCache_good|by apply RegisterVector_good
    |by apply RegisterMemory_good|by apply RegisterAgent_good|by apply RegisterConsolidate_good|by apply RegisterGraph_good].
Qed.

(** ** Dispatch *)

(** If the command found is safe where it is run, dispatch produces a reply. *)
Lemma dispatch_replies h n a0 rest :
  (∀ c w, RegisterAll h n !! ToUpper a0 = Some c → arityOK c (len (a0 :: rest)) = true → queue_ok w →
     ∃ r w', Handler c (a0 :: rest) w = (Some r, w') ∧ queue_ok w') →
  replies (dispatch (RegisterAll h n) (a0 :: rest)).
Proof.
  intros Hh w Hw. cbn [dispatch]. destruct (RegisterAll h n !! ToUpper a0) as [c|] eqn:Ec.
  - specialize (Hh c). unfold hbind, bind, get_Auth, get_cs.
    case_match; [by eexists _, _|]. case_match.
    + case_match; [eexists _, _; split; [reflexivity|done]|].
      eexists _, _. split; [reflexivity|]. split; [|apply Hw]. cbn. apply Forall_app_2; [apply Hw|].
      apply Forall_singleton. apply (queued_ok_any h n). exists a0, rest, c.
      repeat match goal with E : _ && negb _ = true |- _ => apply andb_true_iff in E as [_ E%negb_true_iff] end.
      split_and!; [done|done|done|]. by apply negb_false_iff.
    + case_match; [by eexists _, _|].
      destruct (Hh w eq_refl) as (r & w' & Er & Hw'); [by apply negb_false_iff|done|].
      rewrite Er. by eexists _, _.
  - unfold hbind, bind, get_cs. destruct (InMulti (cs w)); by eexists _, _.
Qed.

(** A queued command, dispatched by EXEC. *)
Lemma Handle_1_replies args : queued_ok args → replies (Handle 1 args).
Proof using HR HS.
  intros Hq. pose proof (proj1 (queued_ok_any (Handle 0) (commandCount) args) Hq)
    as (a0 & rest & c & -> & Hc & HQ & Ha).
  change (Handle 1 (a0 :: rest)) with
    (dispatch (RegisterAll (Handle 0) (commandCount)) (a0 :: rest)).
  apply dispatch_replies. intros c' w Hc' Ha' Hw. rewrite Hc in Hc'. injection Hc' as <-.
  destruct (commands_good _ _ c (RegisterAll_lookup _ _ _ _ Hc)) as [Hg| ->]; [|done]. by apply Hg.
Qed.

Lemma Handle_2_replies a0 rest : replies (Handle 2 (a0 :: rest)).
Proof using HR HS.
  change (Handle 2 (a0 :: rest)) with
    (dispatch (RegisterAll (Handle 1) (commandCount)) (a0 :: rest)).
  apply dispatch_replies. intros c w Hc Ha Hw.
  destruct (commands_good _ _ c (RegisterAll_lookup _ _ _ _ Hc)) as [Hg| ->]; [by apply Hg|].
  apply (safe_handleExec (Handle 1)); [|done]. apply Handle_1_replies.
Qed.
End table.

(** C16: dispatching a command never panics: on every argument list a
    connection can send, in every state its earlier commands can have left,
    the registry replies, and it leaves the queue of MULTI and the broker in a
    state of which the same is true.  In particular no handler of the complete
    command table indexes past its arguments (the declared arities are enough),
    EXEC's queue never holds a command that controls transactions, so EXEC
    never runs EXEC and two levels of dispatch are enough, and publishing never
    meets a closed channel between commands. *)
Theorem dispatch_never_panics `{RuntimeLaws} `{FloatText} `{KeyCodec} `{ServicesLaws} `{Encoding} a0 rest w :
  queue_ok w → ∃ r w', Handle 2 (a0 :: rest) w = (Some (Some r), w') ∧ queue_ok w'.
Proof. intros Hw. by apply Handle_2_replies. Qed.
