(* ===== verification/SessionRun.v ===== *)
(** * The connection loop: pipelining, failing writes, lost replies

    [answers] is the reference, one command after the other; the loop's output
    is compared with it for every way the network can cut the stream, spill
    the buffer and break. *)

From S2P Require Import Prelude.
From S2P Require Import GoStd.
From S2P Require Import Auth.
From S2P Require Import Store.
From S2P Require Import Similarity.
From S2P Require Import Caches.
From S2P Require Import Providers.
From S2P Require Import RespCodec.
From S2P Require Import PubSub.
From S2P Require Import Server.
From S2P Require Import HandlersKV.
From S2P Require Import HandlersData.
From S2P Require Import Session.
From S2P Require Import SessionSpec.

Open Scope Z_scope.

Lemma substring_all (s : string) m : (String.length s ≤ m)%nat → String.substring 0 m s = s.
Proof.
  revert m. induction s as [|c s IH]; intros [|m] Hm; cbn in *; try done; [lia|]. rewrite IH by lia. done.
Qed.
Lemma substring_split n (s : string) :
  String.substring 0 n s +:+ String.substring n (String.length s) s = s.
Proof.
  revert s. induction n as [|n IH]; intros [|c s]; cbn [String.substring String.length]; autorewrite with go; try done.
  - by rewrite substring_all.
  - f_equal. assert (HS : ∀ k m (s : string), (String.length s ≤ m)%nat →
      String.substring k m s = String.substring k (String.length s) s).
    { clear. intros k m s. revert k m. induction s as [|c s IH]; intros [|k] m Hm; cbn in *; try done.
      - by destruct m.
      - destruct m; [lia|]. cbn. f_equal. rewrite !substring_all by lia. done.
      - rewrite (IH k m) by lia. symmetry. apply IH. lia. }
    rewrite (HS n (S (String.length s)) s) by lia. apply IH.
Qed.

Section run.
Context `{RuntimeLaws} `{FloatText} `{KeyCodec} `{ServicesLaws} `{Encoding}.

(** The reference: one command after the other, up to the first QUIT, and all
    their replies. *)
Fixpoint answers (cmds : list (list string)) (w : World) : option (string * World) :=
  match cmds with
  | [] => Some ("", w)
  | args :: cmds =>
      let start := clock (ticks w) in
      match Handle 2 args w with
      | (None, _) => None
      | (Some r, w) =>
          let w := executed args start w in
          if Quit (cs w) then Some (writeReply r, w)
          else match answers cmds w with
               | Some (out, w) => Some (writeReply r +:+ out, w)
               | None => None
               end
      end
  end.
Fixpoint quits (cmds : list (list string)) (w : World) : bool :=
  match cmds with
  | [] => false
  | args :: cmds =>
      let w := executed args (clock (ticks w)) (Handle 2 args w).2 in Quit (cs w) || quits cmds w
  end.

(** A connection's commands, one after the other, and its last reply. *)
Fixpoint play (cmds : list (list string)) (last : option (option Reply)) (w : World) : option (option Reply) * World :=
  match cmds with
  | [] => (last, w)
  | args :: cmds => let '(r, w) := Handle 2 args w in play cmds r w
  end.

Lemma executed_ok args start w : queue_ok w → queue_ok (executed args start w).
Proof using Type. done. Qed.

Fixpoint stream (cmds : list (list string)) : string :=
  match cmds with [] => "" | args :: cmds => encode args +:+ stream cmds end.

Lemma answers_defined cmds : ∀ w, Forall (λ a, a ≠ []) cmds → queue_ok w →
  ∃ out w', answers cmds w = Some (out, w') ∧ queue_ok w'.
Proof.
  induction cmds as [|[|a0 rest] cmds IH]; intros w Hne Hw; cbn [answers]; [by eexists _, _| |].
  - by apply Forall_cons in Hne as [? _].
  - apply Forall_cons in Hne as [_ Hne].
    destruct (Handle_2_replies a0 rest w Hw) as (r & w' & -> & Hw'). cbv zeta.
    pose proof (executed_ok (a0 :: rest) (clock (ticks w)) w' Hw') as Hw2.
    case_match; [by eexists _, _|]. destruct (IH _ Hne Hw2) as (out & w2 & -> & ?). by eexists _, _.
Qed.

Context `{Network} {HL : NetworkLaws}.

Lemma encode_nonempty args : ∃ s, encode args = String "*" s.
Proof. unfold encode. rewrite write_ArraySlice. autorewrite with go. eauto. Qed.
Lemma stream_nonempty cmds tail : stream cmds +:+ tail = "" → cmds = [] ∧ tail = "".
Proof.
  destruct cmds as [|args cmds]; [done|]. cbn [stream]. destruct (encode_nonempty args) as [s ->].
  by autorewrite with go.
Qed.

(** One step of the loop on an encoded command. *)
Lemma conn_loop_step fuel args rest w buf sent : sendable args → queue_ok w →
  let start := clock (ticks w) in
  ∃ r w', Handle 2 args w = (Some (Some r), w') ∧ queue_ok (executed args start w') ∧
    conn_loop (S fuel) (encode args +:+ rest) w buf sent =
    (let w' := executed args start w' in
     let buf := buf +:+ write r in
     match broken rest with
     | Some n => Closed (sent +:+ String.substring 0 n buf) w'
     | None =>
         if Quit (cs w') then Closed (sent +:+ buf) w'
         else if more rest then
           conn_loop fuel rest w' (String.substring (spill rest) (String.length buf) buf)
                      (sent +:+ String.substring 0 (spill rest) buf)
         else conn_loop fuel rest w' "" (sent +:+ buf)
     end).
Proof.
  intros Hs Hw. destruct args as [|a0 args]; [by destruct Hs|].
  destruct (Handle_2_replies a0 args w Hw) as (r & w' & E & Hw').
  exists r, w'. split_and!; [done|done|]. cbn [conn_loop]. rewrite (command_roundtrip (a0 :: args) rest Hs).
  by rewrite E.
Qed.

(** What was sent is a beginning of the replies of the commands that ran. *)
Lemma conn_loop_prefix cmds : ∀ fuel w buf sent, (length cmds < fuel)%nat →
  Forall sendable cmds → queue_ok w → (cmds = [] → buf = "") →
  ∃ k out w' s rest, answers (take k cmds) w = Some (out, w') ∧
    conn_loop fuel (stream cmds) w buf sent = Closed s w' ∧ sent +:+ buf +:+ out = s +:+ rest ∧
    ((∀ s, broken s = None) → answers cmds w = Some (out, w') ∧ rest = "").
Proof using All.
  induction cmds as [|args cmds IH]; intros fuel w buf sent Hf Hs Hw Hb;
    (destruct fuel as [|fuel]; [simpl in Hf; lia|]).
  - exists 0%nat, "", w, sent, "". split_and!; [done|done| |done]. by rewrite Hb.
  - apply Forall_cons in Hs as [Hs Hss]. cbn [stream].
    destruct (conn_loop_step fuel args (stream cmds) w buf sent Hs Hw) as (r & w1 & E & Hw1 & ->).
    cbv zeta in *. set (w2 := executed args (clock (ticks w)) w1) in *.
    destruct (broken (stream cmds)) as [n|] eqn:Eb.
    { exists 1%nat, (write r), w2, (sent +:+ String.substring 0 n (buf +:+ write r)),
        (String.substring n (String.length (buf +:+ write r)) (buf +:+ write r)).
      split_and!; [|done| |].
      - cbn [take answers]. cbv zeta. rewrite E. cbn [writeReply]. fold w2. rewrite take_0. destruct (Quit (cs w2)); cbn [answers]; by rewrite ?str_app_nil_r.
      - by rewrite (str_app_assoc sent), substring_split.
      - intros Hn. rewrite Hn in Eb. done. }
    destruct (Quit (cs w2)) eqn:EQ.
    { exists 1%nat, (write r), w2, (sent +:+ buf +:+ write r), "". split_and!; [|done|by rewrite str_app_nil_r|].
      - cbn [take answers]. cbv zeta. rewrite E. cbn [writeReply]. fold w2. by rewrite EQ.
      - intros _. cbn [answers]. cbv zeta. rewrite E. cbn [writeReply]. fold w2. by rewrite EQ. }
    assert (Hl : (length cmds < fuel)%nat) by (simpl in Hf; lia).
    assert (K : ∀ buf' sent', (cmds = [] → buf' = "") → sent' +:+ buf' = sent +:+ buf +:+ write r →
      ∃ k out w' s rest, answers (take k (args :: cmds)) w = Some (out, w') ∧
        conn_loop fuel (stream cmds) w2 buf' sent' = Closed s w' ∧ sent +:+ buf +:+ out = s +:+ rest ∧
        ((∀ s, broken s = None) → answers (args :: cmds) w = Some (out, w') ∧ rest = "")).
    { intros buf' sent' Hb' Es. destruct (IH fuel w2 buf' sent' Hl Hss Hw1 Hb') as (k & out & w' & s & rest & Ha & Hc & Ho & Hn).
      exists (S k), (write r +:+ out), w', s, rest. cbn [take answers]. cbv zeta. rewrite E. cbn [writeReply]. fold w2.
      rewrite EQ, Ha. split_and!; [done|done| |].
      - rewrite <- Ho, <- (str_app_assoc sent' buf' out), Es. by rewrite !str_app_assoc.
      - intros HN. destruct (Hn HN) as [-> ->]. done. }
    destruct (more (stream cmds)) eqn:Em; apply K; [|by rewrite str_app_assoc, substring_split|done|by rewrite str_app_nil_r].
    intros ->. cbn in Em. rewrite more_end in Em. done.
Qed.

Lemma stream_length cmds : (length cmds ≤ String.length (stream cmds))%nat.
Proof.
  induction cmds as [|args cmds IH]; [done|]. cbn [stream length]. destruct (encode_nonempty args) as [s ->].
  autorewrite with go. cbn [String.length]. rewrite length_app_str. lia.
Qed.
End run.

(** A new connection: the broker is sound and knows nothing of it. *)
Definition fresh_conn (id : pubsub.conn) (d : Deps) : Prop :=
  broker_ok (PubSub_ d) ∧ pubsub.subChs (PubSub_ d) !! id = None.
Lemma fresh_conn_ok `{Runtime} `{FloatText} `{KeyCodec} `{Services} `{Encoding} id d t :
  fresh_conn id d → queue_ok (accept_conn id d t).
Proof. intros [HB Hn]. split; [apply Forall_nil_2|]. split; [done|]. intros c Hc. cbn in Hc. congruence. Qed.

(** C11: a client that sends well-formed commands, pipelined or not, and closes
    its side is sent exactly the replies of its commands, in order and
    complete, up to the first QUIT, however the network cuts the stream
    (messages pushed to it as a subscriber apart, which are whole replies
    written between these); if
    writing fails at some point, what it was sent is a beginning of the replies
    of the commands that ran, which are a beginning of its commands.  The
    server's state is the one of running them one by one, torn down: the broker
    is sound and has no subscription of the connection left; and the loop
    ends. *)
Theorem session_pipeline `{RuntimeLaws} `{FloatText} `{KeyCodec} `{ServicesLaws} `{Encoding}
    `{Network} `{!NetworkLaws} cmds id d t fuel :
  fresh_conn id d → Forall sendable cmds → (String.length (stream cmds) < fuel)%nat →
  ∃ k out w' sent rest, answers (take k cmds) (accept_conn id d t) = Some (out, w') ∧
    HandleConn fuel (stream cmds) id d t = Closed sent (teardown w') ∧
    out = sent +:+ rest ∧
    ((∀ s, broken s = None) → answers cmds (accept_conn id d t) = Some (sent, w')) ∧
    let p := PubSub_ (deps (teardown w')) in
    broker_ok p ∧
    ∀ name, ¬ subscribed (pubsub.channels p) (me w') name ∧ ¬ subscribed (pubsub.patterns p) (me w') name.
Proof.
  intros Hf Hs Hl. pose proof (fresh_conn_ok id d t Hf) as Hw. pose proof (stream_length cmds) as HL.
  destruct (conn_loop_prefix cmds fuel (accept_conn id d t) "" "" ltac:(lia) Hs Hw ltac:(done))
    as (k & out & w' & sent & rest & Ha & Hc & Ho & Hn).
  rewrite !str_app_nil in Ho. exists k, out, w', sent, rest. unfold HandleConn. rewrite Hc.
  assert (HQ : queue_ok w').
  { destruct (answers_defined (take k cmds) (accept_conn id d t)) as (o2 & w2 & Ha2 & HQ); [|done|congruence].
    apply Forall_take. eapply Forall_impl; [exact Hs|by intros a []]. }
  split; [done|split; [done|split; [done|split]]].
  - intros HN. destruct (Hn HN) as [HA ->]. rewrite HA, Ho. by rewrite str_app_nil_r.
  - cbv zeta. split; [eapply step_ok; [apply HQ|]; apply step_close|].
    intros name. destruct HQ as [_ [HB _]]. cbn. unfold pubsub.cleanupSubscriptions.
    destruct (pubsub.subChs (PubSub_ (deps w')) !! me w') as [c|] eqn:E.
    + cbn. split; rewrite subscribed_everywhere; by intros [_ ?].
    + split; intros Hx; destruct (bk_open _ HB (me w') name) as (c & Hcc & _); auto; congruence.
Qed.

(** C40: replies of commands that were executed can be lost: when the bytes
    after a batch of pipelined commands, arrived together with them, are not a
    command (a framing error, or a command cut short by the client closing),
    the connection ends with the batch executed and none of its replies sent,
    those that overflowed the write buffer apart. *)
Theorem session_drops_replies `{RuntimeLaws} `{FloatText} `{KeyCodec} `{ServicesLaws} `{Encoding}
    `{Network} cmds tail id d t e :
  fresh_conn id d → Forall sendable cmds → quits cmds (accept_conn id d t) = false →
  tail ≠ "" → ReadCommand tail = ReadErr e → (∀ s, s ≠ "" → more s = true) → (∀ s, spill s = 0%nat) →
  (∀ s, broken s = None) →
  ∃ out w', answers cmds (accept_conn id d t) = Some (out, w') ∧
    ∀ fuel, (length cmds < fuel)%nat →
      HandleConn fuel (stream cmds +:+ tail) id d t = Closed "" (teardown w').
Proof.
  intros Hf Hs Hq Ht He Hmore Hspill Hbroken. pose proof (fresh_conn_ok id d t Hf) as Hw. unfold HandleConn.
  revert Hw Hq. generalize (accept_conn id d t). intros w Hw Hq.
  cut (∃ out w', answers cmds w = Some (out, w') ∧ ∀ fuel buf, (length cmds < fuel)%nat →
    conn_loop fuel (stream cmds +:+ tail) w buf "" = Closed "" w').
  { intros (out & w' & Ha & Hrun). exists out, w'. split; [done|]. intros fuel Hl. by rewrite Hrun. }
  revert w Hw Hq. induction cmds as [|args cmds IH]; intros w Hw Hq.
  - exists "", w. split; [done|]. intros [|fuel] buf Hl; [simpl in Hl; lia|]. cbn [stream]. autorewrite with go.
    cbn [conn_loop]. by rewrite He.
  - apply Forall_cons in Hs as [Hs Hss].
    destruct (conn_loop_step 0 args (stream cmds +:+ tail) w "" "" Hs Hw) as (r & w1 & E & Hw1 & _).
    cbn [quits answers] in *. cbv zeta in *. rewrite E in *. cbn [snd] in Hq.
    set (w2 := executed args (clock (ticks w)) w1) in *. apply orb_false_iff in Hq as [Hq1 Hq2].
    destruct (IH Hss w2 Hw1 Hq2) as (out & w3 & Ha & Hrun). rewrite Hq1, Ha. eexists _, _. split; [reflexivity|].
    intros [|fuel] buf Hl; [simpl in Hl; lia|]. cbn [stream]. rewrite str_app_assoc.
    destruct (conn_loop_step fuel args (stream cmds +:+ tail) w buf "" Hs Hw) as (r' & w1' & E' & _ & ->).
    rewrite E in E'. injection E' as <- <-. cbv zeta. fold w2. rewrite Hbroken, Hq1, Hmore, Hspill.
    + replace (String.substring 0 0 (buf +:+ write r)) with "" by (by destruct (buf +:+ write r)).
      apply Hrun. simpl in Hl. lia.
    + intros [_ ?]%stream_nonempty. done.
Qed.

(** ** Concrete sessions *)

#[local] Instance run_runtime : Runtime := plain_runtime Z.of_nat.
#[local] Instance run_runtime_laws : RuntimeLaws := plain_runtime_laws Z.of_nat.
#[local] Instance run_floats : FloatText := {| ParseFloat := λ _, None; FormatFloat := λ _, "" |}.
#[local] Existing Instance toy_codec.
#[local] Existing Instance no_encoding.
#[local] Existing Instance offline.
#[local] Existing Instance offline_laws.
(** A network that delivers everything at once. *)
#[local] Instance run_network : Network := {| more := λ s, negb (String.eqb s ""); spill := λ _, 0%nat; broken := λ _, None |}.

Definition run_deps : Deps := newDeps (newStore 4 0 None) (auth.New "").
Lemma run_fresh : fresh_conn 1%nat run_deps.
Proof. split; [apply reachable_ok, rtc_refl|reflexivity]. Qed.

Lemma sendable_small args : args ≠ [] → len args * stringSize <=? maxAlloc = true →
  forallb (λ a, slen a + 2 <=? maxAlloc) args = true → sendable args.
Proof.
  intros H1 H2%Z.leb_le H3. split_and!; [done|done|]. apply Forall_forall. intros a Ha.
  rewrite forallb_forall in H3. apply Z.leb_le, H3. by apply list_elem_of_In.
Qed.

Definition run_batch : list (list string) := [["SET"; "k"; "v"]; ["get"; "k"]; ["INCR"; "n"]; ["SUBSCRIBE"; "c"]].
Lemma run_batch_sendable : Forall sendable run_batch.
Proof. repeat (apply Forall_cons; split; [apply sendable_small; [discriminate|reflexivity|reflexivity]|]). apply Forall_nil_2. Qed.

Lemma session_pipeline_witness :
  match HandleConn 200 (stream run_batch) 1 run_deps 0 with
  | Closed out _ => out = "+OK" +:+ CRLF +:+ "$1" +:+ CRLF +:+ "v" +:+ CRLF +:+ ":1" +:+ CRLF +:+
      "*3" +:+ CRLF +:+ "$9" +:+ CRLF +:+ "subscribe" +:+ CRLF +:+ "$1" +:+ CRLF +:+ "c" +:+ CRLF +:+ ":1" +:+ CRLF
  | Crashed => False
  end ∧
  ∃ k out w' sent rest, answers (take k run_batch) (accept_conn 1 run_deps 0) = Some (out, w') ∧
    HandleConn 200 (stream run_batch) 1 run_deps 0 = Closed sent (teardown w') ∧
    out = sent +:+ rest ∧
    ((∀ s, broken s = None) → answers run_batch (accept_conn 1 run_deps 0) = Some (sent, w')) ∧
    let p := PubSub_ (deps (teardown w')) in
    broker_ok p ∧
    ∀ name, ¬ subscribed (pubsub.channels p) (me w') name ∧ ¬ subscribed (pubsub.patterns p) (me w') name.
Proof.
  split; [vm_compute; reflexivity|].
  unshelve refine (session_pipeline run_batch 1%nat run_deps 0 200 run_fresh run_batch_sendable _).
  - split. reflexivity.
  - vm_compute. repeat constructor.
Defined.

Lemma session_drops_replies_witness :
  ∃ out w', answers run_batch (accept_conn 1 run_deps 0) = Some (out, w') ∧
    ∀ fuel, (4 < fuel)%nat → HandleConn fuel (stream run_batch +:+ ("*x" +:+ CRLF)) 1 run_deps 0 = Closed "" (teardown w').
Proof.
  refine (session_drops_replies run_batch ("*x" +:+ CRLF) 1%nat run_deps 0 ErrProtocol run_fresh
            run_batch_sendable _ _ _ _ _ _).
  - vm_compute. reflexivity.
  - discriminate.
  - vm_compute. reflexivity.
  - intros [|c s] Hs; [destruct (Hs eq_refl)|reflexivity].
  - reflexivity.
  - reflexivity.
Defined.

Lemma dispatch_never_panics_witness :
  ∃ r w', Handle 2 ["SET"; "k"; "v"; "EX"] (accept_conn 1 run_deps 0) = (Some (Some r), w') ∧ queue_ok w'.
Proof. exact (dispatch_never_panics "SET" ["k"; "v"; "EX"] _ (fresh_conn_ok _ _ 0 run_fresh)). Defined.
