(* ===== verification/Engine.v ===== *)
(** * The engine as a whole (internal/storage/engine.go)

    [keyed] lists the single-key methods of the Engine interface with their
    arguments and result types.  [run] is memstore's method, [spec] the
    abstract operation.  The theorems here range over all of them: memstore
    refines the abstract engine, without eviction exactly and with eviction
    up to one victim in the receiving shard. *)

From S2P Require Import Prelude.
From S2P Require Import GoStd.
From S2P Require Import Glob.
From S2P Require Import Eviction.
From S2P Require Import Shard.
From S2P Require Import Store.
From S2P Require Import StoreHash.
From S2P Require Import StoreList.
From S2P Require Import StoreSet.
From S2P Require Import StoreZSet.
From S2P Require Import ShardSpec.
From S2P Require Import StoreSpec.
From S2P Require Import EngineSpec.
From S2P Require Import EngineProofs.
From S2P Require Import EngineMulti.
From S2P Require Import KeySpace.
From S2P Require Import KeyScan.

Open Scope Z_scope.
Open Scope go_scope.

Inductive keyed : Type → Type :=
  | KGet : keyed (result (gobytes * bool))
  | KSet (val : gobytes) (opts : SetOpts) : keyed (result (bool * gobytes * bool))
  | KExpire (d : duration) : keyed bool
  | KTTL : keyed (duration * bool * bool)
  | KPersist : keyed bool
  | KType : keyed (string * bool)
  | KHSet (fields : gmap string gobytes) : keyed (result Z)
  | KHGet (field : string) : keyed (result (gobytes * bool))
  | KHGetAll : keyed (result (gmap string gobytes * bool))
  | KHDel (fields : list string) : keyed (result Z)
  | KHExists (field : string) : keyed (result bool)
  | KHKeys : keyed (result (list string * bool))
  | KHVals : keyed (result (list gobytes * bool))
  | KHLen : keyed (result Z)
  | KHMGet (fields : list string) : keyed (result (list gobytes))
  | KHIncrBy (field : string) (delta : Z) : keyed (result Z)
  | KLPush (vals : list gobytes) : keyed (result Z)
  | KRPush (vals : list gobytes) : keyed (result Z)
  | KLPop : keyed (result (gobytes * bool))
  | KRPop : keyed (result (gobytes * bool))
  | KLRange (start stop : Z) : keyed (result (list gobytes))
  | KLLen : keyed (result Z)
  | KLIndex (index : Z) : keyed (result (gobytes * bool))
  | KLSet (index : Z) (val : gobytes) : keyed (result unit)
  | KLRem (count : Z) (val : gobytes) : keyed (result Z)
  | KSAdd (members : list gobytes) : keyed (result Z)
  | KSRem (members : list gobytes) : keyed (result Z)
  | KSMembers (order : SetOrder) : keyed (result (list gobytes))
  | KSIsMember (member : gobytes) : keyed (result bool)
  | KSCard : keyed (result Z)
  | KZAdd (members : gmap string float64) : keyed (result Z)
  | KZRem (members : list string) : keyed (result Z)
  | KZRange (start stop : Z) (withScores : bool) : keyed (result (list ZMember))
  | KZRevRange (start stop : Z) (withScores : bool) : keyed (result (list ZMember))
  | KZScore (member : string) : keyed (result (float64 * bool))
  | KZRank (member : string) : keyed (result (Z * bool))
  | KZCard : keyed (result Z)
  | KZIncrBy (member : string) (delta : float64) : keyed (result float64)
  | KZRangeByScore (min max : float64) : keyed (result (list ZMember)).

(** memstore's method for each operation. *)
Definition run {A} (o : keyed A) (now : time) (order : DataOrder) (ws key : string) : StoreM A :=
  match o with
  | KGet => Get now ws key
  | KSet val opts => Set_ now order ws key val opts
  | KExpire d => Expire now ws key d
  | KTTL => TTL now ws key
  | KPersist => Persist now ws key
  | KType => Type_ now ws key
  | KHSet fields => HSet now order ws key fields
  | KHGet field => HGet now ws key field
  | KHGetAll => HGetAll now ws key
  | KHDel fields => HDel now ws key fields
  | KHExists field => HExists now ws key field
  | KHKeys => HKeys now ws key
  | KHVals => HVals now ws key
  | KHLen => HLen now ws key
  | KHMGet fields => HMGet now ws key fields
  | KHIncrBy field delta => HIncrBy now order ws key field delta
  | KLPush vals => LPush now order ws key vals
  | KRPush vals => RPush now order ws key vals
  | KLPop => LPop now ws key
  | KRPop => RPop now ws key
  | KLRange start stop => LRange now ws key start stop
  | KLLen => LLen now ws key
  | KLIndex index => LIndex now ws key index
  | KLSet index val => LSet now ws key index val
  | KLRem count val => LRem now ws key count val
  | KSAdd members => SAdd now order ws key members
  | KSRem members => SRem now ws key members
  | KSMembers so => SMembers now so ws key
  | KSIsMember member => SIsMember now ws key member
  | KSCard => SCard now ws key
  | KZAdd members => ZAdd now order ws key members
  | KZRem members => ZRem now ws key members
  | KZRange start stop b => ZRange now ws key start stop b
  | KZRevRange start stop b => ZRevRange now ws key start stop b
  | KZScore member => ZScore now ws key member
  | KZRank member => ZRank now ws key member
  | KZCard => ZCard now ws key
  | KZIncrBy member delta => ZIncrBy now order ws key member delta
  | KZRangeByScore min max => ZRangeByScore now ws key min max
  end.

(** The abstract operation on the key's content. *)
Definition spec {A} (o : keyed A) (now : time) : content → A * content :=
  match o with
  | KGet => spec_Get
  | KSet val opts => spec_Set now val opts
  | KExpire d => spec_Expire now d
  | KTTL => spec_TTL now
  | KPersist => spec_Persist
  | KType => spec_Type
  | KHSet fields => spec_HSet fields
  | KHGet field => spec_HGet field
  | KHGetAll => spec_HGetAll
  | KHDel fields => spec_HDel fields
  | KHExists field => spec_HExists field
  | KHKeys => spec_HKeys
  | KHVals => spec_HVals
  | KHLen => spec_HLen
  | KHMGet fields => spec_HMGet fields
  | KHIncrBy field delta => spec_HIncrBy field delta
  | KLPush vals => spec_LPush vals
  | KRPush vals => spec_RPush vals
  | KLPop => spec_LPop
  | KRPop => spec_RPop
  | KLRange start stop => spec_LRange start stop
  | KLLen => spec_LLen
  | KLIndex index => spec_LIndex index
  | KLSet index val => spec_LSet index val
  | KLRem count val => spec_LRem count val
  | KSAdd members => spec_SAdd members
  | KSRem members => spec_SRem members
  | KSMembers so => spec_SMembers so
  | KSIsMember member => spec_SIsMember member
  | KSCard => spec_SCard
  | KZAdd members => spec_ZAdd members
  | KZRem members => spec_ZRem members
  | KZRange start stop _ => spec_ZRange start stop
  | KZRevRange start stop _ => spec_ZRevRange start stop
  | KZScore member => spec_ZScore member
  | KZRank member => spec_ZRank member
  | KZCard => spec_ZCard
  | KZIncrBy member delta => spec_ZIncrBy member delta
  | KZRangeByScore min max => spec_ZRangeByScore min max
  end.

(** The methods that may insert a new entry, hence evict. *)
Definition creates {A} (o : keyed A) : bool :=
  match o with
  | KSet _ _ | KHSet _ | KHIncrBy _ _ | KLPush _ | KRPush _ | KSAdd _ | KZAdd _ | KZIncrBy _ _ => true
  | _ => false
  end.
Definition evict_bound {A} (o : keyed A) (s : Store) : Z := if creates o then maxEntries s else 0.

Create HintDb impl.
#[export] Hint Resolve Get_impl Set_impl Expire_impl TTL_impl Persist_impl Type_impl HSet_impl HGet_impl
  HGetAll_impl HDel_impl HExists_impl HKeys_impl HVals_impl HLen_impl HMGet_impl HIncrBy_impl
  LPush_impl RPush_impl LPop_impl RPop_impl LRange_impl LLen_impl LIndex_impl LSet_impl LRem_impl
  SAdd_impl SRem_impl SMembers_impl SIsMember_impl SCard_impl ZAdd_impl ZRem_impl ZRange_impl
  ZRevRange_impl ZScore_impl ZRank_impl ZCard_impl ZIncrBy_impl ZRangeByScore_impl : impl.

Lemma run_impl {A} (o : keyed A) s now order ws key :
  store_inv s →
  store_ok (evict_bound o s) s (nsKey ws key) now 4 (spec o now) (run o now order ws key s).
Proof. intros I. destruct o; cbn [run spec evict_bound creates]; eauto with impl. Qed.

(** ** Every engine call as a step of the store *)

Definition monotone (nows : nat → time) : Prop := ∀ i j, (i ≤ j)%nat → nows i ≤ nows j.

(** [estep s n s']: one engine call turns [s] into [s'], moving each key's
    WATCH version at most [n] times. *)
Inductive estep (s : Store) : nat → Store → Prop :=
  | st_keyed A (o : keyed A) now order ws key : estep s 4 (run o now order ws key s).2
  | st_Del now ws keys : estep s (4 * length keys) (Del now ws keys s).2
  | st_Exists now ws keys : estep s 0 (Exists now ws keys s).2
  | st_Rename now ws old new : estep s 3 (Rename now ws old new s).2
  | st_Keys now ws pattern : estep s 0 (Keys now ws pattern s).2
  | st_Scan now ws cursor m count : estep s 0 (Scan now ws cursor m count s).2
  | st_FlushDB ws : estep s 1 (FlushDB ws s).2
  | st_SInter nows order ws keys : monotone nows → estep s (4 * length keys) (SInter nows order ws keys s).2
  | st_SUnion nows order ws keys : monotone nows → estep s (4 * length keys) (SUnion nows order ws keys s).2
  | st_SDiff nows order ws keys : monotone nows → estep s (4 * length keys) (SDiff nows order ws keys s).2
  | st_WatchVersion ws key : estep s 0 (WatchVersion ws key s).2
  | st_SweepShard now order i n : range_order order → (i < length (shards s))%nat →
      estep s 1 (SweepShard now order i n s).2.

Inductive esteps (s : Store) : nat → Store → Prop :=
  | esteps_nil : esteps s 0 s
  | esteps_snoc n s1 m s2 : esteps s n s1 → estep s1 m s2 → esteps s (n + m) s2.

Lemma first_then_evolves f nows order ws keys s : monotone nows → store_inv s →
  evolves (4 * length keys) s (first_then f nows order ws keys s).2.
Proof.
  intros Hm I. destruct keys as [|key keys]; [by apply evolves_refl|].
  by destruct (first_then_ok f nows ws Hm order key keys s I).
Qed.

Lemma SUnion_ok nows order ws keys s : monotone nows → store_inv s →
  let r := SUnion nows order ws keys s in
  evolves (4 * length keys) s r.2 ∧
  r.1 = match fold_snapshots (λ r snap, r ∪ snap) nows 0 s ws keys ∅ with
        | Error e => Error e
        | Ok st => Ok (setToBytes order st)
        end.
Proof.
  intros Hm I. cbv zeta. unfold SUnion, bind.
  destruct (snapshots_loop_ok (λ r snap, r ∪ snap) nows ws Hm keys 0 s ∅ I) as (Ev & Hr & _).
  destruct (snapshots_loop _ _ _ _ _ _ s) as [r s1]. cbn [fst snd ret] in *. by rewrite <- Hr.
Qed.

Lemma Exists_state now ws keys s : store_inv s → (Exists now ws keys s).2 = s.
Proof. intros I. unfold Exists. by rewrite Exists_loop_ok. Qed.

Lemma WatchVersion_ok ws key s : store_inv s → WatchVersion ws key s = (version_at s (nsKey ws key), s).
Proof. intros I. unfold WatchVersion, withShard, versionLocked. rewrite onShard_gets; [done|by apply index_lt]. Qed.

Lemma estep_evolves s n s' : store_inv s → estep s n s' → evolves n s s'.
Proof.
  intros I [].
  - by eapply store_ok_evolves, run_impl.
  - by destruct (Del_loop_ok now ws keys s 0 I).
  - rewrite Exists_state by done. by apply evolves_refl.
  - rewrite Rename_steps by done. by destruct (rename_steps_ok now (nsKey ws old) (nsKey ws new) s I).
  - by apply evolves_refl.
  - by apply evolves_refl.
  - destruct (FlushDB_ok ws s I) as [D _]. by eapply drops_evolves.
  - by apply first_then_evolves.
  - by destruct (SUnion_ok nows order ws keys s).
  - by apply first_then_evolves.
  - rewrite WatchVersion_ok by done. by apply evolves_refl.
  - destruct (SweepShard_ok now order s i n0 I) as [D _]; [done..|]. by eapply drops_evolves.
Qed.

Lemma esteps_evolves s n s' : store_inv s → esteps s n s' → evolves n s s'.
Proof.
  intros I H. induction H as [|n s1 m s2 H IH Hs]; [by apply evolves_refl|].
  eapply evolves_trans; [exact IH|]. apply estep_evolves; [apply IH|done].
Qed.

(** ** The properties of the engine *)

Lemma live_frame {A} (o : keyed A) s now order ws key k :
  store_inv s → k ≠ nsKey ws key →
  live_at now (run o now order ws key s).2 k = live_at now s k ∨
  (creates o = true ∧ 0 < maxEntries s ∧ indexOf s k = indexOf s (nsKey ws key) ∧
   live_at now (run o now order ws key s).2 k = None).
Proof.
  intros I Hk. destruct (so_frame _ _ _ _ _ _ _ (run_impl o s now order ws key I) k Hk) as [H|(H & Hi & He)].
  - left. unfold live_at. by rewrite H.
  - right. unfold evict_bound in H. destruct (creates o); [|lia]. unfold live_at. by rewrite He.
Qed.


Definition s0 : Store := newStore 2 0 None.
Lemma s0_inv : store_inv s0.
Proof. by apply newStore_inv. Qed.
Definition anyOrder : DataOrder := map_to_list.
Definition hello : gobytes := to_bytes "hello".
Definition s1 : Store := (run (KSet hello noOpts) 5 anyOrder "w" "k" s0).2.



Definition e0 : Store := (run (KSet hello noOpts) 5 anyOrder "w" "k" (newStore 1 1 None)).2.

(** C13: every store an engine built by [newStore] reaches, whatever calls it
    serves, is well-formed: keys sit in the shard they hash to, the TTL index
    of a shard holds exactly the keys with an expiry, entries carry only the
    data of their kind, and [entryCount] is the number of entries. *)
Theorem reachable_inv numShards bound pol n s :
  numShards < 2 ^ 32 → esteps (newStore numShards bound pol) n s → store_inv s.
Proof. intros Hn H. apply (esteps_evolves _ _ _ (newStore_inv _ _ _ Hn) H). Qed.

Lemma reachable_inv_witness : 2 < 2 ^ 32 ∧ store_inv s1.
Proof.
  split; [done|]. apply (reachable_inv 2 0 None (0 + 4) s1); [done|].
  eapply esteps_snoc; [apply esteps_nil|]. apply (st_keyed s0 _ (KSet hello noOpts)).
Defined.

(** WATCH is sound.  If the version of a key read by [WatchVersion] is the
    one read earlier, and the calls in between move versions less than 2^64
    times in all, then the key has the value and the expiry it had: no write,
    expiry, deletion, rename, flush, sweep or eviction went unnoticed. *)
Theorem watch_sound s n s' ws key :
  store_inv s → esteps s n s' → Z.of_nat n < 2 ^ 64 →
  (WatchVersion ws key s').1 = (WatchVersion ws key s).1 →
  content_at s' (nsKey ws key) = content_at s (nsKey ws key).
Proof.
  intros I H Hn Hv. pose proof (esteps_evolves _ _ _ I H) as E.
  rewrite !WatchVersion_ok in Hv by (apply E || done).
  destruct (decide (content_at s' (nsKey ws key) = content_at s (nsKey ws key))) as [|Hne]; [done|].
  by apply (evolves_version_ne n s s' _ I E Hn) in Hne.
Qed.

Lemma watch_sound_witness :
  (WatchVersion "w" "k" (run (KSet hello noOpts) 6 anyOrder "w" "j" s1).2).1 = (WatchVersion "w" "k" s1).1 ∧
  content_at (run (KSet hello noOpts) 6 anyOrder "w" "j" s1).2 (nsKey "w" "k") = content_at s1 (nsKey "w" "k").
Proof.
  assert (Hv : (WatchVersion "w" "k" (run (KSet hello noOpts) 6 anyOrder "w" "j" s1).2).1 =
               (WatchVersion "w" "k" s1).1) by (by vm_compute).
  split; [exact Hv|].
  apply (watch_sound s1 (0 + 4)); [|eapply esteps_snoc; [apply esteps_nil|apply st_keyed]|done|exact Hv].
  apply (run_impl (KSet hello noOpts) s0 5 anyOrder "w" "k" s0_inv).
Defined.

(** DEL returns the number of distinct live keys it was given, removes
    all of them and nothing else; EXISTS counts the live keys, repetitions
    included, and changes nothing. *)
Theorem del_exists_spec now ws keys s :
  store_inv s →
  let d := Del now ws keys s in
  d.1 = Z.of_nat (size (live_keys now s (cks ws keys))) ∧
  (∀ k, live_at now d.2 k = if decide (k ∈ cks ws keys) then None else live_at now s k) ∧
  Exists now ws keys s = (len (filter (λ key, live_at now s (nsKey ws key) ≠ None) keys), s) ∧
  (Exists now ws keys d.2).1 = 0.
Proof.
  intros I. cbv zeta. unfold Del, Exists. destruct (Del_loop_ok now ws keys s 0 I) as (Ev & Hr & Hf & Hd).
  split_and!.
  - by rewrite Hr.
  - intros k. case_decide; [by apply Hd|]. unfold live_at. by rewrite Hf.
  - by rewrite Exists_loop_ok.
  - rewrite Exists_loop_ok by apply Ev. simpl. rewrite filter_nil_Forall; [done|].
    apply Forall_forall. intros key Hk H. apply H, Hd. unfold cks.
    rewrite elem_of_list_to_set. by apply list_elem_of_fmap_2.
Qed.

Lemma s1_inv : store_inv s1.
Proof. apply (run_impl (KSet hello noOpts) s0 5 anyOrder "w" "k" s0_inv). Qed.

Lemma del_exists_spec_witness :
  is_Some (live_at 6 s1 (nsKey "w" "k")) ∧
  live_at 6 (Del 6 "w" ["k"; "j"; "k"] s1).2 (nsKey "w" "k") = None ∧
  (Exists 6 "w" ["k"; "j"; "k"] (Del 6 "w" ["k"; "j"; "k"] s1).2).1 = 0.
Proof.
  destruct (del_exists_spec 6 "w" ["k"; "j"; "k"] s1 s1_inv) as (Hd & Hl & He & Hz).
  split; [vm_compute; eauto|]. split; [|exact Hz]. rewrite Hl, decide_True; [done|].
  unfold cks. set_solver.
Defined.

(** RENAME moves the value and the expiry of a live key to the new name,
    overwriting what was there, answers whether the source was live, touches
    no other key, moves the WATCH versions of both names, and renaming a key
    to itself keeps it; whether the two names share a shard makes no
    difference. *)
Theorem rename_spec now ws old new s :
  store_inv s →
  let ock := nsKey ws old in let nck := nsKey ws new in
  let r := Rename now ws old new s in
  r.1 = bool_decide (is_Some (live_at now s ock)) ∧
  (∀ k, live_at now r.2 k =
     match live_at now s ock with
     | None => live_at now s k
     | Some c => if decide (k = nck) then Some c else if decide (k = ock) then None else live_at now s k
     end) ∧
  (live_at now s ock ≠ None → version_at r.2 ock ≠ version_at s ock ∧ version_at r.2 nck ≠ version_at s nck) ∧
  store_inv r.2.
Proof.
  intros I. cbv zeta. rewrite Rename_steps by done.
  destruct (rename_steps_ok now (nsKey ws old) (nsKey ws new) s I) as (Ev & Hr & Hl & _ & Hv).
  split_and!; [done|exact Hl| |apply Ev].
  intros H. specialize (Hv H).
  split; (eapply ver_adv_ne; [apply Hv|apply le_n| |by apply version_range]); auto; done.
Qed.

Lemma rename_spec_witness :
  (Rename 6 "w" "k" "j" s1).1 = true ∧
  live_at 6 (Rename 6 "w" "k" "j" s1).2 (nsKey "w" "j") = Some (VString hello, None) ∧
  live_at 6 (Rename 6 "w" "k" "j" s1).2 (nsKey "w" "k") = None.
Proof.
  destruct (rename_spec 6 "w" "k" "j" s1 s1_inv) as (_ & Hl & _).
  split; [by vm_compute|]. rewrite !Hl. by vm_compute.
Defined.

(** Workspaces are isolated.  FLUSHDB empties its workspace and leaves
    every key of every other workspace (value, expiry and version) alone, for
    workspace names without NUL bytes, and two keys of different workspaces
    never share an entry. *)
Theorem flush_isolated ws s :
  store_inv s → has_NUL ws = false →
  let s' := (FlushDB ws s).2 in
  (∀ now k, live_at now s' (nsKey ws k) = None) ∧
  (∀ ws' k, has_NUL ws' = false → ws' ≠ ws →
     nsKey ws' k ≠ nsKey ws k ∧
     entry_at s' (nsKey ws' k) = entry_at s (nsKey ws' k) ∧
     version_at s' (nsKey ws' k) = version_at s (nsKey ws' k)) ∧
  store_inv s'.
Proof.
  intros I Hw. cbv zeta. destruct (FlushDB_ok ws s I) as [D K]. split_and!.
  - intros now k. unfold live_at. rewrite K; [done|by exists k].
  - intros ws' k Hw' Hne. split.
    + intros E. by destruct (nsKey_inj _ _ _ _ Hw' Hw E).
    + destruct (dr_key _ _ _ D (nsKey ws' k)) as [?|(e & _ & Hin & _)]; [done|].
      exfalso. apply (in_workspace_nsKey ws ws' k) in Hin; done.
  - apply D.
Qed.

Lemma flush_isolated_witness :
  live_at 6 (FlushDB "w" s1).2 (nsKey "w" "k") = None ∧
  entry_at (FlushDB "v" s1).2 (nsKey "w" "k") = entry_at s1 (nsKey "w" "k").
Proof.
  destruct (flush_isolated "w" s1 s1_inv eq_refl) as (H1 & _).
  destruct (flush_isolated "v" s1 s1_inv eq_refl) as (_ & H2 & _).
  split; [apply H1|]. by destruct (H2 "w" "k" eq_refl ltac:(done)) as (_ & H & _).
Defined.

(** The reaper's sweep of a shard removes expired entries only, so no
    client sees a difference; it returns how many entries it removed, which is
    at most the sample size; and a sample at least as large as the TTL index
    leaves no expired entry in the shard. *)
Theorem sweep_spec now order s i n :
  store_inv s → range_order order → (i < length (shards s))%nat →
  let r := SweepShard now order i n s in
  (∀ t k, now ≤ t → live_at t r.2 k = live_at t s k) ∧
  r.1 = entryCount s - entryCount r.2 ∧ 0 ≤ r.1 ≤ Z.max 0 n ∧
  (Z.of_nat (size (ttlKeys (shards s !!! i))) ≤ n →
     ∀ k e, indexOf s k = i → entry_at r.2 k = Some e → expired e now = false) ∧
  store_inv r.2.
Proof.
  intros I Ho Hi. cbv zeta. destruct (SweepShard_ok now order s i n I Ho Hi) as (D & Hr & Hb & Hall).
  split_and!; [|done|apply Hb|apply Hb|done|apply D].
  intros t k Ht. unfold live_at. destruct (dr_key _ _ _ D k) as [[-> _]|(e & -> & Hx & -> & _)]; [done|].
  simpl. by rewrite (expired_later e now t).
Qed.

Definition s2 : Store := (run (KExpire 10) 5 anyOrder "w" "k" s1).2.
Definition sOrder : gset string → list string := elements.
Lemma sOrder_range : range_order sOrder.
Proof. intros X. split; [apply NoDup_elements|]. intros k. apply elem_of_elements. Qed.
Lemma s2_inv : store_inv s2.
Proof. apply (run_impl (KExpire 10) s1 5 anyOrder "w" "k" s1_inv). Qed.

Lemma sweep_spec_witness :
  let i := indexOf s2 (nsKey "w" "k") in
  entryCount s2 = 1 ∧ (SweepShard 20 sOrder i 20 s2).1 = 1 ∧ entryCount (SweepShard 20 sOrder i 20 s2).2 = 0.
Proof.
  cbv zeta. pose proof (index_lt s2 (nsKey "w" "k") s2_inv) as Hi.
  destruct (sweep_spec 20 sOrder s2 _ 20 s2_inv sOrder_range Hi) as (_ & H & _). rewrite H.
  split_and!; reflexivity.
Defined.



(** SINTER, SUNION and SDIFF read the sets of all their keys (a missing
    key is the empty set) and return exactly the members of the intersection,
    the union and the difference; if some key holds another kind the answer is
    a wrong-type error.  No key's content changes. *)
Theorem set_algebra_spec now order s ws key keys :
  store_inv s → set_order order →
  let sets := Forall (is_set now s ws) (key :: keys) in
  let nows := λ _ : nat, now in
  let i := SInter nows order ws (key :: keys) s in
  let u := SUnion nows order ws (key :: keys) s in
  let d := SDiff nows order ws (key :: keys) s in
  (¬ sets → i.1 = Error ErrWrongType ∧ u.1 = Error ErrWrongType ∧ d.1 = Error ErrWrongType) ∧
  (sets → ∃ li lu ld, i.1 = Ok li ∧ u.1 = Ok lu ∧ d.1 = Ok ld ∧
     ∀ x, (x ∈ bytes_of <$> li ↔ ∀ k, k ∈ key :: keys → x ∈ set_at now s ws k) ∧
          (x ∈ bytes_of <$> lu ↔ ∃ k, k ∈ key :: keys ∧ x ∈ set_at now s ws k) ∧
          (x ∈ bytes_of <$> ld ↔ x ∈ set_at now s ws key ∧ ∀ k, k ∈ keys → x ∉ set_at now s ws k)).
Proof.
  intros I Ho. cbv zeta. set (nows := λ _ : nat, now).
  assert (Hm : monotone nows) by (intros ? ? _; reflexivity).
  unfold SInter, SDiff.
  destruct (first_then_ok (λ r snap, r ∩ snap) nows ws Hm order key keys s I) as [_ ->].
  destruct (first_then_ok (λ r snap, r ∖ snap) nows ws Hm order key keys s I) as [_ ->].
  destruct (SUnion_ok nows order ws (key :: keys) s Hm I) as [_ ->].
  subst nows. cbn [fold_snapshots]. rewrite !snapshot_of_cases, Forall_cons.
  destruct (decide (is_set now s ws key)) as [Hk|Hk]; [|split; [done|by intros [? _]]].
  cbv beta iota. rewrite !fold_snapshots_spec.
  destruct (decide (Forall (is_set now s ws) keys)) as [Hks|Hks]; [|split; [done|by intros [_ ?]]].
  split; [intros Hn; by destruct Hn|intros _].
  eexists _, _, _. split_and!; [reflexivity..|]. intros x. rewrite !setToBytes_elem by done.
  rewrite foldl_inter, foldl_union, foldl_diff.
  setoid_rewrite list_elem_of_fmap. setoid_rewrite elem_of_cons. split_and!; set_solver.
Qed.

Definition s3 : Store := (run (KSAdd [to_bytes "a"; to_bytes "b"]) 5 anyOrder "w" "x" s1).2.
Lemma s3_inv : store_inv s3.
Proof. apply (run_impl (KSAdd [to_bytes "a"; to_bytes "b"]) s1 5 anyOrder "w" "x" s1_inv). Qed.
Lemma sOrder_set : set_order sOrder.
Proof. by intros X. Qed.

Lemma set_algebra_spec_witness :
  (SUnion (λ _, 6) sOrder "w" ["x"; "k"] s3).1 = Error ErrWrongType ∧
  ∃ l, (SInter (λ _, 6) sOrder "w" ["x"; "x"] s3).1 = Ok l ∧
       ∀ m, m ∈ bytes_of <$> l ↔ ∀ k, k ∈ ["x"; "x"] → m ∈ set_at 6 s3 "w" k.
Proof.
  split.
  - destruct (set_algebra_spec 6 sOrder s3 "w" "x" ["k"] s3_inv sOrder_set) as [H _].
    apply H. intros [_ [Hk _]%Forall_cons]%Forall_cons. exact Hk.
  - destruct (set_algebra_spec 6 sOrder s3 "w" "x" ["x"] s3_inv sOrder_set) as [_ H].
    destruct H as (li & lu & ld & H1 & _ & _ & H2).
    + apply Forall_cons_2; [vm_compute; exact I|]. apply Forall_cons_2; [vm_compute; exact I|apply Forall_nil_2].
    + exists li. split; [exact H1|]. intros m. apply H2.
Defined.
