(* ===== verification/CommandSpec.v ===== *)
(** * What the string and expiry commands answer

    End-to-end statements about handlers: the argument parsing, the engine
    calls at the clock's readings, and the reply, in terms of the live content
    of the key. *)

From S2P Require Import Prelude.
From S2P Require Import GoStd.
From S2P Require Import Auth.
From S2P Require Import Shard.
From S2P Require Import Store.
From S2P Require Import Caches.
From S2P Require Import ShardSpec.
From S2P Require Import StoreSpec.
From S2P Require Import EngineSpec.
From S2P Require Import EngineProofs.
From S2P Require Import Engine.
From S2P Require Import RespCodec.
From S2P Require Import Server.
From S2P Require Import HandlersKV.

Open Scope Z_scope.
Open Scope go_scope.

Section spec.
Context `{Runtime}.

(** The live content of a key of the connection's workspace, at a reading. *)
Definition seen (t : nat) (w : World) (key : string) : content :=
  live_at (clock t) (Engine (deps w)) (nsKey (Workspace (cs w)) key).

(** An engine call through a single-key method. *)
Lemma engine_keyed {A} (o : keyed A) (f : nat → string → StoreM A) order key w :
  (∀ t ws, f t ws = run o (clock t) (order t) ws key) → store_inv (Engine (deps w)) →
  let c := seen (ticks w) w key in
  ∃ w', engine f w = (Some (spec o (clock (ticks w)) c).1, w') ∧ seen (ticks w) w' key = (spec o (clock (ticks w)) c).2 ∧
    store_inv (Engine (deps w')) ∧ cs w' = cs w ∧ ticks w' = S (ticks w).
Proof.
  intros Hf I. cbv zeta. unfold engine, engineN, seen. rewrite Hf.
  pose proof (run_impl o (Engine (deps w)) (clock (ticks w)) (order (ticks w)) (Workspace (cs w)) key I) as HR.
  destruct (run o _ _ _ _ _) as [x e]. eexists.
  pose proof (so_res _ _ _ _ _ _ _ HR) as E1. cbn [fst] in E1. rewrite E1.
  split_and!; [reflexivity|apply (so_live _ _ _ _ _ _ _ HR)|apply HR|done|done].
Qed.

(** A key without expiry is seen the same at every reading. *)
Lemma seen_persistent t t' w key v : seen t w key = Some (v, None) → seen t' w key = Some (v, None).
Proof.
  unfold seen, live_at, live. destruct (entry_at _ _) as [e|]; [|done].
  unfold expired. destruct (e_ExpiresAt e) as [x|] eqn:E; cbn; [|rewrite E; done].
  case_match; [done|]. cbn. rewrite E. done.
Qed.

Lemma Get_run t ws key : Get (clock t) ws key = run KGet (clock t) (data_order t) ws key.
Proof. reflexivity. Qed.

(** [SET] without options. *)
Lemma engine_Set_ok key v w : store_inv (Engine (deps w)) →
  ∃ w', engine_Set key v noOpts w = (Some (Ok (true, nilb, false)), w') ∧
    (∀ t, seen t w' key = Some (VString (clone v), None)) ∧
    store_inv (Engine (deps w')) ∧ cs w' = cs w ∧ ticks w' = S (ticks w).
Proof.
  intros I. destruct (engine_keyed (KSet v noOpts) (λ t ws, Set_ (clock t) (data_order t) ws key v noOpts)
    data_order key w ltac:(reflexivity) I) as (w' & E & Hs & I' & Hc & Ht).
  exists w'. unfold engine_Set. rewrite E. revert Hs. cbn [spec]. unfold spec_Set.
  destruct (seen (ticks w) w key) as [[v0 x0]|]; cbn; intros Hs;
    (split_and!; [done| |done..]; intros t; by eapply seen_persistent).
Qed.

(** [GET] and the commands that start with it. *)
Lemma engine_Get_ok key w : store_inv (Engine (deps w)) →
  let c := seen (ticks w) w key in
  ∃ w', engine (λ t ws, Get (clock t) ws key) w = (Some (spec_Get c).1, w') ∧ seen (ticks w) w' key = c ∧
    store_inv (Engine (deps w')) ∧ cs w' = cs w ∧ ticks w' = S (ticks w).
Proof.
  intros I. cbv zeta. destruct (engine_keyed KGet (λ t ws, Get (clock t) ws key)
    data_order key w ltac:(reflexivity) I) as (w' & E & Hs & I' & Hc & Ht).
  exists w'. rewrite E, Hs. cbn [spec]. unfold spec_Get, spec_on.
  split_and!; [done| |done..]. destruct (seen (ticks w) w key) as [[v x]|]; [|done]. by case_decide.
Qed.

Lemma spec_Get_answer c : (spec_Get c).1 =
  match c with
  | None => Ok (nilb, false)
  | Some (VString b, _) => Ok (clone b, true)
  | Some _ => Error ErrWrongType
  end.
Proof. destruct c as [[[] x]|]; reflexivity. Qed.

(** The value of a counter: a missing key counts as zero. *)
Definition counter (c : content) : result Z :=
  match c with
  | None => Ok 0
  | Some (VString b, _) => match ParseInt (bytes_of b) with Some n => Ok n | None => Error ErrNotInteger end
  | Some _ => Error ErrWrongType
  end.

Lemma FormatInt_nonempty n : FormatInt n ≠ "".
Proof.
  unfold FormatInt, FormatUint. case_match; [done|].
  destruct (format_digits_cons 20 n "") as (c & s & ->); done.
Qed.

Lemma incrBy_ok key delta w : store_inv (Engine (deps w)) →
  let '(r, w') := incrBy key delta w in
  match counter (seen (ticks w) w key) with
  | Error err => r = Some (Error err) ∧ seen (ticks w) w' key = seen (ticks w) w key
  | Ok n => let next := wrap64 (n + delta) in
      r = Some (Ok next) ∧ ∀ t, seen t w' key = Some (VString (to_bytes (FormatInt next)), None)
  end.
Proof.
  intros I. unfold incrBy, hbind at 1, bind at 1.
  destruct (engine_Get_ok key w I) as (w1 & -> & Hs1 & I1 & _). cbv zeta in *.
  rewrite spec_Get_answer. destruct (seen (ticks w) w key) as [[v x]|] eqn:Ec.
  - destruct v as [|b|h|l|st|z]; cbn [counter]; try (split; [done|exact Hs1]).
    rewrite bytes_of_clone. destruct (ParseInt (bytes_of b)) as [n|]; [|split; [done|exact Hs1]].
    unfold hbind, bind. destruct (engine_Set_ok key (to_bytes (FormatInt (wrap64 (n + delta)))) w1 I1) as (w2 & -> & Hs2 & _).
    split; [done|]. intros t. rewrite Hs2. by rewrite clone_to_bytes by apply FormatInt_nonempty.
  - cbn [counter]. unfold hbind, bind.
    destruct (engine_Set_ok key (to_bytes (FormatInt (wrap64 (0 + delta)))) w1 I1) as (w2 & -> & Hs2 & _).
    split; [done|]. intros t. rewrite Hs2. by rewrite clone_to_bytes by apply FormatInt_nonempty.
Qed.
End spec.

(** GET after SET answers the bytes that were set, with one exception:
    the empty string, stored through an append to a nil slice, is answered as
    the null bulk string, the same reply a missing key gets. *)
Theorem set_then_get `{Runtime} c0 c1 key v w : store_inv (Engine (deps w)) →
  let '(r1, w1) := handleSet [c0; key; v] w in
  let '(r2, _) := handleGet [c1; key] w1 in
  r1 = Some OK ∧ r2 = Some (if String.eqb v "" then NullBulk else BulkString v) ∧
  (seen (ticks w1) w1 key ≠ None).
Proof.
  intros I. unfold handleSet, handleGet, args_from. cbn [arg lookup list_lookup length drop].
  unfold hbind, bind, hret, ret. cbn [decide_rel].
  destruct (decide (3 ≤ 3)%nat) as [_|Hn]; [|lia]. cbn [set_opts noOpts so_OnlyIfNX so_OnlyIfXX so_GetOld andb].
  destruct (engine_Set_ok key (to_bytes v) w I) as (w1 & -> & Hs & I1 & _ & Ht). cbn.
  destruct (engine_Get_ok key w1 I1) as (w2 & -> & _). rewrite Hs, spec_Get_answer.
  split; [done|]. split; [by destruct v|done].
Qed.


(** EXPIRE sets the deadline of a live key the given number of seconds
    ahead and answers 1, or 0 for a missing key; the number of nanoseconds is
    computed in 64 bits, so that up to 9223372036 seconds (292 years) are
    exact, zero and negative numbers delete the key, and the next nine billion
    delete it too, the product having wrapped around. *)
Theorem expire_spec `{Runtime} c0 key a n w : store_inv (Engine (deps w)) → ParseInt a = Some n →
  let '(r, w') := handleExpire [c0; key; a] w in
  match seen (ticks w) w key with
  | None => r = Some (Int 0) ∧ seen (ticks w) w' key = None
  | Some (v, _) =>
      r = Some (Int 1) ∧
      (0 < n ≤ 9223372036 → seen (ticks w) w' key = Some (v, Some (clock (ticks w) + n * Second))) ∧
      (minInt64 ≤ n * Second ≤ 0 ∨ 9223372037 ≤ n ≤ 18446744073 → seen (ticks w) w' key = None)
  end.
Proof.
  intros I Ha. unfold handleExpire. cbn [arg lookup list_lookup]. unfold hbind, bind, hret, ret. rewrite Ha.
  destruct (engine_keyed (KExpire (seconds n)) (λ t ws, Expire (clock t) ws key (seconds n))
    data_order key w ltac:(reflexivity) I) as (w' & -> & Hs & _). cbn [spec] in *. unfold spec_Expire in *.
  destruct (seen (ticks w) w key) as [[v x]|]; [|by split]. revert Hs.
  destruct (Z.leb_spec (seconds n) 0) as [Hle|Hgt]; intros Hs; (split; [done|]); (split; [intros Hn|intros Hn]); [|done| |].
  - exfalso. revert Hle. unfold seconds, Second. rewrite wrap64_id; [lia|]. unfold int64_range, minInt64, maxInt64. lia.
  - rewrite Hs. cbn. do 3 f_equal. unfold seconds, Second in *. rewrite wrap64_id; [done|].
    unfold int64_range, minInt64, maxInt64. lia.
  - exfalso. revert Hgt. unfold seconds, Second, minInt64 in *. destruct Hn as [Hn|Hn].
    + rewrite wrap64_id; [lia|]. unfold int64_range, minInt64, maxInt64. lia.
    + unfold wrap64. rewrite <- (Z.mod_unique (n * 1000000000 + 2 ^ 63) (2 ^ 64) 1 (n * 1000000000 - 2 ^ 63)); lia.
Qed.

(** ** INCR is not atomic

    The handler reads the counter and writes it in two engine calls, and
    ordinary commands take no lock across them: [incrBy] with other
    connections' calls, [others], in between. *)

Definition incrBy_interleaved `{Runtime} (key : string) (delta : Z) (others : World → World) : H (result Z) :=
  do! r := engine (λ t ws, Get (clock t) ws key) in
  match r with
  | Error err => hret (Error err)
  | Ok (val, ok) =>
      match (if ok then ParseInt (bytes_of val) else Some 0) with
      | None => hret (Error ErrNotInteger)
      | Some cur =>
          let next := wrap64 (cur + delta) in
          do! _ := (λ w, (Some tt, others w)) in
          do! r := engine_Set key (to_bytes (FormatInt next)) noOpts in
          hret (match r with Error err => Error err | Ok _ => Ok next end)
      end
  end.

Lemma incrBy_interleaved_none `{Runtime} key delta w : incrBy_interleaved key delta (λ w, w) w = incrBy key delta w.
Proof. reflexivity. Qed.

(** Whatever sound calls come in between, the answer and the stored value are
    those of the counter that was read: increments acknowledged meanwhile are
    lost. *)
Theorem incr_loses_updates `{Runtime} key delta n others w : store_inv (Engine (deps w)) →
  counter (seen (ticks w) w key) = Ok n →
  (∀ w, store_inv (Engine (deps w)) → store_inv (Engine (deps (others w))) ∧ Workspace (cs (others w)) = Workspace (cs w)) →
  let '(r, w') := incrBy_interleaved key delta others w in
  r = Some (Ok (wrap64 (n + delta))) ∧
  ∀ t, seen t w' key = Some (VString (to_bytes (FormatInt (wrap64 (n + delta)))), None).
Proof.
  intros I Hc Ho. unfold incrBy_interleaved, hbind at 1, bind at 1.
  destruct (engine_Get_ok key w I) as (w1 & -> & Hs1 & I1 & _). cbv zeta in *.
  assert (E : ∃ val ok, (spec_Get (seen (ticks w) w key)).1 = Ok (val, ok) ∧
    (if ok then ParseInt (bytes_of val) else Some 0) = Some n).
  { rewrite spec_Get_answer. destruct (seen (ticks w) w key) as [[[] x]|]; cbn [counter] in Hc; try done.
    - eexists _, _. split; [done|]. cbn. rewrite bytes_of_clone. destruct (ParseInt (bytes_of b)); [by injection Hc as ->|done].
    - injection Hc as <-. by eexists _, _. }
  destruct E as (val & ok & -> & ->). cbv zeta. unfold hbind, bind.
  destruct (Ho w1 I1) as [I2 _].
  destruct (engine_Set_ok key (to_bytes (FormatInt (wrap64 (n + delta)))) (others w1) I2) as (w2 & -> & Hs2 & _).
  split; [done|]. intros t. rewrite Hs2. by rewrite clone_to_bytes by apply FormatInt_nonempty.
Qed.

(** ** Concrete runs *)

#[local] Instance cmd_runtime : Runtime := plain_runtime Z.of_nat.

Definition cmd_store : Store := (run (KSet (to_bytes "9223372036854775807") noOpts) 0 map_to_list "default" "n" (newStore 4 0 None)).2.
Definition cmd_world : World :=
  mkWorld (newDeps cmd_store (auth.New "")) NewClientState 0 0.
Lemma cmd_inv : store_inv (Engine (deps cmd_world)).
Proof. apply (run_impl (KSet (to_bytes "9223372036854775807") noOpts) (newStore 4 0 None) 0 map_to_list "default" "n"). by apply newStore_inv. Qed.

Lemma set_then_get_witness :
  (handleGet ["GET"; "k"] (handleSet ["SET"; "k"; ""] cmd_world).2).1 = Some NullBulk ∧
  (handleGet ["GET"; "k"] (handleSet ["SET"; "k"; "v"] cmd_world).2).1 = Some (BulkString "v").
Proof.
  pose proof (set_then_get "SET" "GET" "k" "" cmd_world cmd_inv) as H1.
  pose proof (set_then_get "SET" "GET" "k" "v" cmd_world cmd_inv) as H2.
  split.
  - destruct (handleSet ["SET"; "k"; ""] cmd_world) as [r1 w1]. cbn [snd].
    destruct (handleGet ["GET"; "k"] w1) as [r2 w2]. exact (proj1 (proj2 H1)).
  - destruct (handleSet ["SET"; "k"; "v"] cmd_world) as [r1 w1]. cbn [snd].
    destruct (handleGet ["GET"; "k"] w1) as [r2 w2]. exact (proj1 (proj2 H2)).
Defined.


Lemma expire_spec_witness :
  (handleExpire ["EXPIRE"; "n"; "9223372037"] cmd_world).1 = Some (Int 1) ∧
  seen 0 (handleExpire ["EXPIRE"; "n"; "9223372037"] cmd_world).2 "n" = None.
Proof.
  pose proof (expire_spec "EXPIRE" "n" "9223372037" 9223372037 cmd_world cmd_inv eq_refl) as He.
  assert (Hc : seen (ticks cmd_world) cmd_world "n" = Some (VString (to_bytes "9223372036854775807"), None))
    by (vm_compute; reflexivity).
  rewrite Hc in He. destruct (handleExpire ["EXPIRE"; "n"; "9223372037"] cmd_world) as [r w'].
  destruct He as (Hr & _ & He). split; [exact Hr|]. apply He. right. split; discriminate.
Defined.

(** Two clients increment a missing counter; both are told 1, which it stays. *)
Lemma incr_race :
  let others w := (incrBy "c" 1 w).2 in
  (incrBy "c" 1 cmd_world).1 = Some (Ok 1) ∧
  (incrBy_interleaved "c" 1 others cmd_world).1 = Some (Ok 1) ∧
  seen 9 (incrBy_interleaved "c" 1 others cmd_world).2 "c" = Some (VString (to_bytes "1"), None).
Proof. vm_compute. split_and!; reflexivity. Qed.
