(* ===== verification/TxSpec.v ===== *)
(** * MULTI, WATCH and EXEC *)

From S2P Require Import Prelude.
From S2P Require Import GoStd.
From S2P Require Import Auth.
From S2P Require Import Shard.
From S2P Require Import Store.
From S2P Require Import Similarity.
From S2P Require Import Caches.
From S2P Require Import Providers.
From S2P Require Import ShardSpec.
From S2P Require Import StoreSpec.
From S2P Require Import Engine.
From S2P Require Import RespCodec.
From S2P Require Import Server.
From S2P Require Import HandlersKV.
From S2P Require Import HandlersData.
From S2P Require Import Session.
From S2P Require Import SessionSpec.
From S2P Require Import SessionRun.

Open Scope Z_scope.
Open Scope go_scope.

Section tx.
Context `{Runtime}.

(** The version of a key of the connection's current workspace. *)
Definition version_of_key (w : World) (key : string) : Z :=
  version_at (Engine (deps w)) (nsKey (Workspace (cs w)) key).

Lemma engine_version_ok key w : store_inv (Engine (deps w)) → engine_version key w = (Some (version_of_key w key), w).
Proof.
  intros I. unfold engine_version, engineN. rewrite WatchVersion_ok by done. unfold version_of_key.
  rewrite Z.sub_diag. by destruct w as [[] [] ? ?].
Qed.

Lemma unchanged_ok l : ∀ w, store_inv (Engine (deps w)) →
  unchanged l w = (Some (bool_decide (Forall (λ kv, version_of_key w kv.1 = kv.2) l)), w).
Proof.
  induction l as [|[k v] l IH]; intros w I; cbn [unchanged]; [done|].
  unfold hbind at 1, bind. rewrite engine_version_ok by done.
  destruct (Z.eqb_spec (version_of_key w k) v) as [E|E]; cbn [negb].
  - rewrite IH by done. do 2 f_equal. apply bool_decide_ext. rewrite Forall_cons. cbn. tauto.
  - unfold hret, ret. do 2 f_equal. symmetry. apply bool_decide_eq_false. rewrite Forall_cons. cbn. tauto.
Qed.

Lemma watch_loop_ok keys : ∀ w, store_inv (Engine (deps w)) →
  watch_loop keys w = (Some tt,
    set_cs (set_Watched (foldl (λ m k, <[k := version_of_key w k]> m) (Watched (cs w)) keys) (cs w)) w).
Proof.
  induction keys as [|k keys IH]; intros w I; cbn [watch_loop foldl]; [by destruct w as [? [] ? ?]|].
  unfold hbind at 1, bind at 1. rewrite engine_version_ok by done. unfold hbind, bind, put_cs.
  rewrite IH by done. done.
Qed.
Lemma foldl_insert_lookup {B} (f : string → B) keys : ∀ (m : gmap string B) k,
  foldl (λ m k, <[k := f k]> m) m keys !! k = if decide (k ∈ keys) then Some (f k) else m !! k.
Proof.
  induction keys as [|k' keys IH]; intros m k; cbn [foldl]; [by rewrite decide_False by apply not_elem_of_nil|].
  rewrite IH. destruct (decide (k ∈ keys)) as [Hk|Hk].
  - by rewrite decide_True by (by right).
  - destruct (decide (k = k')) as [->|Hne].
    + rewrite lookup_insert_eq, decide_True by (by left). done.
    + rewrite lookup_insert_ne, decide_False by (rewrite ?elem_of_cons; naive_solver). done.
Qed.

(** Leaving MULTI. *)
Definition ended_tx (w : World) : World := set_cs (set_Watched ∅ (set_Multi false false [] (cs w))) w.

Lemma handleExec_ok handle args w : store_inv (Engine (deps w)) →
  handleExec handle args w =
  if negb (InMulti (cs w)) then (Some (Err "ERR EXEC without MULTI"), w)
  else if MultiError (cs w) then (Some (Err ErrExecAbort), ended_tx w)
  else if bool_decide (∀ k v, Watched (cs w) !! k = Some v → version_of_key w k = v)
       then let '(r, w') := exec_loop handle (Queued (cs w)) (ended_tx w) in (ArraySlice <$> r, w')
       else (Some NullArray, ended_tx w).
Proof.
  intros I. unfold handleExec. unfold hbind at 1, bind at 1, get_cs.
  destruct (InMulti (cs w)); cbn [negb]; [|done]. unfold hbind at 1, bind at 1, put_cs. fold (ended_tx w).
  destruct (MultiError (cs w)); [done|]. unfold hbind at 1, bind at 1.
  change (set_cs (set_Watched ∅ (set_Multi false false [] (cs w))) w) with (ended_tx w).
  rewrite unchanged_ok by done.
  assert (E : bool_decide (Forall (λ kv, version_of_key (ended_tx w) kv.1 = kv.2) (map_to_list (Watched (cs w))))
            = bool_decide (∀ k v, Watched (cs w) !! k = Some v → version_of_key w k = v)).
  { apply bool_decide_ext. rewrite Forall_forall. split.
    - intros Hf k v Hk. apply (Hf (k, v)). by apply elem_of_map_to_list.
    - intros Hf [k v] Hin%elem_of_map_to_list. by apply Hf. }
  rewrite E. clear E. destruct (bool_decide (∀ k v, _)); cbn [negb]; [|reflexivity]. unfold hbind, bind.
  destruct (exec_loop handle (Queued (cs w)) (ended_tx w)) as [[rs|] w']; done.
Qed.
End tx.


(** ** Concrete transactions *)

#[local] Instance tx_runtime : Runtime := plain_runtime Z.of_nat.
#[local] Instance tx_floats : FloatText := {| ParseFloat := λ _, None; FormatFloat := λ _, "" |}.
#[local] Existing Instance toy_codec.
#[local] Existing Instance offline.
#[local] Existing Instance no_encoding.

Definition tx_world : World :=
  mkWorld (newDeps (newStore 4 0 None) (auth.NewMultiWorkspace [auth.mkCredential "a" "pa"; auth.mkCredential "b" "pb"]))
    NewClientState 0 0.
(** Another connection's write to a key of workspace [ws]. *)
Definition foreign_set (ws key v : string) (w : World) : World :=
  set_deps (set_Engine (run (KSet (to_bytes v) noOpts) 0 map_to_list ws key (Engine (deps w))).2 (deps w)) w.

Definition tx_queued : World :=
  (play [["AUTH"; "pa"]; ["WATCH"; "k"]; ["MULTI"]; ["SET"; "k"; "mine"]; ["GET"; "k"]] None tx_world).2.

Lemma tx_world_inv : store_inv (Engine (deps tx_world)).
Proof. by apply newStore_inv. Qed.
Lemma foreign_set_inv ws key v w : store_inv (Engine (deps w)) → store_inv (Engine (deps (foreign_set ws key v w))).
Proof. apply (run_impl (KSet (to_bytes v) noOpts)). Qed.
Lemma tx_queued_store : Engine (deps tx_queued) = newStore 4 0 None.
Proof. vm_compute. reflexivity. Qed.


(** *** Two holes in WATCH

    EXEC reads the versions before it takes the transaction mutex, which
    ordinary commands do not take at all: [handleExec] with another
    connection's calls, [others], between the check and the queue. *)
Definition exec_interleaved (handle : list string → H (option Reply)) (others : World → World) : HandlerFunc := λ args,
  do! c := get_cs in
  if negb (InMulti c) then hret (Err "ERR EXEC without MULTI") else
  do! _ := put_cs (λ c, set_Watched ∅ (set_Multi false false [] c)) in
  if MultiError c then hret (Err ErrExecAbort) else
  do! ok := unchanged (map_to_list (Watched c)) in
  if negb ok then hret NullArray else
  do! _ := (λ w, (Some tt, others w)) in
  do! replies := exec_loop handle (Queued c) in
  hret (ArraySlice replies).

Lemma exec_interleaved_none handle args w : exec_interleaved handle (λ w, w) args w = handleExec handle args w.
Proof. reflexivity. Qed.

(** A write to the watched key between the check and the queue is overwritten
    by a transaction that answers as if it had been alone. *)
Lemma exec_loses_update :
  let '(r, w') := exec_interleaved (Handle 1) (foreign_set "a" "k" "theirs") ["EXEC"] tx_queued in
  r = Some (ArraySlice [OK; BulkString "mine"]) ∧
  live_at 100 (Engine (deps w')) (nsKey "a" "k") = Some (VString (to_bytes "mine"), None).
Proof. vm_compute. split; reflexivity. Qed.

(** The watch list holds key names only: after AUTH has moved the connection
    to another workspace, EXEC compares the versions of that workspace's keys
    and misses the change of the key that was watched. *)
Lemma watch_forgets_workspace :
  let w1 := (play [["AUTH"; "pa"]; ["WATCH"; "k"]] None tx_world).2 in
  let w2 := foreign_set "a" "k" "theirs" w1 in
  (play [["MULTI"]; ["PING"]; ["EXEC"]] None w2).1 = Some (Some NullArray) ∧
  (play [["AUTH"; "pb"]; ["MULTI"]; ["PING"]; ["EXEC"]] None w2).1 = Some (Some (ArraySlice [Simple "PONG"])).
Proof. vm_compute. split; reflexivity. Qed.
