(* ===== verification/Confine.v ===== *)
(** * Engine calls are confined to their workspace

    Every method of the storage engine, called for a workspace, leaves the keys
    of the other workspaces as they are, evictions apart.  [confines] is a hint
    database: [auto with confines] decides it for every call of the handlers. *)

From S2P Require Import Prelude.
From S2P Require Import GoStd.
From S2P Require Import Shard.
From S2P Require Import Store.
From S2P Require Import StoreHash.
From S2P Require Import StoreList.
From S2P Require Import StoreSet.
From S2P Require Import StoreZSet.
From S2P Require Import ShardSpec.
From S2P Require Import StoreSpec.
From S2P Require Import EngineSpec.
From S2P Require Import EngineProofs.
From S2P Require Import EngineMulti.
From S2P Require Import KeySpace.
From S2P Require Import KeyScan.
From S2P Require Import Engine.
From S2P Require Import Server.
From S2P Require Import HandlersKV.
From S2P Require Import HandlersData.

Open Scope Z_scope.
Open Scope go_scope.

(** Outside the workspaces of [W], [s'] is [s]; with a bound on entries, a key
    may have been evicted. *)
Record confined (W : string → Prop) (s s' : Store) : Prop := {
  cf_inv : store_inv s';
  cf_config : same_config s s';
  cf_frame : ∀ k, (∀ ws, W ws → ¬ in_workspace ws k) →
    entry_at s' k = entry_at s k ∨ (0 < maxEntries s ∧ entry_at s' k = None);
}.

Lemma confined_refl W s : store_inv s → confined W s s.
Proof. intros I. split; [done|by split|]. intros k _. by left. Qed.
Lemma confined_trans W s1 s2 s3 : confined W s1 s2 → confined W s2 s3 → confined W s1 s3.
Proof.
  intros [I1 C1 F1] [I2 C2 F2]. split; [done|by eapply same_config_trans|]. intros k Hk.
  destruct (F2 k Hk) as [E2|[Hm E2]]; [rewrite E2; by apply F1|]. right. split; [|done].
  destruct C1 as (_ & Hmx & _). by rewrite <- Hmx.
Qed.

Definition confines {A} (ws : string) (m : StoreM A) : Prop :=
  ∀ W s, W ws → store_inv s → confined W s (m s).2.

Lemma store_ok_confined {A} (W : string → Prop) mx s ws key now n f (r : A * Store) :
  W ws → mx ≤ Z.max 0 (maxEntries s) → store_ok mx s (nsKey ws key) now n f r → confined W s r.2.
Proof.
  intros HW Hmx H. split; [apply H|apply H|]. intros k Hk.
  assert (Hne : k ≠ nsKey ws key) by (intros ->; apply (Hk ws HW); by exists key).
  destruct (so_frame _ _ _ _ _ _ _ H k Hne) as [?|(? & _ & ?)]; [by left|right; split; [lia|done]].
Qed.

Lemma run_confines {A} (o : keyed A) now order ws key : confines ws (run o now order ws key).
Proof.
  intros W s HW I. eapply store_ok_confined; [done| |by apply run_impl]. unfold evict_bound. destruct (creates o); lia.
Qed.
Lemma Del_confines now ws keys : confines ws (Del now ws keys).
Proof.
  intros W s HW I. destruct (Del_loop_ok now ws keys s 0 I) as (Ev & _ & Hf & _).
  split; [apply Ev|apply Ev|]. intros k Hk. left. apply Hf. unfold cks. rewrite elem_of_list_to_set.
  intros (key & -> & _)%list_elem_of_fmap. apply (Hk ws HW). by exists key.
Qed.
Lemma Exists_confines now ws keys : confines ws (Exists now ws keys).
Proof. intros W s HW I. rewrite Exists_state by done. by apply confined_refl. Qed.
Lemma Rename_confines now ws old new : confines ws (Rename now ws old new).
Proof.
  intros W s HW I. rewrite Rename_steps by done.
  destruct (rename_steps_ok now (nsKey ws old) (nsKey ws new) s I) as (Ev & _ & _ & Hf & _).
  split; [apply Ev|apply Ev|]. intros k Hk. left. apply Hf; intros ->; apply (Hk ws HW); eexists; reflexivity.
Qed.
Lemma FlushDB_confines ws : confines ws (FlushDB ws).
Proof.
  intros W s HW I. destruct (FlushDB_ok ws s I) as [D _]. split; [apply D|apply D|]. intros k Hk. left.
  destruct (dr_key _ _ _ D k) as [[? _]|(e & _ & Hin & _)]; [done|]. by destruct (Hk ws HW).
Qed.
Lemma Keys_confines now ws p : confines ws (Keys now ws p).
Proof. intros W s HW I. by apply confined_refl. Qed.
Lemma Scan_confines now ws c m n : confines ws (Scan now ws c m n).
Proof. intros W s HW I. by apply confined_refl. Qed.
Lemma WatchVersion_confines ws key : confines ws (WatchVersion ws key).
Proof. intros W s HW I. rewrite WatchVersion_ok by done. by apply confined_refl. Qed.

Lemma setSnapshot_confines now ws key : confines ws (setSnapshot now ws key).
Proof. intros W s HW I. eapply store_ok_confined; [done| |by apply setSnapshot_impl]. lia. Qed.
Lemma bind_confines {A B} ws (m : StoreM A) (k : A → StoreM B) :
  confines ws m → (∀ a, confines ws (k a)) → confines ws (bind m k).
Proof.
  intros Hm Hk W s HW I. pose proof (Hm W s HW I) as H1. unfold bind. destruct (m s) as [a s1]. cbn [snd] in H1.
  eapply confined_trans; [exact H1|]. apply Hk; [done|apply H1].
Qed.
Lemma ret_confines {A} ws (a : A) : confines ws (ret a).
Proof. intros W s HW I. by apply confined_refl. Qed.
Lemma snapshots_loop_confines f nows ws keys : ∀ i acc, confines ws (snapshots_loop f nows i ws keys acc).
Proof.
  induction keys as [|k keys IH]; intros i acc; cbn [snapshots_loop]; [apply ret_confines|].
  apply bind_confines; [apply setSnapshot_confines|]. intros [snap|err]; [apply IH|apply ret_confines].
Qed.
Lemma first_then_confines f nows order ws keys : confines ws (first_then f nows order ws keys).
Proof.
  destruct keys as [|k keys]; cbn [first_then]; [apply ret_confines|].
  apply bind_confines; [apply setSnapshot_confines|]. intros [snap|err]; [|apply ret_confines].
  apply bind_confines; [apply snapshots_loop_confines|]. intros. apply ret_confines.
Qed.
Lemma SUnion_confines nows order ws keys : confines ws (SUnion nows order ws keys).
Proof. apply bind_confines; [apply snapshots_loop_confines|]. intros. apply ret_confines. Qed.

Create HintDb confines.
#[export] Hint Resolve Del_confines Exists_confines Rename_confines FlushDB_confines Keys_confines Scan_confines
  WatchVersion_confines SUnion_confines : confines.
#[export] Hint Extern 1 (confines _ (SInter _ _ _ _)) => apply first_then_confines : confines.
#[export] Hint Extern 1 (confines _ (SDiff _ _ _ _)) => apply first_then_confines : confines.

(** The single-key methods, through their constructors. *)
Definition keyed_call {A} (ws : string) (m : StoreM A) : Prop :=
  ∃ (o : keyed A) now order key, m = run o now order ws key.
Lemma keyed_confines {A} ws (m : StoreM A) : keyed_call ws m → confines ws m.
Proof. intros (o & now & order & key & ->). apply run_confines. Qed.
Ltac keyed_call :=
  match goal with
  | |- keyed_call _ (Get ?n ?w ?k) => exists KGet, n, map_to_list, k; reflexivity
  | |- keyed_call _ (Set_ ?n ?o ?w ?k ?v ?opts) => exists (KSet v opts), n, o, k; reflexivity
  | |- keyed_call _ (Expire ?n ?w ?k ?d) => exists (KExpire d), n, map_to_list, k; reflexivity
  | |- keyed_call _ (TTL ?n ?w ?k) => exists KTTL, n, map_to_list, k; reflexivity
  | |- keyed_call _ (Persist ?n ?w ?k) => exists KPersist, n, map_to_list, k; reflexivity
  | |- keyed_call _ (Type_ ?n ?w ?k) => exists KType, n, map_to_list, k; reflexivity
  | |- keyed_call _ (HSet ?n ?o ?w ?k ?v) => exists (KHSet v), n, o, k; reflexivity
  | |- keyed_call _ (HGet ?n ?w ?k ?f) => exists (KHGet f), n, map_to_list, k; reflexivity
  | |- keyed_call _ (HGetAll ?n ?w ?k) => exists KHGetAll, n, map_to_list, k; reflexivity
  | |- keyed_call _ (HDel ?n ?w ?k ?f) => exists (KHDel f), n, map_to_list, k; reflexivity
  | |- keyed_call _ (HExists ?n ?w ?k ?f) => exists (KHExists f), n, map_to_list, k; reflexivity
  | |- keyed_call _ (HKeys ?n ?w ?k) => exists KHKeys, n, map_to_list, k; reflexivity
  | |- keyed_call _ (HVals ?n ?w ?k) => exists KHVals, n, map_to_list, k; reflexivity
  | |- keyed_call _ (HLen ?n ?w ?k) => exists KHLen, n, map_to_list, k; reflexivity
  | |- keyed_call _ (HMGet ?n ?w ?k ?f) => exists (KHMGet f), n, map_to_list, k; reflexivity
  | |- keyed_call _ (HIncrBy ?n ?o ?w ?k ?f ?d) => exists (KHIncrBy f d), n, o, k; reflexivity
  | |- keyed_call _ (LPush ?n ?o ?w ?k ?v) => exists (KLPush v), n, o, k; reflexivity
  | |- keyed_call _ (RPush ?n ?o ?w ?k ?v) => exists (KRPush v), n, o, k; reflexivity
  | |- keyed_call _ (LPop ?n ?w ?k) => exists KLPop, n, map_to_list, k; reflexivity
  | |- keyed_call _ (RPop ?n ?w ?k) => exists KRPop, n, map_to_list, k; reflexivity
  | |- keyed_call _ (LRange ?n ?w ?k ?a ?b) => exists (KLRange a b), n, map_to_list, k; reflexivity
  | |- keyed_call _ (LLen ?n ?w ?k) => exists KLLen, n, map_to_list, k; reflexivity
  | |- keyed_call _ (LIndex ?n ?w ?k ?i) => exists (KLIndex i), n, map_to_list, k; reflexivity
  | |- keyed_call _ (LSet ?n ?w ?k ?i ?v) => exists (KLSet i v), n, map_to_list, k; reflexivity
  | |- keyed_call _ (LRem ?n ?w ?k ?c ?v) => exists (KLRem c v), n, map_to_list, k; reflexivity
  | |- keyed_call _ (SAdd ?n ?o ?w ?k ?m) => exists (KSAdd m), n, o, k; reflexivity
  | |- keyed_call _ (SRem ?n ?w ?k ?m) => exists (KSRem m), n, map_to_list, k; reflexivity
  | |- keyed_call _ (SMembers ?n ?so ?w ?k) => exists (KSMembers so), n, map_to_list, k; reflexivity
  | |- keyed_call _ (SIsMember ?n ?w ?k ?m) => exists (KSIsMember m), n, map_to_list, k; reflexivity
  | |- keyed_call _ (SCard ?n ?w ?k) => exists KSCard, n, map_to_list, k; reflexivity
  | |- keyed_call _ (ZAdd ?n ?o ?w ?k ?m) => exists (KZAdd m), n, o, k; reflexivity
  | |- keyed_call _ (ZRem ?n ?w ?k ?m) => exists (KZRem m), n, map_to_list, k; reflexivity
  | |- keyed_call _ (ZRange ?n ?w ?k ?a ?b ?s) => exists (KZRange a b s), n, map_to_list, k; reflexivity
  | |- keyed_call _ (ZRevRange ?n ?w ?k ?a ?b ?s) => exists (KZRevRange a b s), n, map_to_list, k; reflexivity
  | |- keyed_call _ (ZScore ?n ?w ?k ?m) => exists (KZScore m), n, map_to_list, k; reflexivity
  | |- keyed_call _ (ZRank ?n ?w ?k ?m) => exists (KZRank m), n, map_to_list, k; reflexivity
  | |- keyed_call _ (ZCard ?n ?w ?k) => exists KZCard, n, map_to_list, k; reflexivity
  | |- keyed_call _ (ZIncrBy ?n ?o ?w ?k ?m ?d) => exists (KZIncrBy m d), n, o, k; reflexivity
  | |- keyed_call _ (ZRangeByScore ?n ?w ?k ?a ?b) => exists (KZRangeByScore a b), n, map_to_list, k; reflexivity
  end.
#[export] Hint Extern 1 (keyed_call _ _) => keyed_call : confines.
#[export] Hint Extern 2 (confines _ _) => (apply keyed_confines; keyed_call) : confines.
