(* ===== verification/TenantStores.v ===== *)
(** * The workspaces of the agent stores

    The vector store, the memory store and the knowledge graph are maps of
    workspaces.  A call for one workspace leaves the others as they are. *)

From S2P Require Import Prelude.
From S2P Require Import GoStd.
From S2P Require Import Floats.
From S2P Require Import Similarity.
From S2P Require Import Vector.
From S2P Require Import Memory.
From S2P Require Import Graph.
From S2P Require Import Server.

Open Scope Z_scope.

(** ** The vector store *)

Lemma Upsert_other ns id v md txt (s : vector.Store) ws : ws ≠ ns → vector.Upsert ns id v md txt s !! ws = s !! ws.
Proof. intros Hne. unfold vector.Upsert, vector.Store in *. by rewrite lookup_insert_ne. Qed.
Lemma Delete_other ns id (s : vector.Store) ws : ws ≠ ns → (vector.Delete ns id s).2 !! ws = s !! ws.
Proof.
  intros Hne. unfold vector.Delete, vector.Store in *. destruct (s !! ns) as [m|]; [|done].
  destruct (m !! id); [|done]. cbn [snd]. by rewrite lookup_insert_ne.
Qed.

(** ** The memory store *)

(** What the store holds for a workspace. *)
Definition memory_slice (s : memory.Store) (ws : string) :=
  (memory.records s !! ws, memory.history s !! ws, (memory.vecStore s : gmap string (gmap string vector.vecEntry)) !! ws).
Definition memory_same (w : string) (s s' : memory.Store) : Prop :=
  ∀ ws, ws ≠ w → memory_slice s' ws = memory_slice s ws.

Lemma memory_same_refl w s : memory_same w s s.
Proof. done. Qed.
Lemma memory_same_trans w s1 s2 s3 : memory_same w s1 s2 → memory_same w s2 s3 → memory_same w s1 s3.
Proof. intros E1 E2 ws Hne. by rewrite E2, E1. Qed.

Lemma recordHistory_same w id prior s : memory_same w s (memory.recordHistoryLocked w id prior s).
Proof. intros ws Hne. unfold memory_slice. cbn. by rewrite lookup_insert_ne. Qed.
Lemma dropLocked_same w id m s : memory_same w s (memory.dropLocked w id m s).
Proof.
  intros ws Hne. unfold memory_slice, memory.dropLocked, memory.deleteHistoryLocked. cbn [memory.history].
  case_match; cbn; by rewrite ?lookup_insert_ne, Delete_other by done.
Qed.
Lemma memory_Put_same p g now m ttl s : memory_same (memory.WorkspaceID m) s (memory.Put p g now m ttl s).2.
Proof.
  unfold memory.Put. case_match; [done|]. destruct (embed.EmbedOne p _) as [v0| |]; [|done..].
  destruct (if String.eqb (memory.ID m) "" then g else _) as [id0|]; [|done].
  assert (HS : ∀ s1 v id rec, memory_same (memory.WorkspaceID m) s s1 →
    memory_same (memory.WorkspaceID m) s (
      memory.mkStore (vector.Upsert (memory.WorkspaceID m) id v (memory.vec_metadata m) "" (memory.vecStore s1))
        (<[memory.WorkspaceID m := <[id := rec]> (default ∅ (memory.records s !! memory.WorkspaceID m))]>
           (memory.records s1)) (memory.history s1))).
  { intros s1 v id rec Hs1 ws Hne. rewrite <- (Hs1 ws Hne). unfold memory_slice. cbn.
    by rewrite lookup_insert_ne, Upsert_other by done. }
  destruct (default ∅ (memory.records s !! _) !! id0); apply HS; [apply recordHistory_same|done].
Qed.
Lemma memory_Get_same now w id s : memory_same w s (memory.Get now w id s).2.
Proof. unfold memory.Get. repeat case_match; try done. apply dropLocked_same. Qed.
Lemma memory_History_same now w id s : memory_same w s (memory.History now w id s).2.
Proof. unfold memory.History. repeat case_match; try done. apply dropLocked_same. Qed.
Lemma Search_loop_same now w th raw : ∀ s, memory_same w s (memory.Search_loop now w th raw s).2.
Proof.
  induction raw as [|r raw IH]; intros s; cbn [memory.Search_loop]; [done|]. cbv zeta.
  case_match; [|done]. case_match; [eapply memory_same_trans; [apply dropLocked_same|apply IH]|].
  case_match; [done|]. pose proof (IH s) as Hs. by destruct (memory.Search_loop now w th raw s).
Qed.
Lemma memory_Search_same `{UnicodeTables} p order now w q opts s :
  memory_same w s (memory.Search p order now w q opts s).2.
Proof.
  unfold memory.Search. case_match; [|done..].
  match goal with |- context [memory.Search_loop ?n ?w ?t ?r ?s] => pose proof (Search_loop_same n w t r s) as Hs end.
  by destruct (memory.Search_loop _ _ _ _ _).
Qed.
Lemma List_loop_same now w opts l : ∀ s, memory_same w s (memory.List_loop now w opts l s).2.
Proof.
  induction l as [|[id rec] l IH]; intros s; cbn [memory.List_loop]; [done|].
  case_match; [eapply memory_same_trans; [apply dropLocked_same|apply IH]|].
  case_match; [done|]. case_match; [done|]. pose proof (IH s) as Hs. by destruct (memory.List_loop now w opts l s).
Qed.
Lemma memory_List_same order now w opts s : memory_same w s (memory.List_ order now w opts s).2.
Proof. unfold memory.List_. case_match; [apply List_loop_same|done]. Qed.

(** ** The knowledge graph *)

Definition graph_same (w : string) (s s' : graph.Store) : Prop :=
  ∀ ws, ws ≠ w → (s' : gmap string graph.workspaceGraph) !! ws = (s : gmap string graph.workspaceGraph) !! ws.

Lemma UpsertNode_same w n s0 s : graph_same w s0 s → graph_same w s0 (graph.UpsertNode w n s).
Proof. intros HS ws Hne. rewrite <- (HS ws Hne). unfold graph.UpsertNode, graph.Store in *. by rewrite lookup_insert_ne. Qed.
Lemma UpsertEdge_same w e s0 s : graph_same w s0 s → graph_same w s0 (graph.UpsertEdge w e s).
Proof. intros HS ws Hne. rewrite <- (HS ws Hne). unfold graph.UpsertEdge, graph.Store in *. by rewrite lookup_insert_ne. Qed.
Lemma add_entities_same w es : ∀ s0 s a, graph_same w s0 s → graph_same w s0 (graph.add_entities w es s a).1.
Proof. induction es; intros s0 s a0 HS; cbn; [done|]. case_match; auto using UpsertNode_same. Qed.
Lemma add_relations_same w rs : ∀ s0 s a, graph_same w s0 s → graph_same w s0 (graph.add_relations w rs s a).1.
Proof. induction rs; intros s0 s a0 HS; cbn; [done|]. case_match; auto using UpsertEdge_same. Qed.
Lemma add_mentions_same w id es : ∀ s0 s, graph_same w s0 s → graph_same w s0 (graph.add_mentions w id es s).
Proof. induction es; intros s0 s HS; cbn; [done|]. case_match; auto using UpsertEdge_same. Qed.
Lemma Extract_same `{graph.Extractor} w id content s : graph_same w s (graph.Extract w id content s).2.
Proof.
  unfold graph.Extract. do 2 (case_match; [|done]). case_match; [done|].
  match goal with |- context [graph.add_entities w ?es s 0] => pose proof (add_entities_same w es s s 0 ltac:(done)) as Ha;
    destruct (graph.add_entities w es s 0) as [s1 n1] end.
  match goal with |- context [graph.add_relations w ?rs s1 0] => pose proof (add_relations_same w rs s s1 0 Ha) as Hb;
    destruct (graph.add_relations w rs s1 0) as [s2 n2] end.
  case_match; [done|]. by apply add_mentions_same, UpsertNode_same.
Qed.

(** ** What the three stores hold for a workspace *)

Definition agent_slice (d : Deps) (ws : string) :=
  ((VectorStore_ d : gmap string (gmap string vector.vecEntry)) !! ws, memory_slice (MemoryStore_ d) ws,
   (GraphStore_ d : gmap string graph.workspaceGraph) !! ws).
