(* ===== verification/Isolation.v ===== *)
(** * Workspace isolation of connections

    Whatever commands a connection sends, it changes keys, vectors, memories
    and graphs only in its own workspace and in those whose password it
    presented: every engine call a handler makes is confined to the
    connection's workspace, the handlers of the agent stores check the
    workspace they are given, and only AUTH and HELLO move the connection.
    SUMMARY.CREATE makes no such check. *)

From S2P Require Import Prelude.
From S2P Require Import GoStd.
From S2P Require Import Floats.
From S2P Require Import Auth.
From S2P Require Import Similarity.
From S2P Require Import Caches.
From S2P Require Import Semantic.
From S2P Require Import Vector.
From S2P Require Import Memory.
From S2P Require Import Graph.
From S2P Require Import Consolidate.
From S2P Require Import Metrics.
From S2P Require Import Analytics.
From S2P Require Import Providers.
From S2P Require Import Backends.
From S2P Require Import Shard.
From S2P Require Import Store.
From S2P Require Import StoreHash.
From S2P Require Import StoreList.
From S2P Require Import StoreSet.
From S2P Require Import StoreZSet.
From S2P Require Import ShardSpec.
From S2P Require Import StoreSpec.
From S2P Require Import Engine.
From S2P Require Import EngineSpec.
From S2P Require Import EngineProofs.
From S2P Require Import KeySpace.
From S2P Require Import KeyScan.
From S2P Require Import RespCodec.
From S2P Require Import PubSub.
From S2P Require Import Server.
From S2P Require Import HandlersKV.
From S2P Require Import HandlersData.
From S2P Require Import Calls.
From S2P Require Import HandlersCache.
From S2P Require Import HandlersVector.
From S2P Require Import HandlersMemory.
From S2P Require Import HandlersPubSub.
From S2P Require Import Session.
From S2P Require Import SessionSpec.
From S2P Require Import SessionRun.
From S2P Require Import Confine.
From S2P Require Import TenantStores.

Open Scope Z_scope.
Open Scope go_scope.

(** ** Handlers are confined to what the client may reach *)

Section iso.
Context `{Runtime} `{FloatText} `{KeyCodec} `{Services} `{Encoding}.

(** The workspaces within reach, the strings the client knows, the server's
    authenticator, and whether the agent stores are looked at. *)
Context (W : string → Prop) (K : string → Prop) (a : auth.Authenticator) (agent : Prop).
Context (HM : agent → auth.MultiWorkspace a = true).
Context (HK : ∀ pw ws, K pw → auth.WorkspaceForPassword a pw = Some ws → W ws).

(** A command the client can send. *)
Definition summary_free (args : list string) : Prop :=
  ∀ a0, head args = Some a0 → ToUpper a0 ≠ ToUpper "SUMMARY.CREATE".
Definition known (args : list string) : Prop := Forall K args ∧ (agent → summary_free args).

Record reach_ok (w : World) : Prop := {
  ro_inv : store_inv (Engine (deps w));
  ro_ws : W (Workspace (cs w));
  ro_queue : Forall known (Queued (cs w));
  ro_auth : Auth (deps w) = a;
}.

(** The dependencies changed within reach only. *)
Record within_reach (d d' : Deps) : Prop := {
  wr_engine : confined W (Engine d) (Engine d');
  wr_agent : agent → ∀ ws, ¬ W ws → agent_slice d' ws = agent_slice d ws;
}.
Lemma within_refl d : store_inv (Engine d) → within_reach d d.
Proof. intros I. split; [by apply confined_refl|done]. Qed.
Lemma within_trans d1 d2 d3 : within_reach d1 d2 → within_reach d2 d3 → within_reach d1 d3.
Proof.
  intros [C1 A1] [C2 A2]. split; [by eapply confined_trans|]. intros Ha ws Hws. rewrite A2 by done. by apply A1.
Qed.

(** [m] keeps the connection within reach and what it changes too. *)
Definition iso {A} (m : H A) : Prop := ∀ w, reach_ok w →
  reach_ok (m w).2 ∧ within_reach (deps w) (deps (m w).2).

Lemma iso_state {A} (m : H A) : (∀ w, (m w).2 = w) → iso m.
Proof. intros Hm w Hw. rewrite Hm. split; [done|]. apply within_refl, Hw. Qed.
Lemma iso_ret {A} (x : A) : iso (hret x).
Proof. by apply iso_state. Qed.
Lemma iso_panic {A} : iso (@hpanic A).
Proof. by apply iso_state. Qed.
Lemma iso_get_cs : iso get_cs.
Proof. by apply iso_state. Qed.
Lemma iso_get_Auth : iso get_Auth.
Proof. by apply iso_state. Qed.
Lemma iso_handleInfo args : iso (handleInfo args).
Proof. by apply iso_state. Qed.
Lemma iso_arg args i : iso (arg args i).
Proof. apply iso_state. intros w. unfold arg. by destruct (args !! i). Qed.
Lemma iso_args_from args i : iso (args_from args i).
Proof. apply iso_state. intros w. unfold args_from. by case_decide. Qed.

(** A bind where the continuation is needed only for the answers that occur. *)
Lemma iso_bind_on {A B} (Q : A → Prop) (m : H A) (k : A → H B) :
  iso m → (∀ w x, reach_ok w → (m w).1 = Some x → Q x) → (∀ x, Q x → iso (k x)) → iso (hbind m k).
Proof.
  intros Hm HQ Hk w Hw. destruct (Hm w Hw) as [Hw1 C1]. unfold hbind, bind.
  pose proof (HQ w) as HQw. destruct (m w) as [[x|] w1]; cbn [fst snd] in *; [|done].
  destruct (Hk x (HQw x Hw eq_refl) w1 Hw1) as [Hw2 C2]. split; [done|]. by eapply within_trans.
Qed.
Lemma iso_bind {A B} (m : H A) (k : A → H B) : iso m → (∀ x, iso (k x)) → iso (hbind m k).
Proof. intros Hm Hk. by apply (iso_bind_on (λ _, True)). Qed.

Lemma iso_put_cs f : (∀ c, Workspace (f c) = Workspace c ∧ (Queued (f c) = Queued c ∨ Queued (f c) = [])) → iso (put_cs f).
Proof.
  intros Hf w [I HW HQ HA]. destruct (Hf (cs w)) as [E1 E2]. split; [|by apply within_refl].
  split; cbn; [done|by rewrite E1| |done]. destruct E2 as [->| ->]; [done|constructor].
Qed.
Lemma iso_enter ws : W ws → iso (put_cs (λ c, set_Workspace ws (set_Authenticated c))).
Proof. intros Hws w [I HW HQ HA]. split; [by split|by apply within_refl]. Qed.

Lemma iso_engineN {A} n (f : nat → string → StoreM A) : (∀ t ws, confines ws (f t ws)) → iso (engineN n f).
Proof.
  intros Hf w [I HW HQ HA]. pose proof (Hf (ticks w) (Workspace (cs w)) W (Engine (deps w)) HW I) as C.
  unfold engineN. destruct (f (ticks w) (Workspace (cs w)) (Engine (deps w))) as [x e]. cbn [snd] in *.
  split; [|by split]. split; cbn; [apply C|done..].
Qed.

(** A computation that keeps engine, authenticator and connection, and the
    agent stores' other workspaces. *)
Lemma iso_deps {A} (m : H A) :
  (∀ w, cs (m w).2 = cs w ∧ Engine (deps (m w).2) = Engine (deps w) ∧ Auth (deps (m w).2) = Auth (deps w)) →
  (∀ w, reach_ok w → agent → ∀ ws, ¬ W ws → agent_slice (deps (m w).2) ws = agent_slice (deps w) ws) → iso m.
Proof.
  intros Hm Ha w Hw. destruct (Hm w) as (Ec & Ee & Eau). pose proof (Ha w Hw) as Haw. destruct Hw as [I HW HQ HA].
  split; [split; by rewrite ?Ec, ?Ee, ?Eau|]. split; [|done]. rewrite Ee. by apply confined_refl.
Qed.
(** [upd] writes one component, none of the engine, the authenticator and the
    agent stores. *)
Lemma iso_on {C A} (sel : Deps → C) upd (f : nat → C → A * C) :
  (∀ c d, Engine (upd c d) = Engine d ∧ Auth (upd c d) = Auth d ∧
          ∀ ws, agent_slice (upd c d) ws = agent_slice d ws) → iso (on sel upd f).
Proof.
  intros Hu. apply iso_deps; intros w; unfold on; destruct (f (ticks w) (sel (deps w))) as [x c]; cbn.
  - split; [done|]. by destruct (Hu c (deps w)) as (? & ? & _).
  - intros _ _ ws _. by destruct (Hu c (deps w)) as (_ & _ & ->).
Qed.
Lemma iso_metric f : iso (metric f).
Proof. by apply iso_deps. Qed.
Lemma iso_analytic f : iso (analytic f).
Proof. by apply iso_deps. Qed.
Lemma iso_check_panic {A} (o : outcome A) : iso (check_panic o).
Proof. apply iso_state. by destruct o. Qed.
Lemma iso_error_reply : iso error_reply.
Proof. by apply iso_state. Qed.
Lemma iso_embedding text : iso (embedding text).
Proof. apply iso_deps; intros w; unfold embedding; by destruct (InstrumentedEmbedOne _ _ _ _) as [? [? ?]]. Qed.
Lemma iso_completion sys user : iso (completion sys user).
Proof. apply iso_deps; intros w; unfold completion; by destruct (Complete _ _ _) as [? [? ?]]. Qed.
Lemma iso_own_subscriptions sel : iso (own_subscriptions sel).
Proof. by apply iso_deps. Qed.
Lemma iso_broker {A} (f : nat → pubsub.conn → pubsub.PubSub → A * pubsub.PubSub) : iso (broker f).
Proof. intros w. apply (iso_on PubSub_ set_PubSub (λ n, f n (me w))). by intros c d. Qed.

(** Calls of the agent stores for a workspace within reach. *)
Lemma iso_vectors {A} ns (f : nat → vector.Store → A * vector.Store) : (agent → W ns) →
  (∀ n s ws, ws ≠ ns → ((f n s).2 : gmap string (gmap string vector.vecEntry)) !! ws =
                       (s : gmap string (gmap string vector.vecEntry)) !! ws) →
  iso (on VectorStore_ set_VectorStore f).
Proof.
  intros Hns Hf. apply iso_deps; intros w; unfold on; pose proof (Hf (ticks w) (VectorStore_ (deps w))) as Hfw;
    destruct (f (ticks w) (VectorStore_ (deps w))) as [x c]; cbn in *; [done|]. intros _ Ha ws Hws.
  unfold agent_slice. cbn. rewrite Hfw; [done|]. intros ->. by apply Hws, Hns.
Qed.
Lemma iso_memories {A} ns (f : nat → memory.Store → A * memory.Store) : (agent → W ns) →
  (∀ n s, memory_same ns s (f n s).2) → iso (on MemoryStore_ set_MemoryStore f).
Proof.
  intros Hns Hf. apply iso_deps; intros w; unfold on; pose proof (Hf (ticks w) (MemoryStore_ (deps w))) as Hfw;
    destruct (f (ticks w) (MemoryStore_ (deps w))) as [x c]; cbn in *; [done|]. intros _ Ha ws Hws.
  unfold agent_slice. cbn. rewrite Hfw; [done|]. intros ->. by apply Hws, Hns.
Qed.
Lemma iso_graphs {A} ns (f : nat → graph.Store → A * graph.Store) : (agent → W ns) →
  (∀ n s, graph_same ns s (f n s).2) → iso (on GraphStore_ set_GraphStore f).
Proof.
  intros Hns Hf. apply iso_deps; intros w; unfold on; pose proof (Hf (ticks w) (GraphStore_ (deps w))) as Hfw;
    destruct (f (ticks w) (GraphStore_ (deps w))) as [x c]; cbn in *; [done|]. intros _ Ha ws Hws.
  unfold agent_slice. cbn. rewrite Hfw; [done|]. intros ->. by apply Hws, Hns.
Qed.
(** The check of the agent stores' handlers puts the workspace within reach. *)
Lemma iso_guarded ws k : ((agent → W ws) → iso k) → iso (guarded ws k).
Proof using All.
  intros Hk. unfold guarded. apply (iso_bind_on (λ ok, ok = true → agent → W ws)).
  - by apply iso_state.
  - intros w ok [I HW HQ HA] [= <-] Hok Hag. revert Hok. unfold authorizedForWorkspace. rewrite HA, HM by done. cbn.
    intros ->%String.eqb_eq. done.
  - intros [] Hok; cbn [negb]; [apply Hk; auto|apply iso_ret].
Qed.

Create HintDb iso.
Hint Resolve iso_ret iso_panic iso_get_cs iso_get_Auth iso_handleInfo iso_arg iso_args_from iso_metric iso_analytic
  iso_check_panic iso_error_reply iso_embedding iso_completion iso_own_subscriptions iso_broker : iso.
Hint Extern 1 (iso (on _ _ _)) => (apply iso_on; intros; split_and!; reflexivity) : iso.
Hint Extern 1 (iso (put_cs _)) => (apply iso_put_cs; intros; split; [reflexivity|first [left; reflexivity|right; reflexivity]]) : iso.
Hint Extern 1 (iso (engineN _ _)) => (apply iso_engineN; intros; solve [auto with confines]) : iso.
Ltac iso_step :=
  match goal with
  | |- iso (hbind _ _) => apply iso_bind; [|intros ?]
  | |- iso (engine _) => unfold engine
  | |- iso (let '(_, _) := ?x in _) => destruct x
  | |- iso (match ?x with _ => _ end) => destruct x eqn:?
  | |- iso _ => solve [auto with iso]
  end.
Ltac iso_tac := repeat iso_step.

(** The handlers that authenticate see only strings the client knows. *)
Lemma iso_authenticate pw : K pw → iso (authenticate pw).
Proof using All.
  intros Hpw. unfold authenticate. apply (iso_bind_on (λ b, b = a)); [iso_tac| |].
  - intros w x Hw [= <-]. apply Hw.
  - intros b ->. destruct (auth.MultiWorkspace a); [|iso_tac].
    destruct (auth.WorkspaceForPassword a pw) as [ws|] eqn:Ews; [|iso_tac].
    apply iso_bind; [|intros; iso_tac]. apply iso_enter. by eapply HK.
Qed.
Lemma iso_hello_opts args : Forall K args → iso (hello_opts args).
Proof using All.
  induction args as [args IH] using (induction_ltof1 _ length). unfold ltof in IH. intros HA.
  destruct args as [|opt args]; cbn [hello_opts]; [iso_tac|]. apply Forall_cons in HA as [_ HA].
  case_match; [|case_match; [|iso_tac]].
  - destruct args as [|u [|pw args]]; [iso_tac..|]. do 2 (apply Forall_cons in HA as [? HA]).
    apply iso_bind; [by apply iso_authenticate|]. intros [r|]; [iso_tac|]. apply IH; [simpl; lia|done].
  - destruct args as [|nm args]; [iso_tac|]. apply Forall_cons in HA as [_ HA].
    apply iso_bind; [iso_tac|]. intros _. apply IH; [simpl; lia|done].
Qed.

(** The handler is confined on arguments the client knows. *)
Definition iso_good (c : Command) : Prop := ∀ args,
  arityOK c (len args) = true → Forall K args → (agent → ToUpper (cmd_Name c) ≠ ToUpper "SUMMARY.CREATE") →
  iso (Handler c args).

Lemma arg_known args i w x : Forall K args → (arg args i w).1 = Some x → K x.
Proof.
  unfold arg. intros HA. destruct (args !! i) as [y|] eqn:E; [|done]. intros [= <-].
  by eapply Forall_lookup_1.
Qed.
Lemma args_from_known args i w x : Forall K args → (args_from args i w).1 = Some x → Forall K x.
Proof. unfold args_from. intros HA. case_decide; [|done]. intros [= <-]. by apply Forall_drop. Qed.

Lemma iso_handleAuth args : 2 ≤ len args ≤ 3 → Forall K args → iso (handleAuth args).
Proof using All.
  intros Hl HA. unfold handleAuth. apply (iso_bind_on K); [iso_tac| |].
  - intros w x _. destruct (Z.eqb_spec (len args) 2); [by apply arg_known|].
    destruct (Z.eqb_spec (len args) 3); [by apply arg_known|]. lia.
  - intros pw Hpw. iso_tac. by apply iso_authenticate.
Qed.
Lemma iso_handleHello args : Forall K args → iso (handleHello args).
Proof using All.
  intros HA. unfold handleHello. apply (iso_bind_on (Forall K)); [iso_tac|intros w x _; by apply args_from_known|].
  intros opts Ho. assert (Hr : ∀ proto opts, Forall K opts → iso (do! e := hello_opts opts in
    match e with
    | Some r => hret r
    | None =>
        if negb (String.eqb proto "2") then hret (Err ErrNoProtoMsg) else
        do! a := get_Auth in
        do! c := get_cs in
        if auth.Required a && negb (Authenticated c) then hret (Err ErrNoAuthMsg) else hret helloReply
    end)).
  { intros proto l Hk. apply iso_bind; [by apply iso_hello_opts|]. intros [r|]; iso_tac. }
  destruct opts as [|p rest]; [by apply Hr|]. destruct (Atoi p); apply Hr; [by apply Forall_cons in Ho as [_ ?]|done].
Qed.

Lemma iso_intro nm lo hi b1 b2 h : (∀ args, iso (h args)) → iso_good (mkCommand nm lo hi b1 b2 h).
Proof. intros Hh args _ _ _. apply Hh. Qed.
Ltac iso_list := repeat (apply Forall_cons; split); try apply Forall_nil_2; try (apply iso_intro; intros args).

Lemma RegisterConn_iso n : Forall iso_good (RegisterConn n).
Proof using All.
  repeat (apply Forall_cons; split); try apply Forall_nil_2.
  4: intros args _ HA _; by apply iso_handleHello.
  4: { intros args [Hlo Hhi]%arity_min HA _. apply iso_handleAuth; [|done]. cbn [MinArgs MaxArgs] in *. lia. }
  all: apply iso_intro; intros args.
  - unfold handlePing. iso_tac.
  - unfold handleEcho. iso_tac.
  - unfold handleSelect. iso_tac.
  - unfold handleClient. iso_tac.
  - unfold handleCommand. iso_tac.
  - iso_tac.
  - unfold handleQuit. iso_tac.
Qed.
Lemma RegisterGeneric_iso : Forall iso_good RegisterGeneric.
Proof.
  iso_list; [unfold handleDel|unfold handleExists|unfold handleExpire|unfold handlePExpire|unfold handleTTL
    |unfold handlePTTL|unfold handlePersist|unfold handleType|unfold handleKeys|unfold handleScan
    |unfold handleRename|unfold handleFlushDB|unfold handleFlushAll]; iso_tac.
Qed.
Lemma iso_mget_loop keys : iso (mget_loop keys).
Proof. induction keys; cbn [mget_loop]; iso_tac. Qed.
Lemma iso_mset_loop pairs : iso (mset_loop pairs).
Proof.
  induction pairs as [pairs IH] using (induction_ltof1 _ length). unfold ltof in IH.
  destruct pairs as [|k [|v pairs]]; cbn [mset_loop]; unfold engine_Set; iso_tac. apply IH. simpl. lia.
Qed.
Lemma iso_incrBy key d : iso (incrBy key d).
Proof. unfold incrBy, engine_Set. iso_tac. Qed.
Hint Resolve iso_mget_loop iso_mset_loop iso_incrBy : iso.
Lemma RegisterString_iso : Forall iso_good RegisterString.
Proof.
  iso_list; [unfold handleGet|unfold handleSet, engine_Set|unfold handleMGet|unfold handleMSet|unfold handleIncr
    |unfold handleIncrBy|unfold handleDecr|unfold handleDecrBy|unfold handleAppend, engine_Set|unfold handleStrlen]; iso_tac.
Qed.
Lemma RegisterHash_iso : Forall iso_good RegisterHash.
Proof.
  iso_list; [unfold handleHSet|unfold handleHGet|unfold handleHGetAll|unfold handleHDel|unfold handleHExists
    |unfold handleHKeys|unfold handleHVals|unfold handleHLen|unfold handleHMGet|unfold handleHIncrBy]; iso_tac.
Qed.
Lemma RegisterList_iso : Forall iso_good RegisterList.
Proof.
  iso_list; [unfold handleLPush|unfold handleRPush|unfold handleLPop|unfold handleRPop|unfold handleLRange
    |unfold handleLLen|unfold handleLIndex|unfold handleLSet|unfold handleLRem]; iso_tac.
Qed.
Lemma RegisterSet_iso : Forall iso_good RegisterSet.
Proof.
  iso_list; [unfold handleSAdd|unfold handleSRem|unfold handleSMembers|unfold handleSIsMember|unfold handleSCard
    |unfold handleSInter|unfold handleSUnion|unfold handleSDiff]; iso_tac.
Qed.
Lemma RegisterZSet_iso : Forall iso_good RegisterZSet.
Proof.
  iso_list; [unfold handleZAdd|unfold handleZRem|unfold handleZRange, parseZRangeArgs|unfold handleZRevRange, parseZRangeArgs
    |unfold handleZScore|unfold handleZRank|unfold handleZCard|unfold handleZIncrBy|unfold handleZRangeByScore]; iso_tac.
Qed.
Lemma RegisterToolCache_iso : Forall iso_good RegisterToolCache.
Proof. iso_list. unfold handleToolCache, handleToolCacheSet, handleToolCacheGet, ToolCache_Set, ToolCache_Get. iso_tac. Qed.
Lemma iso_record_savings kind text cost : iso (record_savings kind text cost).
Proof. unfold record_savings. iso_tac. Qed.
Hint Resolve iso_record_savings : iso.
Lemma RegisterSemantic_iso : Forall iso_good RegisterSemantic.
Proof.
  iso_list.
  - unfold handleCacheSemantic, handleCacheSemanticSet, handleCacheSemanticGet, SemanticCache_Set, SemanticCache_Get. iso_tac.
  - unfold handleCachePrompt, handleCachePromptSet, handleCachePromptGet, PromptCache_Set, PromptCache_Get. iso_tac.
Qed.

Lemma iso_subscription_reply what ch : iso (subscription_reply what ch).
Proof. unfold subscription_reply. iso_tac. Qed.
Hint Resolve iso_subscription_reply : iso.
Lemma iso_subscribe_loop l : iso (subscribe_loop l).
Proof. induction l; cbn [subscribe_loop]; unfold broker_do; iso_tac. Qed.
Lemma iso_psubscribe_loop l : iso (psubscribe_loop l).
Proof. induction l; cbn [psubscribe_loop]; unfold broker_do; iso_tac. Qed.
Lemma iso_unsubscribe_loop l : iso (unsubscribe_loop l).
Proof. induction l; cbn [unsubscribe_loop]; unfold broker_do, has_subCh; iso_tac. Qed.
Lemma iso_punsubscribe_loop l : iso (punsubscribe_loop l).
Proof. induction l; cbn [punsubscribe_loop]; unfold broker_do, has_subCh; iso_tac. Qed.
Hint Resolve iso_subscribe_loop iso_psubscribe_loop iso_unsubscribe_loop iso_punsubscribe_loop : iso.
Lemma RegisterPubSub_iso : Forall iso_good RegisterPubSub.
Proof.
  iso_list; [unfold handleSubscribe, broker_do|unfold handleUnsubscribe|unfold handlePublish
    |unfold handlePSubscribe, broker_do|unfold handlePUnsubscribe]; iso_tac.
Qed.

(** The agent stores' calls, for a workspace within reach. *)
Lemma iso_Upsert ns id v md txt : (agent → W ns) → iso (VectorStore_Upsert ns id v md txt).
Proof. intros Hns. apply (iso_vectors ns); [done|]. intros n s ws Hne. by apply Upsert_other. Qed.
Lemma iso_VectorSearch ns v k m f h : (agent → W ns) → iso (VectorStore_Search ns v k m f h).
Proof. intros Hns. by apply (iso_vectors ns). Qed.
Lemma iso_VectorDelete ns id : (agent → W ns) → iso (VectorStore_Delete ns id).
Proof. intros Hns. apply (iso_vectors ns); [done|]. intros n s ws Hne. by apply Delete_other. Qed.
Lemma iso_Put m ttl : (agent → W (memory.WorkspaceID m)) → iso (MemoryStore_Put m ttl).
Proof.
  intros Hns. unfold MemoryStore_Put. iso_tac. apply (iso_memories _ _ Hns). intros n s. apply memory_Put_same.
Qed.
Lemma iso_Get ws id : (agent → W ws) → iso (MemoryStore_Get ws id).
Proof. intros Hns. apply (iso_memories _ _ Hns). intros n s. apply memory_Get_same. Qed.
Lemma iso_Search ws q o : (agent → W ws) → iso (MemoryStore_Search ws q o).
Proof.
  intros Hns. unfold MemoryStore_Search. iso_tac. apply (iso_memories _ _ Hns). intros n s. apply memory_Search_same.
Qed.
Lemma iso_List ws o : (agent → W ws) → iso (MemoryStore_List ws o).
Proof. intros Hns. apply (iso_memories _ _ Hns). intros n s. apply memory_List_same. Qed.
Lemma iso_History ws id : (agent → W ws) → iso (MemoryStore_History ws id).
Proof. intros Hns. apply (iso_memories _ _ Hns). intros n s. apply memory_History_same. Qed.
Lemma iso_Extract ws id content : (agent → W ws) → iso (Extract ws id content).
Proof.
  intros Hns. unfold Extract. iso_tac. apply (iso_graphs _ _ Hns). intros n s. apply Extract_same.
Qed.
Lemma iso_Related ws id depth : (agent → W ws) → iso (GraphStore_Related ws id depth).
Proof. intros Hns. by apply (iso_graphs _ _ Hns). Qed.
Hint Resolve iso_Upsert iso_VectorSearch iso_VectorDelete iso_Put iso_Get iso_Search iso_List iso_History iso_Extract
  iso_Related : iso.
Lemma iso_Consolidate ws agent_id kind th : (agent → W ws) → iso (Consolidate ws agent_id kind th).
Proof. intros Hns. unfold Consolidate. iso_tac. Qed.

Ltac guarded_tac :=
  repeat first [iso_step | match goal with |- iso (guarded _ _) => apply iso_guarded; intros ? end].

Lemma RegisterVector_iso : Forall iso_good RegisterVector.
Proof using All. iso_list; [unfold handleVectorUpsert|unfold handleVectorSearch|unfold handleVectorDelete]; guarded_tac. Qed.
Lemma iso_put_memory agentID content o : iso (put_memory agentID content o).
Proof using All. unfold put_memory. guarded_tac. Qed.
Lemma iso_search_memory q o : (agent → W (s_workspace o)) → iso (search_memory q o).
Proof. intros Hns. unfold search_memory. iso_tac. Qed.
Hint Resolve iso_put_memory iso_search_memory : iso.
(** Only AGENT.RECALL takes the workspace from its options. *)
Lemma search_opts_workspace args : ∀ o o', search_opts false args o = inr o' → s_workspace o' = s_workspace o.
Proof.
  induction args as [args IH] using (induction_ltof1 _ length). unfold ltof in IH.
  destruct args as [|x args]; intros o o' Ho; cbn [search_opts] in Ho; [congruence|]. cbv zeta in Ho.
  destruct (String.eqb (ToUpper x) "WITHSCORES"); [by apply IH in Ho; [|simpl; lia]|]. cbn [negb andb] in Ho.
  rewrite orb_false_r in Ho.
  repeat (case_match; try discriminate); try (apply IH in Ho; [done|simpl; lia]).
  all: destruct (String.eqb (ToUpper x) "WORKSPACE") eqn:E; [apply String.eqb_eq in E|]; simplify_eq.
  all: by rewrite E in *.
Qed.
Lemma RegisterMemory_iso : Forall iso_good RegisterMemory.
Proof using All.
  iso_list; [unfold handleMemoryPut|unfold handleMemoryGet|unfold handleMemorySearch|unfold handleMemoryHistory]; guarded_tac.
  apply iso_search_memory.
  match goal with E : search_opts false _ _ = inr _ |- _ => by rewrite (search_opts_workspace _ _ _ E) end.
Qed.
Lemma RegisterAgent_iso : Forall iso_good RegisterAgent.
Proof using All. iso_list; [unfold handleAgentRemember|unfold handleAgentRecall]; guarded_tac. Qed.
Lemma RegisterConsolidate_iso : Forall iso_good RegisterConsolidate.
Proof.
  apply Forall_singleton. intros args _ _ Hno. cbn [Handler cmd_Name] in *. unfold handleSummaryCreate. iso_tac.
  apply iso_Consolidate. intros Ha. by destruct (Hno Ha).
Qed.
Lemma RegisterGraph_iso : Forall iso_good RegisterGraph.
Proof using All. iso_list; [unfold handleGraphExtract|unfold handleGraphRelated]; guarded_tac. Qed.

Lemma iso_watch_loop keys : iso (watch_loop keys).
Proof. induction keys; cbn [watch_loop]; unfold engine_version; iso_tac. Qed.
Lemma iso_unchanged l : iso (unchanged l).
Proof. induction l as [|[k v] l IH]; cbn [unchanged]; unfold engine_version; iso_tac. Qed.
Hint Resolve iso_watch_loop iso_unchanged : iso.
Lemma iso_exec_loop handle queued : (∀ args, known args → iso (handle args)) →
  Forall known queued → iso (exec_loop handle queued).
Proof. intros Hh. induction 1; cbn [exec_loop]; iso_tac. Qed.

Lemma iso_handleExec handle args : (∀ args, known args → iso (handle args)) → iso (handleExec handle args).
Proof.
  intros Hh. unfold handleExec. apply (iso_bind_on (λ c, Forall known (Queued c))); [iso_tac| |].
  - intros w x Hw [= <-]. apply Hw.
  - intros c Hc. iso_tac. by apply iso_exec_loop.
Qed.
Lemma RegisterTx_iso handle : (∀ args, known args → iso (handle args)) → Forall iso_good (RegisterTx handle).
Proof.
  intros Hh. iso_list; [unfold handleMulti|by apply iso_handleExec|unfold handleDiscard|unfold handleWatch|unfold handleUnwatch]; iso_tac.
Qed.

Lemma commands_iso handle n : (∀ args, known args → iso (handle args)) → Forall iso_good (commands handle n).
Proof using All.
  intros Hh. unfold commands. repeat apply Forall_app_2;
    auto using RegisterConn_iso, RegisterGeneric_iso, RegisterString_iso, RegisterHash_iso, RegisterList_iso,
      RegisterSet_iso, RegisterZSet_iso, RegisterPubSub_iso, RegisterTx_iso, RegisterSemantic_iso, RegisterToolCache_iso,
      RegisterVector_iso, RegisterMemory_iso, RegisterAgent_iso, RegisterConsolidate_iso, RegisterGraph_iso.
Qed.

Lemma dispatch_iso handle n args : (∀ args, known args → iso (handle args)) → known args →
  iso (dispatch (RegisterAll handle n) args).
Proof using All.
  intros Hh HA. destruct args as [|a0 rest]; cbn [dispatch]; [iso_tac|].
  destruct (RegisterAll handle n !! ToUpper a0) as [c|] eqn:Ec; [|iso_tac].
  pose proof (commands_iso handle n Hh) as Hc. rewrite Forall_forall in Hc.
  destruct (RegisterAll_entry _ _ _ _ Ec) as [Hin Hname]. specialize (Hc c Hin).
  iso_tac.
  - intros w [I HW HQ HAu]. split; [|by apply within_refl]. split; [done|done| |done]. cbn.
    apply Forall_app_2; [done|]. by apply Forall_singleton.
  - destruct HA as [HA Hs]. apply Hc; [by apply negb_false_iff|done|]. intros Hag. rewrite Hname. by apply (Hs Hag).
Qed.
Lemma Handle_iso fuel : ∀ args, known args → iso (Handle fuel args).
Proof using All. induction fuel as [|fuel IH]; intros args HA; cbn [Handle]; [iso_tac|]. by apply dispatch_iso. Qed.

(** ** Sessions *)

Lemma answers_iso cmds : ∀ w out w', reach_ok w → Forall known cmds →
  answers cmds w = Some (out, w') → reach_ok w' ∧ within_reach (deps w) (deps w').
Proof using All.
  induction cmds as [|args cmds IH]; intros w out w' Hw HA; cbn [answers].
  - intros [= <- <-]. split; [done|]. apply within_refl, Hw.
  - apply Forall_cons in HA as [HA1 HA]. pose proof (Handle_iso 2 args HA1 w Hw) as [Hw1 C1].
    destruct (Handle 2 args w) as [[r|] w1]; [|done]. cbn [snd] in *. cbv zeta.
    set (w2 := executed args (clock (ticks w)) w1).
    assert (Hw2 : reach_ok w2) by (destruct Hw1; by split).
    assert (C2 : within_reach (deps w) (deps w2)) by (destruct C1; by split).
    case_match; [intros [= <- <-]; by split|].
    destruct (answers cmds w2) as [[o2 w3]|] eqn:E; [|done]. intros [= <- <-].
    destruct (IH _ _ _ Hw2 HA E) as [Hw3 C3]. split; [done|]. by eapply within_trans.
Qed.
End iso.

(** C8: workspaces are isolated.  Whatever commands a connection sends, MULTI
    and EXEC, AUTH and HELLO included, it ends in its initial workspace or in
    one whose password it sent, and no key of any other workspace has
    changed in value, expiry or access metadata; only the bound on entries can
    have evicted it.  With several workspaces configured, as long as it does
    not send SUMMARY.CREATE, the vectors, memories, histories and graphs of the
    other workspaces are as they were too. *)
Theorem workspace_isolation `{Runtime} `{FloatText} `{KeyCodec} `{Services} `{Encoding} cmds w out w' :
  let a := Auth (deps w) in
  let within ws := ws = Workspace (cs w) ∨
    ∃ pw, pw ∈ concat cmds ∧ auth.WorkspaceForPassword a pw = Some ws in
  store_inv (Engine (deps w)) → Queued (cs w) = [] → answers cmds w = Some (out, w') →
  within (Workspace (cs w')) ∧
  (∀ ws k, ¬ within ws → has_NUL ws = false → (∀ ws', within ws' → has_NUL ws' = false) →
    entry_at (Engine (deps w')) (nsKey ws k) = entry_at (Engine (deps w)) (nsKey ws k) ∨
    (0 < maxEntries (Engine (deps w)) ∧ entry_at (Engine (deps w')) (nsKey ws k) = None)) ∧
  (auth.MultiWorkspace a = true → Forall summary_free cmds →
    ∀ ws, ¬ within ws → agent_slice (deps w') ws = agent_slice (deps w) ws).
Proof.
  cbv zeta. intros I HQ HA. set (W := λ ws, ws = Workspace (cs w) ∨ _).
  set (agent := auth.MultiWorkspace (Auth (deps w)) = true ∧ Forall summary_free cmds).
  assert (HK : ∀ pw ws, pw ∈ concat cmds → auth.WorkspaceForPassword (Auth (deps w)) pw = Some ws → W ws)
    by (intros; right; eauto).
  destruct (answers_iso W (.∈ concat cmds) (Auth (deps w)) agent (λ Ha, proj1 Ha) HK cmds w out w') as [Hw' [C A]];
    [| |done|].
  - split; [done|by left|by rewrite HQ|done].
  - apply Forall_forall. intros args Hin. split.
    + apply Forall_forall. intros x Hx. apply list_elem_of_In, in_concat. exists args. split; by apply list_elem_of_In.
    + intros [_ Hs]. by eapply Forall_forall in Hs.
  - split; [apply Hw'|]. split; [|intros Hm Hs; by apply A].
    intros ws k Hn Hnul Hall. apply C. intros ws' Hws' Hin.
    apply in_workspace_nsKey in Hin; [|by apply Hall|done]. by subst.
Qed.

(** ** SUMMARY.CREATE *)

(** The same server, the connection being in workspace [ws]. *)
Definition moved (ws : string) (w : World) : World := set_cs (set_Workspace ws (cs w)) w.

Section ignores.
Context `{Runtime} `{FloatText} `{Services} `{Encoding} (ws : string).

Definition ignores {A} (m : H A) : Prop := ∀ w, m (moved ws w) = (let '(x, w') := m w in (x, moved ws w')).

Lemma ignores_ret {A} (x : A) : ignores (hret x).
Proof. done. Qed.
Lemma ignores_bind {A B} (m : H A) (k : A → H B) : ignores m → (∀ x, ignores (k x)) → ignores (hbind m k).
Proof.
  intros Hm Hk w. unfold hbind, bind. rewrite Hm. destruct (m w) as [[x|] w']; [apply Hk|done].
Qed.
Lemma ignores_arg args i : ignores (arg args i).
Proof. intros w. unfold arg. by destruct (args !! i). Qed.
Lemma ignores_args_from args i : ignores (args_from args i).
Proof. intros w. unfold args_from. by case_decide. Qed.
Lemma ignores_on {C A} (sel : Deps → C) upd (f : nat → C → A * C) : ignores (on sel upd f).
Proof. intros w. unfold on. cbn. by destruct (f (ticks w) (sel (deps w))). Qed.
Lemma ignores_metric f : ignores (metric f).
Proof. done. Qed.
Lemma ignores_error_reply : ignores error_reply.
Proof. done. Qed.
Lemma ignores_check_panic {A} (o : outcome A) : ignores (check_panic o).
Proof. by destruct o. Qed.
Lemma ignores_embedding text : ignores (embedding text).
Proof. intros w. unfold embedding. change (ticks (moved ws w)) with (ticks w). change (deps (moved ws w)) with (deps w). by destruct (InstrumentedEmbedOne _ _ _ _) as [? [? ?]]. Qed.
Lemma ignores_completion sys user : ignores (completion sys user).
Proof. intros w. unfold completion. change (ticks (moved ws w)) with (ticks w). change (deps (moved ws w)) with (deps w). 
  by destruct (Complete _ _ _) as [? [? ?]]. Qed.

Lemma ignores_handleSummaryCreate args : ignores (handleSummaryCreate args).
Proof.
  unfold handleSummaryCreate, Consolidate, MemoryStore_List, MemoryStore_Put.
  repeat first
    [ apply ignores_bind; [|intros ?]
    | apply ignores_ret | apply ignores_arg | apply ignores_args_from | apply ignores_on | apply ignores_metric
    | apply ignores_error_reply | apply ignores_check_panic | apply ignores_embedding | apply ignores_completion
    | match goal with |- ignores (match ?x with _ => _ end) => destruct x end
    | match goal with |- ignores (let _ := _ in _) => cbv zeta end ].
Qed.
End ignores.

(** SUMMARY.CREATE is outside that isolation: it answers and changes the
    server in the same way whatever workspace the connection is in, the one
    its argument names being neither compared with the connection's nor
    refused. *)
Theorem summary_ignores_workspace `{Runtime} `{FloatText} `{Services} `{Encoding} args ws w :
  handleSummaryCreate args (moved ws w) = (let '(r, w') := handleSummaryCreate args w in (r, moved ws w')).
Proof. apply ignores_handleSummaryCreate. Qed.

(** ** Concrete sessions: clients of workspace a meet the data of workspace b *)

#[local] Instance iso_runtime : Runtime := plain_runtime Z.of_nat.
#[local] Instance iso_floats : FloatText := {| ParseFloat := λ _, None; FormatFloat := λ _, "" |}.
#[local] Existing Instance toy_codec.
#[local] Existing Instance no_encoding.
(** The mocks, with a constant source of numbers. *)
#[local] Instance iso_rand : RandSource := {| Float64 := λ _ _, f64_lit 3 4 |}.
#[local] Instance iso_services : Services := {|
  embedder := λ _, embed_mock.provider (embed_mock.NewMock 2); embedder_Name := embed_mock.Name;
  completer := λ _, llm_mock.Complete; completer_Name := llm_mock.Name;
  newID := λ _, Some "generated"; errText := λ _, "" |}.

Definition two_tenants : auth.Authenticator :=
  auth.NewMultiWorkspace [auth.mkCredential "a" "pa"; auth.mkCredential "b" "pb"].
Definition empty_world : World :=
  mkWorld (newDeps (run (KSet (to_bytes "1") noOpts) 0 map_to_list "b" "k" (newStore 4 0 None)).2 two_tenants)
    NewClientState 0 0.
(** A client of b has remembered something about agent g; now another one
    connects. *)
Definition iso_world : World :=
  set_cs NewClientState
    (play [["AUTH"; "pb"]; ["MEMORY.PUT"; "g"; "secret"; "ID"; "m"; "WORKSPACE"; "b"; "KIND"; "episodic"]] None empty_world).2.
Definition iso_cmds : list (list string) :=
  [["AUTH"; "pa"]; ["MULTI"]; ["SET"; "k"; "2"]; ["FLUSHALL"]; ["MEMORY.PUT"; "g"; "x"; "ID"; "m"; "WORKSPACE"; "b"];
   ["EXEC"]; ["GET"; "k"]].

Lemma iso_reached ws : (ws = "default" ∨ ∃ pw, pw ∈ concat iso_cmds ∧ auth.WorkspaceForPassword two_tenants pw = Some ws) →
  ws = "default" ∨ ws = "a".
Proof.
  intros [?|(pw & Hin & Hpw)]; [by left|right]. cbn [concat iso_cmds app] in Hin. revert Hpw.
  repeat (apply elem_of_cons in Hin as [->|Hin]; [vm_compute; congruence|]). by apply elem_of_nil in Hin.
Qed.

Lemma iso_world_inv : store_inv (Engine (deps iso_world)).
Proof.
  assert (E : Engine (deps iso_world) = (run (KSet (to_bytes "1") noOpts) 0 map_to_list "b" "k" (newStore 4 0 None)).2)
    by (vm_compute; reflexivity).
  rewrite E. apply (run_impl (KSet (to_bytes "1") noOpts) (newStore 4 0 None) 0 map_to_list "b" "k").
  by apply newStore_inv.
Qed.
Lemma workspace_isolation_witness :
  match answers iso_cmds iso_world with
  | Some (_, w') => Workspace (cs w') = "a" ∧
      entry_at (Engine (deps w')) (nsKey "b" "k") = entry_at (Engine (deps iso_world)) (nsKey "b" "k") ∧
      agent_slice (deps w') "b" = agent_slice (deps iso_world) "b"
  | None => False
  end.
Proof.
  pose proof (workspace_isolation iso_cmds iso_world) as HI.
  assert (Hws : match answers iso_cmds iso_world with Some (_, w') => Workspace (cs w') = "a" | None => False end)
    by (vm_compute; reflexivity).
  destruct (answers iso_cmds iso_world) as [[out w']|]; [|exact Hws]. split; [exact Hws|].
  specialize (HI out w'). cbv zeta in HI.
  assert (Hb : ¬ ("b" = "default" ∨ ∃ pw, pw ∈ concat iso_cmds ∧ auth.WorkspaceForPassword two_tenants pw = Some "b")).
  { intros Hb. by destruct (iso_reached "b" Hb). }
  destruct HI as (_ & HI & HA); [exact iso_world_inv|vm_compute; reflexivity|reflexivity|]. split.
  - destruct (HI "b" "k") as [E|[Hm _]]; [exact Hb|reflexivity| |exact E|vm_compute in Hm; discriminate].
    intros ws' Hw'. by destruct (iso_reached ws' Hw') as [->| ->].
  - apply HA; [vm_compute; reflexivity| |exact Hb].
    repeat (apply Forall_cons; split; [intros a0 [= <-]; vm_compute; discriminate|]). apply Forall_nil_2.
Defined.

(** The client of workspace a may not read the memory of workspace b, but has
    it summarized into a new record there. *)
Lemma summary_create_crosses :
  let '(r, w) := play [["AUTH"; "pa"]; ["MEMORY.GET"; "b"; "m"]] None iso_world in
  r = Some (Some (Err (ErrWorkspaceNotAuthorized "b"))) ∧
  let '(r, w) := play [["SUMMARY.CREATE"; "g"; "WORKSPACE"; "b"]] None w in
  r = Some (Some (BulkString "generated")) ∧
  ∃ m, default ∅ (memory.records (MemoryStore_ (deps w)) !! "b") !! "generated" = Some m.
Proof. vm_compute. split; [reflexivity|]. split; [reflexivity|]. eexists. reflexivity. Qed.
