(* ===== verification/Startup.v ===== *)
(** * From the command line to a running server

    The environment file and the configuration (cmd/cachepotd/main.go,
    internal/server/config.go), and the parts [run] builds from it
    (internal/server/server.go).  The listener's loop is in Listener.v. *)

From S2P Require Import Prelude.
From S2P Require Import GoStd.
From S2P Require Import GoStrings.
From S2P Require Import Auth.
From S2P Require Import Similarity.
From S2P Require Import Caches.
From S2P Require Import Semantic.
From S2P Require Import Vector.
From S2P Require Import Memory.
From S2P Require Import Graph.
From S2P Require Import Metrics.
From S2P Require Import Analytics.
From S2P Require Import Providers.
From S2P Require Import Backends.
From S2P Require Import Eviction.
From S2P Require Import Shard.
From S2P Require Import Store.
From S2P Require Import ShardSpec.
From S2P Require Import StoreSpec.
From S2P Require Import PubSub.
From S2P Require Import RespCodec.
From S2P Require Import Server.
From S2P Require Import SessionRun.

Open Scope Z_scope.

(** ** config.go *)

Module server.

Record Config := mkConfig {
  Port : Z;
  Password : string;
  WorkspaceCredentials : list auth.Credential;
  MaxConnections : Z;
  EmbedProvider : string;
  OpenAIAPIKey : string;
  OpenAIAPIBase : string;
  CompletionProvider : string;
  OpenAICompletionModel : string;
  MCPPort : Z;
  MaxEntries : Z;
  EvictionPolicy : string;
}.

Definition DefaultPort : Z := 6380.
Definition DefaultMaxConnections : Z := 10000.
Definition DefaultEmbedProvider : string := "mock".
Definition DefaultCompletionProvider : string := "mock".
Definition DefaultOpenAICompletionModel : string := "gpt-4o-mini".
Definition DefaultMCPPort : Z := 6381.
Definition DefaultMaxEntries : Z := 0.
Definition DefaultEvictionPolicy : string := "lru".

Definition DefaultConfig : Config :=
  mkConfig DefaultPort "" [] DefaultMaxConnections DefaultEmbedProvider "" "" DefaultCompletionProvider
    DefaultOpenAICompletionModel DefaultMCPPort DefaultMaxEntries DefaultEvictionPolicy.

(** ** server.go: the parts *)

Inductive startup_error :=
  | UnknownEmbedProvider (name : string)
  | UnknownCompletionProvider (name : string)
  | UnknownEvictionPolicy (name : string)
  | EmbedNeedsKey
  | CompletionNeedsKey
  | AmbiguousAuth
  | ListenFailed (port : Z)
  | MCPListenFailed (port : Z).

(** The provider with its type. *)
Inductive embed_provider := EmbedMock (m : Z) | EmbedOpenAI (p : embed_openai.openAIProvider).
Inductive completion_provider := CompletionMock | CompletionOpenAI (p : llm_openai.openAIProvider).

Section build.
Context `{UnicodeTables}.

Definition buildEmbedProvider (cfg : Config) : startup_error + embed_provider :=
  let name := ToLower (EmbedProvider cfg) in
  if String.eqb name "" || String.eqb name "mock" then inr (EmbedMock (embed_mock.NewMock 0))
  else if String.eqb name "openai" then
    if String.eqb (OpenAIAPIKey cfg) "" then inl EmbedNeedsKey
    else inr (EmbedOpenAI (embed_openai.NewOpenAI (OpenAIAPIKey cfg) "" (OpenAIAPIBase cfg)))
  else inl (UnknownEmbedProvider (EmbedProvider cfg)).

Definition buildCompletionProvider (cfg : Config) : startup_error + completion_provider :=
  let name := ToLower (CompletionProvider cfg) in
  if String.eqb name "" || String.eqb name "mock" then inr CompletionMock
  else if String.eqb name "openai" then
    if String.eqb (OpenAIAPIKey cfg) "" then inl CompletionNeedsKey
    else inr (CompletionOpenAI (llm_openai.NewOpenAI (OpenAIAPIKey cfg) (OpenAICompletionModel cfg) (OpenAIAPIBase cfg)))
  else inl (UnknownCompletionProvider (CompletionProvider cfg)).

Definition buildAuthenticator (cfg : Config) : startup_error + auth.Authenticator :=
  let several := 0 <? len (WorkspaceCredentials cfg) in
  if several && negb (String.eqb (Password cfg) "") then inl AmbiguousAuth
  else if several then inr (auth.NewMultiWorkspace (WorkspaceCredentials cfg))
  else inr (auth.New (Password cfg)).

Definition buildEvictionPolicy (cfg : Config) : startup_error + Policy :=
  let name := ToLower (EvictionPolicy cfg) in
  if String.eqb name "" || String.eqb name "lru" then inr LRU
  else if String.eqb name "weighted" then inr (Weighted ∅)
  else inl (UnknownEvictionPolicy (EvictionPolicy cfg)).

(** What the connections and the tools share once [run] has built it. *)
Record running := mkRunning {
  rn_deps : Deps; rn_embed : embed_provider; rn_completion : completion_provider;
  rn_maxConns : Z;                   (** the capacity of [connSlots] *)
  rn_mcp : bool;
}.
Definition build (cfg : Config) : startup_error + running :=
  match buildEvictionPolicy cfg with
  | inl err => inl err
  | inr policy =>
      let engine := memstore.New 32 [memstore.WithMaxEntries (MaxEntries cfg); memstore.WithEvictionPolicy (Some policy)] in
      match buildEmbedProvider cfg with
      | inl err => inl err
      | inr provider =>
          match buildCompletionProvider cfg with
          | inl err => inl err
          | inr completion =>
              match buildAuthenticator cfg with
              | inl err => inl err
              | inr authenticator =>
                  let maxConns := if MaxConnections cfg <=? 0 then DefaultMaxConnections else MaxConnections cfg in
                  inr (mkRunning (newDeps engine authenticator) provider completion maxConns (negb (MCPPort cfg =? 0)))
              end
          end
      end
  end.

(** net.Listen, by the number of the call and the port. *)
Context (Listen : nat → Z → bool).

(** [run] up to the accept loop, which starts as [Listener.start (rn_mcp r)]. *)
Definition run (cfg : Config) : startup_error + running :=
  match build cfg with
  | inl err => inl err
  | inr r => if rn_mcp r && negb (Listen 1 (MCPPort cfg)) then inl (MCPListenFailed (MCPPort cfg)) else inr r
  end.
Definition Run (cfg : Config) : startup_error + running :=
  if Listen 0 (Port cfg) then run cfg else inl (ListenFailed (Port cfg)).
End build.

(** What is mounted on the MCP listener, under ServeMux's rule for the paths
    it does not redirect: a pattern without a final slash is one path, the
    root is every other path. *)
Inductive page := MCPPage | MetricsPage | StatsPage | DashboardPage.
Definition mux : gmap string page :=
  {[ "/" := MCPPage; "/metrics" := MetricsPage; "/stats" := StatsPage; "/dashboard" := DashboardPage ]}.
Definition served (path : string) : option page :=
  match mux !! path with Some p => Some p | None => mux !! "/" end.
End server.

(** ** main.go *)

Module cachepotd.

Section main.
Context `{UnicodeTables}.

(** The environment; [os.Setenv] refuses NUL bytes. *)
Abbreviation env := (gmap string string).
Definition Getenv (e : env) (k : string) : string := default "" (e !! k).
Definition Setenv (k v : string) (e : env) : env :=
  if contains "000" k || contains "000" v then e else <[k := v]> e.

(** One line of the file. *)
Definition dotenv_line (line : string) (e : env) : env :=
  let line := TrimSpace line in
  if String.eqb line "" || match line with String c _ => Ascii.eqb c "#" | _ => false end then e
  else match Cut "=" line with
       | None => e
       | Some (key, value) =>
           let key := TrimSpace key in
           let value := Trim (TrimSpace value) quotes in
           if String.eqb key "" then e
           else match e !! key with Some _ => e | None => Setenv key value e end
       end.
(** [None] is a file that cannot be read. *)
Definition loadDotEnv (data : option string) (e : env) : env :=
  match data with
  | None => e
  | Some data => foldl (λ e line, dotenv_line line e) e (Split newline data)
  end.

(** An error quotes the entry. *)
Fixpoint credentials_of (parts : list string) : string + list auth.Credential :=
  match parts with
  | [] => inr []
  | part :: parts =>
      match Cut ":" part with
      | None => inl part
      | Some (workspace, password) =>
          if String.eqb workspace "" || String.eqb password "" then inl part
          else match credentials_of parts with
               | inl err => inl err
               | inr creds => inr (auth.mkCredential workspace password :: creds)
               end
      end
  end.
Definition parseWorkspaceCredentials (s : string) : string + list auth.Credential :=
  if String.eqb s "" then inr [] else credentials_of (Split "," s).

(** The flags that were passed, as package flag parsed them. *)
Record Flags := mkFlags {
  f_port : option Z; f_password : option string; f_workspaceCredentials : option string; f_maxConns : option Z;
  f_embedProvider : option string; f_openAIAPIKey : option string; f_openAIAPIBase : option string;
  f_completionProvider : option string; f_openAICompletionModel : option string; f_mcpPort : option Z;
  f_maxEntries : option Z; f_evictionPolicy : option string;
}.
Definition no_flags : Flags := mkFlags None None None None None None None None None None None None.

Definition env_int (e : env) (k : string) (d : Z) : Z :=
  if String.eqb (Getenv e k) "" then d else match Atoi (Getenv e k) with Some n => n | None => d end.
Definition env_string (e : env) (k d : string) : string := if String.eqb (Getenv e k) "" then d else Getenv e k.
(** The secrets: an empty flag falls back to the environment. *)
Definition resolved (flag : option string) (e : env) (k : string) : string :=
  let v := default "" flag in if String.eqb v "" then Getenv e k else v.

Definition parseConfig (e : env) (f : Flags) : string + server.Config :=
  match parseWorkspaceCredentials (resolved (f_workspaceCredentials f) e "CACHEPOT_WORKSPACE_CREDENTIALS") with
  | inl entry => inl entry
  | inr creds => inr (server.mkConfig
      (default (env_int e "CACHEPOT_PORT" server.DefaultPort) (f_port f))
      (resolved (f_password f) e "CACHEPOT_PASSWORD")
      creds
      (default (env_int e "CACHEPOT_MAX_CONNECTIONS" server.DefaultMaxConnections) (f_maxConns f))
      (default (env_string e "CACHEPOT_EMBED_PROVIDER" server.DefaultEmbedProvider) (f_embedProvider f))
      (resolved (f_openAIAPIKey f) e "OPENAI_API_KEY")
      (default (Getenv e "OPENAI_API_BASE") (f_openAIAPIBase f))
      (default (env_string e "CACHEPOT_COMPLETION_PROVIDER" server.DefaultCompletionProvider) (f_completionProvider f))
      (default (env_string e "OPENAI_COMPLETION_MODEL" server.DefaultOpenAICompletionModel) (f_openAICompletionModel f))
      (default (env_int e "CACHEPOT_MCP_PORT" server.DefaultMCPPort) (f_mcpPort f))
      (default (env_int e "CACHEPOT_MAX_ENTRIES" server.DefaultMaxEntries) (f_maxEntries f))
      (default (env_string e "CACHEPOT_EVICTION_POLICY" server.DefaultEvictionPolicy) (f_evictionPolicy f)))
  end.
(** [main] exits with status 1 on the first error. *)
Inductive exit_error := BadCredentials (entry : string) | StartFailed (err : server.startup_error).
Definition main (Listen : nat → Z → bool) (dotenv : option string) (f : Flags) (e : env) : exit_error + server.running :=
  match parseConfig (loadDotEnv dotenv e) f with
  | inl entry => inl (BadCredentials entry)
  | inr cfg =>
      match server.Run Listen cfg with
      | inl err => inl (StartFailed err)
      | inr r => inr r
      end
  end.
End main.
End cachepotd.

(** ** Configurations that start *)

Import server.

(** Case-insensitive, the empty name being the default. *)
Definition named `{UnicodeTables} (name : string) (choices : list string) : Prop := ToLower name ∈ "" :: choices.
Definition wants_openai `{UnicodeTables} (cfg : Config) : Prop :=
  ToLower (EmbedProvider cfg) = "openai" ∨ ToLower (CompletionProvider cfg) = "openai".
Definition startable `{UnicodeTables} (cfg : Config) : Prop :=
  named (EvictionPolicy cfg) ["lru"; "weighted"] ∧
  named (EmbedProvider cfg) ["mock"; "openai"] ∧ named (CompletionProvider cfg) ["mock"; "openai"] ∧
  (wants_openai cfg → OpenAIAPIKey cfg ≠ "") ∧
  (WorkspaceCredentials cfg = [] ∨ Password cfg = "").

Section build.
Context `{UnicodeTables} (cfg : Config).

Lemma buildEvictionPolicy_ok :
  (∃ p, buildEvictionPolicy cfg = inr p) ↔ named (EvictionPolicy cfg) ["lru"; "weighted"].
Proof.
  unfold buildEvictionPolicy, named. rewrite !elem_of_cons, elem_of_nil.
  destruct (String.eqb_spec (ToLower (EvictionPolicy cfg)) ""); [cbn; split; eauto|].
  destruct (String.eqb_spec (ToLower (EvictionPolicy cfg)) "lru"); [cbn; split; eauto|]. cbn.
  destruct (String.eqb_spec (ToLower (EvictionPolicy cfg)) "weighted"); [split; eauto|].
  split; [by intros [? ?]|tauto].
Qed.
Lemma buildEmbedProvider_ok :
  (∃ p, buildEmbedProvider cfg = inr p) ↔ named (EmbedProvider cfg) ["mock"; "openai"] ∧
    (ToLower (EmbedProvider cfg) = "openai" → OpenAIAPIKey cfg ≠ "").
Proof.
  unfold buildEmbedProvider, named. rewrite !elem_of_cons, elem_of_nil.
  destruct (String.eqb_spec (ToLower (EmbedProvider cfg)) "") as [->|]; [cbn; split; eauto|].
  destruct (String.eqb_spec (ToLower (EmbedProvider cfg)) "mock") as [->|]; [cbn; split; eauto|]. cbn.
  destruct (String.eqb_spec (ToLower (EmbedProvider cfg)) "openai") as [->|].
  - destruct (String.eqb_spec (OpenAIAPIKey cfg) ""); split; [by intros [? ?]|tauto|eauto|eauto].
  - split; [by intros [? ?]|tauto].
Qed.
Lemma buildCompletionProvider_ok :
  (∃ p, buildCompletionProvider cfg = inr p) ↔ named (CompletionProvider cfg) ["mock"; "openai"] ∧
    (ToLower (CompletionProvider cfg) = "openai" → OpenAIAPIKey cfg ≠ "").
Proof.
  unfold buildCompletionProvider, named. rewrite !elem_of_cons, elem_of_nil.
  destruct (String.eqb_spec (ToLower (CompletionProvider cfg)) "") as [->|]; [cbn; split; eauto|].
  destruct (String.eqb_spec (ToLower (CompletionProvider cfg)) "mock") as [->|]; [cbn; split; eauto|]. cbn.
  destruct (String.eqb_spec (ToLower (CompletionProvider cfg)) "openai") as [->|].
  - destruct (String.eqb_spec (OpenAIAPIKey cfg) ""); split; [by intros [? ?]|tauto|eauto|eauto].
  - split; [by intros [? ?]|tauto].
Qed.
Lemma buildAuthenticator_ok :
  match buildAuthenticator cfg with
  | inl _ => WorkspaceCredentials cfg ≠ [] ∧ Password cfg ≠ ""
  | inr a => (WorkspaceCredentials cfg = [] ∨ Password cfg = "") ∧
      (auth.MultiWorkspace a = true ↔ WorkspaceCredentials cfg ≠ []) ∧
      (auth.Required a = true ↔ WorkspaceCredentials cfg ≠ [] ∨ Password cfg ≠ "")
  end.
Proof.
  unfold buildAuthenticator, auth.Required. destruct (WorkspaceCredentials cfg) as [|c l].
  - cbn. split; [by left|]. split; [by split|]. change (auth.multiWorkspace _) with false. cbv iota.
    change (auth.password _) with (Password cfg). destruct (String.eqb_spec (Password cfg) "") as [E|Hp]; cbn.
    + split; [discriminate|]. intros [Hn|Hn]; by destruct Hn.
    + split; [by right|done].
  - replace (0 <? len (c :: l)) with true by (symmetry; apply Z.ltb_lt; unfold len; simpl; lia). cbn [andb].
    destruct (String.eqb_spec (Password cfg) ""); cbn [negb]; [|split; [discriminate|done]]. cbn.
    split; [by right|]. split; (split; [intros _|done]); [discriminate|by left].
Qed.
End build.

Lemma build_spec `{UnicodeTables} cfg :
  ((∃ r, build cfg = inr r) ↔ startable cfg) ∧
  ∀ r, build cfg = inr r →
    let d := rn_deps r in
    store_inv (Engine d) ∧ maxEntries (Engine d) = MaxEntries cfg ∧ (∀ id, fresh_conn id d) ∧
    mem_inv (MemoryStore_ d) ∧ graph_inv (GraphStore_ d) ∧
    (auth.MultiWorkspace (Auth d) = true ↔ WorkspaceCredentials cfg ≠ []) ∧
    (auth.Required (Auth d) = true ↔ WorkspaceCredentials cfg ≠ [] ∨ Password cfg ≠ "") ∧
    0 < rn_maxConns r ∧ (0 < MaxConnections cfg → rn_maxConns r = MaxConnections cfg) ∧
    (rn_mcp r = true ↔ MCPPort cfg ≠ 0).
Proof.
  pose proof (buildEvictionPolicy_ok cfg) as Hp. pose proof (buildEmbedProvider_ok cfg) as He.
  pose proof (buildCompletionProvider_ok cfg) as Hc. pose proof (buildAuthenticator_ok cfg) as Ha.
  unfold build, startable, wants_openai.
  destruct (buildEvictionPolicy cfg) as [e1|policy].
  { split; [|done]. split; [by intros [? ?]|]. intros (Hn & _). by apply Hp in Hn as [? ?]. }
  destruct (buildEmbedProvider cfg) as [e2|provider].
  { split; [|done]. split; [by intros [? ?]|]. intros (_ & Hn & _ & Hk & _).
    assert (Hx : ∃ p : embed_provider, (inl e2 : startup_error + embed_provider) = inr p) by (apply He; auto). by destruct Hx. }
  destruct (buildCompletionProvider cfg) as [e3|completion].
  { split; [|done]. split; [by intros [? ?]|]. intros (_ & _ & Hn & Hk & _).
    assert (Hx : ∃ p : completion_provider, (inl e3 : startup_error + completion_provider) = inr p) by (apply Hc; auto).
    by destruct Hx. }
  destruct (buildAuthenticator cfg) as [e4|a].
  { split; [|done]. split; [by intros [? ?]|]. intros (_ & _ & _ & _ & Hn). naive_solver. }
  destruct Ha as (Ha & Hm & Hr). split.
  - split; [intros _|by eauto]. pose proof (proj1 Hp (ex_intro _ policy eq_refl)) as Np.
    destruct (proj1 He (ex_intro _ provider eq_refl)) as [Ne Ke], (proj1 Hc (ex_intro _ completion eq_refl)) as [Nc Kc].
    split_and!; try done. intros [?|?]; auto.
  - intros r [= <-]. cbn [rn_deps rn_maxConns rn_mcp newDeps Engine Auth PubSub_ MemoryStore_ GraphStore_]. split_and!.
    + change (store_inv (newStore 32 (MaxEntries cfg) (Some policy))). by apply newStore_inv.
    + done.
    + intros id. split; [apply reachable_ok, rtc_refl|done].
    + apply (mreach_inv (embed.mkProvider (λ _, None) None)), mr_new.
    + apply greach_inv, gr_new.
    + exact Hm.
    + exact Hr.
    + destruct (Z.leb_spec (MaxConnections cfg) 0); [done|lia].
    + intros Hpos. destruct (Z.leb_spec (MaxConnections cfg) 0); [lia|done].
    + destruct (Z.eqb_spec (MCPPort cfg) 0); cbn; split; done.
Qed.

Lemma Run_build `{UnicodeTables} Listen cfg r : Run Listen cfg = inr r → build cfg = inr r.
Proof.
  unfold Run, run. destruct (Listen 0%nat (Port cfg)); [|done]. destruct (build cfg) as [|r']; [done|]. by case_match.
Qed.
Lemma main_build `{UnicodeTables} Listen dotenv f e r : cachepotd.main Listen dotenv f e = inr r →
  ∃ cfg, cachepotd.parseConfig (cachepotd.loadDotEnv dotenv e) f = inr cfg ∧ build cfg = inr r.
Proof.
  unfold cachepotd.main. destruct (cachepotd.parseConfig _ f) as [|cfg]; [done|].
  destruct (Run Listen cfg) as [|r'] eqn:E; [done|]. intros [= <-]. eauto using Run_build.
Qed.

(** C36: the server starts exactly on the configurations whose eviction policy,
    embedding and completion providers are known names (in any case, the empty
    name being the default), that give a key when OpenAI is chosen, and that
    do not set both kinds of credentials, provided its ports can be listened
    on (the MCP port unless it is 0); every other one is refused before the
    listener accepts.  What it starts with satisfies the invariants the
    other theorems assume: a sound key space with the configured bound, a
    broker that knows no connection, consistent memories and graph; it demands
    authentication exactly when a password or credentials are set, keeps
    workspaces apart exactly when credentials are, serves MCP exactly when its
    port is set, and has a positive number of connection slots. *)
Theorem startup_spec `{UnicodeTables} Listen cfg :
  ((∃ r, Run Listen cfg = inr r) ↔
     startable cfg ∧ Listen 0%nat (Port cfg) = true ∧ (MCPPort cfg ≠ 0 → Listen 1%nat (MCPPort cfg) = true)) ∧
  ∀ r, Run Listen cfg = inr r →
    let d := rn_deps r in
    store_inv (Engine d) ∧ maxEntries (Engine d) = MaxEntries cfg ∧ (∀ id, fresh_conn id d) ∧
    mem_inv (MemoryStore_ d) ∧ graph_inv (GraphStore_ d) ∧
    (auth.MultiWorkspace (Auth d) = true ↔ WorkspaceCredentials cfg ≠ []) ∧
    (auth.Required (Auth d) = true ↔ WorkspaceCredentials cfg ≠ [] ∨ Password cfg ≠ "") ∧
    0 < rn_maxConns r ∧ (0 < MaxConnections cfg → rn_maxConns r = MaxConnections cfg) ∧
    (rn_mcp r = true ↔ MCPPort cfg ≠ 0).
Proof.
  destruct (build_spec cfg) as [HS HB]. split.
  - rewrite <- HS. unfold Run, run. destruct (Listen 0%nat (Port cfg)); [|split; [by intros [? ?]|by intros (_ & ? & _)]].
    destruct (build cfg) as [err|r]; [split; [by intros [? ?]|by intros ([? ?] & _)]|].
    destruct (HB r eq_refl) as (_ & _ & _ & _ & _ & _ & _ & _ & _ & HM).
    destruct (rn_mcp r); cbn [andb]; [|split; [intros _; split_and!; [by eauto|done|by intros ?%HM]|by eauto]].
    destruct (Listen 1%nat (MCPPort cfg)); cbn [negb]; split; try (by eauto); [by intros [? ?]|].
    intros (_ & _ & HL). specialize (HL (proj1 HM eq_refl)). discriminate.
  - intros r HR. apply HB. by apply Run_build in HR.
Qed.

(** ** Workspace credentials *)

Definition credential_ok (c : auth.Credential) : Prop :=
  auth.Workspace c ≠ "" ∧ auth.Password c ≠ "" ∧
  contains ":" (auth.Workspace c) = false ∧ contains "," (auth.Workspace c) = false ∧ contains "," (auth.Password c) = false.
Definition credential_text (c : auth.Credential) : string := auth.Workspace c +:+ ":" +:+ auth.Password c.
Definition credentials_text (creds : list auth.Credential) : string := String.concat "," (map credential_text creds).

Lemma credential_text_ok c : credential_ok c → credential_text c ≠ "" ∧ contains "," (credential_text c) = false.
Proof.
  intros (Hw & _ & _ & H1 & H2). split; [unfold credential_text; by destruct (auth.Workspace c)|].
  unfold credential_text. rewrite !contains_app, H1, H2. done.
Qed.
Lemma credential_cut c : credential_ok c → Cut ":" (credential_text c) = Some (auth.Workspace c, auth.Password c).
Proof. intros (_ & _ & Hc & _). by apply Cut_Some. Qed.

Lemma credentials_of_ok parts : ∀ creds, Forall (λ p, contains "," p = false) parts →
  cachepotd.credentials_of parts = inr creds ↔ Forall credential_ok creds ∧ parts = map credential_text creds.
Proof.
  induction parts as [|p parts IH]; intros creds HF; cbn [cachepotd.credentials_of].
  - split; [by intros [= <-]|]. intros [_ E]. by destruct creds.
  - apply Forall_cons in HF as [Hp HF].
    assert (Hinv : Forall credential_ok creds ∧ p :: parts = map credential_text creds →
      ∃ c creds', creds = c :: creds' ∧ Cut ":" p = Some (auth.Workspace c, auth.Password c) ∧ credential_ok c ∧
        cachepotd.credentials_of parts = inr creds').
    { intros [HC E]. destruct creds as [|c creds]; [done|]. injection E as -> E. apply Forall_cons in HC as [Hc HC].
      exists c, creds. split_and!; [done|by apply credential_cut|done|by apply IH]. }
    destruct (Cut ":" p) as [[ws pw]|] eqn:Ec; [|split; [done|intros (? & ? & _ & ? & _)%Hinv; done]].
    destruct (String.eqb_spec ws "") as [->|Hw];
      [split; [done|intros (? & ? & _ & [= E _] & (Hn & _) & _)%Hinv; congruence]|].
    destruct (String.eqb_spec pw "") as [->|Hpw];
      [split; [done|intros (? & ? & _ & [= _ E] & (_ & Hn & _) & _)%Hinv; congruence]|]. cbn [orb].
    apply Cut_Some in Ec as [-> Hws]. rewrite contains_app in Hp. apply orb_false_iff in Hp as [H1 H2].
    destruct (cachepotd.credentials_of parts) as [err|l] eqn:El; [split; [done|by intros (? & ? & _ & _ & _ & ?)%Hinv]|].
    destruct (proj1 (IH l HF) eq_refl) as [HL EL]. split.
    + intros [= <-]. split; [by constructor|]. cbn [map]. by rewrite <- EL.
    + intros ([] & ? & -> & [= -> ->] & _ & [= ->])%Hinv. done.
Qed.

(** The workspace credentials of the command line and the environment are
    read back exactly: a text is accepted precisely when it is the
    comma-separated spelling of a list of workspace:password pairs, neither
    empty, no comma in either and no colon in the workspace, and it is read as
    that list. *)
Theorem credentials_roundtrip s creds :
  cachepotd.parseWorkspaceCredentials s = inr creds ↔ Forall credential_ok creds ∧ s = credentials_text creds.
Proof.
  unfold cachepotd.parseWorkspaceCredentials. destruct (String.eqb_spec s "") as [->|Hs].
  - split; [by intros [= <-]|]. intros [HC E]. destruct creds as [|c creds]; [done|].
    apply Forall_cons in HC as [Hc _]. destruct (credential_text_ok c Hc) as [Hn _].
    unfold credentials_text in E. cbn in E. by destruct creds, (credential_text c).
  - destruct (Split_concat "," s) as [Es HF]. rewrite (credentials_of_ok _ creds HF). split.
    + intros [HC E]. split; [done|]. unfold credentials_text. by rewrite <- E.
    + intros [HC ->]. split; [done|]. clear Es HF. unfold credentials_text in *.
      destruct creds as [|c creds]; [done|]. clear Hs. revert c HC. induction creds as [|c' creds IH]; intros c HC;
        apply Forall_cons in HC as [Hc HC]; destruct (credential_text_ok c Hc) as [_ Hn].
      * by apply Split_part.
      * change (String.concat "," (map credential_text (c :: c' :: creds))) with
          (credential_text c +:+ String "," (String.concat "," (map credential_text (c' :: creds)))).
        rewrite Split_app by done. cbn [map]. f_equal. by apply IH.
Qed.

(** ** The environment file *)

Lemma dotenv_line_keeps `{UnicodeTables} line (e : gmap string string) k v :
  e !! k = Some v → cachepotd.dotenv_line line e !! k = Some v.
Proof.
  intros Hk. unfold cachepotd.dotenv_line, cachepotd.Setenv. cbv zeta. repeat (case_match; try done).
  rewrite lookup_insert_ne; [done|]. congruence.
Qed.
(** A variable of the real environment always wins: whatever the .env file
    holds, loading it leaves every variable that is set as it is, and so of two
    lines for one variable the first one counts; a file that cannot be read
    changes nothing. *)
Theorem dotenv_spec `{UnicodeTables} data (e : gmap string string) :
  (∀ k v, e !! k = Some v → cachepotd.loadDotEnv data e !! k = Some v) ∧
  (∀ d1 d2 k v, data = Some (d1 +:+ String newline d2) → cachepotd.loadDotEnv (Some d1) e !! k = Some v →
     contains newline d1 = false → cachepotd.loadDotEnv data e !! k = Some v) ∧
  cachepotd.loadDotEnv None e = e.
Proof.
  assert (HK : ∀ lines e' k v, e' !! k = Some v →
    foldl (λ e line, cachepotd.dotenv_line line e) e' lines !! k = Some v).
  { induction lines as [|line lines IH]; intros e' k v Hk; [done|]. by apply IH, dotenv_line_keeps. }
  split_and!; [|intros d1 d2 k v -> H1 Hn|done].
  - intros k v Hk. destruct data as [d|]; [|done]. by apply HK.
  - cbn [cachepotd.loadDotEnv] in *. rewrite Split_app by done. cbn [foldl]. apply HK. by rewrite Split_part in H1.
Qed.

(** ** Concrete configurations *)

#[local] Existing Instance ascii_only.

Lemma startup_examples :
  build (mkConfig 1 "" [auth.mkCredential "a" "pa"] 0 "MOCK" "" "" "" "" 0 0 "Weighted") ≠ inl AmbiguousAuth ∧
  build (mkConfig 1 "p" [auth.mkCredential "a" "pa"] 0 "" "" "" "" "" 0 0 "") = inl AmbiguousAuth ∧
  build (mkConfig 1 "" [] 0 "openai" "" "" "" "" 0 0 "") = inl EmbedNeedsKey ∧
  build (mkConfig 1 "" [] 0 "" "" "" "" "" 0 0 "fifo") = inl (UnknownEvictionPolicy "fifo").
Proof. split_and!; [discriminate|reflexivity|reflexivity|reflexivity]. Qed.

Lemma credentials_example :
  cachepotd.parseWorkspaceCredentials "acme:secret1,other:s:2" =
    inr [auth.mkCredential "acme" "secret1"; auth.mkCredential "other" "s:2"] ∧
  cachepotd.parseWorkspaceCredentials "acme:secret1," = inl "".
Proof. split; reflexivity. Qed.

(** An empty flag does not override the environment, passed or not. *)
Lemma empty_password_flag :
  cachepotd.parseConfig {[ "CACHEPOT_PASSWORD" := "env" ]}
    (cachepotd.mkFlags None (Some "") None None None None None None None None None None) =
  cachepotd.parseConfig {[ "CACHEPOT_PASSWORD" := "env" ]} cachepotd.no_flags.
Proof. reflexivity. Qed.
