(* ===== verification/Listener.v ===== *)
(** * The accept loop and the shutdown (internal/server/server.go, [run])

    Accepting connections against the [connSlots] channel, the goroutine of
    each accepted connection, the MCP server's goroutine, and the shutdown of
    both: the loop, the goroutines and the signal handler take steps in any
    order.  What a connection does between opening and closing is [HandleConn]
    of Session.v; what an MCP request does is [CallTool] of Mcp.v. *)

From S2P Require Import Prelude.
From S2P Require Import GoStd.
From S2P Require Import Metrics.

Open Scope Z_scope.

Module listener.

(** Where the goroutine of an accepted connection is: before [HandleConn],
    inside it, after its deferred calls, after the slot was given back, after
    [wg.Done]. *)
Inductive phase := Starting | Serving | Closed | Released | Done.
#[export] Instance phase_eq_dec : EqDecision phase.
Proof. solve_decision. Defined.

(** Where [run] is: in [Accept], in the [select], waiting for the connections,
    waiting for [mcpDone], or back at its caller. *)
Inductive position := Accepting | Selecting | Draining | AwaitingMCP | Returned.

(** [mcpSrv]: whether [Serve] has still to return, after which its goroutine
    closes [mcpDone]; whether [Shutdown] was called; the requests being
    served.  As net/http documents, [Serve] returns as soon as [Shutdown] is
    called: it is [Shutdown] that waits for the requests. *)
Record mcpServer := mkMcp { serving_ : bool; shut : bool; requests : nat }.

Record state := mkState {
  at_ : position;
  connSlots : Z;                     (** tokens in the channel *)
  goroutines : list phase;
  closing : bool;
  listening : bool;                  (** [ln] is not closed *)
  counters_ : metrics.Metrics;
  refused : list string;             (** what the rejected clients were sent *)
  warned : bool;                     (** the grace period ran out *)
  mcpSrv : option mcpServer;         (** [None]: the MCP port is 0 *)
  mcpWarned : bool;
}.
Definition start (mcp : bool) : state :=
  mkState Accepting 0 [] false true metrics.NewMetrics [] false (if mcp then Some (mkMcp true false 0) else None) false.

Definition goto (p : position) (s : state) : state :=
  mkState p (connSlots s) (goroutines s) (closing s) (listening s) (counters_ s) (refused s) (warned s) (mcpSrv s) (mcpWarned s).
Definition set_goroutines (n : Z) (gs : list phase) (m : metrics.Metrics) (s : state) : state :=
  mkState (at_ s) n gs (closing s) (listening s) m (refused s) (warned s) (mcpSrv s) (mcpWarned s).
Definition set_closing (closing listening : bool) (s : state) : state :=
  mkState (at_ s) (connSlots s) (goroutines s) closing listening (counters_ s) (refused s) (warned s) (mcpSrv s) (mcpWarned s).
Definition set_mcp (m : mcpServer) (s : state) : state :=
  mkState (at_ s) (connSlots s) (goroutines s) (closing s) (listening s) (counters_ s) (refused s) (warned s) (Some m) (mcpWarned s).
Definition warn (conns mcp : bool) (s : state) : state :=
  mkState (at_ s) (connSlots s) (goroutines s) (closing s) (listening s) (counters_ s) (refused s)
    (warned s || conns) (mcpSrv s) (mcpWarned s || mcp).

Definition ErrMaxClients : string :=
  "-ERR max number of clients reached" +:+ String "013" (String "010" "").

(** The [select] for an accepted connection, and the [go] statement. *)
Definition offer (maxConns : Z) (s : state) : state :=
  if connSlots s <? maxConns then
    goto Accepting (set_goroutines (connSlots s + 1) (goroutines s ++ [Starting]) (counters_ s) s)
  else mkState Accepting (connSlots s) (goroutines s) (closing s) (listening s)
         (metrics.ConnectionRejected (counters_ s)) (refused s ++ [ErrMaxClients]) (warned s) (mcpSrv s) (mcpWarned s).

(** The error branch of [Accept]. *)
Definition accept_failed (s : state) : state := if closing s then goto Draining s else goto Accepting s.

(** The next step of a goroutine: the phase, the change of the slots, the metrics. *)
Definition advance (p : phase) (m : metrics.Metrics) : phase * Z * metrics.Metrics :=
  match p with
  | Starting => (Serving, 0, metrics.ConnectionOpened m)
  | Serving => (Closed, 0, metrics.ConnectionClosed m)
  | Closed => (Released, -1, m)
  | Released | Done => (Done, 0, m)
  end.

(** After the wait for the connections: [mcpDone] is nil without an MCP server. *)
Definition after_conns (s : state) : state := goto (match mcpSrv s with Some _ => AwaitingMCP | None => Returned end) s.

Inductive step (maxConns : Z) : state → state → Prop :=
  | accepted s : at_ s = Accepting → listening s = true → step maxConns s (goto Selecting s)
  | accept_error s : at_ s = Accepting → step maxConns s (accept_failed s)
  | selected s : at_ s = Selecting → step maxConns s (offer maxConns s)
  | goroutine s i p p' n m :
      goroutines s !! i = Some p → advance p (counters_ s) = (p', n, m) →
      step maxConns s (set_goroutines (connSlots s + n) (<[i := p']> (goroutines s)) m s)
  (** The signal handler: the flag, then the listener, then the MCP server. *)
  | signalled s : step maxConns s (set_closing true (listening s) s)
  | ln_closed s : closing s = true → step maxConns s (set_closing true false s)
  | mcp_shutdown s m : listening s = false → mcpSrv s = Some m →
      step maxConns s (set_mcp (mkMcp (serving_ m) true (requests m)) s)
  (** The MCP server; [Serve] also returns when its listener fails. *)
  | serve_returned s m : mcpSrv s = Some m → serving_ m = true →
      step maxConns s (set_mcp (mkMcp false (shut m) (requests m)) s)
  | request s m : mcpSrv s = Some m → shut m = false →
      step maxConns s (set_mcp (mkMcp (serving_ m) false (S (requests m))) s)
  | answered s m n : mcpSrv s = Some m → requests m = S n →
      step maxConns s (set_mcp (mkMcp (serving_ m) (shut m) n) s)
  (** The two waits of [run]. *)
  | drained s : at_ s = Draining → Forall (eq Done) (goroutines s) → step maxConns s (after_conns s)
  | grace_over s : at_ s = Draining → step maxConns s (warn true false (after_conns s))
  | mcp_done s m : at_ s = AwaitingMCP → mcpSrv s = Some m → serving_ m = false → step maxConns s (goto Returned s)
  | mcp_grace_over s : at_ s = AwaitingMCP → step maxConns s (warn false true (goto Returned s)).

End listener.

Import listener.

(** ** The invariant *)

Definition holds (p : phase) : Z := match p with Starting | Serving | Closed => 1 | _ => 0 end.
Definition serving (p : phase) : Z := match p with Serving => 1 | _ => 0 end.
Definition opened (p : phase) : Z := match p with Starting => 0 | _ => 1 end.

Definition reachable (maxConns : Z) (s : state) : Prop := ∃ mcp, rtc (step maxConns) (start mcp) s.
Definition after_loop (p : position) : Prop := p = Draining ∨ p = AwaitingMCP ∨ p = Returned.
Definition after_draining (p : position) : Prop := p = AwaitingMCP ∨ p = Returned.

Record listener_inv (maxConns : Z) (s : state) : Prop := {
  li_slots : connSlots s = sum_map holds (goroutines s);
  li_bound : connSlots s ≤ maxConns;
  li_active : metrics.counters (counters_ s) metrics.connectionsActive = wrap64 (sum_map serving (goroutines s));
  li_total : metrics.counters (counters_ s) metrics.connectionsTotal = wrap64 (sum_map opened (goroutines s));
  li_rejected : metrics.counters (counters_ s) metrics.connectionsRejected = wrap64 (len (refused s));
  li_refused : Forall (eq ErrMaxClients) (refused s);
  li_closing : listening s = false → closing s = true;
  li_waiting : after_loop (at_ s) → closing s = true;
  li_drained : after_draining (at_ s) → warned s = false → Forall (eq Done) (goroutines s);
  li_mcp : at_ s = AwaitingMCP → is_Some (mcpSrv s);
  li_served m : mcpSrv s = Some m → at_ s = Returned → mcpWarned s = false → serving_ m = false;
  li_shut m : mcpSrv s = Some m → shut m = true → listening s = false;
}.

Lemma holds_nonneg gs : 0 ≤ sum_map holds gs.
Proof. induction gs as [|[] gs IH]; unfold sum_map in *; simpl; lia. Qed.
Lemma serving_holds gs : 0 ≤ sum_map serving gs ≤ sum_map holds gs.
Proof. induction gs as [|[] gs IH]; unfold sum_map in *; simpl; lia. Qed.
Lemma done_holds gs : Forall (eq Done) gs → sum_map holds gs = 0 ∧ sum_map serving gs = 0.
Proof. induction 1 as [|p gs <- _ [IH1 IH2]]; [done|]. unfold sum_map in *. simpl. lia. Qed.

Lemma counters_Add c n m : metrics.counters (metrics.Add c n m) c = wrap64 (metrics.counters m c + n).
Proof. cbn [metrics.counters metrics.Add]. by rewrite decide_True. Qed.
Lemma counters_Add_ne c c' n m : c' ≠ c → metrics.counters (metrics.Add c n m) c' = metrics.counters m c'.
Proof. intros Hne. cbn [metrics.counters metrics.Add]. by rewrite decide_False. Qed.
#[local] Ltac fields :=
  unfold after_conns; cbn [connSlots goroutines counters_ refused listening closing at_ warned mcpSrv mcpWarned
    goto set_goroutines set_closing set_mcp warn serving_ shut requests].
#[local] Ltac places :=
  unfold after_loop, after_draining in *; intros;
  repeat match goal with H : _ ∨ _ |- _ => destruct H | H : context [match ?o with Some _ => AwaitingMCP | None => Returned end] |- _ => destruct o eqn:? end;
  simplify_eq; rewrite ?orb_true_r, ?orb_false_r in *; cbn [serving_ shut] in *; try congruence; try (eauto 5; fail); try (eapply eq_trans; [|eauto 5]; done).
#[local] Ltac count :=
  unfold metrics.ConnectionOpened, metrics.ConnectionClosed, metrics.ConnectionRejected;
  repeat first [rewrite counters_Add | rewrite counters_Add_ne by discriminate].

(** A goroutine's own step keeps the sums in line. *)
Lemma advance_inv p m p' n m' gs i : gs !! i = Some p → advance p m = (p', n, m') →
  sum_map holds (<[i := p']> gs) = sum_map holds gs + n ∧ n ≤ 0 ∧
  (metrics.counters m metrics.connectionsActive = wrap64 (sum_map serving gs) →
   metrics.counters m' metrics.connectionsActive = wrap64 (sum_map serving (<[i := p']> gs))) ∧
  (metrics.counters m metrics.connectionsTotal = wrap64 (sum_map opened gs) →
   metrics.counters m' metrics.connectionsTotal = wrap64 (sum_map opened (<[i := p']> gs))) ∧
  metrics.counters m' metrics.connectionsRejected = metrics.counters m metrics.connectionsRejected.
Proof.
  intros Hi Ha. rewrite !(sum_map_insert _ gs i p p' Hi).
  destruct p; injection Ha as <- <- <-; cbn [holds serving opened]; count;
    (split_and!; [lia|lia| | |done]); intros ->; rewrite ?wrap64_add; f_equal; lia.
Qed.

Lemma offer_inv maxConns s : listener_inv maxConns s → listener_inv maxConns (offer maxConns s).
Proof.
  intros []. unfold offer. destruct (Z.ltb_spec (connSlots s) maxConns) as [Hlt|Hle].
  - assert (E : ∀ f : phase → Z, sum_map f (goroutines s ++ [Starting]) = sum_map f (goroutines s) + f Starting)
      by (intros f; rewrite sum_map_app; unfold sum_map; simpl; lia).
    split; fields; rewrite ?E; cbn [holds serving opened]; rewrite ?Z.add_0_r; try done; try lia; places.
  - split; fields; count; try done; try (by places).
    + rewrite li_rejected0, wrap64_add. unfold len. rewrite length_app. cbn [length]. f_equal. lia.
    + apply Forall_app. split; [done|by repeat constructor].
Qed.
Lemma goroutine_inv maxConns s i p p' n m : listener_inv maxConns s →
  goroutines s !! i = Some p → advance p (counters_ s) = (p', n, m) →
  listener_inv maxConns (set_goroutines (connSlots s + n) (<[i := p']> (goroutines s)) m s).
Proof.
  intros I Hi Ha. pose proof (advance_inv _ _ _ _ _ _ _ Hi Ha) as (A1 & A2 & A3 & A4 & A5). destruct I.
  split; fields; try done; [lia|lia|by apply A3|by apply A4|congruence|].
  intros Hr Hw. specialize (li_drained0 Hr Hw). rewrite Forall_forall in li_drained0.
  rewrite <- (li_drained0 p) in Ha by (by eapply list_elem_of_lookup_2). injection Ha as <- _ _.
  apply Forall_insert; [by rewrite Forall_forall|done].
Qed.
Lemma step_listener_inv maxConns s s' : listener_inv maxConns s → step maxConns s s' → listener_inv maxConns s'.
Proof.
  intros I Hs. destruct Hs as [s ? ?|s Hat|s Hat|s i p p' n m Hi Ha|s|s ?|s m ? Hm|s m Hm ?|s m Hm ?|s m n Hm ?|s Hat ?|s Hat|s m Hat Hm ?|s Hat].
  3: by apply offer_inv.
  3: by eapply goroutine_inv.
  1: destruct I; split; fields; try done; places.
  1: unfold accept_failed; destruct (closing s) eqn:C.
  all: destruct I; split; fields; try done; places.
Qed.

Lemma reachable_listener_inv maxConns s : 0 ≤ maxConns → reachable maxConns s → listener_inv maxConns s.
Proof.
  intros Hm (mcp & Hr).
  assert (I : listener_inv maxConns (start mcp)) by (destruct mcp; split; cbn; try done; places).
  revert I. induction Hr as [s|s s1 s2 Hs _ IH]; [done|]. intros I. apply IH. by eapply step_listener_inv.
Qed.

(** C19: whatever the interleaving of arrivals, connections, MCP requests,
    signals and shutdown, at most [maxConns] connections are served at once;
    the gauge of active connections is exactly their number and the totals
    count every connection that was opened or refused; a client is refused,
    with the documented error, only while all slots are taken; a server that
    came back without the grace-period warning left no connection behind, and
    one that came back without the warning for MCP no longer accepts there. *)
Theorem connections_bounded maxConns s :
  0 < maxConns ≤ maxInt64 → reachable maxConns s →
  let c := metrics.counters (counters_ s) in
  (c metrics.connectionsActive = sum_map serving (goroutines s) ∧ 0 ≤ c metrics.connectionsActive ≤ maxConns) ∧
  c metrics.connectionsTotal = wrap64 (sum_map opened (goroutines s)) ∧
  c metrics.connectionsRejected = wrap64 (len (refused s)) ∧
  Forall (eq ErrMaxClients) (refused s) ∧
  (∀ s', step maxConns s s' → refused s' ≠ refused s → sum_map holds (goroutines s) = maxConns) ∧
  (at_ s = Returned → warned s = false → connSlots s = 0 ∧ c metrics.connectionsActive = 0) ∧
  (at_ s = Returned → mcpWarned s = false → ∀ m, mcpSrv s = Some m → serving_ m = false).
Proof.
  intros Hm Hr. cbv zeta. destruct (reachable_listener_inv maxConns s ltac:(lia) Hr).
  pose proof (serving_holds (goroutines s)) as Hsh.
  assert (W : wrap64 (sum_map serving (goroutines s)) = sum_map serving (goroutines s))
    by (apply wrap64_id; unfold int64_range, minInt64; lia).
  rewrite W in li_active0. split_and!; [done|lia|lia|done|done|done| | |by eauto].
  - intros s' Hs Hne. destruct Hs; try done.
    + unfold accept_failed in Hne. by destruct (closing s).
    + unfold offer in Hne. destruct (Z.ltb_spec (connSlots s) maxConns); [done|lia].
  - intros Hret Hw. destruct (done_holds _ (li_drained0 (or_intror Hret) Hw)). split; congruence.
Qed.

(** ** Shutdown *)

Definition phase_left (p : phase) : Z :=
  match p with Starting => 4 | Serving => 3 | Closed => 2 | Released => 1 | Done => 0 end.
Definition position_left (p : position) : Z :=
  match p with Selecting => 8 | Accepting => 3 | Draining => 2 | AwaitingMCP => 1 | Returned => 0 end.
Definition mcp_left (m : option mcpServer) : Z :=
  match m with Some m => (if serving_ m then 1 else 0) + Z.of_nat (requests m) | None => 0 end.
(** The steps left once both listeners are closed. *)
Definition steps_left (s : state) : Z :=
  position_left (at_ s) + sum_map phase_left (goroutines s) + mcp_left (mcpSrv s).
(** The signal handler is through: [ln] is closed and [Shutdown] was called. *)
Definition stopped (s : state) : Prop := listening s = false ∧ ∀ m, mcpSrv s = Some m → shut m = true.

Lemma phases_nonneg gs : 0 ≤ sum_map phase_left gs.
Proof. induction gs as [|[] gs IH]; unfold sum_map in *; simpl; lia. Qed.
Lemma steps_left_nonneg s : 0 ≤ steps_left s.
Proof.
  unfold steps_left, mcp_left. pose proof (phases_nonneg (goroutines s)).
  destruct (at_ s), (mcpSrv s) as [[[] ? ?]|]; cbn; lia.
Qed.
Lemma state_eta s : mkState (at_ s) (connSlots s) (goroutines s) (closing s) (listening s) (counters_ s) (refused s) (warned s)
  (mcpSrv s) (mcpWarned s) = s.
Proof. by destruct s. Qed.

(** With the listeners closed every step that changes the state uses one up. *)
Lemma goroutine_left s i p p' n m : goroutines s !! i = Some p → advance p (counters_ s) = (p', n, m) →
  let s' := set_goroutines (connSlots s + n) (<[i := p']> (goroutines s)) m s in s' = s ∨ steps_left s' < steps_left s.
Proof.
  intros Hi Ha. cbv zeta. destruct (decide (p = Done)) as [->|Hne].
  - left. injection Ha as <- <- <-. rewrite list_insert_id, Z.add_0_r by done. apply state_eta.
  - right. unfold steps_left. fields. rewrite (sum_map_insert _ _ _ _ p' Hi).
    destruct p; try done; injection Ha as <- <- <-; cbn [phase_left]; lia.
Qed.
Lemma offer_left maxConns s : at_ s = Selecting → steps_left (offer maxConns s) < steps_left s.
Proof.
  intros Hat. unfold steps_left, offer. rewrite Hat. destruct (connSlots s <? maxConns); fields; cbn [position_left]; [|lia].
  rewrite sum_map_app. change (sum_map phase_left [Starting]) with 4. lia.
Qed.
Lemma closed_step maxConns s s' : listener_inv maxConns s → stopped s → step maxConns s s' →
  s' = s ∨ (steps_left s' < steps_left s ∧ stopped s').
Proof.
  intros I [Hl Hsh] Hs. pose proof (li_closing _ _ I Hl) as Hc.
  destruct Hs as [s Hat HL|s Hat|s Hat|s i p p' n m Hi Ha|s|s ?|s m ? Hm|s m Hm Hg|s m Hm Hg|s m n Hm Hn|s Hat ?|s Hat|s m Hat Hm ?|s Hat].
  - congruence.
  - right. unfold accept_failed, steps_left, stopped. rewrite Hc, Hat. fields. cbn [position_left]. split; [lia|done].
  - right. split; [by apply offer_left|]. unfold offer, stopped. by destruct (connSlots s <? maxConns).
  - destruct (goroutine_left s i p p' n m Hi Ha) as [|]; [by left|by right].
  - left. rewrite <- Hc at 1. apply state_eta.
  - left. rewrite <- Hl at 1. rewrite <- Hc at 1. apply state_eta.
  - left. pose proof (Hsh m Hm). destruct s as [? ? ? ? ? ? ? ? o ?], m. cbn in *. by subst.
  - right. unfold steps_left, stopped. fields. rewrite Hm. cbn [mcp_left serving_ requests]. rewrite Hg. split; [lia|].
    split; [done|]. intros m' [= <-]. exact (Hsh m Hm).
  - specialize (Hsh m Hm). congruence.
  - right. unfold steps_left, stopped. fields. rewrite Hm. cbn [mcp_left serving_ requests]. rewrite Hn. split; [lia|].
    split; [done|]. intros m' [= <-]. exact (Hsh m Hm).
  - right. unfold steps_left, stopped. fields. rewrite Hat. split; [destruct (mcpSrv s); cbn; lia|done].
  - right. unfold steps_left, stopped. fields. rewrite Hat. split; [destruct (mcpSrv s); cbn; lia|done].
  - right. unfold steps_left, stopped. fields. rewrite Hat. cbn [position_left]. split; [lia|done].
  - right. unfold steps_left, stopped. fields. rewrite Hat. cbn [position_left]. split; [lia|done].
Qed.

(** Short of the end some step changes the state, and without a warning. *)
Definition quiet (s s' : state) : Prop := warned s' = warned s ∧ mcpWarned s' = mcpWarned s.
Lemma closed_progress maxConns s : listener_inv maxConns s → stopped s → at_ s ≠ Returned →
  ∃ s', step maxConns s s' ∧ s' ≠ s ∧ quiet s s'.
Proof.
  intros I [Hl Hsh] Hr. pose proof (li_closing _ _ I Hl) as Hc.
  assert (Hmove : ∀ s', at_ s' ≠ at_ s → s' ≠ s) by congruence.
  destruct (at_ s) eqn:Hat; [| | | |done].
  - eexists. split; [by apply accept_error|]. unfold accept_failed. rewrite Hc. split; [by apply Hmove|done].
  - eexists. split; [by apply selected|]. unfold offer. destruct (connSlots s <? maxConns); (split; [by apply Hmove|done]).
  - destruct (decide (Forall (eq Done) (goroutines s))) as [D|D].
    + eexists. split; [by apply drained|]. split; [apply Hmove; fields; by destruct (mcpSrv s)|done].
    + apply not_Forall_Exists in D; [|apply _]. apply Exists_exists in D as (p & Hp & Hne).
      apply list_elem_of_lookup in Hp as (i & Hi). destruct (advance p (counters_ s)) as [[p' n] m] eqn:Ha.
      eexists. split; [by eapply goroutine|]. split; [|done]. intros E. apply (f_equal goroutines) in E. cbn in E.
      apply (f_equal (λ l, l !! i)) in E. rewrite list_lookup_insert_eq, Hi in E by (by eapply lookup_lt_Some).
      destruct p; cbn in Ha; congruence.
  - destruct (li_mcp _ _ I Hat) as [m Hm]. destruct (serving_ m) eqn:Hg.
    + eexists. split; [by eapply serve_returned|]. split; [|done]. intros E. apply (f_equal mcpSrv) in E. cbn in E.
      rewrite Hm in E. injection E as E. by rewrite <- E in Hg.
    + eexists. split; [by eapply mcp_done|]. split; [by apply Hmove|done].
Qed.

(** C31: once the signal handler has closed the listener (which happens only
    after [closing] is set, so that its errors end the accept loop instead of
    spinning it) and shut the MCP server, the server stops: every step that
    changes anything brings the end nearer by at least one, there is always
    such a step short of the end, and if the connections finish in time the
    server comes back without a warning and with no connection left. *)
Theorem shutdown_terminates maxConns s :
  0 < maxConns → reachable maxConns s → stopped s →
  closing s = true ∧
  (∀ s', step maxConns s s' → s' = s ∨ (0 ≤ steps_left s' < steps_left s)) ∧
  (at_ s ≠ Returned → warned s = false → mcpWarned s = false →
   ∃ s', rtc (step maxConns) s s' ∧ at_ s' = Returned ∧ warned s' = false ∧ mcpWarned s' = false ∧ connSlots s' = 0).
Proof.
  intros Hm Hr Hl. pose proof (reachable_listener_inv maxConns s ltac:(lia) Hr) as I.
  split_and!; [by apply (li_closing _ _ I), Hl| |].
  - intros s' Hs. destruct (closed_step _ _ _ I Hl Hs) as [->|[? _]]; [by left|right]. pose proof (steps_left_nonneg s'). lia.
  - clear Hr. remember (Z.to_nat (steps_left s)) as n eqn:Hn. revert s I Hl Hn.
    induction (lt_wf n) as [n _ IH]. intros s I Hl Hn Hr Hw Hw'.
    destruct (closed_progress maxConns s I Hl Hr) as (s1 & Hs & Hne & Hw1 & Hw1').
    destruct (closed_step _ _ _ I Hl Hs) as [->|[Hlt Hl1]]; [done|].
    pose proof (step_listener_inv _ _ _ I Hs) as I1. rewrite Hw in Hw1. rewrite Hw' in Hw1'.
    assert (E : at_ s1 = Returned ∨ at_ s1 ≠ Returned) by (destruct (at_ s1); auto).
    destruct E as [E|E].
    + exists s1. split_and!; [by apply rtc_once|done|done|done|].
      rewrite (li_slots _ _ I1). apply done_holds, (li_drained _ _ I1); [by right|done].
    + destruct (IH (Z.to_nat (steps_left s1))) with (s := s1) as (s2 & R & ?); try done.
      { pose proof (steps_left_nonneg s1). lia. }
      exists s2. split; [by eapply rtc_l|done].
Qed.

(** [mcpDone] does not mean that the MCP server is done: it is closed when
    [Serve] returns, which is when [Shutdown] is called.  So [run] returns, and
    the process ends, without any warning, while MCP requests are being served:
    the grace period is not given to them. *)
Theorem shutdown_abandons_requests maxConns n :
  ∃ s m, reachable maxConns s ∧ at_ s = Returned ∧ warned s = false ∧ mcpWarned s = false ∧
    mcpSrv s = Some m ∧ requests m = n.
Proof.
  set (busy k := set_mcp (mkMcp true false k) (start true)).
  assert (B : ∀ k, rtc (step maxConns) (start true) (busy k)).
  { induction k as [|k IH]; [apply rtc_refl|]. eapply rtc_r; [exact IH|]. by apply (request maxConns (busy k) (mkMcp true false k)). }
  eexists _, (mkMcp false true n). split.
  { exists true. eapply rtc_trans; [apply (B n)|].
    eapply rtc_l; [apply signalled|]. eapply rtc_l; [by apply ln_closed|].
    eapply rtc_l; [by apply (mcp_shutdown _ _ (mkMcp true false n))|].
    eapply rtc_l; [by apply (serve_returned _ _ (mkMcp true true n))|].
    eapply rtc_l; [by apply accept_error|]. eapply rtc_l; [by apply drained; [|constructor]|].
    eapply rtc_once. by apply (mcp_done _ _ (mkMcp false true n)). }
  done.
Qed.

(** ** Two slots, three clients *)

Definition three_clients : state :=
  let s := offer 2 (offer 2 (offer 2 (start true))) in
  set_goroutines 2 [Serving; Starting] (metrics.ConnectionOpened (counters_ s)) s.

Lemma three_clients_reachable : reachable 2 three_clients.
Proof.
  exists true. do 3 (eapply rtc_l; [by apply accepted|]; eapply rtc_l; [by apply selected|]).
  eapply rtc_l; [by apply (goroutine 2 _ 0 Starting)|]. apply rtc_refl.
Qed.
Lemma reachable_step maxConns s s' : reachable maxConns s → step maxConns s s' → reachable maxConns s'.
Proof. intros (mcp & R) Hs. exists mcp. by eapply rtc_r. Qed.

Lemma connections_bounded_witness :
  let s := goto Selecting three_clients in
  metrics.counters (counters_ s) metrics.connectionsActive = 1 ∧
  refused s = [ErrMaxClients] ∧ sum_map holds (goroutines s) = 2.
Proof.
  assert (R : reachable 2 (goto Selecting three_clients)).
  { eapply reachable_step; [apply three_clients_reachable|by apply accepted]. }
  destruct (connections_bounded 2 _ ltac:(unfold maxInt64; lia) R) as ((A & _) & _ & _ & _ & B & _).
  split; [exact A|]. split; [reflexivity|].
  apply (B _ (selected 2 (goto Selecting three_clients) eq_refl)). vm_compute. discriminate.
Defined.

Definition stopping : state :=
  set_mcp (mkMcp true true 0) (set_closing true false three_clients).
Lemma stopping_reachable : reachable 2 stopping.
Proof.
  eapply reachable_step; [|exact (mcp_shutdown 2 (set_closing true false three_clients) (mkMcp true false 0) eq_refl eq_refl)].
  eapply reachable_step; [|exact (ln_closed 2 (set_closing true true three_clients) eq_refl)].
  eapply reachable_step; [apply three_clients_reachable|apply signalled].
Qed.

Lemma shutdown_terminates_witness :
  ∃ s', rtc (step 2) stopping s' ∧ at_ s' = Returned ∧ warned s' = false ∧ mcpWarned s' = false ∧ connSlots s' = 0.
Proof.
  assert (St : stopped stopping) by (split; [reflexivity|]; intros m [= <-]; reflexivity).
  destruct (shutdown_terminates 2 stopping ltac:(lia) stopping_reachable St) as (_ & _ & S).
  apply S; [discriminate|reflexivity|reflexivity].
Defined.
