(* ===== verification/Effects.v ===== *)
(** * Commands as sequences of component operations

    [act] lists what one component call of a connection's command can do to
    the server: an engine call, an operation of the broker, a change of the
    connection's own state, or something beside all of these.  Every handler
    of the command table, and so [Handle], has the effect of a finite sequence
    of acts ([Handle_traced]), and every MCP tool call too; what one act
    preserves, a server under any interleaving of connections preserves. *)

From S2P Require Import Prelude.
From S2P Require Import GoStd.
From S2P Require Import Auth.
From S2P Require Import Similarity.
From S2P Require Import Caches.
From S2P Require Import Semantic.
From S2P Require Import Vector.
From S2P Require Import Memory.
From S2P Require Import Graph.
From S2P Require Import Consolidate.
From S2P Require Import Metrics.
From S2P Require Import Analytics.
From S2P Require Import Providers.
From S2P Require Import Shard.
From S2P Require Import Store.
From S2P Require Import StoreHash.
From S2P Require Import StoreList.
From S2P Require Import StoreSet.
From S2P Require Import StoreZSet.
From S2P Require Import ShardSpec.
From S2P Require Import StoreSpec.
From S2P Require Import EngineSpec.
From S2P Require Import EngineProofs.
From S2P Require Import EngineMulti.
From S2P Require Import KeySpace.
From S2P Require Import KeyScan.
From S2P Require Import Engine.
From S2P Require Import RespCodec.
From S2P Require Import PubSub.
From S2P Require Import Server.
From S2P Require Import HandlersKV.
From S2P Require Import HandlersData.
From S2P Require Import Calls.
From S2P Require Import HandlersCache.
From S2P Require Import HandlersVector.
From S2P Require Import HandlersMemory.
From S2P Require Import HandlersPubSub.
From S2P Require Import Mcp.
From S2P Require Import Session.
From S2P Require Import SessionSpec.
From S2P Require Import Confine.

Open Scope Z_scope.
Open Scope go_scope.

(** ** Engine calls move versions a bounded number of times *)

Definition moving {A} (n : nat) (m : StoreM A) : Prop := ∀ s, store_inv s → evolves n s (m s).2.

Lemma moving_weaken {A} n k (m : StoreM A) : moving n m → (n ≤ k)%nat → moving k m.
Proof. intros Hm Hk s I. by eapply evolves_weaken; [apply Hm|]. Qed.
Lemma moving_ret {A} (a : A) : moving 0 (ret a).
Proof. intros s I. by apply evolves_refl. Qed.
Lemma moving_bind {A B} n k (m : StoreM A) (f : A → StoreM B) :
  moving n m → (∀ a, moving k (f a)) → moving (n + k) (bind m f).
Proof.
  intros Hm Hf s I. pose proof (Hm s I) as H1. unfold bind. destruct (m s) as [a s1]. cbn [snd] in *.
  eapply evolves_trans; [exact H1|]. apply Hf, H1.
Qed.
Lemma keyed_moving {A} ws (m : StoreM A) : keyed_call ws m → moving 4 m.
Proof. intros (o & now & order & key & ->) s I. by eapply store_ok_evolves, run_impl. Qed.
Lemma Del_moving now ws keys : moving (4 * length keys) (Del now ws keys).
Proof. intros s I. by apply estep_evolves, st_Del. Qed.
Lemma Exists_moving now ws keys : moving 0 (Exists now ws keys).
Proof. intros s I. by apply estep_evolves, st_Exists. Qed.
Lemma Rename_moving now ws old new : moving 3 (Rename now ws old new).
Proof. intros s I. by apply estep_evolves, st_Rename. Qed.
Lemma FlushDB_moving ws : moving 1 (FlushDB ws).
Proof. intros s I. by apply estep_evolves, st_FlushDB. Qed.
Lemma Keys_moving now ws p : moving 0 (Keys now ws p).
Proof. intros s I. by apply estep_evolves, st_Keys. Qed.
Lemma Scan_moving now ws c m n : moving 0 (Scan now ws c m n).
Proof. intros s I. by apply estep_evolves, st_Scan. Qed.
Lemma WatchVersion_moving ws key : moving 0 (WatchVersion ws key).
Proof. intros s I. by apply estep_evolves, st_WatchVersion. Qed.
Lemma setSnapshot_moving now ws key : moving 4 (setSnapshot now ws key).
Proof. intros s I. eapply store_ok_evolves, setSnapshot_impl, I. Qed.
Lemma snapshots_loop_moving f nows ws keys : ∀ i acc, moving (4 * length keys) (snapshots_loop f nows i ws keys acc).
Proof.
  induction keys as [|k keys IH]; intros i acc; cbn [snapshots_loop]; [apply moving_ret|].
  replace (4 * length (k :: keys))%nat with (4 + 4 * length keys)%nat by (simpl; lia).
  apply moving_bind; [apply setSnapshot_moving|]. intros [snap|err]; [apply IH|].
  eapply moving_weaken; [apply moving_ret|lia].
Qed.
Lemma first_then_moving f nows order ws keys : moving (4 * length keys) (first_then f nows order ws keys).
Proof.
  destruct keys as [|k keys]; cbn [first_then]; [apply moving_ret|].
  replace (4 * length (k :: keys))%nat with (4 + (4 * length keys + 0))%nat by (simpl; lia).
  apply moving_bind; [apply setSnapshot_moving|]. intros [snap|err].
  - apply moving_bind; [apply snapshots_loop_moving|]. intros. apply moving_ret.
  - eapply moving_weaken; [apply moving_ret|lia].
Qed.
Lemma SUnion_moving nows order ws keys : moving (4 * length keys) (SUnion nows order ws keys).
Proof.
  replace (4 * length keys)%nat with (4 * length keys + 0)%nat by lia.
  apply moving_bind; [apply snapshots_loop_moving|]. intros. apply moving_ret.
Qed.

Create HintDb moving.
#[export] Hint Resolve Del_moving Exists_moving Rename_moving FlushDB_moving Keys_moving Scan_moving
  WatchVersion_moving SUnion_moving : moving.
#[export] Hint Extern 1 (moving _ (SInter _ _ _ _)) => apply first_then_moving : moving.
#[export] Hint Extern 1 (moving _ (SDiff _ _ _ _)) => apply first_then_moving : moving.
#[export] Hint Extern 2 (moving _ _) => (eapply keyed_moving; keyed_call) : moving.

(** ** Acts *)

(** The connection gauges, which only [HandleConn] and the accept loop move. *)
Definition same_connections (m m' : metrics.Metrics) : Prop :=
  metrics.counters m' metrics.connectionsTotal = metrics.counters m metrics.connectionsTotal ∧
  metrics.counters m' metrics.connectionsActive = metrics.counters m metrics.connectionsActive ∧
  metrics.counters m' metrics.connectionsRejected = metrics.counters m metrics.connectionsRejected.

(** A change beside engine, authenticator, broker and connections that keeps
    the stores' invariants. *)
Record aside (d d' : Deps) : Prop := {
  as_engine : Engine d' = Engine d;
  as_auth : Auth d' = Auth d;
  as_broker : PubSub_ d' = PubSub_ d;
  as_gauges : same_connections (Metrics_ d) (Metrics_ d');
  as_memory : mem_inv (MemoryStore_ d) → mem_inv (MemoryStore_ d');
  as_graph : graph_inv (GraphStore_ d) → graph_inv (GraphStore_ d');
}.

(** [w] after [k] more ticks, with the broker and the client's state replaced. *)
Definition brokered (p : pubsub.PubSub) (c : ClientState) (k : nat) (w : World) : World :=
  mkWorld (set_PubSub p (deps w)) c (me w) (k + ticks w).

Inductive act (w : World) : nat → World → Prop :=
  | act_local f k : Subscriptions (f (cs w)) = Subscriptions (cs w) → PSubscriptions (f (cs w)) = PSubscriptions (cs w) →
      act w 0 (mkWorld (deps w) (f (cs w)) (me w) (k + ticks w))
  | act_engine n e m k : (store_inv (Engine (deps w)) → evolves n (Engine (deps w)) e) →
      same_connections (Metrics_ (deps w)) m →
      act w n (mkWorld (set_Metrics m (set_Engine e (deps w))) (cs w) (me w) (k + ticks w))
  | act_aside d k : aside (deps w) d → act w 0 (mkWorld d (cs w) (me w) (k + ticks w))
  | act_ensure k : act w 0 (brokered (pubsub.ensureSubscriberState (me w) (PubSub_ (deps w))) (cs w) k w)
  | act_subscribe ch k : live (me w) (PubSub_ (deps w)) →
      act w 0 (brokered (pubsub.Subscribe (me w) ch (PubSub_ (deps w)))
                 (set_Subscriptions ({[ch]} ∪ Subscriptions (cs w)) (PSubscriptions (cs w)) (cs w)) k w)
  | act_psubscribe pat k : live (me w) (PubSub_ (deps w)) →
      act w 0 (brokered (pubsub.SubscribePattern (me w) pat (PubSub_ (deps w)))
                 (set_Subscriptions (Subscriptions (cs w)) ({[pat]} ∪ PSubscriptions (cs w)) (cs w)) k w)
  | act_unsubscribe ch k p :
      p = pubsub.Unsubscribe (me w) ch (PubSub_ (deps w)) ∨
      pubsub.subChs (PubSub_ (deps w)) !! me w = None ∧ p = PubSub_ (deps w) →
      act w 0 (brokered p (set_Subscriptions (Subscriptions (cs w) ∖ {[ch]}) (PSubscriptions (cs w)) (cs w)) k w)
  | act_punsubscribe pat k p :
      p = pubsub.UnsubscribePattern (me w) pat (PubSub_ (deps w)) ∨
      pubsub.subChs (PubSub_ (deps w)) !! me w = None ∧ p = PubSub_ (deps w) →
      act w 0 (brokered p (set_Subscriptions (Subscriptions (cs w)) (PSubscriptions (cs w) ∖ {[pat]}) (cs w)) k w)
  | act_publish o ch payload n p k : orders_ok o → pubsub.Publish o ch payload (PubSub_ (deps w)) = (Return n, p) →
      act w 0 (brokered p (cs w) k w).

(** A sequence of acts, moving each key's version at most [n] times. *)
Inductive acts (w : World) : nat → World → Prop :=
  | acts_nil : acts w 0 w
  | acts_snoc n w1 k w2 : acts w n w1 → act w1 k w2 → acts w (n + k) w2.

Lemma acts_trans w1 n w2 k w3 : acts w1 n w2 → acts w2 k w3 → acts w1 (n + k) w3.
Proof.
  intros H1 H2. induction H2 as [|k w3 j w4 _ IH Ha]; [by rewrite Nat.add_0_r|].
  rewrite Nat.add_assoc. by eapply acts_snoc.
Qed.
Lemma acts_one w n w' : act w n w' → acts w n w'.
Proof. intros Ha. change n with (0 + n)%nat. eapply acts_snoc; [apply acts_nil|done]. Qed.

(** *** What acts preserve *)

Lemma act_me w n w' : act w n w' → me w' = me w.
Proof. by destruct 1. Qed.
Lemma act_auth w n w' : act w n w' → Auth (deps w') = Auth (deps w).
Proof. destruct 1; try done. by apply as_auth. Qed.
Lemma act_gauges w n w' : act w n w' → same_connections (Metrics_ (deps w)) (Metrics_ (deps w')).
Proof. destruct 1; try done. by apply as_gauges. Qed.
Lemma act_memory w n w' : act w n w' → mem_inv (MemoryStore_ (deps w)) → mem_inv (MemoryStore_ (deps w')).
Proof. destruct 1; try done. by apply as_memory. Qed.
Lemma act_graph w n w' : act w n w' → graph_inv (GraphStore_ (deps w)) → graph_inv (GraphStore_ (deps w')).
Proof. destruct 1; try done. by apply as_graph. Qed.
Lemma act_evolves w n w' : act w n w' → store_inv (Engine (deps w)) → evolves n (Engine (deps w)) (Engine (deps w')).
Proof. destruct 1 as [| |d k A| | | | | |]; intros I; try by apply evolves_refl. - auto. - cbn. rewrite (as_engine _ _ A). by apply evolves_refl. Qed.

(** Acts move the broker by its own steps, and close no channel. *)
Lemma act_step w n w' : act w n w' → issuing (me w) (PubSub_ (deps w)) →
  PubSub_ (deps w') = PubSub_ (deps w) ∨ step (PubSub_ (deps w)) (PubSub_ (deps w')).
Proof.
  destruct 1 as [f k|n e m k Hn|d k A|k|ch k Hl|pat k Hl|ch k p Hp|pat k p Hp|o ch payload n p k Ho Hp]; intros Hi; cbn.
  - by left.
  - by left.
  - left. by apply as_broker.
  - right. by apply step_ensure.
  - right. by apply step_subscribe.
  - right. by apply step_psubscribe.
  - destruct Hp as [->|[_ ->]]; [right; apply step_unsubscribe|by left].
  - destruct Hp as [->|[_ ->]]; [right; apply step_punsubscribe|by left].
  - right. by eapply step_publish.
Qed.
Lemma ensure_issuing i j p : issuing j p → issuing j (pubsub.ensureSubscriberState i p).
Proof.
  intros Hj. unfold pubsub.ensureSubscriberState. destruct (pubsub.subChs p !! i) eqn:E; [done|].
  intros c. cbn. intros [[_ <-]|[_ Hc]]%lookup_insert_Some; [done|by apply Hj].
Qed.
Lemma act_issuing w n w' j : act w n w' → issuing j (PubSub_ (deps w)) → issuing j (PubSub_ (deps w')).
Proof.
  destruct 1 as [f k|n e m k Hn|d k A|k|ch k Hl|pat k Hl|ch k p Hp|pat k p Hp|o ch payload n p k Ho Hp]; cbn; try done.
  - by rewrite (as_broker _ _ A).
  - apply ensure_issuing.
  - by destruct Hp as [->|[_ ->]].
  - by destruct Hp as [->|[_ ->]].
  - by eapply publish_issuing.
Qed.
Lemma act_session w n w' : act w n w' → session_ok w → session_ok w'.
Proof.
  intros Ha [HB HI]. split.
  - destruct (act_step _ _ _ Ha HI) as [->|Hs]; [done|by eapply step_ok].
  - rewrite (act_me _ _ _ Ha). by eapply act_issuing.
Qed.
Lemma act_live w n w' j : act w n w' → issuing (me w) (PubSub_ (deps w)) → live j (PubSub_ (deps w)) → live j (PubSub_ (deps w')).
Proof.
  intros Ha Hi Hl. pose proof (act_issuing _ _ _ j Ha (live_issuing _ _ Hl)) as Hj.
  destruct (act_step _ _ _ Ha Hi) as [->|Hs]; [done|by eapply step_live].
Qed.

(** The connection's own record of its subscriptions is what the broker has
    registered for it. *)
Definition agrees (i : pubsub.conn) (c : ClientState) (p : pubsub.PubSub) : Prop :=
  (∀ ch, ch ∈ Subscriptions c ↔ subscribed (pubsub.channels p) i ch) ∧
  (∀ pat, pat ∈ PSubscriptions c ↔ subscribed (pubsub.patterns p) i pat).

Lemma publish_tables o ch payload p n p' : broker_ok p → orders_ok o → pubsub.Publish o ch payload p = (Return n, p') →
  pubsub.channels p' = pubsub.channels p ∧ pubsub.patterns p' = pubsub.patterns p.
Proof.
  intros I Ho HP. destruct (deliver_ok ch payload (pubsub.targets o ch p) 0 p I (targets_issuing o ch p Ho I))
    as (n' & p2 & E & _ & E1 & E2). unfold pubsub.Publish in HP. rewrite E in HP. by injection HP as <- <-.
Qed.
Lemma ensure_tables i p : pubsub.channels (pubsub.ensureSubscriberState i p) = pubsub.channels p ∧
  pubsub.patterns (pubsub.ensureSubscriberState i p) = pubsub.patterns p.
Proof. unfold pubsub.ensureSubscriberState. by case_match. Qed.
(** A connection without a channel is registered nowhere. *)
Lemma unregistered i p name : broker_ok p → pubsub.subChs p !! i = None →
  ¬ subscribed (pubsub.channels p) i name ∧ ¬ subscribed (pubsub.patterns p) i name.
Proof. intros I Hi. split; intros Hs; destruct (bk_open p I i name) as (c & Hc & _); auto; congruence. Qed.

Lemma act_agrees w n w' : act w n w' → broker_ok (PubSub_ (deps w)) →
  agrees (me w) (cs w) (PubSub_ (deps w)) → agrees (me w') (cs w') (PubSub_ (deps w')).
Proof.
  destruct 1 as [f k E1 E2|n e m k Hn|d k A|k|ch k Hl|pat k Hl|ch k p Hp|pat k p Hp|o ch payload n p k Ho Hp];
    intros I [H1 H2]; unfold agrees in *; cbn.
  - by rewrite E1, E2.
  - done.
  - by rewrite (as_broker _ _ A).
  - by destruct (ensure_tables (me w) (PubSub_ (deps w))) as [-> ->].
  - split; [|done]. intros x. rewrite subscribed_add, <- H1. set_solver.
  - split; [done|]. intros x. rewrite subscribed_add, <- H2. set_solver.
  - destruct Hp as [->|[Hno ->]]; cbn; (split; [|done]); intros x.
    + rewrite subscribed_remove, <- H1. set_solver.
    + rewrite <- H1. assert (ch ∉ Subscriptions (cs w)); [|set_solver]. rewrite H1. by apply unregistered.
  - destruct Hp as [->|[Hno ->]]; cbn; (split; [done|]); intros x.
    + rewrite subscribed_remove, <- H2. set_solver.
    + rewrite <- H2. assert (pat ∉ PSubscriptions (cs w)); [|set_solver]. rewrite H2. by apply unregistered.
  - by destruct (publish_tables _ _ _ _ _ _ I Ho Hp) as [-> ->].
Qed.
(** Nobody else's subscriptions change. *)
Lemma act_others w n w' j c : act w n w' → broker_ok (PubSub_ (deps w)) → j ≠ me w →
  agrees j c (PubSub_ (deps w)) → agrees j c (PubSub_ (deps w')).
Proof.
  destruct 1 as [f k E1 E2|n e m k Hn|d k A|k|ch k Hl|pat k Hl|ch k p Hp|pat k p Hp|o ch payload n p k Ho Hp];
    intros I Hj [H1 H2]; unfold agrees in *; cbn.
  - done.
  - done.
  - by rewrite (as_broker _ _ A).
  - by destruct (ensure_tables (me w) (PubSub_ (deps w))) as [-> ->].
  - split; [|done]. intros x. rewrite subscribed_add, <- H1. set_solver.
  - split; [done|]. intros x. rewrite subscribed_add, <- H2. set_solver.
  - destruct Hp as [->|[_ ->]]; cbn; (split; [|done]); intros x; [|done].
    rewrite subscribed_remove, <- H1. set_solver.
  - destruct Hp as [->|[_ ->]]; cbn; (split; [done|]); intros x; [|done].
    rewrite subscribed_remove, <- H2. set_solver.
  - by destruct (publish_tables _ _ _ _ _ _ I Ho Hp) as [-> ->].
Qed.

(** Messages are only ever added at the end of a channel. *)
Definition extended (j : pubsub.conn) (ms : list pubsub.Message) (p p' : pubsub.PubSub) : Prop :=
  match pubsub.subChs p !! j with
  | None => ms = []
  | Some c => pubsub.subChs p' !! j = Some (pubsub.mkChan (pubsub.buf c ++ ms) (pubsub.closed c))
  end.
Lemma extended_same j p p' : pubsub.subChs p' = pubsub.subChs p → extended j [] p p'.
Proof. intros E. unfold extended. rewrite E. case_match; [|done]. rewrite app_nil_r. by destruct c. Qed.
Lemma extended_refl j p : extended j [] p p.
Proof. by apply extended_same. Qed.
Lemma act_extended w n w' j : act w n w' → broker_ok (PubSub_ (deps w)) →
  ∃ ms, extended j ms (PubSub_ (deps w)) (PubSub_ (deps w')).
Proof.
  destruct 1 as [f k E1 E2|n e m k Hn|d k A|k|ch k Hl|pat k Hl|ch k p Hp|pat k p Hp|o ch payload n p k Ho Hp];
    intros I; try (exists []; by apply extended_same).
  - exists []. cbn. rewrite (as_broker _ _ A). apply extended_refl.
  - exists []. unfold extended, pubsub.ensureSubscriberState. cbn.
    destruct (pubsub.subChs (PubSub_ (deps w)) !! j) as [c|] eqn:E; [|done]. rewrite app_nil_r.
    destruct (pubsub.subChs (PubSub_ (deps w)) !! me w) eqn:Em; [by destruct c|]. cbn.
    rewrite lookup_insert_ne by congruence. by destruct c.
  - exists []. destruct Hp as [->|[_ ->]]; by apply extended_same.
  - exists []. destruct Hp as [->|[_ ->]]; by apply extended_same.
  - destruct (deliver_spec ch payload (pubsub.targets o ch (PubSub_ (deps w))) 0 _ I (targets_issuing o ch _ Ho I))
      as (n' & p' & E & _ & _ & _ & HC). unfold pubsub.Publish in Hp. rewrite E in Hp. injection Hp as _ <-.
    unfold extended. cbn. specialize (HC j). destruct (pubsub.subChs (PubSub_ (deps w)) !! j) as [c|]; [|by exists []].
    eexists. by rewrite HC.
Qed.

(** *** Along a sequence *)

Record progress (w : World) (n : nat) (w' : World) : Prop := {
  pr_me : me w' = me w;
  pr_auth : Auth (deps w') = Auth (deps w);
  pr_gauges : same_connections (Metrics_ (deps w)) (Metrics_ (deps w'));
  pr_memory : mem_inv (MemoryStore_ (deps w)) → mem_inv (MemoryStore_ (deps w'));
  pr_graph : graph_inv (GraphStore_ (deps w)) → graph_inv (GraphStore_ (deps w'));
  pr_engine : store_inv (Engine (deps w)) → evolves n (Engine (deps w)) (Engine (deps w'));
  pr_broker : broker_ok (PubSub_ (deps w'));
  pr_issuing j : issuing j (PubSub_ (deps w)) → issuing j (PubSub_ (deps w'));
  pr_agrees : agrees (me w) (cs w) (PubSub_ (deps w)) → agrees (me w') (cs w') (PubSub_ (deps w'));
  pr_others j c : j ≠ me w → agrees j c (PubSub_ (deps w)) → agrees j c (PubSub_ (deps w'));
  pr_extended j : ∃ ms, extended j ms (PubSub_ (deps w)) (PubSub_ (deps w'));
}.
Lemma acts_progress w n w' : session_ok w → acts w n w' → progress w n w'.
Proof.
  intros Hw Ha. induction Ha as [|n w1 k w2 _ IH Ha].
  - split; try done; [intros I; by apply evolves_refl|apply Hw|]. intros j. exists []. apply extended_refl.
  - destruct IH. assert (Hs1 : session_ok w1).
    { split; [done|]. rewrite pr_me0. apply pr_issuing0, Hw. }
    split.
    + rewrite (act_me _ _ _ Ha). done.
    + rewrite (act_auth _ _ _ Ha). done.
    + destruct (act_gauges _ _ _ Ha) as (G1 & G2 & G3), pr_gauges0 as (? & ? & ?). split_and!; congruence.
    + intros HM. eapply act_memory; eauto.
    + intros HG. eapply act_graph; eauto.
    + intros I. eapply evolves_trans; [by apply pr_engine0|]. apply (act_evolves _ _ _ Ha). by apply (pr_engine0 I).
    + by eapply act_session.
    + intros j Hj. eapply act_issuing; [exact Ha|auto].
    + intros HA. eapply act_agrees; [exact Ha|done|auto].
    + intros j c Hj HA. eapply act_others; [exact Ha|done|by rewrite pr_me0|auto].
    + intros j. destruct (pr_extended0 j) as [ms1 E1], (act_extended _ _ _ j Ha pr_broker0) as [ms2 E2].
      unfold extended in *. destruct (pubsub.subChs (PubSub_ (deps w)) !! j) as [c|]; [|by exists []].
      rewrite E1 in E2. exists (ms1 ++ ms2). cbn in E2. by rewrite E2, (assoc_L (++)).
Qed.

(** ** Traced computations *)

Section traced.
Context `{Runtime} {HR : RuntimeLaws} `{FloatText} `{KeyCodec} `{Services} `{Encoding}.

(** Run by a connection in order, [m] has the effect of a sequence of acts
    that move versions at most [n] times. *)
Definition traced {A} (n : nat) (m : H A) : Prop :=
  ∀ w, session_ok w → ∃ k, (k ≤ n)%nat ∧ acts w k (m w).2.

Lemma traced_weaken {A} n k (m : H A) : traced n m → (n ≤ k)%nat → traced k m.
Proof. intros Hm Hk w Hw. destruct (Hm w Hw) as (j & Hj & Ha). exists j. split; [lia|done]. Qed.
Lemma acts_session w n w' : session_ok w → acts w n w' → session_ok w'.
Proof. intros Hw Ha. induction Ha; [done|]. by eapply act_session. Qed.
Lemma traced_act {A} n (m : H A) : (∀ w, session_ok w → act w n (m w).2) → traced n m.
Proof. intros Hm w Hw. exists n. split; [done|]. by apply acts_one, Hm. Qed.
Lemma traced_state {A} (m : H A) : (∀ w, (m w).2 = w) → traced 0 m.
Proof. intros Hm w Hw. rewrite Hm. exists 0%nat. split; [done|apply acts_nil]. Qed.
Lemma traced_ret {A} (x : A) : traced 0 (hret x).
Proof. by apply traced_state. Qed.
Lemma traced_panic {A} : traced 0 (@hpanic A).
Proof. by apply traced_state. Qed.
Lemma traced_get_cs : traced 0 get_cs.
Proof. by apply traced_state. Qed.
Lemma traced_get_Auth : traced 0 get_Auth.
Proof. by apply traced_state. Qed.
Lemma traced_handleInfo args : traced 0 (handleInfo args).
Proof. by apply traced_state. Qed.
Lemma traced_arg args i : traced 0 (arg args i).
Proof. apply traced_state. intros w. unfold arg. by destruct (args !! i). Qed.
Lemma traced_args_from args i : traced 0 (args_from args i).
Proof. apply traced_state. intros w. unfold args_from. by case_decide. Qed.
Lemma traced_check_panic {A} (o : outcome A) : traced 0 (check_panic o).
Proof. apply traced_state. by destruct o. Qed.
Lemma traced_error_reply : traced 0 error_reply.
Proof. by apply traced_state. Qed.
Lemma traced_authorized ws : traced 0 (authorized ws).
Proof. by apply traced_state. Qed.
Lemma traced_failure : traced 0 mcp.failure.
Proof. by apply traced_state. Qed.

(** A bind where the continuation is needed for the answers that occur. *)
Lemma traced_bind_on {A B} (Q : A → Prop) n N (m : H A) (k : A → H B) :
  traced n m → (n ≤ N)%nat → (∀ w x, (m w).1 = Some x → Q x) → (∀ x, Q x → traced (N - n) (k x)) →
  traced N (hbind m k).
Proof.
  intros Hm Hn HQ Hk w Hw. destruct (Hm w Hw) as (j & Hj & Ha). unfold hbind, bind. specialize (HQ w).
  destruct (m w) as [[x|] w1]; cbn [fst snd] in *; [|exists j; split; [lia|done]].
  destruct (Hk x (HQ x eq_refl) w1) as (j2 & Hj2 & Ha2); [by eapply acts_session|].
  exists (j + j2)%nat. split; [lia|by eapply acts_trans].
Qed.
Lemma traced_bind {A B} n N (m : H A) (k : A → H B) :
  traced n m → (n ≤ N)%nat → (∀ x, traced (N - n) (k x)) → traced N (hbind m k).
Proof. intros Hm Hn Hk. by apply (traced_bind_on (λ _, True) n). Qed.
(** The arguments from an index on are as many fewer. *)
Lemma traced_bind_args {B} N args i (k : list string → H B) :
  (∀ l, (length l + i = length args)%nat → traced N (k l)) → traced N (hbind (args_from args i) k).
Proof.
  intros Hk. apply (traced_bind_on (λ l, (length l + i = length args)%nat) 0); [apply traced_args_from|lia| |].
  - intros w x. unfold args_from. case_decide; [|done]. intros [= <-]. rewrite length_drop. lia.
  - intros l Hl. rewrite Nat.sub_0_r. by apply Hk.
Qed.

Lemma traced_put_cs f : (∀ c, Subscriptions (f c) = Subscriptions c ∧ PSubscriptions (f c) = PSubscriptions c) →
  traced 0 (put_cs f).
Proof. intros Hf. apply traced_act. intros w _. apply (act_local w f 0); apply Hf. Qed.
Lemma traced_own_subscriptions sel : traced 0 (own_subscriptions sel).
Proof. apply traced_act. intros w _. by apply (act_local w id 1). Qed.
Lemma evicted_gauges n m : same_connections m (Nat.iter n metrics.KeyEvicted m).
Proof. induction n as [|n (E1 & E2 & E3)]; [done|]. cbn [Nat.iter]. by split_and!. Qed.
Lemma traced_engineN {A} n k (f : nat → string → StoreM A) : (∀ t ws, moving n (f t ws)) → traced n (engineN k f).
Proof.
  intros Hf. apply traced_act. intros w _. unfold engineN.
  pose proof (Hf (ticks w) (Workspace (cs w)) (Engine (deps w))) as Hm.
  destruct (f (ticks w) (Workspace (cs w)) (Engine (deps w))) as [x e]. cbn [snd] in *.
  by apply act_engine; [|apply evicted_gauges].
Qed.
Lemma traced_on {C A} (sel : Deps → C) upd (f : nat → C → A * C) :
  (∀ n d, aside d (upd (f n (sel d)).2 d)) → traced 0 (on sel upd f).
Proof.
  intros Hf. apply traced_act. intros w _. unfold on. pose proof (Hf (ticks w) (deps w)) as HA.
  destruct (f (ticks w) (sel (deps w))) as [x c]. by apply (act_aside w _ 1).
Qed.
Lemma traced_metric f : (∀ m, same_connections m (f m)) → traced 0 (metric f).
Proof. intros Hf. apply traced_act. intros w _. by apply (act_aside w _ 0). Qed.
Lemma traced_analytic f : traced 0 (analytic f).
Proof. apply traced_act. intros w _. by apply (act_aside w _ 0). Qed.
Lemma traced_embedding text : traced 0 (embedding text).
Proof.
  apply traced_act. intros w _. unfold embedding, InstrumentedEmbedOne, EmbedBatchWithUsage, Embed.
  destruct (embed.EmbedBatchWithUsage _) as [up|]; apply (act_aside w _ 0); (split; try done); cbn; by destruct (failed _).
Qed.
Lemma traced_completion sys user : traced 0 (completion sys user).
Proof.
  apply traced_act. intros w _. unfold completion, Complete. apply (act_aside w _ 1). split; try done. cbn. by destruct (failed _).
Qed.
End traced.

Create HintDb traced.
#[export] Hint Resolve traced_ret traced_panic traced_get_cs traced_get_Auth traced_handleInfo traced_arg traced_args_from
  traced_check_panic traced_error_reply traced_authorized traced_failure traced_own_subscriptions traced_analytic
  traced_embedding traced_completion : traced.
#[export] Hint Extern 1 (traced _ (on _ _ _)) => (apply traced_on; intros; by split) : traced.
#[export] Hint Extern 1 (traced _ (metric _)) => (apply traced_metric; intros; split_and!; reflexivity) : traced.
#[export] Hint Extern 1 (traced _ (put_cs _)) => (apply traced_put_cs; intros; split; reflexivity) : traced.
#[export] Hint Extern 1 (traced _ (engineN _ _)) => (eapply traced_engineN; intros; solve [eauto with moving]) : traced.

(** Walks through a handler: each call is charged to the bound. *)
Ltac traced_step :=
  match goal with
  | |- traced _ (hbind (args_from _ _) _) => apply traced_bind_args; intros ? ?
  | |- traced _ (hbind _ _) => eapply traced_bind; [unfold engine; solve [eauto with traced]|simpl in *; unfold len in *; lia|intros ?]
  | |- traced _ (hbind _ _) => eapply (traced_bind 0); [|lia|intros ?]
  | |- traced _ (let '(_, _) := ?x in _) => destruct x
  | |- traced _ (match ?x with _ => _ end) => destruct x eqn:?
  | |- traced _ (let _ := _ in _) => cbv zeta
  | |- traced _ _ => eapply traced_weaken; [unfold engine; solve [eauto with traced]|simpl in *; unfold len in *; lia]
  end.
Ltac traced_tac := repeat traced_step.

Section handlers.
Context `{Runtime} {HR : RuntimeLaws} `{FloatText} `{KeyCodec}.

(** The handler's acts are paid for by its arguments. *)
Definition charged (c : Command) : Prop :=
  ∀ args, arityOK c (len args) = true → traced (8 * length args) (Handler c args).
Lemma charged_intro nm lo hi b1 b2 h :
  (∀ args, lo ≤ len args → (0 ≤ hi → len args ≤ hi) → traced (8 * length args) (h args)) →
  charged (mkCommand nm lo hi b1 b2 h).
Proof. intros Hh args Ha%arity_min. apply Hh; apply Ha. Qed.
Ltac charged_list := repeat (apply Forall_cons; split); try apply Forall_nil_2;
  apply charged_intro; intros args Hlo Hhi; unfold len in *.

Lemma traced_authenticate pw : traced 0 (authenticate pw).
Proof using Type. unfold authenticate. traced_tac. Qed.
Hint Resolve traced_authenticate : traced.
Lemma traced_hello_opts args : traced 0 (hello_opts args).
Proof using Type.
  induction args as [args IH] using (induction_ltof1 _ length). unfold ltof in IH.
  destruct args as [|opt args]; cbn [hello_opts]; [traced_tac|]. repeat case_match; simplify_eq/=; traced_tac;
    apply IH; simpl; lia.
Qed.
Hint Resolve traced_hello_opts : traced.
Lemma RegisterConn_charged n : Forall charged (RegisterConn n).
Proof using Type.
  charged_list; [unfold handlePing|unfold handleEcho|unfold handleSelect|unfold handleHello|unfold handleAuth
    |unfold handleClient|unfold handleCommand| |unfold handleQuit]; traced_tac.
Qed.
Lemma RegisterGeneric_charged : Forall charged RegisterGeneric.
Proof using Type.
  charged_list; [unfold handleDel|unfold handleExists|unfold handleExpire|unfold handlePExpire|unfold handleTTL
    |unfold handlePTTL|unfold handlePersist|unfold handleType|unfold handleKeys|unfold handleScan
    |unfold handleRename|unfold handleFlushDB|unfold handleFlushAll]; traced_tac.
Qed.

Lemma traced_mget_loop keys : traced (4 * length keys) (mget_loop keys).
Proof using Type.
  induction keys; cbn [mget_loop]; traced_tac.
Qed.
Lemma traced_mset_loop pairs : traced (4 * length pairs) (mset_loop pairs).
Proof using Type.
  induction pairs as [pairs IH] using (induction_ltof1 _ length). unfold ltof in IH.
  destruct pairs as [|k [|v pairs]]; cbn [mset_loop]; unfold engine_Set; traced_tac.
  eapply traced_weaken; [apply IH; simpl; lia|simpl; lia].
Qed.
Lemma traced_incrBy key d : traced 8 (incrBy key d).
Proof using Type. unfold incrBy, engine_Set. traced_tac. Qed.
Hint Resolve traced_mget_loop traced_mset_loop traced_incrBy : traced.
Lemma RegisterString_charged : Forall charged RegisterString.
Proof using Type.
  charged_list; [unfold handleGet|unfold handleSet, engine_Set|unfold handleMGet|unfold handleMSet|unfold handleIncr
    |unfold handleIncrBy|unfold handleDecr|unfold handleDecrBy|unfold handleAppend, engine_Set|unfold handleStrlen]; traced_tac.
Qed.
Lemma RegisterHash_charged : Forall charged RegisterHash.
Proof using Type.
  charged_list; [unfold handleHSet|unfold handleHGet|unfold handleHGetAll|unfold handleHDel|unfold handleHExists
    |unfold handleHKeys|unfold handleHVals|unfold handleHLen|unfold handleHMGet|unfold handleHIncrBy]; traced_tac.
Qed.
Lemma RegisterList_charged : Forall charged RegisterList.
Proof using Type.
  charged_list; [unfold handleLPush|unfold handleRPush|unfold handleLPop|unfold handleRPop|unfold handleLRange
    |unfold handleLLen|unfold handleLIndex|unfold handleLSet|unfold handleLRem]; traced_tac.
Qed.
Lemma RegisterSet_charged : Forall charged RegisterSet.
Proof using Type.
  charged_list; [unfold handleSAdd|unfold handleSRem|unfold handleSMembers|unfold handleSIsMember|unfold handleSCard
    |unfold handleSInter|unfold handleSUnion|unfold handleSDiff]; traced_tac.
Qed.
Lemma RegisterZSet_charged : Forall charged RegisterZSet.
Proof using Type.
  charged_list; [unfold handleZAdd|unfold handleZRem|unfold handleZRange, parseZRangeArgs|unfold handleZRevRange, parseZRangeArgs
    |unfold handleZScore|unfold handleZRank|unfold handleZCard|unfold handleZIncrBy|unfold handleZRangeByScore]; traced_tac.
Qed.
End handlers.

Section components.
Context `{Runtime} {HR : RuntimeLaws} `{FloatText} `{KeyCodec} `{Services} `{Encoding}.

Lemma traced_memories {A} (f : nat → memory.Store → A * memory.Store) :
  (∀ n s, mem_inv s → mem_inv (f n s).2) → traced 0 (on MemoryStore_ set_MemoryStore f).
Proof using Type. intros Hf. apply traced_on. intros n d. split; try done. apply Hf. Qed.
Lemma traced_graphs {A} (f : nat → graph.Store → A * graph.Store) :
  (∀ n s, graph_inv s → graph_inv (f n s).2) → traced 0 (on GraphStore_ set_GraphStore f).
Proof using Type. intros Hf. apply traced_on. intros n d. split; try done. apply Hf. Qed.

Lemma traced_SemanticCache_Set p m t r ttl c : traced 0 (SemanticCache_Set p m t r ttl c).
Proof using Type. unfold SemanticCache_Set. traced_tac. Qed.
Lemma traced_SemanticCache_Get p m t th : traced 0 (SemanticCache_Get p m t th).
Proof using Type. unfold SemanticCache_Get. traced_tac. Qed.
Lemma traced_Put m ttl : traced 0 (MemoryStore_Put m ttl).
Proof using Type.
  unfold MemoryStore_Put. eapply (traced_bind 0); [traced_tac|done|intros _].
  eapply (traced_bind 0); [|done|intros; traced_tac]. apply traced_memories. intros n s. apply Put_inv.
Qed.
Lemma traced_Get ws id : traced 0 (MemoryStore_Get ws id).
Proof using Type. apply traced_memories. intros n s I. by apply Get_ok. Qed.
Lemma traced_Search ws q o : traced 0 (MemoryStore_Search ws q o).
Proof using Type.
  unfold MemoryStore_Search. eapply (traced_bind 0); [traced_tac|done|intros _].
  eapply (traced_bind 0); [|done|intros; traced_tac]. apply traced_memories. intros n s I. by eapply Search_unseen.
Qed.
Lemma traced_List ws o : traced 0 (MemoryStore_List ws o).
Proof using Type. apply traced_memories. intros n s. apply List_inv. Qed.
Lemma traced_History ws id : traced 0 (MemoryStore_History ws id).
Proof using Type. apply traced_memories. intros n s I. by apply History_ok. Qed.
Lemma traced_Extract ws id content : traced 0 (Extract ws id content).
Proof using Type.
  unfold Extract. eapply (traced_bind 0); [traced_tac|done|intros raw].
  eapply (traced_bind 0); [|done|intros; traced_tac]. apply traced_graphs. intros n s. apply Extract_inv.
Qed.
Hint Resolve traced_SemanticCache_Set traced_SemanticCache_Get traced_Put traced_Get traced_Search traced_List
  traced_History traced_Extract : traced.
Lemma traced_Consolidate ws agent kind th : traced 0 (Consolidate ws agent kind th).
Proof using Type. unfold Consolidate. traced_tac. Qed.
Lemma traced_guarded n ws k : traced n k → traced n (guarded ws k).
Proof using Type. intros Hk. unfold guarded. traced_tac. Qed.
Lemma traced_put_memory a c o : traced 0 (put_memory a c o).
Proof using Type. unfold put_memory. apply traced_guarded. traced_tac. Qed.
Lemma traced_search_memory q o : traced 0 (search_memory q o).
Proof using Type. unfold search_memory. traced_tac. Qed.
Lemma traced_record_savings kind text cost : traced 0 (record_savings kind text cost).
Proof using Type. unfold record_savings. traced_tac. Qed.
Hint Resolve traced_Consolidate traced_put_memory traced_search_memory traced_record_savings : traced.

Ltac charged_list := repeat (apply Forall_cons; split); try apply Forall_nil_2;
  apply charged_intro; intros args Hlo Hhi; unfold len in *.
Ltac ai_tac := unfold guarded; traced_tac.

Lemma RegisterToolCache_charged : Forall charged RegisterToolCache.
Proof using Type.
  charged_list. unfold handleToolCache, handleToolCacheSet, handleToolCacheGet, ToolCache_Set, ToolCache_Get. ai_tac.
Qed.
Lemma RegisterSemantic_charged : Forall charged RegisterSemantic.
Proof using Type.
  charged_list.
  - unfold handleCacheSemantic, handleCacheSemanticSet, handleCacheSemanticGet. ai_tac.
  - unfold handleCachePrompt, handleCachePromptSet, handleCachePromptGet, PromptCache_Set, PromptCache_Get. ai_tac.
Qed.
Lemma RegisterVector_charged : Forall charged RegisterVector.
Proof using Type.
  charged_list; [unfold handleVectorUpsert, VectorStore_Upsert|unfold handleVectorSearch, VectorStore_Search
    |unfold handleVectorDelete, VectorStore_Delete]; ai_tac.
Qed.
Lemma RegisterMemory_charged : Forall charged RegisterMemory.
Proof using Type.
  charged_list; [unfold handleMemoryPut|unfold handleMemoryGet|unfold handleMemorySearch|unfold handleMemoryHistory]; ai_tac.
Qed.
Lemma RegisterAgent_charged : Forall charged RegisterAgent.
Proof using Type. charged_list; [unfold handleAgentRemember|unfold handleAgentRecall]; ai_tac. Qed.
Lemma RegisterConsolidate_charged : Forall charged RegisterConsolidate.
Proof using Type. charged_list. unfold handleSummaryCreate. ai_tac. Qed.
Lemma RegisterGraph_charged : Forall charged RegisterGraph.
Proof using Type.
  charged_list; [unfold handleGraphExtract|unfold handleGraphRelated, GraphStore_Related]; ai_tac.
Qed.

(** An MCP tool call, run beside any connection. *)
Lemma CallTool_traced c : traced 0 (mcp.CallTool c).
Proof using Type.
  assert (HT : ∀ nm k, traced 0 k → traced 0 (mcp.recorded nm k)) by (intros nm k Hk; unfold mcp.recorded; traced_tac).
  destruct c as [i|i|i|i|i|i|i|i|i|i|i|i|i|i|i]; cbn [mcp.CallTool]; apply HT;
    unfold PromptCache_Set, PromptCache_Get, ToolCache_Set, ToolCache_Get, VectorStore_Upsert, VectorStore_Search,
      VectorStore_Delete, GraphStore_Related; traced_tac.
Qed.
End components.

(** ** Subscriptions *)

Section subscriptions.
Context `{Runtime} {HR : RuntimeLaws}.

Lemma acts_then w1 w n w2 : act w 0 w1 → acts w1 n w2 → acts w n w2.
Proof using Type. intros Ha H2. change n with (0 + n)%nat. eapply acts_trans; [by apply acts_one|done]. Qed.
#[local] Ltac loop_state :=
  unfold hbind, bind, put_cs, broker_do, has_subCh, broker, on, subscription_reply, get_cs, hret, ret; cbn.

(** Each round of a loop is an act. *)
Lemma subscribe_loop_acts channels : ∀ w, session_ok w → live (me w) (PubSub_ (deps w)) →
  acts w 0 (subscribe_loop channels w).2.
Proof using Type.
  induction channels as [|ch channels IH]; intros w Hw Hl; [apply acts_nil|].
  set (w1 := brokered (pubsub.Subscribe (me w) ch (PubSub_ (deps w)))
               (set_Subscriptions ({[ch]} ∪ Subscriptions (cs w)) (PSubscriptions (cs w)) (cs w)) 1 w).
  assert (Ha : act w 0 w1) by (by apply act_subscribe).
  replace (subscribe_loop (ch :: channels) w).2 with (subscribe_loop channels w1).2.
  - eapply acts_then; [exact Ha|]. apply IH; [by eapply act_session|]. rewrite (act_me _ _ _ Ha).
    eapply act_live; [exact Ha|apply Hw|done].
  - cbn [subscribe_loop]. loop_state. fold w1. change (mkWorld _ _ _ _) with w1. by destruct (subscribe_loop channels w1) as [[rs|] w2].
Qed.
Lemma psubscribe_loop_acts patterns : ∀ w, session_ok w → live (me w) (PubSub_ (deps w)) →
  acts w 0 (psubscribe_loop patterns w).2.
Proof using Type.
  induction patterns as [|pat patterns IH]; intros w Hw Hl; [apply acts_nil|].
  set (w1 := brokered (pubsub.SubscribePattern (me w) pat (PubSub_ (deps w)))
               (set_Subscriptions (Subscriptions (cs w)) ({[pat]} ∪ PSubscriptions (cs w)) (cs w)) 1 w).
  assert (Ha : act w 0 w1) by (by apply act_psubscribe).
  replace (psubscribe_loop (pat :: patterns) w).2 with (psubscribe_loop patterns w1).2.
  - eapply acts_then; [exact Ha|]. apply IH; [by eapply act_session|]. rewrite (act_me _ _ _ Ha).
    eapply act_live; [exact Ha|apply Hw|done].
  - cbn [psubscribe_loop]. loop_state. change (mkWorld _ _ _ _) with w1. by destruct (psubscribe_loop patterns w1) as [[rs|] w2].
Qed.
Lemma unsubscribe_loop_acts channels : ∀ w, session_ok w → acts w 0 (unsubscribe_loop channels w).2.
Proof using Type.
  induction channels as [|ch channels IH]; intros w Hw; [apply acts_nil|].
  set (c := set_Subscriptions (Subscriptions (cs w) ∖ {[ch]}) (PSubscriptions (cs w)) (cs w)).
  assert (HA : ∃ w1, act w 0 w1 ∧ (unsubscribe_loop (ch :: channels) w).2 = (unsubscribe_loop channels w1).2).
  { cbn [unsubscribe_loop]. loop_state. fold c. destruct (pubsub.subChs (PubSub_ (deps w)) !! me w) as [x|] eqn:E; cbn.
    - exists (brokered (pubsub.Unsubscribe (me w) ch (PubSub_ (deps w))) c 2 w). split; [apply act_unsubscribe; by left|].
      unfold brokered. cbn. by destruct (unsubscribe_loop channels _) as [[rs|] w2].
    - exists (brokered (PubSub_ (deps w)) c 1 w). split; [apply act_unsubscribe; by right|].
      unfold brokered. cbn. by destruct (unsubscribe_loop channels _) as [[rs|] w2]. }
  destruct HA as (w1 & Ha & ->). eapply acts_then; [exact Ha|]. apply IH. by eapply act_session.
Qed.
Lemma punsubscribe_loop_acts patterns : ∀ w, session_ok w → acts w 0 (punsubscribe_loop patterns w).2.
Proof using Type.
  induction patterns as [|pat patterns IH]; intros w Hw; [apply acts_nil|].
  set (c := set_Subscriptions (Subscriptions (cs w)) (PSubscriptions (cs w) ∖ {[pat]}) (cs w)).
  assert (HA : ∃ w1, act w 0 w1 ∧ (punsubscribe_loop (pat :: patterns) w).2 = (punsubscribe_loop patterns w1).2).
  { cbn [punsubscribe_loop]. loop_state. fold c. destruct (pubsub.subChs (PubSub_ (deps w)) !! me w) as [x|] eqn:E; cbn.
    - exists (brokered (pubsub.UnsubscribePattern (me w) pat (PubSub_ (deps w))) c 2 w). split; [apply act_punsubscribe; by left|].
      unfold brokered. cbn. by destruct (punsubscribe_loop patterns _) as [[rs|] w2].
    - exists (brokered (PubSub_ (deps w)) c 1 w). split; [apply act_punsubscribe; by right|].
      unfold brokered. cbn. by destruct (punsubscribe_loop patterns _) as [[rs|] w2]. }
  destruct HA as (w1 & Ha & ->). eapply acts_then; [exact Ha|]. apply IH. by eapply act_session.
Qed.
Lemma traced_acts {A} (m : H A) : (∀ w, session_ok w → acts w 0 (m w).2) → traced 0 m.
Proof using Type. intros Hm w Hw. exists 0%nat. split; [done|by apply Hm]. Qed.
Lemma traced_unsubscribe_loop channels : traced 0 (unsubscribe_loop channels).
Proof using Type. apply traced_acts, unsubscribe_loop_acts. Qed.
Lemma traced_punsubscribe_loop patterns : traced 0 (punsubscribe_loop patterns).
Proof using Type. apply traced_acts, punsubscribe_loop_acts. Qed.
Lemma traced_subscription_reply what ch : traced 0 (subscription_reply what ch).
Proof using Type. unfold subscription_reply. traced_tac. Qed.
Hint Resolve traced_unsubscribe_loop traced_punsubscribe_loop traced_subscription_reply : traced.

(** After [ensureSubscriberState] the connection has its channel. *)
Lemma traced_subscribing {A} (loop : list string → H A) (f : A → Reply) args :
  (∀ chs w, session_ok w → live (me w) (PubSub_ (deps w)) → acts w 0 (loop chs w).2) →
  traced 0 (do! _ := broker_do pubsub.ensureSubscriberState in
            do! chs := args_from args 1 in do! rs := loop chs in hret (f rs)).
Proof using Type.
  intros Hl. apply traced_acts. intros w Hw.
  set (w1 := brokered (pubsub.ensureSubscriberState (me w) (PubSub_ (deps w))) (cs w) 1 w).
  assert (Ha : act w 0 w1) by apply act_ensure.
  assert (L1 : live (me w1) (PubSub_ (deps w1))) by (apply ensure_ok; apply Hw).
  loop_state. change (mkWorld _ _ _ _) with w1. eapply acts_then; [exact Ha|]. unfold args_from. case_decide; [|apply acts_nil].
  loop_state. pose proof (Hl (drop 1 args) w1 (act_session _ _ _ Ha Hw) L1) as HL. by destruct (loop (drop 1 args) w1) as [[rs|] w2].
Qed.
Lemma traced_publish ch payload : traced 0 (broker (λ n _, pubsub.Publish (sub_orders n) ch payload)).
Proof using HR.
  apply traced_act. intros w [HB HI]. unfold broker, on. pose proof (sub_orders_ok (ticks w)) as Ho.
  destruct (deliver_ok ch payload (pubsub.targets (sub_orders (ticks w)) ch (PubSub_ (deps w))) 0 _ HB)
    as (n & p & E & _); [by apply targets_issuing|]. unfold pubsub.Publish. rewrite E.
  by apply (act_publish w (sub_orders (ticks w)) ch payload n p 1).
Qed.
Lemma RegisterPubSub_charged : Forall charged RegisterPubSub.
Proof using HR.
  pose proof traced_publish as HP.
  repeat (apply Forall_cons; split); try apply Forall_nil_2; apply charged_intro; intros args Hlo Hhi.
  - eapply traced_weaken; [apply traced_subscribing, subscribe_loop_acts|lia].
  - unfold handleUnsubscribe. traced_tac.
  - unfold handlePublish. traced_tac.
  - eapply traced_weaken; [apply traced_subscribing, psubscribe_loop_acts|lia].
  - unfold handlePUnsubscribe. traced_tac.
Qed.
End subscriptions.

(** ** Dispatch *)

Definition words (q : list (list string)) : nat := sum_list_with length q.

Section dispatch.
Context `{Runtime} {HR : RuntimeLaws} `{FloatText} `{KeyCodec} `{Services} `{Encoding}.

Lemma traced_watch_loop keys : traced 0 (watch_loop keys).
Proof using Type. induction keys; cbn [watch_loop]; unfold engine_version; traced_tac. Qed.
Lemma traced_unchanged l : traced 0 (unchanged l).
Proof using Type. induction l as [|[k v] l IH]; cbn [unchanged]; unfold engine_version; traced_tac. Qed.
Hint Resolve traced_watch_loop traced_unchanged : traced.
Lemma traced_exec_loop handle queued : (∀ a, queued_ok a → traced (8 * length a) (handle a)) →
  Forall queued_ok queued → traced (8 * words queued) (exec_loop handle queued).
Proof using Type.
  intros Hh HQ. induction HQ as [|a queued Ha HQ IH]; cbn [exec_loop]; [traced_tac|].
  unfold words in *. cbn [sum_list_with]. eapply traced_bind; [by apply Hh|lia|]. intros [r|]; [|traced_tac].
  eapply traced_bind; [exact IH|lia|]. intros rs. traced_tac.
Qed.

Definition exec_command (h : list string → H (option Reply)) : Command := mkCommand "EXEC" 1 1 false true (handleExec h).
Lemma commands_charged h n c : c ∈ commands h n → charged c ∨ c = exec_command h.
Proof using HR.
  assert (HT : Forall (λ c, charged c ∨ c = exec_command h) (RegisterTx h)).
  { repeat (apply Forall_cons; split); [left|right; reflexivity|left|left|left|by apply Forall_nil_2];
      apply charged_intro; intros args Hlo Hhi; unfold handleMulti, handleDiscard, handleWatch, handleUnwatch; traced_tac. }
  assert (HL : ∀ l, Forall charged l → Forall (λ c, charged c ∨ c = exec_command h) l)
    by (intros l Hl; eapply Forall_impl; [exact Hl|auto]).
  intros Hc. revert c Hc. apply Forall_forall. unfold commands.
  repeat apply Forall_app_2; try exact HT; apply HL;
    auto using RegisterConn_charged, RegisterGeneric_charged, RegisterString_charged, RegisterHash_charged,
      RegisterList_charged, RegisterSet_charged, RegisterZSet_charged, RegisterPubSub_charged, RegisterSemantic_charged,
      RegisterToolCache_charged, RegisterVector_charged, RegisterMemory_charged, RegisterAgent_charged,
      RegisterConsolidate_charged, RegisterGraph_charged.
Qed.

(** Dispatching costs what the command found costs where it is run. *)
Lemma dispatch_acts h n N args w : session_ok w →
  (∀ c, RegisterAll h n !! ToUpper (default "" (head args)) = Some c → arityOK c (len args) = true →
     ∃ k, (k ≤ N)%nat ∧ acts w k (Handler c args w).2) →
  ∃ k, (k ≤ N)%nat ∧ acts w k (dispatch (RegisterAll h n) args w).2.
Proof using Type.
  intros Hw Hc. assert (Z0 : ∃ k, (k ≤ N)%nat ∧ acts w k w) by (exists 0%nat; split; [lia|apply acts_nil]).
  assert (HP : ∀ f, Subscriptions (f (cs w)) = Subscriptions (cs w) → PSubscriptions (f (cs w)) = PSubscriptions (cs w) →
    ∃ k, (k ≤ N)%nat ∧ acts w k (set_cs (f (cs w)) w)).
  { intros f E1 E2. exists 0%nat. split; [lia|]. by apply acts_one, (act_local w f 0). }
  destruct args as [|a0 rest]; [done|]. cbn [dispatch head from_option default id] in *.
  destruct (RegisterAll h n !! ToUpper a0) as [c|].
  - specialize (Hc c eq_refl). unfold hbind, bind, get_Auth, get_cs, put_cs, hret, ret.
    case_match; [done|]. case_match; [case_match; by apply HP|]. case_match; [done|].
    destruct Hc as (k & Hk & Ha); [by apply negb_false_iff|]. exists k. split; [done|].
    by destruct (Handler c (a0 :: rest) w) as [[r|] w'].
  - unfold hbind, bind, get_cs, put_cs, hret, ret. by destruct (InMulti (cs w)); [apply HP|].
Qed.
Lemma Handle_1_traced args : queued_ok args → traced (8 * length args) (Handle 1 args).
Proof using HR.
  intros Hq w Hw. destruct (proj1 (queued_ok_any (Handle 0) commandCount args) Hq) as (a0 & rest & c & -> & Hc & HQ & Ha).
  change (Handle 1 (a0 :: rest)) with (dispatch (RegisterAll (Handle 0) commandCount) (a0 :: rest)).
  apply dispatch_acts; [done|]. intros c' Hc' Ha'. cbn [head from_option default id] in Hc'. rewrite Hc in Hc'. injection Hc' as <-.
  destruct (commands_charged _ _ c (RegisterAll_lookup _ _ _ _ Hc)) as [Hg| ->]; [by apply Hg|done].
Qed.
Lemma handleExec_acts args w : queue_ok w →
  ∃ k, (k ≤ 8 * words (Queued (cs w)))%nat ∧ acts w k (handleExec (Handle 1) args w).2.
Proof using HR.
  intros [HQ Hw]. unfold handleExec. unfold hbind at 1, bind at 1, get_cs at 1.
  assert (HT : traced (8 * words (Queued (cs w))) (if negb (InMulti (cs w)) then hret (Err "ERR EXEC without MULTI") else
    do! _ := put_cs (λ c, set_Watched ∅ (set_Multi false false [] c)) in
    if MultiError (cs w) then hret (Err ErrExecAbort) else
    do! ok := unchanged (map_to_list (Watched (cs w))) in
    if negb ok then hret NullArray else
    do! replies := exec_loop (Handle 1) (Queued (cs w)) in hret (ArraySlice replies))); [|by apply HT].
  pose proof (traced_exec_loop (Handle 1) (Queued (cs w)) Handle_1_traced HQ) as HE. traced_tac.
Qed.

(** Every command's effect on the server is a sequence of acts, whose number of
    version moves its own words and those of the queue pay for. *)
Lemma Handle_traced args w : queue_ok w →
  ∃ k, (k ≤ 8 * (length args + words (Queued (cs w))))%nat ∧ acts w k (Handle 2 args w).2.
Proof using HR.
  intros Hw. change (Handle 2 args) with (dispatch (RegisterAll (Handle 1) commandCount) args).
  apply dispatch_acts; [apply Hw|]. intros c Hc Ha.
  destruct (commands_charged _ _ c (RegisterAll_lookup _ _ _ _ Hc)) as [Hg| ->].
  - destruct (Hg args Ha w (proj2 Hw)) as (k & Hk & HA). exists k. split; [lia|done].
  - destruct (handleExec_acts args w Hw) as (k & Hk & HA). exists k. split; [lia|done].
Qed.
Lemma Handle_progress args w : queue_ok w →
  ∃ k, (k ≤ 8 * (length args + words (Queued (cs w))))%nat ∧ progress w k (Handle 2 args w).2.
Proof using HR.
  intros Hw. destruct (Handle_traced args w Hw) as (k & Hk & HA). exists k. split; [done|].
  apply acts_progress; [apply Hw|done].
Qed.
End dispatch.
