(* ===== verification/Regions.v ===== *)
(** * What an engine call does under one lock

    A method of the engine takes the lock of its key's shard, works on the
    shard and releases it; [region] says so.  The methods on several keys, or
    on all of them (DEL, EXISTS, SINTER and its relatives, KEYS, SCAN, FLUSHDB
    in internal/storage/memstore/store.go), do that once per key or per shard,
    and other commands run in between.  This file has the pieces; Programs.v
    makes programs of them. *)

From S2P Require Import Prelude.
From S2P Require Import GoStd.
From S2P Require Import Glob.
From S2P Require Import Shard.
From S2P Require Import Store.
From S2P Require Import StoreHash.
From S2P Require Import StoreList.
From S2P Require Import StoreSet.
From S2P Require Import StoreZSet.
From S2P Require Import ShardSpec.
From S2P Require Import StoreSpec.
From S2P Require Import EngineMulti.
From S2P Require Import KeySpace.
From S2P Require Import KeyScan.
From S2P Require Import Engine.
From S2P Require Import Confine.
From S2P Require Import Metrics.
From S2P Require Import Server.
From S2P Require Import Effects.

Open Scope Z_scope.
Open Scope go_scope.

(** One shard's lock; both, for RENAME; a read of one shard, or of their number,
    which never changes. *)
Inductive region : ∀ {A}, StoreM A → Prop :=
  | re_key {A} ck (g : Store → SH A) : region (withShard ck g)
  | re_shard {A} i (m : SH A) : region (onShard i m)
  | re_rename now ws old new : region (Rename now ws old new)
  | re_look {A} i (f : shard → A) : region (gets (λ s, f (shards s !!! i)))
  | re_size : region (gets (λ s, length (shards s))).

Lemma keyed_region {A} ws (m : StoreM A) : keyed_call ws m → region m.
Proof. intros (o & now & order & key & ->). destruct o; cbn [Engine.run]; apply re_key. Qed.
Create HintDb region.
#[export] Hint Extern 1 (region _) => (eapply keyed_region; keyed_call) : region.
#[export] Hint Extern 2 (region (WatchVersion _ _)) => apply re_key : region.
#[export] Hint Extern 2 (region (setSnapshot _ _ _)) => apply re_key : region.
#[export] Hint Constructors region : region.

(** ** Regions that evict nothing *)

Definition quiet {A} (m : StoreM A) : Prop := ∀ s, evictions (m s).2 = evictions s.
Definition spares {A} (m : SH A) : Prop := ∀ c, sc_evicted (m c).2 = sc_evicted c.

Lemma spares_bind {A B} (m : SH A) (k : A → SH B) : spares m → (∀ x, spares (k x)) → spares (bind m k).
Proof. intros Hm Hk c. unfold bind. specialize (Hm c). destruct (m c) as [x c1]. cbn [snd] in Hm. by rewrite Hk. Qed.
Lemma spares_ret {A} (x : A) : spares (ret x).
Proof. done. Qed.
Lemma spares_gets {A} (f : shardCtx → A) : spares (gets f).
Proof. done. Qed.
Lemma spares_delete k : spares (deleteEntryLocked k).
Proof. done. Qed.
Lemma spares_bump k : spares (bumpVersionLocked k).
Proof. done. Qed.
Create HintDb spares.
#[export] Hint Resolve spares_ret spares_gets spares_delete spares_bump : spares.
Lemma spares_get k now : spares (get k now).
Proof. done. Qed.
Lemma spares_getForWrite k now : spares (getForWriteLocked k now).
Proof.
  unfold getForWriteLocked. apply spares_bind; [auto with spares|]. intros [e|]; [|auto with spares]. destruct (expired e now); [|auto with spares].
  apply spares_bind; [auto with spares|]. intros _. apply spares_bind; auto with spares.
Qed.
#[export] Hint Resolve spares_get spares_getForWrite : spares.
Lemma spares_flush ws keys : spares (flush_loop ws keys).
Proof.
  induction keys as [|k keys IH]; cbn [flush_loop]; [auto with spares|]. destruct (strip_prefix _ k); [|done].
  apply spares_bind; [auto with spares|]. intros _. by apply spares_bind; [auto with spares|].
Qed.
Lemma quiet_onShard {A} i (m : SH A) : spares m → quiet (onShard i m).
Proof. intros Hm s. unfold onShard. specialize (Hm (openShard i s)). by destruct (m (openShard i s)). Qed.
Lemma quiet_withShard {A} ck (g : Store → SH A) : (∀ s, spares (g s)) → quiet (withShard ck g).
Proof. intros Hg s. unfold withShard. by apply quiet_onShard. Qed.
Lemma quiet_gets {A} (f : Store → A) : quiet (gets f).
Proof. done. Qed.
Lemma quiet_setSnapshot now ws key : quiet (setSnapshot now ws key).
Proof.
  apply quiet_withShard. intros _. unfold onKind. apply spares_bind; [auto with spares|]. intros [e|]; [|auto with spares].
  destruct (decide _); auto with spares.
Qed.

Lemma quiet_snapshots f nows ws keys i acc : quiet (snapshots_loop f nows i ws keys acc).
Proof.
  revert i acc. induction keys as [|key keys IH]; intros i acc e; [done|]. cbn [snapshots_loop]. unfold bind.
  pose proof (quiet_setSnapshot (nows i) ws key e) as E. destruct (setSnapshot (nows i) ws key e) as [[snap|err] e1]; cbn in *; [by rewrite IH|done].
Qed.

(** ** The pieces of the methods on several keys *)

(** One key of DEL, and of EXISTS. *)
Definition del_key (now : time) (workspace key : string) : StoreM Z :=
  let ck := nsKey workspace key in
  withShard ck (λ _,
    let! oe := getForWriteLocked ck now in
    match oe with
    | Some _ => deleteEntryLocked ck ;; bumpVersionLocked ck ;; ret 1
    | None => ret 0
    end).
Definition exists_key (now : time) (workspace key : string) : StoreM (option Entry) :=
  let ck := nsKey workspace key in withShard ck (λ _, get ck now).
(** Shard after shard, as [keysForWorkspace] ranges over them. *)
Fixpoint look_loop {A} (f : shard → A) (is_ : list nat) : StoreM (list A) :=
  match is_ with
  | [] => ret []
  | i :: is_ => let! x := gets (λ s, f (shards s !!! i)) in let! l := look_loop f is_ in ret (x :: l)
  end.

Lemma Del_loop_pieces now ws key keys d :
  Del_loop now ws (key :: keys) d = bind (del_key now ws key) (λ x, Del_loop now ws keys (d + x)).
Proof. done. Qed.
Lemma Exists_loop_pieces now ws key keys d :
  Exists_loop now ws (key :: keys) d =
  bind (exists_key now ws key) (λ oe, Exists_loop now ws keys (match oe with Some _ => d + 1 | None => d end)).
Proof. done. Qed.
Lemma look_loop_all {A} (f : shard → A) is_ s : look_loop f is_ s = ((λ i, f (shards s !!! i)) <$> is_, s).
Proof.
  induction is_ as [|i is_ IH]; [done|]. cbn [look_loop]. unfold bind at 1. cbn [gets]. unfold bind. rewrite IH. done.
Qed.
Lemma look_loop_shards {A} (f : shard → A) s : look_loop f (seq 0 (length (shards s))) s = (f <$> shards s, s).
Proof.
  rewrite look_loop_all. f_equal. apply list_eq. intros i. rewrite !list_lookup_fmap.
  destruct (decide (i < length (shards s))%nat) as [Hi|Hi].
  - rewrite lookup_seq_lt by done. destruct (lookup_lt_is_Some_2 _ _ Hi) as [sh Hsh]. cbn.
    by rewrite Hsh, (list_lookup_total_correct _ _ _ Hsh).
  - rewrite lookup_seq_ge by lia. by rewrite lookup_ge_None_2 by lia.
Qed.
(** KEYS and SCAN look at one shard after the other. *)
Definition looking {A B} (f : shard → A) (k : list A → B) : StoreM B :=
  let! n := gets (λ s, length (shards s)) in let! l := look_loop f (seq 0 n) in ret (k l).
Lemma looking_all {A B} (f : shard → A) (k : list A → B) s : looking f k s = (k (f <$> shards s), s).
Proof. unfold looking, bind at 1. cbn [gets]. unfold bind. by rewrite look_loop_shards. Qed.
Lemma Keys_pieces now ws pattern s :
  Keys now ws pattern s = looking (shardKeys ws now) (λ ls,
    let all := concat ls in
    if String.eqb pattern "" || String.eqb pattern "*" then sort_Strings all
    else sort_Strings (filter (λ k, globMatch pattern k = true) all)) s.
Proof. by rewrite looking_all. Qed.

Lemma Scan_pieces now ws cursor match_ count s :
  Scan now ws cursor match_ count s = looking (shardKeys ws now) (λ ls,
    let count := if count <=? 0 then 10 else count in
    let all := sort_Strings (concat ls) in
    if len all <=? cursor then (0, [])
    else
      let end_ := wrapu64 (cursor + count) in
      let end_ := if len all <? end_ then len all else end_ in
      let out := filter (λ k, match_ = "" ∨ match_ = "*" ∨ globMatch match_ k = true) (slice cursor (end_ - 1) all) in
      (if len all <=? end_ then 0 else end_, out)) s.
Proof. by rewrite looking_all. Qed.

(** ** How far they move the versions *)

Lemma quiet_del_key now ws key : quiet (del_key now ws key).
Proof.
  apply quiet_withShard. intros _. apply spares_bind; [auto with spares|]. intros [e|]; [|auto with spares].
  apply spares_bind; [auto with spares|]. intros _. apply spares_bind; auto with spares.
Qed.
Lemma quiet_exists_key now ws key : quiet (exists_key now ws key).
Proof. apply quiet_withShard. auto with spares. Qed.
Lemma moving_then_ret {A B} n (m : StoreM A) (f : A → B) : moving n (bind m (λ x, ret (f x))) → moving n m.
Proof. intros Hm s I. specialize (Hm s I). unfold bind in Hm. by destruct (m s). Qed.
Lemma del_key_moving now ws key : moving 4 (del_key now ws key).
Proof. apply (moving_then_ret 4 _ (λ d, 0 + d)). exact (Del_moving now ws [key]). Qed.
Lemma exists_key_moving now ws key : moving 0 (exists_key now ws key).
Proof.
  apply (moving_then_ret 0 _ (λ oe, match oe with Some _ => 0 + 1 | None => 0 end)). exact (Exists_moving now ws [key]).
Qed.
Lemma gets_moving {A} (f : Store → A) : moving 0 (gets f).
Proof. intros s I. by apply evolves_refl. Qed.
Lemma flushShard_beyond ws i s : ¬ (i < length (shards s))%nat → (onShard i (flushShard ws) s).2 = s.
Proof.
  intros Hi. unfold onShard, openShard, flushShard, bind. cbn [gets]. rewrite list_lookup_total_alt, lookup_ge_None_2 by lia.
  change (mkStore (<[i := newShard]> (shards s)) (entryCount s) (maxEntries s) (policy s) (evictions s) = s).
  rewrite list_insert_ge by lia. by destruct s.
Qed.
Lemma flushShard_moving ws i : moving 1 (onShard i (flushShard ws)).
Proof.
  intros s I. destruct (decide (i < length (shards s))%nat) as [Hi|Hi].
  - eapply drops_evolves. by apply flushShard_ok.
  - rewrite flushShard_beyond by done. by apply evolves_refl.
Qed.

(** ** Whose keys they touch *)

Lemma confines_then_ret {A B} ws (m : StoreM A) (f : A → B) : confines ws (bind m (λ x, ret (f x))) → confines ws m.
Proof. intros Hm W s HW I. specialize (Hm W s HW I). unfold bind in Hm. by destruct (m s). Qed.
Lemma del_key_confines now ws key : confines ws (del_key now ws key).
Proof. apply (confines_then_ret ws _ (λ d, 0 + d)). exact (Del_confines now ws [key]). Qed.
Lemma exists_key_confines now ws key : confines ws (exists_key now ws key).
Proof.
  apply (confines_then_ret ws _ (λ oe, match oe with Some _ => 0 + 1 | None => 0 end)). exact (Exists_confines now ws [key]).
Qed.
Lemma gets_confines {A} ws (f : Store → A) : confines ws (gets f).
Proof. intros W s HW I. by apply confined_refl. Qed.
Lemma flushShard_confines ws i : confines ws (onShard i (flushShard ws)).
Proof.
  intros W s HW I. destruct (decide (i < length (shards s))%nat) as [Hi|Hi].
  - destruct (flushShard_ok ws s i I Hi) as [D _]. split; [apply D|apply D|]. intros k Hk.
    destruct (dr_key _ _ _ D k) as [[-> _]|(e & _ & Hin & _)]; [by left|]. by destruct (Hk ws HW).
  - rewrite flushShard_beyond by done. by apply confined_refl.
Qed.
#[export] Hint Resolve del_key_moving exists_key_moving gets_moving flushShard_moving setSnapshot_moving : moving.
