(* ===== verification/Programs.v ===== *)
(** * Commands as programs of component calls

    A handler of the command table is a function of the world; Scripts.v gives
    each one, and each MCP tool, the program it is: the component calls it
    makes, one after the other, with what it does on each answer.  Between two
    calls nothing is locked, apart from the transaction mutex inside EXEC, so
    this is where the calls of different connections interleave
    (Interleave.v).  This file says what a program is, what counts as one call
    and which programs are [careful]: under any interleaving none of their
    calls panics.  [scripted m] pairs [m] with its program, which run [alone] is
    [m]; the engine's methods on several keys are taken apart here. *)

From S2P Require Import Prelude.
From S2P Require Import GoStd.
From S2P Require Import Auth.
From S2P Require Import Similarity.
From S2P Require Import Caches.
From S2P Require Import Semantic.
From S2P Require Import Vector.
From S2P Require Import Memory.
From S2P Require Import Graph.
From S2P Require Import Consolidate.
From S2P Require Import Metrics.
From S2P Require Import Analytics.
From S2P Require Import Providers.
From S2P Require Import Shard.
From S2P Require Import Store.
From S2P Require Import StoreSet.
From S2P Require Import StoreSpec.
From S2P Require Import Engine.
From S2P Require Import RespCodec.
From S2P Require Import PubSub.
From S2P Require Import Server.
From S2P Require Import HandlersKV.
From S2P Require Import HandlersData.
From S2P Require Import Calls.
From S2P Require Import HandlersCache.
From S2P Require Import HandlersVector.
From S2P Require Import HandlersMemory.
From S2P Require Import HandlersPubSub.
From S2P Require Import Mcp.
From S2P Require Import McpSpec.
From S2P Require Import Session.
From S2P Require Import SessionSpec.
From S2P Require Import Confine.
From S2P Require Import Effects.
From S2P Require Import Regions.

Open Scope Z_scope.
Open Scope go_scope.

(** ** Programs *)

(** [Done] is the answer, or a panic.  [Invoke m k] makes the call [m] and goes
    on with [k] of its answer.  [Lock] and [Unlock] are the transaction mutex's. *)
Inductive prog (A : Type) : Type :=
  | Done (o : option A)
  | Invoke {B : Type} (m : H B) (k : B → prog A)
  | Lock (k : prog A)
  | Unlock (k : prog A).
Arguments Done {A} o.
Arguments Invoke {A B} m k.
Arguments Lock {A} k.
Arguments Unlock {A} k.

Fixpoint pbind {A B} (p : prog A) (k : A → prog B) : prog B :=
  match p with
  | Done None => Done None
  | Done (Some x) => k x
  | Invoke m k' => Invoke m (λ x, pbind (k' x) k)
  | Lock p => Lock (pbind p k)
  | Unlock p => Unlock (pbind p k)
  end.

(** The program with nothing running beside it. *)
Fixpoint alone {A} (p : prog A) : H A :=
  match p with
  | Done o => ret o
  | Invoke m k => hbind m (λ x, alone (k x))
  | Lock p | Unlock p => alone p
  end.

Lemma alone_bind {A B} (p : prog A) (k : A → prog B) w : alone (pbind p k) w = hbind (alone p) (λ x, alone (k x)) w.
Proof.
  revert w. induction p as [[x|]|C m k' IH|p IH|p IH]; intros w; cbn [pbind alone]; try done; try apply IH.
  unfold hbind, bind. destruct (m w) as [[x|] w1]; [|done]. apply IH.
Qed.

(** *** Component calls *)

(** What counts as one call: what the engine does under one lock ([region]),
    which is confined to the connection's workspace; a method of another
    component, which leaves engine and authenticator alone; or something only
    the connection itself sees.  A method that embeds a text first does so
    inside the call; the two halves of a subscription are the connection's
    record and the broker's.  A method of the engine on several keys reads the
    clock first ([engine_start]).  [K] is what the client knows: the passwords it
    tries and the commands it queues. *)
Section component.
Context `{Runtime} `{FloatText} `{KeyCodec} `{Services} `{Encoding}.
Context (K : string → Prop).

Definition engine_start (n : nat) : H nat := λ w, (Some (ticks w), mkWorld (deps w) (cs w) (me w) (n + ticks w)).

Inductive component : ∀ {A}, H A → Prop :=
  | co_state : component get_cs
  | co_auth : component get_Auth
  | co_authorized ws : component (authorized ws)
  | co_update f : (∀ c, Workspace (f c) = Workspace c ∧ (Queued (f c) = Queued c ∨ Queued (f c) = [])) → component (put_cs f)
  | co_queue args : Forall K args →
      component (put_cs (λ c, set_Multi (InMulti c) (MultiError c) (Queued c ++ [args]) c))
  | co_login pw : K pw → component (authenticate pw)
  | co_own sel : component (own_subscriptions sel)
  | co_info args : component (handleInfo args)
  | co_error : component error_reply
  | co_failure : component mcp.failure
  | co_engine {A} n (f : nat → string → StoreM A) : (∀ t ws, region (f t ws) ∧ confines ws (f t ws)) → component (engineN n f)
  | co_start n : component (engine_start n)
  | co_on {C A} sel upd (f : nat → C → A * C) : (∀ c d, Engine (upd c d) = Engine d ∧ Auth (upd c d) = Auth d) →
      component (on sel upd f)
  | co_on_check {C A} sel upd (f : nat → C → outcome A * C) :
      (∀ c d, Engine (upd c d) = Engine d ∧ Auth (upd c d) = Auth d) → component (do! o := on sel upd f in check_panic o)
  | co_metric f : component (metric f)
  | co_analytic f : component (analytic f)
  | co_completion sys user : component (completion sys user)
  | co_semantic_set p m t r ttl c : component (SemanticCache_Set p m t r ttl c)
  | co_semantic_get p m t th : component (SemanticCache_Get p m t th)
  | co_put m ttl : component (MemoryStore_Put m ttl)
  | co_search ws q o : component (MemoryStore_Search ws q o)
  | co_ensure : component (broker_do pubsub.ensureSubscriberState)
  | co_subscribe ch : component (
      do! _ := put_cs (λ c, set_Subscriptions ({[ch]} ∪ Subscriptions c) (PSubscriptions c) c) in
      broker_do (λ cs, pubsub.Subscribe cs ch))
  | co_psubscribe pat : component (
      do! _ := put_cs (λ c, set_Subscriptions (Subscriptions c) ({[pat]} ∪ PSubscriptions c) c) in
      broker_do (λ cs, pubsub.SubscribePattern cs pat))
  | co_unsubscribe ch : component (
      do! _ := put_cs (λ c, set_Subscriptions (Subscriptions c ∖ {[ch]}) (PSubscriptions c) c) in
      do! live := has_subCh in
      if live : bool then broker_do (λ cs, pubsub.Unsubscribe cs ch) else hret tt)
  | co_punsubscribe pat : component (
      do! _ := put_cs (λ c, set_Subscriptions (Subscriptions c) (PSubscriptions c ∖ {[pat]}) c) in
      do! live := has_subCh in
      if live : bool then broker_do (λ cs, pubsub.UnsubscribePattern cs pat) else hret tt)
  | co_publish ch payload : component (
      do! o := broker (λ n _, pubsub.Publish (sub_orders n) ch payload) in
      do! n := check_panic o in
      match n with None => hpanic | Some n => hret n end).

(** Between two calls of a connection: the commands it queued can be executed,
    and it knows them. *)
Definition known_ok (w : World) : Prop := queue_ok w ∧ Forall (Forall K) (Queued (cs w)).
Lemma known_on_tx : on_tx known_ok.
Proof using Type.
  destruct queue_ok_on_tx as [O1 O2 O3]. split.
  - intros w w' E1 E2 E3 E4 [Hw HK]. split; [by eapply O1|by rewrite <- E2].
  - intros w [Hw _]. by apply O2.
  - intros w p' [Hw HK] Hs Hi. split; [by apply O3|done].
Qed.
End component.
Ltac component_tac :=
  first [solve [constructor]
        |apply co_update; intros; split; [reflexivity|first [left; reflexivity|right; reflexivity]]
        |apply co_engine; intros; split; [solve [auto with region]|solve [auto with confines]]
        |apply co_on; intros; split; reflexivity
        |apply co_on_check; intros; split; reflexivity].

(** ** Programs that never panic *)

Section careful.
Context `{Runtime} {HR : RuntimeLaws} `{FloatText} `{KeyCodec} `{Services} {HS : ServicesLaws} `{Encoding}.
(** What the client knows, and what a call may change besides. *)
Context (K : string → Prop) (R : World → World → Prop).

(** [subscribed]: the connection has its channel; [held]: it holds the mutex.
    Wherever a call is made, in a world other connections left, it answers,
    has the effect of acts, and the rest of the program is careful again; in
    the end the mutex is as [held'] says. *)
Fixpoint careful {A} (subscribed held held' : bool) (p : prog A) : Prop :=
  match p with
  | Done o => is_Some o ∧ held = held'
  | Invoke m k =>
      component K m ∧
      ∀ w, known_ok K w → (subscribed = true → live (me w) (PubSub_ (deps w))) →
      ∃ x w' n subscribed', m w = (Some x, w') ∧ acts w n w' ∧ known_ok K w' ∧ R w w' ∧
        (subscribed = true → subscribed' = true) ∧ (subscribed' = true → live (me w') (PubSub_ (deps w'))) ∧
        careful subscribed' held held' (k x)
  | Lock p => held = false ∧ careful subscribed true held' p
  | Unlock p => held = true ∧ careful subscribed false held' p
  end.

Lemma known_session w : known_ok K w → session_ok w.
Proof using Type. intros [[_ ?] _]. done. Qed.
Lemma acts_live w n w' : session_ok w → acts w n w' → live (me w) (PubSub_ (deps w)) → live (me w') (PubSub_ (deps w')).
Proof using Type.
  intros Hw Ha Hl. induction Ha as [|n w1 k w2 Ha1 IH Ha2]; [done|]. rewrite (act_me _ _ _ Ha2).
  eapply act_live; [exact Ha2|by apply live_issuing|done].
Qed.
Lemma careful_subscribed {A} (p : prog A) : ∀ s1 s2 h h', (s1 = true → s2 = true) →
  careful s1 h h' p → careful s2 h h' p.
Proof using Type.
  induction p as [o|B m k IH|p IH|p IH]; intros s1 s2 h h' Hs; cbn [careful]; try done.
  - intros [Hc Hp]. split; [done|]. intros w Hw Hl. destruct (Hp w Hw) as (x & w' & n & s' & E & Ha & Hw' & HR' & S1 & S2 & S3).
    { intros E. apply Hl, Hs, E. }
    exists x, w', n, (s2 || s'). split_and!; try done; [intros ->; done| |].
    + destruct s2; [|done]. intros _. eapply acts_live; [exact (known_session w Hw)|exact Ha|by apply Hl].
    + eapply IH; [|exact S3]. by intros ->; rewrite orb_true_r.
  - intros [Hh Hp]. split; [done|]. by eapply IH.
  - intros [Hh Hp]. split; [done|]. by eapply IH.
Qed.
Lemma careful_bind {A B} (p : prog A) (k : A → prog B) : ∀ s h1 h2 h3,
  careful s h1 h2 p → (∀ x, careful s h2 h3 (k x)) → careful s h1 h3 (pbind p k).
Proof using Type.
  induction p as [o|C m k' IH|p IH|p IH]; intros s h1 h2 h3; cbn [careful pbind].
  - intros [[x ->] ->] Hk. apply Hk.
  - intros [Hc Hp] Hk. split; [done|]. intros w Hw Hl.
    destruct (Hp w Hw Hl) as (x & w' & n & s' & E & Ha & Hw' & HR' & S1 & S2 & S3). exists x, w', n, s'. split_and!; try done.
    eapply IH; [exact S3|]. intros y. eapply careful_subscribed; [exact S1|apply Hk].
  - intros [Hh Hp] Hk. split; [done|]. by eapply IH.
  - intros [Hh Hp] Hk. split; [done|]. by eapply IH.
Qed.

(** A single call, by what Effects.v and SessionSpec.v have of it. *)
Lemma careful_call {A} s h n (m : H A) : component K m → traced n m → safe (known_ok K) m → (∀ w, R w (m w).2) →
  careful s h h (Invoke m (λ x, Done (Some x))).
Proof using Type.
  intros Hc Ht Hs HRm. split; [done|]. intros w Hw Hl. destruct (Hs w Hw) as (x & w' & E & Hw').
  pose proof (known_session w Hw) as Hw1.
  destruct (Ht w Hw1) as (j & _ & Ha). specialize (HRm w). rewrite E in Ha, HRm. exists x, w', j, s.
  split_and!; try done. intros E1. eapply acts_live; eauto.
Qed.
End careful.

(** ** Programs of computations *)

Section scripted.
Context `{Runtime} {HR : RuntimeLaws} `{FloatText} `{KeyCodec} `{Services} {HS : ServicesLaws} `{Encoding}.
Context (R : World → World → Prop).

(** [m] and its program.  [φ] is what the surroundings have checked, [l] the
    strings it got from the client. *)
Record scripted {A} (l : list string) (subscribed held : bool) (φ : Prop) (m : H A) := mkScripted {
  prog_of : prog A;
  prog_of_alone w : alone prog_of w = m w;
  prog_of_careful K : Forall K l → φ → careful K R subscribed held held prog_of;
}.

Definition scripted_ret {A} l s h φ (x : A) : scripted l s h φ (hret x).
Proof. by exists (Done (Some x)); [|intros K _ _; cbn]. Defined.
Definition scripted_ext {A} l s h φ (m m' : H A) : scripted l s h φ m → (∀ w, m w = m' w) → scripted l s h φ m'.
Proof. intros [p Hp Hc] Hm. exists p; [intros w; by rewrite Hp|exact Hc]. Defined.
Definition scripted_if {A} l l' s h (φ ψ : Prop) (m : H A) : scripted l s h φ m → (ψ → φ ∧ ∀ x, x ∈ l → x ∈ l') →
  scripted l' s h ψ m.
Proof.
  intros [p Hp Hc] Hφ. exists p; [exact Hp|]. intros K HK Hψ. destruct (Hφ Hψ) as [? Hl]. apply Hc; [|done].
  rewrite Forall_forall in *. auto.
Defined.

Lemma bind_prog_of {A B} (m : H A) (k : A → H B) p q : (∀ w, alone p w = m w) → (∀ x w, alone (q x) w = k x w) →
  ∀ w, alone (pbind p q) w = hbind m k w.
Proof using Type. intros Hp Hq w. rewrite alone_bind. unfold hbind, bind. rewrite Hp. destruct (m w) as [[x|] w']; [apply Hq|done]. Qed.
Definition scripted_bind {A B} l s h φ (m : H A) (k : A → H B) :
  scripted l s h φ m → (∀ x, scripted l s h φ (k x)) → scripted l s h φ (hbind m k).
Proof.
  intros Sm Sk. exists (pbind (prog_of _ _ _ _ _ Sm) (λ x, prog_of _ _ _ _ _ (Sk x))).
  - apply bind_prog_of; [apply Sm|intros x; apply Sk].
  - intros K HK Hφ. eapply careful_bind; [by apply Sm|intros x; by apply Sk].
Defined.

(** A test, whose outcome the branches know. *)
Definition scripted_test {A} l s h φ (b : bool) (m1 m2 : H A) :
  scripted l s h (φ ∧ b = true) m1 → scripted l s h (φ ∧ b = false) m2 → scripted l s h φ (if b then m1 else m2).
Proof.
  intros S1 S2. exists (if b then prog_of _ _ _ _ _ S1 else prog_of _ _ _ _ _ S2).
  - intros w. destruct b; apply prog_of_alone.
  - intros K HK Hφ. destruct b; by apply prog_of_careful.
Defined.
Definition scripted_option {A B} l s h φ (o : option B) (m1 : B → H A) (m2 : H A) :
  (∀ x, scripted l s h (φ ∧ o = Some x) (m1 x)) → scripted l s h (φ ∧ o = None) m2 →
  scripted l s h φ (match o with Some x => m1 x | None => m2 end).
Proof.
  intros S1 S2. exists (match o with Some x => prog_of _ _ _ _ _ (S1 x) | None => prog_of _ _ _ _ _ S2 end).
  - intros w. destruct o; apply prog_of_alone.
  - intros K HK Hφ. destruct o; by apply prog_of_careful.
Defined.
Definition scripted_panic {A} l s h (φ : Prop) : (φ → False) → scripted l s h φ (@hpanic A).
Proof. intros Hφ. exists (Done None); [done|]. intros K _ []%Hφ. Defined.

Definition scripted_zadd {A} l s h (φ : Prop) z (m1 : gmap string float64 → H A) (m2 : H A) :
  (∀ m, scripted l s h φ (m1 m)) → scripted l s h φ m2 → (φ → z ≠ ZPanic) →
  scripted l s h φ (match z with ZMembers m => m1 m | ZBadScore => m2 | ZPanic => hpanic end).
Proof.
  intros S1 S2 Hz. exists (match z with
    | ZMembers m => prog_of _ _ _ _ _ (S1 m) | ZBadScore => prog_of _ _ _ _ _ S2 | ZPanic => Done None end).
  - intros w. by destruct z; [apply prog_of_alone..|].
  - intros K HK Hφ. destruct z; [by apply prog_of_careful..|by destruct (Hz Hφ)].
Defined.

Definition scripted_call {A} l s h φ n (m : H A) : (∀ K, Forall K l → φ → component K m) → traced n m →
  (∀ K, safe (known_ok K) m) → (∀ w, R w (m w).2) → scripted l s h φ m.
Proof.
  intros Hc Ht Hs HRm. exists (Invoke m (λ x, Done (Some x))).
  - intros w. cbn. unfold hbind, bind. by destruct (m w) as [[x|] w'].
  - intros K HK Hφ. apply (careful_call K R s h n); auto.
Defined.

(** ** The arguments, which are there *)

Definition scripted_arg l s h (φ : Prop) args i : (φ → (i < length args)%nat) → scripted l s h φ (arg args i).
Proof.
  intros Hi. exists (Done (args !! i)); [intros w; unfold arg; by destruct (args !! i)|].
  intros K _ Hφ. cbn. split; [by apply lookup_lt_is_Some, Hi|done].
Defined.
Definition scripted_bind_arg {B} l s h (φ : Prop) args i (k : string → H B) : (φ → (i < length args)%nat) →
  (∀ x, scripted l s h (φ ∧ args !! i = Some x) (k x)) → scripted l s h φ (hbind (arg args i) k).
Proof.
  intros Hi Sk. exists (match args !! i with Some x => prog_of _ _ _ _ _ (Sk x) | None => Done None end).
  - intros w. unfold hbind, bind, arg. destruct (args !! i); [apply prog_of_alone|done].
  - intros K HK Hφ. destruct (args !! i) eqn:E; [by apply prog_of_careful|].
    apply lookup_ge_None_1 in E. specialize (Hi Hφ). lia.
Defined.
Lemma drop_arity (args : list string) i : (i ≤ length args)%nat → (length (drop i args) + i = length args)%nat.
Proof using Type. rewrite length_drop. lia. Qed.
Definition scripted_args_from {B} l s h (φ : Prop) args i (k : list string → H B) : (φ → (i ≤ length args)%nat) →
  (∀ rest, (length rest + i = length args)%nat → scripted l s h (φ ∧ rest = drop i args) (k rest)) →
  scripted l s h φ (hbind (args_from args i) k).
Proof.
  intros Hi Sk. exists (match decide (i ≤ length args)%nat with
                        | left Hl => prog_of _ _ _ _ _ (Sk (drop i args) (drop_arity args i Hl))
                        | right _ => Done None
                        end).
  - intros w. unfold args_from. destruct (decide _); [apply prog_of_alone|done].
  - intros K HK Hφ. destruct (decide _) as [|Hn]; [by apply prog_of_careful|by destruct Hn; apply Hi].
Defined.
End scripted.
Arguments prog_of {_ _ _ _ _ _ _ _ _ _ _ _} _.

(** A connection may change anything its calls change; a tool has no
    subscriptions and leaves the broker alone. *)
Definition any_step (w w' : World) : Prop := True.
Definition tool_step (w w' : World) : Prop := cs w' = cs w ∧ PubSub_ (deps w') = PubSub_ (deps w).
Definition frames (R : World → World → Prop) : Prop := ∀ w w', mcp_frame w w' → R w w'.
Lemma any_frames : frames any_step.
Proof. done. Qed.
Lemma tool_frames : frames tool_step.
Proof. intros w w' []. by split. Qed.

Section calls.
Context `{Runtime} {HR : RuntimeLaws} `{FloatText} `{KeyCodec} `{Services} {HS : ServicesLaws} `{Encoding}.

Definition scripted_framed {A} R l s h φ n (m : H A) : frames R → (∀ K, component K m) → traced n m → framed m →
  scripted R l s h φ m.
Proof.
  intros HF Hc Ht Hm. apply (scripted_call R l s h φ n); [done|done| |].
  - intros K w [[HQ HW] HK]. destruct (Hm w) as (x & w' & E & F). exists x, w'. split; [done|].
    unfold known_ok, queue_ok, session_ok in *. by rewrite (mf_cs _ _ F), (mf_broker _ _ F), (mf_me _ _ F).
  - intros w. destruct (Hm w) as (x & w' & E & F). rewrite E. by apply HF.
Defined.
Definition scripted_any {A} l s h φ n (m : H A) : (∀ K, component K m) → traced n m → (∀ K, safe (known_ok K) m) →
  scripted any_step l s h φ m.
Proof. intros Hc Ht Hs. apply (scripted_call any_step l s h φ n); auto. done. Defined.
End calls.

(** ** Engine calls region by region *)

Section regions.
Context `{Runtime} {HR : RuntimeLaws} `{FloatText} `{KeyCodec} `{Services} {HS : ServicesLaws} `{Encoding}.

(** What is left of an engine call once the clock was read. *)
Definition engine_rest {A} (f : string → StoreM A) : H A := engineN 0 (λ _, f).

Lemma engine_rest_ret {A} (x : A) w : engine_rest (λ _, ret x) w = (Some x, w).
Proof using Type. unfold engine_rest, engineN. cbn. rewrite Z.sub_diag. by destruct w as [[] ? ? ?]. Qed.
Lemma engine_rest_bind {A B} (f : string → StoreM A) (k : string → A → StoreM B) w : (∀ ws, quiet (f ws)) →
  engine_rest (λ ws, bind (f ws) (k ws)) w = hbind (engine_rest f) (λ x, engine_rest (λ ws, k ws x)) w.
Proof using Type.
  intros Hf. unfold engine_rest, engineN, hbind. unfold bind. specialize (Hf (Workspace (cs w)) (Engine (deps w))).
  destruct (f (Workspace (cs w)) (Engine (deps w))) as [x e]. cbn in *. rewrite Hf, Z.sub_diag. cbn.
  by destruct (k (Workspace (cs w)) x e) as [y e2].
Qed.
Lemma engine_rest_start {A} n (f : nat → string → StoreM A) w :
  engineN n f w = hbind (engine_start n) (λ t, engine_rest (f t)) w.
Proof using Type.
  unfold engine_rest, engineN, hbind, bind, engine_start. cbn. by destruct (f _ _ _).
Qed.

Definition scripted_region {A} l s h φ n (f : string → StoreM A) :
  (∀ ws, region (f ws)) → (∀ ws, moving n (f ws)) → (∀ ws, confines ws (f ws)) → scripted any_step l s h φ (engine_rest f).
Proof.
  intros Hr Hm Hc. apply (scripted_any l s h φ n); [intros K; apply co_engine; by split|by apply traced_engineN|].
  intros K. pose proof (known_on_tx K). unfold engine_rest. solve [auto with safe].
Defined.
Definition scripted_rest_ret {A} l s h φ (x : A) : scripted any_step l s h φ (engine_rest (λ _, ret x)).
Proof. apply (scripted_ext _ _ _ _ _ (hret x)); [apply scripted_ret|]. intros w. by rewrite engine_rest_ret. Defined.
Definition scripted_rest_bind {A B} l s h φ (f : string → StoreM A) (k : string → A → StoreM B) : (∀ ws, quiet (f ws)) →
  scripted any_step l s h φ (engine_rest f) → (∀ x, scripted any_step l s h φ (engine_rest (λ ws, k ws x))) →
  scripted any_step l s h φ (engine_rest (λ ws, bind (f ws) (k ws))).
Proof.
  intros Hq Sm Sk. apply (scripted_ext _ _ _ _ _ (hbind (engine_rest f) (λ x, engine_rest (λ ws, k ws x)))); [by apply scripted_bind|].
  intros w. by rewrite engine_rest_bind.
Defined.
Definition scripted_rest_ext {A} l s h φ (f f' : string → StoreM A) : scripted any_step l s h φ (engine_rest f) →
  (∀ ws e, f' ws e = f ws e) → scripted any_step l s h φ (engine_rest f').
Proof. intros Sm Hm. apply (scripted_ext _ _ _ _ _ _ _ Sm). intros w. unfold engine_rest, engineN. by rewrite Hm. Defined.
Definition scripted_start {A} l s h φ n (f : nat → string → StoreM A) :
  (∀ t, scripted any_step l s h φ (engine_rest (f t))) → scripted any_step l s h φ (engineN n f).
Proof.
  intros Sf. apply (scripted_ext _ _ _ _ _ (hbind (engine_start n) (λ t, engine_rest (f t)))).
  - apply scripted_bind; [|intros t; apply Sf]. apply (scripted_any l s h φ 0); [constructor| |].
    + apply traced_act. intros w _. by apply (act_local w id n).
    + intros K w Hw. by eexists _, _.
  - intros w. by rewrite engine_rest_start.
Defined.

Definition scripted_Del l s h φ now keys : scripted any_step l s h φ (engine_rest (λ ws, Del now ws keys)).
Proof.
  unfold Del. generalize 0. induction keys as [|key keys IH]; intros d; [apply scripted_rest_ret|].
  apply (scripted_rest_bind _ _ _ _ (λ ws, del_key now ws key)); [intros; apply quiet_del_key| |intros x; apply IH].
  apply (scripted_region _ _ _ _ 4); intros; [apply re_key|apply del_key_moving|apply del_key_confines].
Defined.
Definition scripted_Exists l s h φ now keys : scripted any_step l s h φ (engine_rest (λ ws, Exists now ws keys)).
Proof.
  unfold Exists. generalize 0. induction keys as [|key keys IH]; intros d; [apply scripted_rest_ret|].
  apply (scripted_rest_bind _ _ _ _ (λ ws, exists_key now ws key)); [intros; apply quiet_exists_key| |intros x; apply IH].
  apply (scripted_region _ _ _ _ 0); intros; [apply re_key|apply exists_key_moving|apply exists_key_confines].
Defined.
Definition scripted_gets {A} l s h φ (f : Store → A) : region (gets f) → scripted any_step l s h φ (engine_rest (λ _, gets f)).
Proof. intros Hr. apply (scripted_region _ _ _ _ 0); intros; [done|apply gets_moving|apply gets_confines]. Defined.
Definition scripted_FlushDB l s h φ : scripted any_step l s h φ (engine_rest FlushDB).
Proof.
  apply (scripted_rest_ext _ _ _ _ (λ ws, bind (gets (λ e, length (shards e))) (λ n, FlushDB_loop ws (seq 0 n)))); [|done].
  apply scripted_rest_bind; [done|apply scripted_gets, re_size|intros n].
  generalize (seq 0 n). intros is_. induction is_ as [|i is_ IH]; [apply scripted_rest_ret|].
  apply (scripted_rest_bind _ _ _ _ (λ ws, onShard i (flushShard ws))); [| |intros _; exact IH].
  - intros ws. apply quiet_onShard, spares_bind; [auto with spares|]. intros keys. apply spares_flush.
  - apply (scripted_region _ _ _ _ 1); intros; [apply re_shard|apply flushShard_moving|apply flushShard_confines].
Defined.
Definition scripted_looking {A B} l s h φ (f : string → shard → A) (k : list A → B) :
  scripted any_step l s h φ (engine_rest (λ ws, looking (f ws) k)).
Proof.
  apply scripted_rest_bind; [done|apply scripted_gets, re_size|intros n].
  apply scripted_rest_bind; [intros ws e; by rewrite look_loop_all| |].
  - induction (seq 0 n) as [|i is_ IH]; [apply scripted_rest_ret|]. cbn [look_loop].
    apply (scripted_rest_bind _ _ _ _ (λ ws, gets (λ e, f ws (shards e !!! i)))); [done| |intros x].
    + apply (scripted_region _ _ _ _ 0); intros; [apply re_look|apply gets_moving|apply gets_confines].
    + apply scripted_rest_bind; [intros ws e; by rewrite look_loop_all|exact IH|intros y; apply scripted_rest_ret].
  - intros y. apply scripted_rest_ret.
Defined.
Definition scripted_Keys l s h φ now pattern : scripted any_step l s h φ (engine_rest (λ ws, Keys now ws pattern)).
Proof.
  refine (scripted_rest_ext _ _ _ _ _ _ (scripted_looking l s h φ (λ ws, shardKeys ws now) _) (λ ws, Keys_pieces now ws pattern)).
Defined.
Definition scripted_Scan l s h φ now cursor m n : scripted any_step l s h φ (engine_rest (λ ws, Scan now ws cursor m n)).
Proof.
  refine (scripted_rest_ext _ _ _ _ _ _ (scripted_looking l s h φ (λ ws, shardKeys ws now) _) (λ ws, Scan_pieces now ws cursor m n)).
Defined.
Definition scripted_snapshot l s h φ now key : scripted any_step l s h φ (engine_rest (λ ws, setSnapshot now ws key)).
Proof.
  apply (scripted_region _ _ _ _ 4); intros; [apply re_key|apply setSnapshot_moving|apply setSnapshot_confines].
Defined.
Definition scripted_snapshots l s h φ f nows keys : ∀ i acc,
  scripted any_step l s h φ (engine_rest (λ ws, snapshots_loop f nows i ws keys acc)).
Proof.
  induction keys as [|key keys IH]; intros i acc; [apply scripted_rest_ret|]. cbn [snapshots_loop].
  apply scripted_rest_bind; [intros; apply quiet_setSnapshot|apply scripted_snapshot|].
  intros [snap|err]; [apply IH|apply scripted_rest_ret].
Defined.
Definition scripted_first_then l s h φ f nows order keys :
  scripted any_step l s h φ (engine_rest (λ ws, first_then f nows order ws keys)).
Proof.
  destruct keys as [|key keys]; [apply scripted_rest_ret|]. cbn [first_then].
  apply scripted_rest_bind; [intros; apply quiet_setSnapshot|apply scripted_snapshot|].
  intros [first|err]; [|apply scripted_rest_ret].
  apply scripted_rest_bind; [intros; apply quiet_snapshots|apply scripted_snapshots|intros r; apply scripted_rest_ret].
Defined.
Definition scripted_SUnion l s h φ nows order keys : scripted any_step l s h φ (engine_rest (λ ws, SUnion nows order ws keys)).
Proof.
  unfold SUnion.
  apply scripted_rest_bind; [intros; apply quiet_snapshots|apply scripted_snapshots|intros r; apply scripted_rest_ret].
Defined.
End regions.

#[export] Hint Resolve safe_error_reply safe_authorized safe_own_subscriptions : safe.
Create HintDb scripted.
#[export] Hint Resolve any_frames tool_frames : scripted.
#[export] Hint Resolve scripted_Del scripted_Exists scripted_FlushDB scripted_Keys scripted_Scan scripted_SUnion : scripted.
#[export] Hint Extern 1 (scripted _ _ _ _ _ (engine_rest (λ ws, SInter _ _ ws _))) => apply scripted_first_then : scripted.
#[export] Hint Extern 1 (scripted _ _ _ _ _ (engine_rest (λ ws, SDiff _ _ ws _))) => apply scripted_first_then : scripted.
(** A method on several keys. *)
#[export] Hint Extern 4 (scripted any_step _ _ _ _ (engineN _ _)) => (apply scripted_start; intros; solve [auto with scripted]) : scripted.
#[export] Hint Extern 4 (scripted any_step _ _ _ _ (engine _)) => (apply scripted_start; intros; solve [auto with scripted]) : scripted.
#[export] Hint Extern 0 (scripted _ _ _ _ _ (hret _)) => apply scripted_ret : scripted.
#[export] Hint Extern 0 (scripted _ _ _ _ _ (arg _ _)) =>
  (apply scripted_arg; intros ?; unfold len in *; destruct_and?; lia) : scripted.
#[export] Hint Extern 2 (scripted any_step _ _ _ _ _) =>
  (eapply scripted_any; [intros K; solve [component_tac]|unfold engine; solve [eauto with traced]
    |intros K; pose proof (known_on_tx K); unfold engine; solve [auto with safe]]) : scripted.
#[export] Hint Extern 3 (scripted _ _ _ _ _ _) =>
  (eapply scripted_framed; [solve [auto with scripted]|intros K; solve [component_tac]|solve [eauto with traced]
    |solve [auto with framed]]) : scripted.

(** Walks through a handler. *)
Ltac scripted_step :=
  match goal with
  | |- scripted _ _ _ _ _ (hbind (args_from _ _) _) =>
      apply scripted_args_from; [intros ?; unfold len in *; destruct_and?; lia|intros ? ?]
  | |- scripted _ _ _ _ _ (hbind (arg _ _) _) =>
      apply scripted_bind_arg; [intros ?; unfold len in *; destruct_and?; lia|intros ?]
  | |- scripted _ _ _ _ _ (hbind _ _) => apply scripted_bind; [solve [auto with scripted]|intros ?]
  | |- scripted _ _ _ _ _ (hbind _ _) => apply scripted_bind; [|intros ?]
  | |- scripted _ _ _ _ _ (if ?b then _ else _) => apply scripted_test
  | |- scripted _ _ _ _ _ (match ?o with Some x => @?m1 x | None => ?m2 end) =>
      apply (scripted_option _ _ _ _ _ o m1 m2); [intros ?|]; cbv beta
  | |- scripted _ _ _ _ _ (match ?z with ZMembers m => @?m1 m | ZBadScore => ?m2 | ZPanic => _ end) =>
      apply (scripted_zadd _ _ _ _ _ z m1 m2); [intros ?| |]; cbv beta
  | |- scripted _ _ _ _ _ (let '(_, _) := ?x in _) => destruct x
  | |- scripted _ _ _ _ _ (match ?x with _ => _ end) => destruct x eqn:?
  | |- scripted _ _ _ _ _ (let _ := _ in _) => cbv zeta
  | |- scripted _ _ _ _ _ _ => solve [auto with scripted]
  end.
Ltac scripted_tac := repeat scripted_step.
