(* ===== verification/Scripts.v ===== *)
(** * The programs of the handlers

    Each handler of the command table, each loop it uses, dispatch, EXEC, and
    each MCP tool with its program (Programs.v says what a program is and how
    they are put together); [program] and [tool_program] are what a connection
    and a request run in Interleave.v. *)

From S2P Require Import Prelude.
From S2P Require Import GoStd.
From S2P Require Import Auth.
From S2P Require Import Similarity.
From S2P Require Import Caches.
From S2P Require Import Semantic.
From S2P Require Import Vector.
From S2P Require Import Memory.
From S2P Require Import Graph.
From S2P Require Import Consolidate.
From S2P Require Import Metrics.
From S2P Require Import Analytics.
From S2P Require Import Providers.
From S2P Require Import Shard.
From S2P Require Import Store.
From S2P Require Import StoreSet.
From S2P Require Import StoreSpec.
From S2P Require Import Engine.
From S2P Require Import RespCodec.
From S2P Require Import PubSub.
From S2P Require Import Server.
From S2P Require Import HandlersKV.
From S2P Require Import HandlersData.
From S2P Require Import Calls.
From S2P Require Import HandlersCache.
From S2P Require Import HandlersVector.
From S2P Require Import HandlersMemory.
From S2P Require Import HandlersPubSub.
From S2P Require Import Mcp.
From S2P Require Import McpSpec.
From S2P Require Import Session.
From S2P Require Import SessionSpec.
From S2P Require Import Confine.
From S2P Require Import Effects.
From S2P Require Import Regions.

From S2P Require Import Programs.

Open Scope Z_scope.
Open Scope go_scope.

(** A property of every element, with data. *)
Fixpoint All {A} (P : A → Type) (l : list A) : Type :=
  match l with [] => unit | x :: l => P x * All P l end.
Fixpoint All_app {A} (P : A → Type) (l k : list A) : All P l → All P k → All P (l ++ k) :=
  match l with
  | [] => λ _ s, s
  | x :: l => λ sl s, (sl.1, All_app P l k sl.2 s)
  end.

(** ** The handlers *)

Section handlers.
Context `{Runtime} {HR : RuntimeLaws} `{FloatText} `{KeyCodec} `{Services} {HS : ServicesLaws} `{Encoding}.
Context (h : bool).
#[local] Abbreviation scripted l := (scripted any_step l false h).

(** The handler has a program on every argument list its arity admits. *)
Definition programmed (φ : Prop) (c : Command) : Type := ∀ args, arityOK c (len args) = true → scripted args φ (Handler c args).
Definition programmed_intro φ nm lo hi b1 b2 handler :
  (∀ args, lo ≤ len args → (0 ≤ hi → len args ≤ hi) → scripted args φ (handler args)) →
  programmed φ (mkCommand nm lo hi b1 b2 handler).
Proof. intros Sh args Ha. exact (Sh args (proj1 (arity_min _ _ Ha)) (proj2 (arity_min _ _ Ha))). Defined.
Ltac programmed_list :=
  repeat (refine (_, _)); try exact tt; apply programmed_intro; intros args Hlo Hhi; unfold len in *.

(** What was taken from the arguments is among them. *)
Lemma elem_of_dropped {A} (x : A) i k : x ∈ drop i k → x ∈ k.
Proof using Type. intros Hx. rewrite <- (take_drop i k). apply elem_of_app. by right. Qed.
Definition scripted_authenticate l φ pw : (φ → pw ∈ l) → scripted l φ (authenticate pw).
Proof using All.
  intros Hpw. apply (scripted_call any_step l false h φ 0); [|apply traced_authenticate| |done].
  - intros K HK Hφ. apply co_login. rewrite Forall_forall in HK. auto.
  - intros K. apply safe_authenticate, known_on_tx.
Defined.
Definition scripted_hello_opts l φ args : (φ → ∀ x, x ∈ args → x ∈ l) → scripted l φ (hello_opts args).
Proof using All.
  revert φ. induction args as [args IH] using (induction_ltof1 _ length). unfold ltof in IH. intros φ Hl.
  destruct args as [|opt args]; cbn [hello_opts]; [scripted_tac|]. cbv zeta.
  destruct (String.eqb _ "AUTH").
  - destruct args as [|u [|pw args]]; [scripted_tac..|].
    apply scripted_bind; [apply scripted_authenticate; intros Hφ; apply (Hl Hφ); do 2 right; by left|intros e].
    scripted_tac. apply IH; [simpl; lia|]. intros [Hφ _] x Hx. apply (Hl Hφ). by do 3 right.
  - destruct (String.eqb _ "SETNAME"); [|scripted_tac]. destruct args as [|name args]; [scripted_tac|].
    apply scripted_bind; [solve [auto with scripted]|intros _]. apply IH; [simpl; lia|]. intros Hφ x Hx. apply (Hl Hφ). by do 2 right.
Defined.
Definition scripted_handleHello φ args : 1 ≤ len args → scripted args φ (handleHello args).
Proof using All.
  intros Hlo. unfold handleHello. apply scripted_args_from; [intros _; unfold len in *; lia|intros opts Ho].
  assert (SO : ∀ proto opts', (∀ x, x ∈ opts' → x ∈ opts) → scripted args (φ ∧ opts = drop 1 args)
    (do! e := hello_opts opts' in
     match e with
     | Some r => hret r
     | None =>
         if negb (String.eqb proto "2") then hret (Err ErrNoProtoMsg) else
         do! a := get_Auth in
         do! c := get_cs in
         if auth.Required a && negb (Authenticated c) then hret (Err ErrNoAuthMsg) else hret helloReply
     end)).
  { intros proto opts' Hs. apply scripted_bind; [|intros e; scripted_tac]. apply scripted_hello_opts.
    intros [_ Hd] x Hx. apply (elem_of_dropped x 1). rewrite <- Hd. auto. }
  destruct opts as [|p rest]; [by apply SO|]. destruct (Atoi p); apply SO; [intros x Hx; by right|done].
Defined.
Definition scripted_bind_if {A B} l φ (b : bool) (m1 m2 : H A) (k : A → H B) :
  scripted l φ (if b then hbind m1 k else hbind m2 k) → scripted l φ (hbind (if b then m1 else m2) k).
Proof. intros S1. apply (scripted_ext _ _ _ _ _ _ _ S1). intros w. by destruct b. Defined.
Definition scripted_handleAuth φ args : 2 ≤ len args ≤ 3 → scripted args φ (handleAuth args).
Proof using All.
  intros Hl. unfold handleAuth.
  assert (SA : ∀ ψ pw, (ψ → pw ∈ args) → scripted args ψ
    (do! a := get_Auth in
     if negb (auth.Required a) then hret (Err ErrAuthNotSet) else
     do! e := authenticate pw in
     hret (default OK e))).
  { intros ψ pw Hpw. apply scripted_bind; [solve [auto with scripted]|intros a]. apply scripted_test; [scripted_tac|].
    apply scripted_bind; [apply scripted_authenticate; intros [Hψ _]; auto|intros e; scripted_tac]. }
  apply scripted_bind_if. apply scripted_test.
  - apply scripted_bind_arg; [intros _; unfold len in *; lia|intros pw]. apply SA. intros [_ Hx]. by eapply list_elem_of_lookup_2.
  - apply scripted_bind_if. apply scripted_test.
    + apply scripted_bind_arg; [intros [_ E%Z.eqb_eq]; unfold len in *; lia|intros pw].
      apply SA. intros [_ Hx]. by eapply list_elem_of_lookup_2.
    + apply scripted_bind; [scripted_tac|intros pw]. apply SA. intros [[_ E2%Z.eqb_neq] E3%Z.eqb_neq]. lia.
Defined.
Definition RegisterConn_programmed φ n : All (programmed φ) (RegisterConn n).
Proof using All.
  programmed_list; [unfold handlePing|unfold handleEcho|unfold handleSelect|apply scripted_handleHello; unfold len; lia
    |apply scripted_handleAuth; unfold len; specialize (Hhi ltac:(lia)); lia
    |unfold handleClient|unfold handleCommand| |unfold handleQuit]; scripted_tac.
Defined.
Definition RegisterGeneric_programmed φ : All (programmed φ) RegisterGeneric.
Proof using All.
  programmed_list; [unfold handleDel|unfold handleExists|unfold handleExpire|unfold handlePExpire|unfold handleTTL
    |unfold handlePTTL|unfold handlePersist|unfold handleType|unfold handleKeys|unfold handleScan
    |unfold handleRename|unfold handleFlushDB|unfold handleFlushAll]; scripted_tac.
Defined.

Lemma even_tail (a b : string) l : len (a :: b :: l) `mod` 2 = 0 → len l `mod` 2 = 0.
Proof using Type.
  unfold len. cbn [length]. rewrite !Nat2Z.inj_succ.
  replace (Z.succ (Z.succ (Z.of_nat (length l)))) with (Z.of_nat (length l) + 1 * 2) by lia. by rewrite Z_mod_plus_full.
Qed.
Definition scripted_mget_loop l φ keys : scripted l φ (mget_loop keys).
Proof using All. induction keys; cbn [mget_loop]; scripted_tac. Defined.
Definition scripted_mset_loop l (φ : Prop) pairs : (φ → len pairs `mod` 2 = 0) → scripted l φ (mset_loop pairs).
Proof using All.
  induction pairs as [pairs IH] using (induction_ltof1 _ length). unfold ltof in IH. intros Hp.
  destruct pairs as [|k [|v pairs]]; cbn [mset_loop]; [scripted_tac| |].
  - apply scripted_panic. intros Hφ%Hp. vm_compute in Hφ. discriminate.
  - unfold engine_Set. scripted_tac. apply IH; [simpl; lia|]. intros Hφ. by apply (even_tail k v), Hp.
Defined.
Definition scripted_incrBy l φ key d : scripted l φ (incrBy key d).
Proof using All. unfold incrBy, engine_Set. scripted_tac. Defined.
Hint Resolve scripted_mget_loop scripted_incrBy : scripted.
Definition RegisterString_programmed φ : All (programmed φ) RegisterString.
Proof using All.
  programmed_list; [unfold handleGet|unfold handleSet, engine_Set|unfold handleMGet|unfold handleMSet|unfold handleIncr
    |unfold handleIncrBy|unfold handleDecr|unfold handleDecrBy|unfold handleAppend, engine_Set|unfold handleStrlen]; scripted_tac.
  apply scripted_mset_loop. intros [_ E]. by apply Z.eqb_eq, negb_false_iff.
Defined.

Definition RegisterHash_programmed φ : All (programmed φ) RegisterHash.
Proof using All.
  programmed_list; [unfold handleHSet|unfold handleHGet|unfold handleHGetAll|unfold handleHDel|unfold handleHExists
    |unfold handleHKeys|unfold handleHVals|unfold handleHLen|unfold handleHMGet|unfold handleHIncrBy]; scripted_tac.
  apply scripted_panic. intros [[_ E%negb_false_iff%Z.eqb_eq] E2]. destruct (hset_fields_even _ ∅ E). congruence.
Defined.
Definition RegisterList_programmed φ : All (programmed φ) RegisterList.
Proof using All.
  programmed_list; [unfold handleLPush|unfold handleRPush|unfold handleLPop|unfold handleRPop|unfold handleLRange
    |unfold handleLLen|unfold handleLIndex|unfold handleLSet|unfold handleLRem]; scripted_tac.
Defined.
Definition RegisterSet_programmed φ : All (programmed φ) RegisterSet.
Proof using All.
  programmed_list; [unfold handleSAdd|unfold handleSRem|unfold handleSMembers|unfold handleSIsMember|unfold handleSCard
    |unfold handleSInter|unfold handleSUnion|unfold handleSDiff]; scripted_tac.
Defined.
Definition RegisterZSet_programmed φ : All (programmed φ) RegisterZSet.
Proof using All.
  programmed_list; [unfold handleZAdd|unfold handleZRem|unfold handleZRange, parseZRangeArgs
    |unfold handleZRevRange, parseZRangeArgs|unfold handleZScore
    |unfold handleZRank|unfold handleZCard|unfold handleZIncrBy|unfold handleZRangeByScore]; scripted_tac.
  intros [_ [_ E%negb_false_iff%Z.eqb_eq]%orb_false_iff]. by apply zadd_members_even.
Defined.
End handlers.

(** ** The AI layer, for commands and tools alike *)

#[export] Hint Resolve traced_SemanticCache_Set traced_SemanticCache_Get traced_Put traced_Get traced_Search traced_List
  traced_History : traced.
Section memories.
Context `{Runtime} `{Services} `{Encoding}.
Lemma framed_MemoryStore_Get ws id : framed (MemoryStore_Get ws id).
Proof using Type. apply framed_on; intros; by split_and!. Qed.
Lemma framed_MemoryStore_List ws o : framed (MemoryStore_List ws o).
Proof using Type. apply framed_on; intros; by split_and!. Qed.
Lemma framed_MemoryStore_History ws id : framed (MemoryStore_History ws id).
Proof using Type. apply framed_on; intros; by split_and!. Qed.
End memories.
#[export] Hint Resolve framed_MemoryStore_Get framed_MemoryStore_List framed_MemoryStore_History framed_SemanticCache_Set framed_SemanticCache_Get framed_MemoryStore_Put
  framed_MemoryStore_Search : framed.

Section calls.
Context `{Runtime} {HR : RuntimeLaws} `{FloatText} `{KeyCodec} `{Services} {HS : ServicesLaws} `{Encoding}.
Context (R : World → World → Prop) (HF : frames R) (s h : bool).
#[local] Abbreviation scripted l := (scripted R l s h).

Definition scripted_record_savings l φ kind text cost : scripted l φ (record_savings kind text cost).
Proof using All. unfold record_savings. scripted_tac. Defined.
Definition scripted_Consolidate l φ ws agent kind th : scripted l φ (Consolidate ws agent kind th).
Proof using All. unfold Consolidate. scripted_tac. Defined.
Definition scripted_Extract l φ ws id content : scripted l φ (Extract ws id content).
Proof using All.
  unfold Extract. apply scripted_bind; [auto with scripted|intros raw].
  apply (scripted_framed R l s h φ 0); [done|intros K; component_tac| |].
  - eapply (traced_bind 0); [|done|intros; traced_tac]. apply traced_graphs. intros n s0. apply Extract_inv.
  - framed_tac. apply Extract_no_panic.
Defined.
End calls.
#[export] Hint Resolve scripted_record_savings scripted_Consolidate scripted_Extract : scripted.

Section components.
Context `{Runtime} {HR : RuntimeLaws} `{FloatText} `{KeyCodec} `{Services} {HS : ServicesLaws} `{Encoding}.

(** Every MCP tool. *)
Definition scripted_CallTool l s h φ c : scripted tool_step l s h φ (mcp.CallTool c).
Proof.
  assert (HT : ∀ nm k, scripted tool_step l s h φ k → scripted tool_step l s h φ (mcp.recorded nm k)).
  { intros nm k Sk. unfold mcp.recorded. apply scripted_bind; [|intros _; exact Sk].
    apply (scripted_call _ _ _ _ _ 0); [intros K _ _; constructor|auto with traced| |by intros w].
    intros K. pose proof (known_on_tx K). auto with safe. }
  destruct c as [i|i|i|i|i|i|i|i|i|i|i|i|i|i|i]; cbn [mcp.CallTool]; apply HT;
    unfold PromptCache_Set, PromptCache_Get, ToolCache_Set, ToolCache_Get, VectorStore_Upsert, VectorStore_Search,
      VectorStore_Delete, GraphStore_Related, TemplateKey, ToolKey; scripted_tac;
    exfalso; by case_match.
Defined.

Context (h : bool).
#[local] Abbreviation scripted l := (scripted any_step l false h).
Definition scripted_put_memory l φ a c o : scripted l φ (put_memory a c o).
Proof using All. unfold put_memory, guarded. scripted_tac. Defined.
Definition scripted_search_memory l φ q o : scripted l φ (search_memory q o).
Proof using All. unfold search_memory. scripted_tac. Defined.
Hint Resolve scripted_put_memory scripted_search_memory : scripted.
#[local] Abbreviation programmed := (programmed h).
Ltac programmed_list :=
  repeat (refine (_, _)); try exact tt; apply programmed_intro; intros args Hlo Hhi; unfold len in *.
Ltac ai_tac := unfold guarded; scripted_tac.

Definition RegisterToolCache_programmed φ : All (programmed φ) RegisterToolCache.
Proof using All.
  programmed_list. unfold handleToolCache, handleToolCacheSet, handleToolCacheGet, ToolCache_Set, ToolCache_Get, ToolKey.
  ai_tac; exfalso; by case_match.
Defined.
Definition RegisterSemantic_programmed φ : All (programmed φ) RegisterSemantic.
Proof using All.
  programmed_list.
  - unfold handleCacheSemantic, handleCacheSemanticSet, handleCacheSemanticGet. ai_tac.
  - unfold handleCachePrompt, handleCachePromptSet, handleCachePromptGet, PromptCache_Set, PromptCache_Get, TemplateKey.
    ai_tac; exfalso; by case_match.
Defined.
Definition RegisterVector_programmed φ : All (programmed φ) RegisterVector.
Proof using All.
  programmed_list; [unfold handleVectorUpsert, VectorStore_Upsert|unfold handleVectorSearch, VectorStore_Search
    |unfold handleVectorDelete, VectorStore_Delete]; ai_tac.
Defined.
Definition RegisterMemory_programmed φ : All (programmed φ) RegisterMemory.
Proof using All.
  programmed_list; [unfold handleMemoryPut|unfold handleMemoryGet|unfold handleMemorySearch|unfold handleMemoryHistory]; ai_tac.
Defined.
Definition RegisterAgent_programmed φ : All (programmed φ) RegisterAgent.
Proof using All. programmed_list; [unfold handleAgentRemember|unfold handleAgentRecall]; ai_tac. Defined.
Definition RegisterConsolidate_programmed φ : All (programmed φ) RegisterConsolidate.
Proof using All. programmed_list. unfold handleSummaryCreate. ai_tac. Defined.
Definition RegisterGraph_programmed φ : All (programmed φ) RegisterGraph.
Proof using All. programmed_list; [unfold handleGraphExtract|unfold handleGraphRelated, GraphStore_Related]; ai_tac. Defined.
End components.

(** ** Subscriptions *)

Section subscriptions.
Context `{Runtime} {HR : RuntimeLaws} `{FloatText} `{KeyCodec} `{Services} {HS : ServicesLaws} `{Encoding}.

Lemma hbind_assoc {A B C} (m : H A) (k : A → H B) (l : B → H C) w :
  hbind (hbind m k) l w = hbind m (λ x, hbind (k x) l) w.
Proof using Type. unfold hbind, bind. by destruct (m w) as [[x|] w1]. Qed.

(** A call that is an act where it is made. *)
Definition scripted_act {A} l s h φ (m : H A) : (∀ K, component K m) →
  (∀ w, queue_ok w → (s = true → live (me w) (PubSub_ (deps w))) →
     ∃ x w', m w = (Some x, w') ∧ act w 0 w' ∧ Queued (cs w') = Queued (cs w)) → scripted any_step l s h φ m.
Proof.
  intros Hc Hm. exists (Invoke m (λ x, Done (Some x))).
  - intros w. cbn. unfold hbind, bind. by destruct (m w) as [[x|] w'].
  - intros K _ _. split; [done|]. intros w Hw Hl. destruct (Hm w (proj1 Hw) Hl) as (x & w' & E & Ha & HQ).
    exists x, w', 0%nat, s. destruct Hw as [[HW1 HW2] HW3]. split_and!; try done.
    + by apply acts_one.
    + unfold known_ok, queue_ok. rewrite HQ. split; [split; [done|by eapply act_session]|done].
    + intros E1. rewrite (act_me _ _ _ Ha). eapply act_live; [exact Ha|apply HW2|by apply Hl].
Defined.

Definition scripted_subscribe_loop l h φ channels : scripted any_step l true h φ (subscribe_loop channels).
Proof using HR HS.
  induction channels as [|ch channels IH]; cbn [subscribe_loop]; [scripted_tac|].
  eapply scripted_ext; [|intros w; apply hbind_assoc]. apply scripted_bind; [|intros _; unfold subscription_reply; scripted_tac].
  apply scripted_act; [constructor|]. intros w Hw Hl. eexists _, _. split; [reflexivity|]. split; [|done].
  exact (act_subscribe w ch 1 (Hl eq_refl)).
Defined.
Definition scripted_psubscribe_loop l h φ patterns : scripted any_step l true h φ (psubscribe_loop patterns).
Proof using HR HS.
  induction patterns as [|pat patterns IH]; cbn [psubscribe_loop]; [scripted_tac|].
  eapply scripted_ext; [|intros w; apply hbind_assoc]. apply scripted_bind; [|intros _; unfold subscription_reply; scripted_tac].
  apply scripted_act; [constructor|]. intros w Hw Hl. eexists _, _. split; [reflexivity|]. split; [|done].
  exact (act_psubscribe w pat 1 (Hl eq_refl)).
Defined.

(** The connection forgets the channel, and tells the broker if it has one. *)
Lemma unsubscribing_act (f : pubsub.conn → pubsub.PubSub → pubsub.PubSub) g w :
  (∀ k p, p = f (me w) (PubSub_ (deps w)) ∨ pubsub.subChs (PubSub_ (deps w)) !! me w = None ∧ p = PubSub_ (deps w) →
     act w 0 (brokered p (g (cs w)) k w)) →
  ∃ w', (do! _ := put_cs g in do! live := has_subCh in if live : bool then broker_do f else hret tt) w = (Some tt, w') ∧
    act w 0 w' ∧ cs w' = g (cs w).
Proof using Type.
  intros Hf. unfold hbind, bind, put_cs, has_subCh, broker_do, broker, on, hret, ret. cbn.
  destruct (pubsub.subChs (PubSub_ (deps w)) !! me w) as [x|] eqn:E; cbn; eexists; (split; [reflexivity|]).
  - split; [|done]. apply (Hf 2%nat (f (me w) (PubSub_ (deps w)))). by left.
  - split; [|done]. apply (Hf 1%nat (PubSub_ (deps w))). by right.
Qed.
Lemma unsubscribe_assoc {A} (f : pubsub.conn → pubsub.PubSub → pubsub.PubSub) g (k : H A) w :
  (do! _ := (do! _ := put_cs g in do! live := has_subCh in if live : bool then broker_do f else hret tt) in k) w =
  (do! _ := put_cs g in do! live := has_subCh in do! _ := (if live : bool then broker_do f else hret tt) in k) w.
Proof using Type. rewrite hbind_assoc. apply (hbind_assoc has_subCh). Qed.

Definition scripted_unsubscribe_loop l s h φ channels : scripted any_step l s h φ (unsubscribe_loop channels).
Proof using HR HS.
  induction channels as [|ch channels IH]; cbn [unsubscribe_loop]; [scripted_tac|].
  eapply scripted_ext; [|intros w; apply unsubscribe_assoc]. apply scripted_bind; [|intros _; unfold subscription_reply; scripted_tac].
  apply scripted_act; [constructor|]. intros w Hw _.
  destruct (unsubscribing_act (λ cs, pubsub.Unsubscribe cs ch)
    (λ c, set_Subscriptions (Subscriptions c ∖ {[ch]}) (PSubscriptions c) c) w) as (w' & E & Ha & Hc);
    [intros k p; apply act_unsubscribe|]. exists tt, w'. split_and!; [exact E|done|by rewrite Hc].
Defined.
Definition scripted_punsubscribe_loop l s h φ patterns : scripted any_step l s h φ (punsubscribe_loop patterns).
Proof using HR HS.
  induction patterns as [|pat patterns IH]; cbn [punsubscribe_loop]; [scripted_tac|].
  eapply scripted_ext; [|intros w; apply unsubscribe_assoc]. apply scripted_bind; [|intros _; unfold subscription_reply; scripted_tac].
  apply scripted_act; [constructor|]. intros w Hw _.
  destruct (unsubscribing_act (λ cs, pubsub.UnsubscribePattern cs pat)
    (λ c, set_Subscriptions (Subscriptions c) (PSubscriptions c ∖ {[pat]}) c) w) as (w' & E & Ha & Hc);
    [intros k p; apply act_punsubscribe|]. exists tt, w'. split_and!; [exact E|done|by rewrite Hc].
Defined.
Hint Resolve scripted_unsubscribe_loop scripted_punsubscribe_loop : scripted.

(** After [ensureSubscriberState] the connection has its channel. *)
Definition scripted_ensure {A} l h φ (k : unit → H A) : (∀ u, scripted any_step l true h φ (k u)) →
  scripted any_step l false h φ (hbind (broker_do pubsub.ensureSubscriberState) k).
Proof.
  intros Sk. exists (Invoke (broker_do pubsub.ensureSubscriberState) (λ u, prog_of (Sk u))).
  - intros w. cbn [alone]. unfold hbind, bind. destruct (broker_do _ w) as [[u|] w']; [apply Sk|done].
  - intros K HK Hφ. split; [constructor|]. intros w [[HQ Hw] HW3] _.
    exists tt, (brokered (pubsub.ensureSubscriberState (me w) (PubSub_ (deps w))) (cs w) 1 w), 0%nat, true.
    assert (Ha : act w 0 (brokered (pubsub.ensureSubscriberState (me w) (PubSub_ (deps w))) (cs w) 1 w)) by apply act_ensure.
    split_and!; try done; [by apply acts_one|split; [split; [done|by eapply act_session]|done]| |by apply Sk].
    intros _. apply ensure_ok; apply Hw.
Defined.
Definition scripted_publish l s h φ ch payload : scripted any_step l s h φ (
  do! o := broker (λ n _, pubsub.Publish (sub_orders n) ch payload) in
  do! n := check_panic o in
  match n with None => hpanic | Some n => hret n end).
Proof using HR.
  apply scripted_act; [constructor|]. intros w [HQ [HB HI]] _. pose proof (sub_orders_ok (ticks w)) as Ho.
  destruct (deliver_ok ch payload (pubsub.targets (sub_orders (ticks w)) ch (PubSub_ (deps w))) 0 _ HB)
    as (n & p & E & _); [by apply targets_issuing|].
  exists n, (brokered p (cs w) 1 w). unfold hbind, bind, broker, on, pubsub.Publish. rewrite E. split; [reflexivity|].
  split; [|done]. by apply (act_publish w (sub_orders (ticks w)) ch payload n p 1).
Defined.

Definition RegisterPubSub_programmed h φ : All (programmed h φ) RegisterPubSub.
Proof using HR HS.
  repeat (refine (_, _)); try exact tt; apply programmed_intro; intros args Hlo Hhi; unfold len in *.
  - unfold handleSubscribe. apply scripted_ensure. intros _. pose proof scripted_subscribe_loop. scripted_tac.
  - unfold handleUnsubscribe, subscription_reply. scripted_tac.
  - unfold handlePublish. apply scripted_bind; [auto with scripted|intros ch]. apply scripted_bind; [auto with scripted|intros payload].
    refine (scripted_ext _ _ _ _ _ _ _ (scripted_bind _ _ _ _ _ _ (λ n, hret (Int n)) (scripted_publish args false h φ ch payload)
      (λ n, scripted_ret _ _ _ _ _ (Int n))) _).
    intros w. rewrite hbind_assoc. unfold hbind, bind. destruct (broker _ w) as [[o|] w1]; [|done].
    destruct (check_panic o w1) as [[[n|]|] w2]; done.
  - unfold handlePSubscribe. apply scripted_ensure. intros _. pose proof scripted_psubscribe_loop. scripted_tac.
  - unfold handlePUnsubscribe, subscription_reply. scripted_tac.
Defined.
End subscriptions.

(** ** Transactions and dispatch *)

Section dispatch.
Context `{Runtime} {HR : RuntimeLaws} `{FloatText} `{KeyCodec} `{Services} {HS : ServicesLaws} `{Encoding}.

(** [Engine.Exec]: the mutex is held for as long as [m] runs. *)
Definition scripted_locked {A} l s φ (m : H A) : scripted any_step l s true φ m → scripted any_step l s false φ m.
Proof.
  intros Sm. exists (Lock (pbind (prog_of Sm) (λ x, Unlock (Done (Some x))))).
  - intros w. cbn [alone]. rewrite alone_bind. unfold hbind, bind. rewrite (prog_of_alone _ _ _ _ _ _ Sm). by destruct (m w) as [[x|] w'].
  - intros K HK Hφ. split; [done|]. eapply careful_bind; [by apply (prog_of_careful _ _ _ _ _ _ Sm)|done].
Defined.
(** The queue of a connection holds runnable commands, which it knows. *)
Definition scripted_get_cs {A} l s h φ (k : ClientState → H A) :
  (∀ c, scripted any_step (concat (Queued c) ++ l) s h (φ ∧ Forall queued_ok (Queued c)) (k c)) →
  scripted any_step l s h φ (hbind get_cs k).
Proof.
  intros Sk. exists (Invoke get_cs (λ c, prog_of (Sk c))); [intros w; cbn; unfold hbind, bind, get_cs; apply (prog_of_alone _ _ _ _ _ _ (Sk (cs w)))|].
  intros K HK Hφ. split; [constructor|]. intros w Hw Hl. exists (cs w), w, 0%nat, s. split_and!; try done; [apply acts_nil|].
  apply (prog_of_careful _ _ _ _ _ _ (Sk (cs w))); [|split; [done|apply Hw]].
  apply Forall_app_2; [|done]. apply Forall_concat. apply Hw.
Defined.
Definition scripted_put_cs l s h φ f : (∀ c, Subscriptions (f c) = Subscriptions c ∧ PSubscriptions (f c) = PSubscriptions c) →
  (∀ c, Workspace (f c) = Workspace c ∧ Queued (f c) = []) → scripted any_step l s h φ (put_cs f).
Proof.
  intros Hf HQ. apply (scripted_any l s h φ 0); [|by apply traced_put_cs|].
  - intros K. apply co_update. intros c. destruct (HQ c). auto.
  - intros K w [[Hq Hw] HK]. eexists _, _. split; [reflexivity|]. unfold known_ok, queue_ok. cbn. destruct (HQ (cs w)) as [_ ->].
    split; [split; [constructor|exact Hw]|constructor].
Defined.
Hint Extern 2 (scripted _ _ _ _ _ (put_cs _)) => (apply scripted_put_cs; intros; split; reflexivity) : scripted.

Definition scripted_watch_loop l s h φ keys : scripted any_step l s h φ (watch_loop keys).
Proof using HR HS. induction keys; cbn [watch_loop]; unfold engine_version; scripted_tac. Defined.
Definition scripted_unchanged l s h φ vs : scripted any_step l s h φ (unchanged vs).
Proof using HR HS.
  revert φ. induction vs as [|[k v] vs IH]; intros φ; cbn [unchanged]; unfold engine_version; scripted_tac.
Defined.
Hint Resolve scripted_watch_loop scripted_unchanged : scripted.

(** What dispatch does with the command it found, for a reply. *)
Definition answering (found : option Command) (a0 : string) (rest : list string) : H Reply :=
  match found with
  | None =>
      do! c := get_cs in
      do! _ := (if InMulti c then put_cs set_MultiError else hret tt) in
      hret (Err (ErrUnknownCommand a0 rest))
  | Some cmd =>
      do! a := get_Auth in
      do! c := get_cs in
      if auth.Required a && negb (Authenticated c) && negb (AllowedNoAuth cmd) then hret (Err ErrNoAuthMsg)
      else if InMulti c && negb (NoQueue cmd) then
        if negb (arityOK cmd (len (a0 :: rest))) then
          do! _ := put_cs set_MultiError in hret (Err (ErrWrongNumberOfArgs (cmd_Name cmd)))
        else
          do! _ := put_cs (λ c, set_Multi (InMulti c) (MultiError c) (Queued c ++ [a0 :: rest]) c) in
          hret (Simple "QUEUED")
      else if negb (arityOK cmd (len (a0 :: rest))) then hret (Err (ErrWrongNumberOfArgs (cmd_Name cmd)))
      else Handler cmd (a0 :: rest)
  end.
Lemma dispatch_answering r a0 rest w :
  hbind (answering (r !! ToUpper a0) a0 rest) (λ x, hret (Some x)) w = dispatch r (a0 :: rest) w.
Proof using Type.
  unfold answering. cbn [dispatch]. destruct (r !! ToUpper a0) as [c|].
  - unfold hbind, bind, get_Auth, get_cs, put_cs, hret, ret.
    repeat match goal with |- context [if ?b then _ else _] => destruct b end; done.
  - unfold hbind, bind, get_cs, put_cs, hret, ret. by destruct (InMulti (cs w)).
Qed.

(** A command of the queue, which is answered by a reply. *)
Definition replying (m : H (option Reply)) : H Reply := do! r := m in match r with None => hpanic | Some r => hret r end.
Definition scripted_exec_loop l h φ handle queued : (∀ a, scripted any_step a false h (queued_ok a) (replying (handle a))) →
  (φ → Forall queued_ok queued) → (∀ x, x ∈ concat queued → x ∈ l) → scripted any_step l false h φ (exec_loop handle queued).
Proof.
  intros Sd. induction queued as [|a queued IH]; intros Hφ Hl; cbn [exec_loop]; [apply scripted_ret|].
  refine (scripted_ext _ _ _ _ _ (do! r := replying (handle a) in do! rs := exec_loop handle queued in hret (r :: rs)) _ _ _).
  - apply scripted_bind; [apply (scripted_if _ _ _ _ _ _ _ _ (Sd a))|intros r; apply scripted_bind; [apply IH|intros rs; apply scripted_ret]].
    + intros F%Hφ. apply Forall_cons in F as [? _]. split; [done|]. intros x Hx. apply Hl. cbn. apply elem_of_app. by left.
    + intros F%Hφ. by apply Forall_cons in F as [_ ?].
    + intros x Hx. apply Hl. cbn. apply elem_of_app. by right.
  - intros w. unfold replying, hbind, bind. by destruct (handle a w) as [[[r|]|] w'].
Defined.
Definition scripted_handleExec handle args : (∀ a, scripted any_step a false true (queued_ok a) (replying (handle a))) →
  scripted any_step args false false True (handleExec handle args).
Proof.
  intros Sd. unfold handleExec. apply scripted_get_cs. intros c. scripted_tac. apply scripted_locked.
  apply scripted_exec_loop; [done| |].
  - intros ?. by destruct_and?.
  - intros y Hy. apply elem_of_app. by left.
Defined.
(** EXEC inside a queue, where it never is. *)
Definition scripted_never {A} l (m : H A) : scripted any_step l false true False m.
Proof.
  exists (Invoke m (λ x, Done (Some x))); [|by intros K _ []]. intros w. cbn. unfold hbind, bind. by destruct (m w) as [[x|] w'].
Defined.

Fixpoint All_impl {A} (P Q : A → Type) (f : ∀ x, P x → Q x) (l : list A) : All P l → All Q l :=
  match l with [] => λ _, tt | x :: l => λ s, (f x s.1, All_impl P Q f l s.2) end.

(** The command table, with EXEC as it is given. *)
Definition commands_programmed h (ψ : Command → Prop) handle n :
  programmed h (ψ (exec_command handle)) (exec_command handle) → All (λ c, programmed h (ψ c) c) (commands handle n).
Proof.
  intros SE.
  assert (SI : ∀ l, All (programmed h True) l → All (λ c, programmed h (ψ c) c) l).
  { intros l. apply All_impl. intros c Sc args Ha. by apply (scripted_if _ _ _ _ _ True _ _ (Sc args Ha)). }
  assert (ST : All (λ c, programmed h (ψ c) c) (RegisterTx handle)).
  { refine (_, (SE, (_, (_, (_, tt))))); apply programmed_intro; intros args Hlo Hhi; unfold len in *;
      unfold handleMulti, handleDiscard, handleWatch, handleUnwatch; scripted_tac. }
  pose proof (λ l k S1 S2, All_app (λ c, programmed h (ψ c) c) l k (SI l S1) S2) as J. unfold commands.
  refine (J _ _ (RegisterConn_programmed _ _ n) _). refine (J _ _ (RegisterGeneric_programmed _ _) _).
  refine (J _ _ (RegisterString_programmed _ _) _). refine (J _ _ (RegisterHash_programmed _ _) _).
  refine (J _ _ (RegisterList_programmed _ _) _). refine (J _ _ (RegisterSet_programmed _ _) _).
  refine (J _ _ (RegisterZSet_programmed _ _) _). refine (J _ _ (RegisterPubSub_programmed _ _) _).
  refine (All_app _ _ _ ST _). refine (J _ _ (RegisterSemantic_programmed _ _) _).
  refine (J _ _ (RegisterToolCache_programmed _ _) _). refine (J _ _ (RegisterVector_programmed _ _) _).
  refine (J _ _ (RegisterMemory_programmed _ _) _). refine (J _ _ (RegisterAgent_programmed _ _) _).
  refine (J _ _ (RegisterConsolidate_programmed _ _) _). apply SI, RegisterGraph_programmed.
Defined.

(** The entry a name is found under: the last of that name. *)
Fixpoint find_entry {P : Command → Type} (key : string) (l : list Command) : All P l → option {c : Command & P c} :=
  match l with
  | [] => λ _, None
  | c :: l => λ s, match find_entry key l s.2 with
                   | Some e => Some e
                   | None => if String.eqb (ToUpper (cmd_Name c)) key then Some (existT c s.1) else None
                   end
  end.
Lemma find_entry_ok {P : Command → Type} key l (s : All P l) : ∀ r,
  foldl (λ r c, Register c r) r l !! key =
  match find_entry key l s with Some e => Some (projT1 e) | None => r !! key end.
Proof using Type.
  induction l as [|c l IH]; intros r; cbn [foldl find_entry]; [done|]. destruct s as [Sc s]. rewrite (IH s). cbn [snd fst].
  destruct (find_entry key l s) as [e|]; [done|]. unfold Register. destruct (String.eqb_spec (ToUpper (cmd_Name c)) key) as [<-|Hne].
  - by rewrite lookup_insert_eq.
  - by rewrite lookup_insert_ne.
Qed.
(** The program of dispatch, given what the table has under the name. *)
Definition dispatch_prog {P : Command → Type} (body : ∀ c, P c → ∀ args, arityOK c (len args) = true → prog Reply)
    (found : option {c : Command & P c}) (a0 : string) (rest : list string) : prog Reply :=
  match found with
  | None =>
      Invoke get_cs (λ c,
        let unknown := Done (Some (Err (ErrUnknownCommand a0 rest))) in
        if InMulti c then Invoke (put_cs set_MultiError) (λ _, unknown) else unknown)
  | Some (existT cmd s) =>
      Invoke get_Auth (λ a, Invoke get_cs (λ c,
        if auth.Required a && negb (Authenticated c) && negb (AllowedNoAuth cmd) then Done (Some (Err ErrNoAuthMsg))
        else match Bool.bool_dec (arityOK cmd (len (a0 :: rest))) true with
             | right _ =>
                 let wrong := Done (Some (Err (ErrWrongNumberOfArgs (cmd_Name cmd)))) in
                 if InMulti c && negb (NoQueue cmd) then Invoke (put_cs set_MultiError) (λ _, wrong) else wrong
             | left Ha =>
                 if InMulti c && negb (NoQueue cmd) then
                   Invoke (put_cs (λ c, set_Multi (InMulti c) (MultiError c) (Queued c ++ [a0 :: rest]) c))
                     (λ _, Done (Some (Simple "QUEUED")))
                 else body cmd s (a0 :: rest) Ha
             end))
  end.
Lemma dispatch_prog_alone {P : Command → Type} body (found : option {c : Command & P c}) a0 rest w :
  (∀ c s Ha w, alone (body c s (a0 :: rest) Ha) w = Handler c (a0 :: rest) w) →
  alone (dispatch_prog body found a0 rest) w =
  answering (match found with Some e => Some (projT1 e) | None => None end) a0 rest w.
Proof using Type.
  intros Hb. destruct found as [[c s]|]; cbn [dispatch_prog projT1 answering alone].
  - unfold hbind, bind, get_Auth, get_cs, put_cs, hret, ret. destruct (_ && negb (AllowedNoAuth c)); [done|].
    destruct (Bool.bool_dec _ true) as [Ha|Ha].
    + destruct (InMulti (cs w) && negb (NoQueue c)); [by rewrite Ha|rewrite Hb; by rewrite Ha].
    + apply not_true_is_false in Ha. rewrite Ha. cbn [negb]. by destruct (InMulti (cs w) && negb (NoQueue c)).
  - unfold hbind, bind, get_cs, put_cs, hret, ret. by destruct (InMulti (cs w)).
Qed.
(** A read, and a change of the connection's own state. *)
Lemma careful_read {A B} K s h h' (m : H B) (k : B → prog A) : component K m → (∀ w, ∃ x, m w = (Some x, w)) →
  (∀ x, careful K any_step s h h' (k x)) → careful K any_step s h h' (Invoke m k).
Proof using Type.
  intros Hc Hm Hk. split; [done|]. intros w Hw Hl. destruct (Hm w) as [x E]. exists x, w, 0%nat, s.
  split_and!; try done; apply acts_nil.
Qed.
Lemma careful_update {A} K s h h' f (k : unit → prog A) : component K (put_cs f) →
  (∀ c, Subscriptions (f c) = Subscriptions c ∧ PSubscriptions (f c) = PSubscriptions c) →
  (∀ P : list string → Prop, (∀ a, P a ↔ queued_ok a) ∨ (∀ a, P a ↔ Forall K a) →
     ∀ c, Forall P (Queued c) → Forall P (Queued (f c))) →
  (∀ x, careful K any_step s h h' (k x)) → careful K any_step s h h' (Invoke (put_cs f) k).
Proof using Type.
  intros Hc Hf HQ Hk. split; [done|]. intros w [[Hq Hw] HK] Hl. destruct (Hf (cs w)) as [E1 E2].
  eexists tt, _, 0%nat, s. split; [reflexivity|]. split; [by apply acts_one, (act_local w f 0)|].
  split; [|done]. split; [split; [|exact Hw]|]; cbn; apply HQ; auto.
Qed.
Lemma dispatch_prog_careful {P : Command → Type} K h body (found : option {c : Command & P c}) a0 rest : Forall K (a0 :: rest) →
  (∀ c s, found = Some (existT c s) → arityOK c (len (a0 :: rest)) = true → NoQueue c = false → queued_ok (a0 :: rest)) →
  (∀ c s Ha, found = Some (existT c s) → careful K any_step false h h (body c s (a0 :: rest) Ha)) →
  careful K any_step false h h (dispatch_prog body found a0 rest).
Proof using Type.
  intros HK HQ Hb.
  assert (HD : ∀ r : Reply, careful K any_step false h h (Done (Some r))) by (intros r; split; [by eexists|done]).
  assert (HE : ∀ r : Reply, careful K any_step false h h (Invoke (put_cs set_MultiError) (λ _, Done (Some r))))
    by (intros r; apply careful_update; [component_tac|done|by intros ? _ c|intros _; apply HD]).
  destruct found as [[c s]|]; cbn [dispatch_prog].
  - apply careful_read; [constructor|by eexists|]. intros a. apply careful_read; [constructor|by eexists|]. intros cl.
    destruct (_ && negb (AllowedNoAuth c)); [apply HD|]. destruct (Bool.bool_dec _ true) as [Ha|Ha].
    + destruct (InMulti cl && negb (NoQueue c)) eqn:Em; [|by apply Hb].
      apply careful_update; [by apply co_queue|done| |intros _; apply HD].
      intros Q HP c' Hc'. apply Forall_app_2; [done|]. apply Forall_singleton. apply andb_true_iff in Em as [_ ?%negb_true_iff].
      destruct HP as [-> | ->]; [by eapply HQ|done].
    + destruct (InMulti cl && negb (NoQueue c)); [apply HE|apply HD].
  - apply careful_read; [constructor|by eexists|]. intros cl. destruct (InMulti cl); [apply HE|apply HD].
Qed.

Definition scripted_answering h (φ : Prop) ψ handle n (T : All (λ c, programmed h (ψ c) c) (commands handle n)) a0 rest :
  (∀ c, φ → RegisterAll handle n !! ToUpper a0 = Some c → ψ c) →
  scripted any_step (a0 :: rest) false h φ (answering (RegisterAll handle n !! ToUpper a0) a0 rest).
Proof.
  intros Hψ. exists (dispatch_prog (λ c Sc args Ha, prog_of (Sc args Ha)) (find_entry (ToUpper a0) _ T) a0 rest).
  - intros w. rewrite dispatch_prog_alone; [|intros; apply prog_of_alone]. f_equal. symmetry.
    apply (find_entry_ok (ToUpper a0) _ T NewRegistry).
  - intros K HK Hφ. pose proof (find_entry_ok (ToUpper a0) _ T NewRegistry) as E. fold (RegisterAll handle n) in E.
    apply dispatch_prog_careful; [exact HK|..]; intros c s.
    + intros Ef Ha HN. rewrite Ef in E. apply (queued_ok_any handle n). by exists a0, rest, c.
    + intros Ha Ef. rewrite Ef in E. apply prog_of_careful; [exact HK|]. by apply Hψ.
Defined.
Lemma replying_answering n a0 rest w :
  answering (RegisterAll (Handle n) commandCount !! ToUpper a0) a0 rest w = replying (Handle (S n) (a0 :: rest)) w.
Proof using Type.
  pose proof (dispatch_answering (RegisterAll (Handle n) commandCount) a0 rest w) as E.
  unfold replying. cbn [Handle]. unfold hbind at 1, bind at 1. rewrite <- E. unfold hbind, bind.
  by destruct (answering _ a0 rest w) as [[r|] w'].
Qed.
(** A queued command, whose table has no EXEC that could run. *)
Definition queued_table : All (λ c, programmed true (NoQueue c = false) c) (commands (Handle 0) commandCount).
Proof. apply commands_programmed. intros args _. by apply (scripted_if _ args args _ _ False _ _ (scripted_never args _)). Defined.
Definition scripted_queued a : scripted any_step a false true (queued_ok a) (replying (Handle 1 a)).
Proof.
  destruct a as [|a0 rest]; [by apply (scripted_if _ _ _ _ _ False _ _ (scripted_never [] _)); intros (? & ? & ? & ? & _)|].
  refine (scripted_ext _ _ _ _ _ _ _ (scripted_answering true _ _ _ _ queued_table a0 rest _) _).
  - intros c Hq Hc. pose proof (proj1 (queued_ok_any (Handle 0) commandCount _) Hq) as (a1 & rest1 & c1 & Ea & Hc1 & HQ & _).
    injection Ea as <- <-. rewrite Hc in Hc1. injection Hc1 as ->. exact HQ.
  - intros w. apply replying_answering.
Defined.
(** A command of a connection. *)
Definition command_table : All (λ c, programmed false True c) (commands (Handle 1) commandCount).
Proof. apply (commands_programmed false (λ _, True)). intros args _. apply scripted_handleExec, scripted_queued. Defined.
Definition scripted_command a0 rest : scripted any_step (a0 :: rest) false false True (replying (Handle 2 (a0 :: rest))).
Proof.
  refine (scripted_ext _ _ _ _ _ _ _ (scripted_answering false _ _ _ _ command_table a0 rest _) _); [done|].
  intros w. apply replying_answering.
Defined.

(** *** The programs *)

Definition program (args : list string) : prog Reply :=
  match args with [] => Done None | a0 :: rest => prog_of (scripted_command a0 rest) end.
Definition tool_program (c : mcp.call) : prog mcp.answer := prog_of (scripted_CallTool [] false false True c).

(** Nothing beside it, the program is the command. *)
Lemma program_alone a0 rest w : queue_ok w →
  Handle 2 (a0 :: rest) w = (let '(r, w') := alone (program (a0 :: rest)) w in (Some <$> r, w')).
Proof using Type.
  intros Hw. cbn [program]. rewrite (prog_of_alone _ _ _ _ _ _ (scripted_command a0 rest)). unfold replying, hbind, bind.
  destruct (Handle_2_replies a0 rest w Hw) as (r & w' & E & _). by rewrite E.
Qed.
Lemma program_careful K a0 rest : Forall K (a0 :: rest) → careful K any_step false false false (program (a0 :: rest)).
Proof using Type. intros HK. by apply (prog_of_careful _ _ _ _ _ _ (scripted_command a0 rest)). Qed.
Lemma tool_program_alone c w : alone (tool_program c) w = mcp.CallTool c w.
Proof using Type. apply (prog_of_alone _ _ _ _ _ _ (scripted_CallTool [] false false True c)). Qed.
Lemma tool_program_careful K c : careful K tool_step false false false (tool_program c).
Proof using Type. apply (prog_of_careful _ _ _ _ _ _ (scripted_CallTool [] false false True c)); [constructor|done]. Qed.
End dispatch.
