(* ===== verification/OneCall.v ===== *)
(** * Commands that make one call

    Most commands of the key space read the connection's own state and then
    make a single call, under the lock of one shard; [atomic_commands] lists
    them, with the commands that only look at the connection.  INCR and its
    relatives, APPEND, the commands on several keys, WATCH, EXEC and the AI
    commands make several calls. *)

From S2P Require Import Prelude.
From S2P Require Import GoStd.
From S2P Require Import Auth.
From S2P Require Import Similarity.
From S2P Require Import Caches.
From S2P Require Import Memory.
From S2P Require Import Graph.
From S2P Require Import Metrics.
From S2P Require Import Providers.
From S2P Require Import Shard.
From S2P Require Import Store.
From S2P Require Import ShardSpec.
From S2P Require Import StoreSpec.
From S2P Require Import KeySpace.
From S2P Require Import Ttl.
From S2P Require Import RespCodec.
From S2P Require Import PubSub.
From S2P Require Import Server.
From S2P Require Import HandlersKV.
From S2P Require Import HandlersData.
From S2P Require Import Mcp.
From S2P Require Import McpSpec.
From S2P Require Import Session.
From S2P Require Import SessionSpec.
From S2P Require Import Effects.
From S2P Require Import Programs.
From S2P Require Import Scripts.

Open Scope Z_scope.
Open Scope go_scope.

(** A look at the connection's own state or at the configuration. *)
Definition reads {A} (m : H A) : Prop := ∀ w, (m w).2 = w ∧
  ∀ w', cs w' = cs w → Auth (deps w') = Auth (deps w) → (m w').1 = (m w).1.
(** Reads, then at most one other call, then the answer. *)
Fixpoint one_call {A} (p : prog A) : Prop :=
  match p with
  | Done _ => True
  | Invoke m k => (reads m ∧ ∀ x, one_call (k x)) ∨ (∀ x, ∃ o, k x = Done o)
  | Lock _ | Unlock _ => False
  end.

Lemma reads_get_cs : reads get_cs.
Proof. intros w. split; [done|]. by intros w' E _; cbn; rewrite E. Qed.
Lemma reads_get_Auth : reads get_Auth.
Proof. intros w. split; [done|]. by intros w' _ E; cbn; rewrite E. Qed.

(** ** Computing a program up to its next call *)

Lemma if_or {A} (b : bool) (x y : A) : (if b then x else y) = x ∨ (if b then x else y) = y.
Proof. destruct b; auto. Qed.
Lemma option_or {A B} (o : option B) (f : B → A) (y : A) :
  (∃ x, match o with Some x => f x | None => y end = f x) ∨ match o with Some x => f x | None => y end = y.
Proof. destruct o; eauto. Qed.

Ltac scrutinee t :=
  match t with
  | context [match ?x with _ => _ end] =>
      lazymatch x with context [match _ with _ => _ end] => scrutinee x | _ => x end
  end.
(** Goes into the branches of what the program is stuck at. *)
Ltac split_on q :=
  first [match q with context [match ?o with Some x => @?f x | None => ?y end] =>
           destruct (option_or o f y) as [[? ->] | ->] end
        |match q with context [if ?b then ?x else ?y] => destruct (if_or b x y) as [-> | ->] end
        |let x := scrutinee q in destruct x].
Ltac next_call p := eval hnf in p.
Ltac unstick q := eval lazy beta iota zeta delta [prog_of pbind scripted_option scripted_test scripted_bind
  scripted_args_from scripted_ret scripted_call scripted_any scripted_arg scripted_bind_arg scripted_panic scripted_zadd] in q.
Ltac one_call_step :=
  lazymatch goal with
  | |- one_call ?p =>
      let q := next_call p in
      lazymatch q with
      | Done _ => exact I
      | Invoke get_cs _ => change (one_call q); left; split; [exact reads_get_cs|intros ?]
      | Invoke _ _ => change (one_call q); right; intros ?
      | _ => let q := unstick q in change (one_call q); split_on q
      end
  | |- ∃ o, ?p = Done o =>
      let q := next_call p in
      lazymatch q with
      | Done ?o => exists o; reflexivity
      | _ => let q := unstick q in change (∃ o, q = Done o); split_on q
      end
  end.

Section one_call.
Context `{Runtime} {HR : RuntimeLaws} `{FloatText} `{KeyCodec} `{Services} {HS : ServicesLaws} `{Encoding}.

(** A command is dispatched to its handler's program. *)
Lemma program_one_call key a0 rest c Sc : ToUpper a0 = key → find_entry key _ command_table = Some (existT c Sc) →
  (∀ Ha, one_call (prog_of (Sc (a0 :: rest) Ha))) → one_call (program (a0 :: rest)).
Proof using Type.
  intros <- Hf Hs. change (program (a0 :: rest)) with
   (dispatch_prog (λ c (Sc : programmed false True c) args Ha, prog_of (Sc args Ha))
      (find_entry (ToUpper a0) _ command_table) a0 rest).
  rewrite Hf. cbn [dispatch_prog one_call].
  left. split; [apply reads_get_Auth|intros a]. left. split; [apply reads_get_cs|intros cl].
  destruct (_ && _); [done|]. destruct (Bool.bool_dec _ _) as [Ha|Ha]; destruct (_ && _); try done; try apply Hs;
    right; intros; eauto.
Qed.

Definition atomic_commands : list string :=
  ["PING"; "ECHO"; "MULTI"; "DISCARD"; "UNWATCH";
   "EXPIRE"; "PEXPIRE"; "TTL"; "PTTL"; "PERSIST"; "TYPE"; "RENAME";
   "GET"; "SET"; "STRLEN";
   "HSET"; "HGET"; "HGETALL"; "HDEL"; "HEXISTS"; "HKEYS"; "HVALS"; "HLEN"; "HMGET"; "HINCRBY";
   "LPUSH"; "RPUSH"; "LPOP"; "RPOP"; "LRANGE"; "LLEN"; "LINDEX"; "LSET"; "LREM";
   "SADD"; "SREM"; "SMEMBERS"; "SISMEMBER"; "SCARD";
   "ZADD"; "ZREM"; "ZRANGE"; "ZREVRANGE"; "ZSCORE"; "ZRANK"; "ZCARD"; "ZINCRBY"; "ZRANGEBYSCORE"].

Ltac entry_one_call :=
  match goal with E : ToUpper ?a0 = _ |- one_call (program (?a0 :: ?rest)) =>
    eapply program_one_call; [exact E|reflexivity|]; clear E; intros Ha;
    pose proof (proj1 (arity_min _ _ Ha)) as Hlo; cbn [MinArgs] in Hlo; unfold len in Hlo;
    repeat (destruct rest as [|? rest]; [exfalso; clear -Hlo; cbn [length] in Hlo; lia|]) end;
  with_strategy opaque [Z.eqb Z.ltb Z.leb Z.modulo String.eqb negb andb orb] (repeat one_call_step).
Lemma atomic_one_call a0 rest : ToUpper a0 ∈ atomic_commands → one_call (program (a0 :: rest)).
Proof using Type.
  unfold atomic_commands. intros E. repeat (apply elem_of_cons in E as [E|E]; [entry_one_call|]).
  by apply not_elem_of_nil in E.
Qed.
End one_call.
