(* ===== verification/Cluster.v ===== *)
(** * The process: connections, forwarders, MCP and the reaper together

    What server.go runs around the shared dependencies: the goroutines of the
    connections (internal/server/resp/conn.go), the forwarders that push
    published messages (handlers_pubsub.go), the MCP tool calls
    (internal/mcp/server.go) and the reaper (internal/storage/ttl/reaper.go).
    [serve] is one event of one of them; a run is any list of events, in any
    order.  A command, and a tool call, is one event; Interleave.v takes them apart,
    and every run of this file is one of its runs. *)

From S2P Require Import Prelude.
From S2P Require Import GoStd.
From S2P Require Import Auth.
From S2P Require Import Similarity.
From S2P Require Import Caches.
From S2P Require Import Memory.
From S2P Require Import Graph.
From S2P Require Import Metrics.
From S2P Require Import Providers.
From S2P Require Import Shard.
From S2P Require Import Store.
From S2P Require Import ShardSpec.
From S2P Require Import StoreSpec.
From S2P Require Import KeySpace.
From S2P Require Import Ttl.
From S2P Require Import RespCodec.
From S2P Require Import PubSub.
From S2P Require Import Server.
From S2P Require Import HandlersKV.
From S2P Require Import HandlersData.
From S2P Require Import Mcp.
From S2P Require Import McpSpec.
From S2P Require Import Session.
From S2P Require Import SessionSpec.
From S2P Require Import SessionRun.
From S2P Require Import Effects.

Open Scope Z_scope.

Module process.

(** [wires] is what was written to each connection's buffered writer. *)
Record process := mkProcess {
  shared : Deps;
  clients : gmap pubsub.conn ClientState;
  wires : gmap pubsub.conn string;
  elapsed : nat;                       (** the ticks of the oracles *)
}.

(** [Read]: the loop of connection [i] reads, [s] being what is and will be
    unread.  [Hangup]: the loop ends because a write failed.  [Forward]: the
    forwarder takes a message.  [Sweep]: the reaper's ticker fired. *)
Inductive event :=
  | Open (i : pubsub.conn)
  | Read (i : pubsub.conn) (s : string)
  | Hangup (i : pubsub.conn)
  | Forward (i : pubsub.conn)
  | Call (c : mcp.call)
  | Sweep (order : gset string → list string).

Section process.
Context `{Runtime} `{FloatText} `{KeyCodec} `{Services} `{Encoding}.

(** The process after something ran as connection [i] with state [c]. *)
Definition world (P : process) (i : pubsub.conn) (c : ClientState) : World := mkWorld (shared P) c i (elapsed P).
Definition from_world (w : World) (P : process) : process := mkProcess (deps w) (clients P) (wires P) (ticks w).
Definition with_client (i : pubsub.conn) (c : ClientState) (P : process) : process :=
  mkProcess (shared P) (<[i := c]> (clients P)) (wires P) (elapsed P).
Definition write_to (i : pubsub.conn) (s : string) (P : process) : process :=
  mkProcess (shared P) (clients P) (<[i := default "" (wires P !! i) +:+ s]> (wires P)) (elapsed P).

(** The accept loop starts [HandleConn]; [i] is a state never used before. *)
Definition open (i : pubsub.conn) (P : process) : process :=
  match clients P !! i, pubsub.subChs (PubSub_ (shared P)) !! i with
  | None, None =>
      let w := accept_conn i (shared P) (elapsed P) in
      write_to i "" (with_client i (cs w) (from_world w P))
  | _, _ => P
  end.
(** The deferred calls of [HandleConn]. *)
Definition leave (i : pubsub.conn) (c : ClientState) (P : process) : process :=
  let P := from_world (teardown (world P i c)) P in
  mkProcess (shared P) (delete i (clients P)) (wires P) (elapsed P).
(** After the command that [w] is the world of: what was measured, its reply
    [r], and whether it was QUIT. *)
Definition complete (i : pubsub.conn) (args : list string) (start : time) (r : string) (w : World) (P : process) : process :=
  let w := executed args start w in
  let P := write_to i r (with_client i (cs w) (from_world w P)) in
  if Quit (cs w) then leave i (cs w) P else P.
(** One round of the loop; [None] is a panic, which ends the process. *)
Definition read (i : pubsub.conn) (s : string) (P : process) : option process :=
  match clients P !! i with
  | None => Some P
  | Some c =>
      match ReadCommand s with
      | ReadErr _ => Some (leave i c P)
      | ReadPanic => None
      | Got [] _ => Some P
      | Got args _ =>
          let start := clock (elapsed P) in
          match Handle 2 args (world P i c) with
          | (None, _) => None
          | (Some r, w) => Some (complete i args start (writeReply r) w P)
          end
      end
  end.
(** The forwarder: what it takes for a connection that is gone is not sent. *)
Definition forward (i : pubsub.conn) (P : process) : process :=
  let '(m, p) := pubsub.receive i (PubSub_ (shared P)) in
  match m with
  | None => P
  | Some m =>
      let P := mkProcess (set_PubSub p (shared P)) (clients P) (wires P) (elapsed P) in
      match clients P !! i with
      | None => P
      | Some _ => write_to i (write (pubsub.push_reply m)) P
      end
  end.
(** An MCP request is no connection's: it runs as one that never was. *)
Definition nobody (P : process) : pubsub.conn := base.fresh (dom (pubsub.subChs (PubSub_ (shared P)))).
Definition call (c : mcp.call) (P : process) : option process :=
  match mcp.CallTool c (world P (nobody P) NewClientState) with
  | (None, _) => None
  | (Some _, w) => Some (from_world w P)
  end.
Definition reaper : Reaper := Ttl.New (100 * Millisecond) 20.
Definition sweep (order : gset string → list string) (P : process) : process :=
  mkProcess (set_Engine (tick (clock (elapsed P), order) reaper (Engine (shared P))) (shared P))
    (clients P) (wires P) (S (elapsed P)).

Definition serve (e : event) (P : process) : option process :=
  match e with
  | Open i => Some (open i P)
  | Read i s => read i s P
  | Hangup i => Some (match clients P !! i with Some c => leave i c P | None => P end)
  | Forward i => Some (forward i P)
  | Call c => call c P
  | Sweep order => Some (sweep order P)
  end.
Fixpoint run (es : list event) (P : process) : option process :=
  match es with
  | [] => Some P
  | e :: es => match serve e P with Some P => run es P | None => None end
  end.
(** Before the first connection. *)
Definition boot (d : Deps) : process := mkProcess d ∅ ∅ 0.
End process.
End process.

Import process.

(** ** The invariant *)

Definition client_ok `{Runtime} `{FloatText} `{KeyCodec} `{Services} `{Encoding}
    (i : pubsub.conn) (c : ClientState) (p : pubsub.PubSub) : Prop :=
  Forall queued_ok (Queued c) ∧ issuing i p ∧ agrees i c p.

Record process_ok `{Runtime} `{FloatText} `{KeyCodec} `{Services} `{Encoding} (P : process) : Prop := {
  po_store : store_inv (Engine (shared P));
  po_memory : mem_inv (MemoryStore_ (shared P));
  po_graph : graph_inv (GraphStore_ (shared P));
  po_broker : broker_ok (PubSub_ (shared P));
  po_client i c : clients P !! i = Some c → client_ok i c (PubSub_ (shared P));
  po_gone i : clients P !! i = None → agrees i NewClientState (PubSub_ (shared P));
  po_gauge : metrics.counters (Metrics_ (shared P)) metrics.connectionsActive = wrap64 (Z.of_nat (size (clients P)));
}.

(** What the surroundings promise: the decoder is not asked for more memory
    than there is ([ReadPanic]), and ranges are over what is there. *)
Definition event_ok `{UnicodeTables} (e : event) : Prop :=
  match e with
  | Read _ s => ReadCommand s ≠ ReadPanic
  | Sweep order => range_order order
  | _ => True
  end.

Section invariant.
Context `{Runtime} {HR : RuntimeLaws} `{FloatText} `{KeyCodec} `{Services} {HS : ServicesLaws} `{Encoding}.

Lemma open_ok i P : process_ok P → process_ok (open i P).
Proof using All.
  intros [I1 I2 I3 I4 I5 I6 I7]. unfold open. destruct (clients P !! i) as [c|] eqn:Ec; [done|].
  destruct (pubsub.subChs (PubSub_ (shared P)) !! i) as [ch|] eqn:Es; [done|]. split; cbn; try done.
  - intros j c [[<- <-]|[Hne Hj]]%lookup_insert_Some; [|by apply I5]. split_and!; [constructor| |by apply I6].
    intros ch Hch. congruence.
  - intros j [Hj _]%lookup_insert_None. by apply I6.
  - unfold metrics.ConnectionOpened. cbn [metrics.counters metrics.Add]. rewrite decide_True by done. rewrite decide_False by done.
    rewrite I7, map_size_insert_None by done. rewrite wrap64_add. f_equal. lia.
Qed.

Lemma cleanup_others i j c p : j ≠ i → client_ok j c p → client_ok j c (pubsub.cleanupSubscriptions i p).
Proof using All.
  intros Hj (HQ & Hi & [A1 A2]). unfold pubsub.cleanupSubscriptions.
  destruct (pubsub.subChs p !! i) as [ch|] eqn:E; [|done]. split_and!; [done| |split].
  - intros x. cbn. rewrite lookup_alter_ne by done. apply Hi.
  - intros x. cbn. rewrite subscribed_everywhere, <- A1. tauto.
  - intros x. cbn. rewrite subscribed_everywhere, <- A2. tauto.
Qed.
Lemma cleanup_gone i j p : broker_ok p → (j = i ∨ agrees j NewClientState p) →
  agrees j NewClientState (pubsub.cleanupSubscriptions i p).
Proof using All.
  intros I Hj. unfold pubsub.cleanupSubscriptions. destruct (pubsub.subChs p !! i) as [ch|] eqn:E.
  - destruct Hj as [->|[A1 A2]]; (split; intros x; cbn; rewrite subscribed_everywhere).
    + split; [by intros ?%not_elem_of_empty|by intros [_ ?]].
    + split; [by intros ?%not_elem_of_empty|by intros [_ ?]].
    + rewrite <- A1. cbn. set_solver.
    + rewrite <- A2. cbn. set_solver.
  - destruct Hj as [->|HA]; [|done]. split; intros x; cbn;
      (split; [by intros ?%not_elem_of_empty|intros Hx; by apply (unregistered i p x I E) in Hx]).
Qed.
Lemma leave_ok i c P : process_ok P → clients P !! i = Some c → process_ok (leave i c P).
Proof using All.
  intros [I1 I2 I3 I4 I5 I6 I7] Hi. split; cbn; try done.
  - eapply step_ok; [exact I4|apply step_close].
  - intros j cj [Hne Hj]%lookup_delete_Some. by apply cleanup_others; [|apply I5].
  - intros j Hj. apply cleanup_gone; [done|]. apply lookup_delete_None in Hj as [->|Hj]; [by left|right; by apply I6].
  - unfold metrics.ConnectionClosed. cbn [metrics.counters metrics.Add]. rewrite decide_True by done.
    rewrite I7. pose proof (map_size_delete_Some i (clients P) (ltac:(eauto))) as E. rewrite E, wrap64_add. f_equal.
    assert (size (clients P) ≠ 0%nat); [|lia]. intros Z0%map_size_empty_iff. rewrite Z0 in Hi. by rewrite lookup_empty in Hi.
Qed.

(** A command, where it is run. *)
Lemma world_queue_ok i c P : process_ok P → clients P !! i = Some c → queue_ok (world P i c).
Proof using All. intros [I1 I2 I3 I4 I5 I6 I7] Hi. destruct (I5 i c Hi) as (HQ & HI & _). by split. Qed.

(** The process after the acts of a connection or of a tool call. *)
Lemma progress_ok n i c P w : process_ok P → progress (world P i c) n w →
  store_inv (Engine (deps w)) ∧ mem_inv (MemoryStore_ (deps w)) ∧ graph_inv (GraphStore_ (deps w)) ∧
  broker_ok (PubSub_ (deps w)) ∧
  (∀ j cj, j ≠ i → clients P !! j = Some cj → client_ok j cj (PubSub_ (deps w))) ∧
  (∀ j, j ≠ i → clients P !! j = None → agrees j NewClientState (PubSub_ (deps w))) ∧
  metrics.counters (Metrics_ (deps w)) metrics.connectionsActive = wrap64 (Z.of_nat (size (clients P))).
Proof using All.
  intros [I1 I2 I3 I4 I5 I6 I7] []. cbn in *. split_and!; auto.
  - by apply pr_engine.
  - intros j cj Hj Hc. destruct (I5 j cj Hc) as (HQ & HI & HA). split_and!; [done|auto|auto].
  - destruct pr_gauges as (_ & -> & _). done.
Qed.

(** The process after connection [i] acted, and after its command ended. *)
Lemma stepped_ok n i c P w : process_ok P → clients P !! i = Some c → progress (world P i c) n w →
  Forall queued_ok (Queued (cs w)) → process_ok (with_client i (cs w) (from_world w P)).
Proof using All.
  intros I Ec Hp HQ. destruct (progress_ok n i c P w I Hp) as (J1 & J2 & J3 & J4 & J5 & J6 & J7). split; try done.
  - intros j cj Hj. cbn in Hj. apply lookup_insert_Some in Hj as [[<- <-]|[Hne Hj]]; [|by apply J5; [congruence|]].
    destruct (po_client _ I i c Ec) as (_ & Hi & HA). split_and!; [done|by apply (pr_issuing _ _ _ Hp)|].
    pose proof (pr_agrees _ _ _ Hp HA) as HA'. by rewrite (pr_me _ _ _ Hp) in HA'.
  - intros j Hj. cbn in Hj. apply lookup_insert_None in Hj as [Hj Hne]. by apply J6; [congruence|].
  - cbn. rewrite map_size_insert_Some by eauto. exact J7.
Qed.
Lemma complete_ok i args start r w P : process_ok (with_client i (cs w) (from_world w P)) → process_ok (complete i args start r w P).
Proof using All.
  intros I. unfold complete. cbv zeta. set (w2 := executed args start w). set (P2 := write_to i r _).
  assert (I2 : process_ok P2) by (destruct I; by split).
  destruct (Quit (cs w2)); [|done]. apply leave_ok; [done|]. cbn. by rewrite lookup_insert_eq.
Qed.

Lemma read_event_ok i s P : process_ok P → ReadCommand s ≠ ReadPanic → ∃ P', read i s P = Some P' ∧ process_ok P'.
Proof using All.
  intros I Hs. unfold read. destruct (clients P !! i) as [c|] eqn:Ec; [|by eauto].
  destruct (ReadCommand s) as [args rest|e|]; [|by eauto using leave_ok|done].
  destruct args as [|a0 args]; [by eauto|]. pose proof (world_queue_ok i c P I Ec) as Hw.
  destruct (Handle_2_replies a0 args (world P i c) Hw) as (r & w & E & Hq).
  destruct (Handle_progress (a0 :: args) (world P i c) Hw) as (n & _ & Hp). rewrite E in *. cbn [snd] in Hp.
  eexists. split; [reflexivity|]. apply (complete_ok i (a0 :: args) (clock (elapsed P)) (writeReply (Some r))).
  eapply stepped_ok; eauto. apply Hq.
Qed.

Lemma receive_client i j c p : broker_ok p → client_ok j c p → client_ok j c (pubsub.receive i p).2.
Proof using All.
  intros I (HQ & Hi & HA). unfold pubsub.receive. destruct (pubsub.subChs p !! i) as [[[|m b] cl]|] eqn:E; [done| |done].
  split_and!; [done| |done]. intros x. cbn. intros [[<- <-]|[_ Hx]]%lookup_insert_Some; [|by apply Hi]. apply (Hi _ E).
Qed.
Lemma receive_tables i p : pubsub.channels (pubsub.receive i p).2 = pubsub.channels p ∧
  pubsub.patterns (pubsub.receive i p).2 = pubsub.patterns p.
Proof using All. unfold pubsub.receive. by destruct (pubsub.subChs p !! i) as [[[|m b] cl]|]. Qed.
Lemma forward_ok i P : process_ok P → process_ok (forward i P).
Proof using All.
  intros I. destruct (I) as [I1 I2 I3 I4 I5 I6 I7]. unfold forward.
  pose proof (receive_client i) as HC. pose proof (receive_tables i (PubSub_ (shared P))) as HT.
  pose proof (step_ok _ _ I4 (step_receive (PubSub_ (shared P)) i)) as HB.
  destruct (pubsub.receive i (PubSub_ (shared P))) as [[m|] p] eqn:E; [|done]. cbn [snd] in *.
  assert (I' : process_ok (mkProcess (set_PubSub p (shared P)) (clients P) (wires P) (elapsed P))).
  { split; cbn; try done.
    - intros j c Hc. replace p with (pubsub.receive i (PubSub_ (shared P))).2 by (by rewrite E). apply HC; auto.
    - intros j Hj. unfold agrees. destruct HT as [-> ->]. by apply I6. }
  cbn [clients]. destruct (clients P !! i); [|done]. destruct I'. by split.
Qed.

(** A request runs as nobody, and leaves the broker alone. *)
Lemma nobody_ok P : process_ok P → queue_ok (world P (nobody P) NewClientState).
Proof using All.
  intros I. split; [constructor|]. split; [apply I|]. intros x Hx. exfalso. revert x Hx. cbn.
  assert (Hi : pubsub.subChs (PubSub_ (shared P)) !! nobody P = None)
    by (apply not_elem_of_dom; exact (is_fresh (dom (pubsub.subChs (PubSub_ (shared P)))))). congruence.
Qed.
Lemma beside_ok n i P w : process_ok P → progress (world P i NewClientState) n w →
  PubSub_ (deps w) = PubSub_ (shared P) → process_ok (from_world w P).
Proof using All.
  intros I Hp EB. destruct (progress_ok n i NewClientState P w I Hp) as (J1 & J2 & J3 & J4 & J5 & J6 & J7).
  split; try done; cbn.
  - intros j cj Hj. rewrite EB. by apply (po_client _ I).
  - intros j Hj. rewrite EB. by apply (po_gone _ I).
Qed.
Lemma call_ok c P : process_ok P → ∃ P', call c P = Some P' ∧ process_ok P'.
Proof using All.
  intros I. unfold call. destruct (nobody_ok P I) as [_ Hw].
  destruct (CallTool_framed c (world P (nobody P) NewClientState)) as (a & w & E & F). rewrite E.
  destruct (CallTool_traced c (world P (nobody P) NewClientState) Hw) as (n & Hn & Ha). rewrite E in Ha. cbn [snd] in Ha.
  eexists. split; [done|]. eapply beside_ok; [done|by apply acts_progress|apply (mf_broker _ _ F)].
Qed.

Lemma tick_loop_drops (e : sweep_env) r is_ : ∀ s, store_inv s → range_order e.2 →
  Forall (λ i, Z.of_nat i < NumShards s) is_ →
  drops (λ _ en, expired en e.1 = true) s (tick_loop e r is_ s) ∧ evolves (length is_) s (tick_loop e r is_ s).
Proof using Type.
  induction is_ as [|i is_ IH]; intros s I Ho Hi; cbn [tick_loop]; [split; [by apply drops_refl|by apply evolves_refl]|].
  apply Forall_cons in Hi as [Hi His].
  destruct (SweepShard_drops e s i (sampleSize r) (conj I Ho) Hi) as [D _].
  change (SweepShard e.1 e.2 (Z.to_nat (Z.of_nat i)) (sampleSize r) s) with
    (sw_SweepShard e (Z.of_nat i) (sampleSize r) s) in D.
  destruct (IH _ (dr_inv _ _ _ D) Ho) as [D2 E2].
  { destruct (dr_config _ _ _ D) as [Hc _]. eapply Forall_impl; [exact His|]. intros j Hj. cbv beta in *. lia. }
  split; [by eapply drops_trans|]. change (length (i :: is_)) with (1 + length is_)%nat.
  eapply evolves_trans; [by eapply drops_evolves|exact E2].
Qed.
Lemma tick_drops (e : sweep_env) r s : store_inv s → range_order e.2 →
  drops (λ _ en, expired en e.1 = true) s (tick e r s) ∧ evolves (length (shards s)) s (tick e r s).
Proof using Type.
  intros I Ho. unfold tick. replace (length (shards s)) with (length (seq 0 (Z.to_nat (sw_NumShards s)))).
  - apply tick_loop_drops; [done|done|]. apply Forall_forall. intros i Hi%elem_of_seq. cbn in *. lia.
  - rewrite length_seq. cbn. unfold NumShards, len. lia.
Qed.
Lemma sweep_ok order P : process_ok P → range_order order → process_ok (sweep order P).
Proof using All.
  intros [I1 I2 I3 I4 I5 I6 I7] Ho. split; try done.
  apply (dr_inv _ _ _ (proj1 (tick_drops (clock (elapsed P), order) reaper _ I1 Ho))).
Qed.

Lemma serve_ok e P : process_ok P → event_ok e → ∃ P', serve e P = Some P' ∧ process_ok P'.
Proof using All.
  intros I He. destruct e as [i|i s|i|i|c|order]; cbn [serve].
  - eauto using open_ok.
  - by apply read_event_ok.
  - destruct (clients P !! i) as [c|] eqn:Ec; eauto using leave_ok.
  - eauto using forward_ok.
  - by apply call_ok.
  - eauto using sweep_ok.
Qed.
Lemma run_ok es : ∀ P, process_ok P → Forall event_ok es → ∃ P', run es P = Some P' ∧ process_ok P'.
Proof using All.
  induction es as [|e es IH]; intros P I He; cbn [run]; [by eauto|]. apply Forall_cons in He as [He Hes].
  destruct (serve_ok e P I He) as (P1 & -> & I1). by apply IH.
Qed.
End invariant.
