(* ===== verification/ClusterSpec.v ===== *)
(** * What clients of one process can rely on

    Properties of whole runs of Cluster.v: a server that starts keeps its
    invariants and never crashes; optimistic locking with WATCH holds across
    connections; workspaces stay apart; and subscribers are sent what was
    published, in order.  A command is one event, as in Cluster.v. *)

From S2P Require Import Prelude.
From S2P Require Import GoStd.
From S2P Require Import Floats.
From S2P Require Import Auth.
From S2P Require Import Similarity.
From S2P Require Import Caches.
From S2P Require Import Memory.
From S2P Require Import Graph.
From S2P Require Import Metrics.
From S2P Require Import Providers.
From S2P Require Import Shard.
From S2P Require Import Store.
From S2P Require Import ShardSpec.
From S2P Require Import StoreSpec.
From S2P Require Import EngineMulti.
From S2P Require Import KeySpace.
From S2P Require Import KeyScan.
From S2P Require Import Engine.
From S2P Require Import RespCodec.
From S2P Require Import PubSub.
From S2P Require Import Server.
From S2P Require Import HandlersKV.
From S2P Require Import HandlersData.
From S2P Require Import HandlersPubSub.
From S2P Require Import Mcp.
From S2P Require Import McpSpec.
From S2P Require Import Session.
From S2P Require Import SessionSpec.
From S2P Require Import SessionRun.
From S2P Require Import TxSpec.
From S2P Require Import Confine.
From S2P Require Import TenantStores.
From S2P Require Import Isolation.
From S2P Require Import Effects.
From S2P Require Import Ttl.
From S2P Require Import Startup.
From S2P Require Import Cluster.

Open Scope Z_scope.
Open Scope go_scope.

Import process.

(** ** Runs *)

(** How many times one event can move a key's version. *)
Definition weight `{Runtime} (e : event) (P : process) : nat :=
  match e with
  | Read i s =>
      match clients P !! i, ReadCommand s with
      | Some c, Got args _ => 8 * (length args + words (Queued c))
      | _, _ => 0
      end
  | Sweep _ => length (shards (Engine (shared P)))
  | _ => 0
  end.
Fixpoint weights `{Runtime} `{FloatText} `{KeyCodec} `{Services} `{Encoding} (es : list event) (P : process) : nat :=
  match es with
  | [] => 0
  | e :: es => weight e P + match serve e P with Some P => weights es P | None => 0 end
  end.

Section runs.
Context `{Runtime} {HR : RuntimeLaws} `{FloatText} `{KeyCodec} `{Services} {HS : ServicesLaws} `{Encoding}.

Lemma run_app es1 es2 P : run (es1 ++ es2) P = match run es1 P with Some P => run es2 P | None => None end.
Proof using Type. revert P. induction es1 as [|e es1 IH]; intros P; cbn [app run]; [done|]. by destruct (serve e P). Qed.
Lemma weights_app es1 es2 P :
  weights (es1 ++ es2) P = (weights es1 P + match run es1 P with Some P => weights es2 P | None => 0 end)%nat.
Proof using Type.
  revert P. induction es1 as [|e es1 IH]; intros P; cbn [app run weights]; [done|].
  destruct (serve e P); [rewrite IH; lia|lia].
Qed.

Lemma serve_evolves e P P' : process_ok P → event_ok e → serve e P = Some P' →
  evolves (weight e P) (Engine (shared P)) (Engine (shared P')) ∧ Auth (shared P') = Auth (shared P).
Proof using HR HS.
  intros I He. pose proof (po_store _ I) as IS. assert (E0 : ∀ n, evolves n (Engine (shared P)) (Engine (shared P))) by (intros; by apply evolves_refl).
  destruct e as [i|i s|i|i|c|order]; cbn [serve weight].
  - intros [= <-]. unfold open. repeat case_match; by split; try apply E0.
  - unfold read, complete. destruct (clients P !! i) as [c|] eqn:Ec; [|intros [= <-]; by split; try apply E0].
    destruct (ReadCommand s) as [args rest|e|]; [|intros [= <-]; by split; try apply E0|done].
    destruct args as [|a0 args]; [intros [= <-]; by split; try apply E0|].
    pose proof (world_queue_ok i c P I Ec) as Hw.
    destruct (Handle_progress (a0 :: args) (world P i c) Hw) as (n & Hn & Hp).
    destruct (Handle 2 (a0 :: args) (world P i c)) as [[r|] w]; [|done]. cbn [snd] in Hp. cbv zeta.
    set (w2 := executed (a0 :: args) (clock (elapsed P)) w).
    intros [= <-]. assert (G : evolves (8 * (length (a0 :: args) + words (Queued c))) (Engine (shared P)) (Engine (deps w))).
    { eapply evolves_weaken; [by apply (pr_engine _ _ _ Hp)|exact Hn]. }
    assert (A : Auth (deps w) = Auth (shared P)) by apply (pr_auth _ _ _ Hp).
    destruct (Quit _); (split; [exact G|exact A]).
  - intros [= <-]. destruct (clients P !! i); by split; try apply E0.
  - intros [= <-]. unfold forward. destruct (pubsub.receive i _) as [[m|] p]; [|by split; try apply E0]. cbn [clients].
    destruct (clients P !! i); by split; try apply E0.
  - unfold call. destruct (CallTool_framed c (world P (nobody P) NewClientState)) as (a & w & E & F). rewrite E.
    intros [= <-]. cbn. rewrite (mf_engine _ _ F). split; [apply E0|apply (mf_auth _ _ F)].
  - intros [= <-]. split; [|done]. by apply (tick_drops (clock (elapsed P), order) reaper).
Qed.
Lemma run_evolves es : ∀ P P', process_ok P → Forall event_ok es → run es P = Some P' →
  evolves (weights es P) (Engine (shared P)) (Engine (shared P')) ∧ Auth (shared P') = Auth (shared P) ∧ process_ok P'.
Proof using HR HS.
  induction es as [|e es IH]; intros P P' I He; cbn [run weights].
  - intros [= <-]. split_and!; [apply evolves_refl, I|done|done].
  - apply Forall_cons in He as [He Hes]. destruct (serve_ok e P I He) as (P1 & E & I1). rewrite E. intros HP.
    destruct (serve_evolves e P P1 I He E) as [G1 A1]. destruct (IH P1 P' I1 Hes HP) as (G2 & A2 & I2).
    split_and!; [by eapply evolves_trans|congruence|done].
Qed.
End runs.

(** ** One client's commands among everybody's events *)

(** Events of connection [i]'s own loop. *)
Definition own (i : pubsub.conn) (e : event) : Prop :=
  match e with Read j _ | Hangup j => j = i | _ => False end.
#[export] Instance own_dec i e : Decision (own i e).
Proof. destruct e; cbn; apply _. Defined.

(** The client may send commands: it has authenticated, or need not. *)
Definition admitted (a : auth.Authenticator) (c : ClientState) : Prop :=
  auth.Required a && negb (Authenticated c) = false.

Section commands.
Context `{Runtime} {HR : RuntimeLaws} `{FloatText} `{KeyCodec} `{Services} {HS : ServicesLaws} `{Encoding}.

(** Dispatching a command of the table outside MULTI, or one that is not queued. *)
Lemma Handle_runs a0 rest w c : RegisterAll (Handle 1) commandCount !! ToUpper a0 = Some c →
  admitted (Auth (deps w)) (cs w) → InMulti (cs w) && negb (NoQueue c) = false → arityOK c (len (a0 :: rest)) = true →
  Handle 2 (a0 :: rest) w = (let '(r, w') := Handler c (a0 :: rest) w in (Some <$> r, w')).
Proof using Type.
  intros Hc Ha Hm Hn. change (Handle 2 (a0 :: rest)) with (dispatch (RegisterAll (Handle 1) commandCount) (a0 :: rest)).
  cbn [dispatch]. rewrite Hc. unfold hbind, bind, get_Auth, get_cs, hret, ret. unfold admitted in Ha.
  replace (auth.Required (Auth (deps w)) && negb (Authenticated (cs w)) && negb (AllowedNoAuth c)) with false
    by (by rewrite Ha). rewrite Hm, Hn. cbn [negb]. by destruct (Handler c (a0 :: rest) w) as [[r|] w'].
Qed.
Lemma Handle_MULTI w : InMulti (cs w) = false → admitted (Auth (deps w)) (cs w) →
  Handle 2 ["MULTI"] w = (Some (Some OK), set_cs (set_Multi true false [] (cs w)) w).
Proof using Type.
  intros Hm Ha. erewrite Handle_runs; [|reflexivity|done|by rewrite Hm|reflexivity].
  cbn [Handler]. unfold handleMulti, hbind, bind, get_cs, put_cs, hret, ret. by rewrite Hm.
Qed.
Definition watching (keys : list string) (w : World) : ClientState :=
  set_Watched (foldl (λ m k, <[k := version_of_key w k]> m) (Watched (cs w)) keys) (cs w).
Lemma Handle_WATCH keys w : keys ≠ [] → InMulti (cs w) = false → admitted (Auth (deps w)) (cs w) →
  store_inv (Engine (deps w)) → Handle 2 ("WATCH" :: keys) w = (Some (Some OK), set_cs (watching keys w) w).
Proof using Type.
  intros Hk Hm Ha I. erewrite Handle_runs; [|reflexivity|done|by rewrite Hm|].
  - cbn [Handler]. unfold handleWatch, hbind, bind, get_cs, hret, ret. rewrite Hm.
    change (args_from ("WATCH" :: keys) 1 w) with (Some keys, w). cbv beta iota. by rewrite watch_loop_ok.
  - destruct keys; [done|]. unfold arityOK, len. cbn [MinArgs MaxArgs length].
    destruct (Z.ltb_spec (Z.of_nat (S (S (length keys)))) 2); [lia|done].
Qed.
Lemma Handle_queues args w : InMulti (cs w) = true → admitted (Auth (deps w)) (cs w) → queued_ok args →
  Handle 2 args w =
  (Some (Some (Simple "QUEUED")), set_cs (set_Multi (InMulti (cs w)) (MultiError (cs w)) (Queued (cs w) ++ [args]) (cs w)) w).
Proof using Type.
  intros Hm Ha Hq. destruct (proj1 (queued_ok_any (Handle 1) commandCount args) Hq) as (a0 & rest & c & -> & Hc & HQ & Hn).
  change (Handle 2 (a0 :: rest)) with (dispatch (RegisterAll (Handle 1) commandCount) (a0 :: rest)).
  cbn [dispatch]. rewrite Hc. unfold hbind, bind, get_Auth, get_cs, put_cs, hret, ret. unfold admitted in Ha.
  replace (auth.Required (Auth (deps w)) && negb (Authenticated (cs w)) && negb (AllowedNoAuth c)) with false
    by (by rewrite Ha). replace (InMulti (cs w) && negb (NoQueue c)) with true by (by rewrite Hm, HQ). by rewrite Hn.
Qed.
Lemma Handle_EXEC w : admitted (Auth (deps w)) (cs w) →
  Handle 2 ["EXEC"] w = (let '(r, w') := handleExec (Handle 1) ["EXEC"] w in (Some <$> r, w')).
Proof using Type. intros Ha. erewrite Handle_runs; [|reflexivity|done|by rewrite andb_false_r|reflexivity]. reflexivity. Qed.

(** The loop reads an encoded command. *)
Lemma reads_encoded args : sendable args → ReadCommand (encode args) = Got args "".
Proof using Type. intros Hs. pose proof (command_roundtrip args "" Hs) as E. by rewrite str_app_nil_r in E. Qed.
Definition answered (i : pubsub.conn) (args : list string) (r : Reply) (w : World) (P : process) : process :=
  write_to i (write r) (with_client i (cs w) (from_world (executed args (clock (elapsed P)) w) P)).
Lemma read_command i args P c r w : clients P !! i = Some c → sendable args →
  Handle 2 args (world P i c) = (Some (Some r), w) →
  serve (Read i (encode args)) P = Some (if Quit (cs w) then leave i (cs w) (answered i args r w P) else answered i args r w P).
Proof using Type.
  intros Hc Hs Hh. cbn [serve]. unfold read, complete. rewrite Hc, reads_encoded by done. destruct args as [|a0 args]; [by destruct Hs|]. by rewrite Hh.
Qed.

Lemma event_ok_encode i args : sendable args → event_ok (Read i (encode args)).
Proof using Type. intros Hs. unfold event_ok. by rewrite reads_encoded. Qed.

(** Other events leave the connection's state alone. *)
Lemma foreign_client i e P P' c : ¬ own i e → serve e P = Some P' → clients P !! i = Some c → clients P' !! i = Some c.
Proof using Type.
  intros Ho Hs Hc. destruct e as [j|j s|j|j|cl|order]; cbn [serve own] in *.
  - injection Hs as <-. unfold open. destruct (clients P !! j) eqn:Ej; [done|]. case_match; [done|]. cbn.
    rewrite lookup_insert_ne; [done|congruence].
  - revert Hs. unfold read, complete. destruct (clients P !! j) as [cj|]; [|by intros [= <-]].
    destruct (ReadCommand s) as [[|a0 args] rest|err|]; [by intros [= <-]| |intros [= <-]; cbn; by rewrite lookup_delete_ne|done].
    destruct (Handle 2 (a0 :: args) (world P j cj)) as [[r|] w]; [|done]. cbv zeta.
    set (w2 := executed (a0 :: args) (clock (elapsed P)) w). intros [= <-]. destruct (Quit _); cbn.
    + by rewrite lookup_delete_ne, lookup_insert_ne.
    + by rewrite lookup_insert_ne.
  - injection Hs as <-. destruct (clients P !! j); cbn; [by rewrite lookup_delete_ne|done].
  - injection Hs as <-. unfold forward. destruct (pubsub.receive j _) as [[m|] p]; [|done]. cbn [clients]. by destruct (clients P !! j).
  - revert Hs. unfold call. destruct (mcp.CallTool cl _) as [[a|] w]; [|done]. by intros [= <-].
  - by injection Hs as <-.
Qed.
Lemma foreign_run i es : ∀ P P' c, Forall (λ e, ¬ own i e) es → run es P = Some P' →
  clients P !! i = Some c → clients P' !! i = Some c.
Proof using Type.
  induction es as [|e es IH]; intros P P' c Ho; cbn [run]; [by intros [= <-]|]. apply Forall_cons in Ho as [Ho Hos].
  destruct (serve e P) as [P1|] eqn:E; [|done]. intros HP Hc. eapply IH; [done|exact HP|by eapply foreign_client].
Qed.

(** Inside MULTI the client's commands are queued, whatever else happens. *)
Lemma queueing_run i es : ∀ P c qs, process_ok P → Forall event_ok es → clients P !! i = Some c →
  InMulti c = true → Quit c = false → admitted (Auth (shared P)) c →
  filter (own i) es = (λ a, Read i (encode a)) <$> qs → Forall queued_ok qs → Forall sendable qs →
  ∃ P', run es P = Some P' ∧ clients P' !! i = Some (set_Multi true (MultiError c) (Queued c ++ qs) c).
Proof using HR HS.
  induction es as [|e es IH]; intros P c qs I He Hc Hm Hq Ha Hf HQ Hs; cbn [run].
  - destruct qs; [|done]. exists P. split; [done|]. rewrite app_nil_r, Hc. f_equal. destruct c; cbn in *; by subst.
  - apply Forall_cons in He as [He Hes]. rewrite filter_cons in Hf. destruct (decide (own i e)) as [Ho|Ho].
    + destruct qs as [|q qs]; [done|]. rewrite fmap_cons in Hf. injection Hf as -> Hf.
      apply Forall_cons in HQ as [HQ1 HQ], Hs as [Hs1 Hs].
      pose proof (Handle_queues q (world P i c) Hm Ha HQ1) as Hh.
      pose proof (read_command i q P c _ _ Hc Hs1 Hh) as HR1. cbn [cs set_cs world] in HR1.
      change (Quit (set_Multi _ _ _ c)) with (Quit c) in HR1. rewrite Hq in HR1.
      destruct (serve_ok _ P I He) as (P1 & E1 & I1). rewrite E1 in HR1. rewrite E1. injection HR1 as HP1.
      destruct (IH P1 (set_Multi true (MultiError c) (Queued c ++ [q]) c) qs I1 Hes) as (P' & HP' & Hc'); try done.
      * rewrite HP1. cbn. rewrite lookup_insert_eq. by rewrite Hm.
      * by rewrite HP1.
      * exists P'. split; [done|]. rewrite Hc'. cbn. by rewrite <- (assoc_L (++)).
    + destruct (serve_ok e P I He) as (P1 & E1 & I1). rewrite E1.
      destruct (serve_evolves e P P1 I He E1) as [_ A1].
      apply (IH P1 c qs I1 Hes); try done; [by eapply foreign_client|by rewrite A1].
Qed.

(** EXEC of a transaction whose watched versions were read in [s]. *)
Lemma exec_read i c (keys : list string) qs s n P : process_ok P → clients P !! i = Some c → InMulti c = true → MultiError c = false →
  Queued c = qs → admitted (Auth (shared P)) c →
  (∀ k, k ∈ keys → Watched c !! k = Some (version_at s (nsKey (Workspace c) k))) →
  store_inv s → evolves n s (Engine (shared P)) → Z.of_nat n < 2 ^ 64 →
  ∃ P' rep, serve (Read i (encode ["EXEC"])) P = Some P' ∧
    wires P' !! i = Some (default "" (wires P !! i) +:+ write rep) ∧
    ((rep = NullArray ∧ Engine (shared P') = Engine (shared P)) ∨
     ((∀ k, k ∈ keys → content_at (Engine (shared P)) (nsKey (Workspace c) k) = content_at s (nsKey (Workspace c) k)) ∧
      ∃ rs w, exec_loop (Handle 1) qs (ended_tx (world P i c)) = (Some rs, w) ∧
        rep = ArraySlice rs ∧ Engine (shared P') = Engine (deps w))).
Proof using HR HS.
  intros I Hc Hm He Hq Ha HW IS G Hn. pose proof (po_store _ I) as I'.
  pose proof (Handle_EXEC (world P i c) Ha) as HE. rewrite handleExec_ok in HE by exact I'. cbn [cs world] in HE.
  rewrite Hm, He, Hq in HE. cbn [negb] in HE.
  assert (SE : sendable ["EXEC"]) by (apply sendable_small; [done|reflexivity|reflexivity]).
  assert (HF : ∀ rep w, Handle 2 ["EXEC"] (world P i c) = (Some (Some rep), w) →
    ∃ P', serve (Read i (encode ["EXEC"])) P = Some P' ∧ Engine (shared P') = Engine (deps w) ∧
      wires P' !! i = Some (default "" (wires P !! i) +:+ write rep)).
  { intros rep w E. rewrite (read_command i _ P c _ _ Hc SE E). eexists. split; [done|].
    destruct (Quit (cs w)); (split; [done|]); cbn; by rewrite lookup_insert_eq. }
  destruct (bool_decide _) eqn:D.
  - apply bool_decide_eq_true in D.
    destruct (Handle_2_replies "EXEC" [] (world P i c) (world_queue_ok i c P I Hc)) as (r & w' & E & _). rewrite HE in E.
    destruct (exec_loop (Handle 1) qs (ended_tx (world P i c))) as [[rs|] w2] eqn:EX; [|done]. cbn in E. injection E as <- <-.
    destruct (HF _ _ HE) as (P' & HP & E1 & E2). exists P', (ArraySlice rs). split_and!; [done|done|]. right. split; [|eauto].
    intros k Hk. specialize (D k _ (HW k Hk)). unfold version_of_key in D. cbn [deps cs world] in D.
    destruct (decide (content_at (Engine (shared P)) (nsKey (Workspace c) k) = content_at s (nsKey (Workspace c) k))) as [|Hne]; [done|].
    by apply (evolves_version_ne n _ _ _ IS G Hn) in Hne.
  - destruct (HF _ _ HE) as (P' & HP & E1 & E2). exists P', NullArray. split_and!; [done|done|]. by left.
Qed.
End commands.

(** C2: optimistic locking holds across connections.  A client watches keys,
    opens a transaction, queues commands and executes it, while the other
    connections, the forwarders, MCP clients and the reaper do whatever they
    do in between.  Then EXEC is answered with the replies of the queued
    commands, run one after the other, only if no watched key has changed its
    value or expiry since WATCH; otherwise it is answered with the null array
    and has no effect on the key space.  (A command is one event here: what can
    happen inside EXEC, between its check and its transaction, is
    [InterleaveSpec.watched_write_lost].  The bound says that no version counter wrapped
    around in between.) *)
Theorem optimistic_locking `{RuntimeLaws} `{FloatText} `{KeyCodec} `{ServicesLaws} `{Encoding}
    i c keys qs es0 es1 P :
  process_ok P → clients P !! i = Some c → InMulti c = false → Quit c = false → admitted (Auth (shared P)) c →
  keys ≠ [] → sendable ("WATCH" :: keys) → Forall queued_ok qs → Forall sendable qs →
  Forall event_ok (es0 ++ es1) → Forall (λ e, ¬ own i e) es0 → filter (own i) es1 = (λ a, Read i (encode a)) <$> qs →
  let es := Read i (encode ("WATCH" :: keys)) :: es0 ++ Read i (encode ["MULTI"]) :: es1 in
  Z.of_nat (weights es P) < 2 ^ 64 →
  let kept Q := ∀ k, k ∈ keys →
    content_at (Engine (shared Q)) (nsKey (Workspace c) k) = content_at (Engine (shared P)) (nsKey (Workspace c) k) in
  ∃ P1 P2 c1 rep, run es P = Some P1 ∧ clients P1 !! i = Some c1 ∧
    serve (Read i (encode ["EXEC"])) P1 = Some P2 ∧
    wires P2 !! i = Some (default "" (wires P1 !! i) +:+ write rep) ∧
    ((rep = NullArray ∧ Engine (shared P2) = Engine (shared P1)) ∨
     (kept P1 ∧ ∃ rs w, exec_loop (Handle 1) qs (ended_tx (world P1 i c1)) = (Some rs, w) ∧
        rep = ArraySlice rs ∧ Engine (shared P2) = Engine (deps w))).
Proof.
  intros I Hc Hm Hq Ha Hk Hs HQ Hsq He Hf0 Hf1 es Hn kept.
  pose proof (po_store _ I) as IS. set (w := world P i c).
  (** WATCH *)
  pose proof (Handle_WATCH keys w Hk Hm Ha IS) as HW. set (cw := watching keys w) in *.
  pose proof (read_command i _ P c _ _ Hc Hs HW) as RW. cbn [cs set_cs] in RW.
  change (Quit cw) with (Quit c) in RW. rewrite Hq in RW. set (PW := answered i _ OK _ P) in RW.
  assert (IW : process_ok PW).
  { destruct (serve_ok _ P I (event_ok_encode i _ Hs)) as (P' & E & I'). congruence. }
  assert (SM : sendable ["MULTI"]) by (apply sendable_small; [done|reflexivity|reflexivity]).
  pose proof He as [He0 He1]%Forall_app.
  (** the others, until MULTI *)
  destruct (run_ok es0 PW IW He0) as (PA & RA & IA).
  assert (CA : clients PA !! i = Some cw) by (eapply foreign_run; [exact Hf0|exact RA|]; cbn; by rewrite lookup_insert_eq).
  destruct (run_evolves es0 PW PA IW He0 RA) as (_ & AA & _).
  assert (HA : admitted (Auth (shared PA)) cw) by (rewrite AA; exact Ha).
  (** MULTI, and what is queued *)
  pose proof (read_command i _ PA cw _ _ CA SM (Handle_MULTI (world PA i cw) Hm HA)) as RM. cbn [cs set_cs world] in RM.
  change (Quit (set_Multi _ _ _ cw)) with (Quit c) in RM. rewrite Hq in RM. set (PM := answered i _ OK _ PA) in RM.
  assert (IM : process_ok PM).
  { destruct (serve_ok _ PA IA (event_ok_encode i _ SM)) as (P' & E & I'). congruence. }
  destruct (queueing_run i es1 PM (set_Multi true false [] cw) qs IM He1) as (P1 & R1 & C1); try done;
    [cbn; by rewrite lookup_insert_eq|].
  assert (RT : run es P = Some P1).
  { unfold es. cbn [run]. rewrite RW, run_app, RA. cbn [run]. by rewrite RM. }
  assert (HE : Forall event_ok es).
  { apply Forall_cons. split; [by apply event_ok_encode|]. apply Forall_app_2; [done|].
    apply Forall_cons. split; [by apply event_ok_encode|done]. }
  destruct (run_evolves es P P1 I HE RT) as (G & A1 & I1).
  destruct (exec_read i (set_Multi true false ([] ++ qs) (set_Multi true false [] cw)) keys qs (Engine (shared P)) (weights es P) P1)
    as (P2 & rep & E2 & W2 & Hrep); try done; [by rewrite A1| |].
  - intros k Hkk. cbn. by rewrite foldl_insert_lookup, decide_True.
  - exists P1, P2, (set_Multi true false ([] ++ qs) (set_Multi true false [] cw)), rep.
    split; [exact RT|]. split; [exact C1|]. split; [exact E2|]. split; [exact W2|exact Hrep].
Qed.

(** ** A server that starts does not crash *)

Section boot.
Context `{Runtime} `{FloatText} `{KeyCodec} `{Services} `{Encoding}.

Lemma boot_ok e a : store_inv e → process_ok (boot (newDeps e a)).
Proof using Type.
  intros I. split; [exact I| | | |done| |done].
  - apply (mreach_inv (embed.mkProvider (λ _, None) None)), Memory.mr_new.
  - apply greach_inv, gr_new.
  - apply reachable_ok, rtc_refl.
  - intros i _. split; intros x; cbn; (split; [by intros ?%not_elem_of_empty|]);
      intros (s & Hs & _); by rewrite lookup_empty in Hs.
Qed.
Lemma build_deps cfg r : server.build cfg = inr r →
  ∃ e a, server.rn_deps r = newDeps e a ∧ store_inv e.
Proof using Type.
  unfold server.build. destruct (server.buildEvictionPolicy cfg) as [|policy]; [done|].
  destruct (server.buildEmbedProvider cfg); [done|]. destruct (server.buildCompletionProvider cfg); [done|].
  destruct (server.buildAuthenticator cfg) as [|a]; [done|]. intros [= <-]. eexists _, a. split; [done|].
  change (store_inv (newStore 32 (server.MaxEntries cfg) (Some policy))). by apply newStore_inv.
Qed.
End boot.

(** A server that starts never crashes and keeps its invariants.  From any
    environment, command line and .env file that [main] accepts, whatever
    connections open, send, and drop, whatever MCP clients call and whenever
    the reaper and the forwarders run, in any order, no command and no tool
    call panics (as long as no client declares a length the allocator refuses,
    and a command is one event), and the state stays sound: the key space, the
    memories, the graphs and the broker are well-formed; every open
    connection's queue can be executed and its own record of its subscriptions
    is what the broker has registered for it; a connection that is gone is
    registered nowhere; and the gauge counts the open connections. *)
Theorem server_never_crashes `{RuntimeLaws} `{FloatText} `{KeyCodec} `{ServicesLaws} `{Encoding} Listen dotenv f e r es :
  cachepotd.main Listen dotenv f e = inr r → Forall event_ok es →
  ∃ P, run es (boot (server.rn_deps r)) = Some P ∧ process_ok P.
Proof.
  intros (cfg & _ & Hb)%main_build He. destruct (build_deps cfg r Hb) as (en & a & -> & I). apply run_ok; [by apply boot_ok|done].
Qed.

(** ** Workspaces *)

Section isolation.
Context `{Runtime} {HR : RuntimeLaws} `{FloatText} `{KeyCodec} `{Services} {HS : ServicesLaws} `{Encoding}.
Context (W K : string → Prop) (a : auth.Authenticator) (agent : Prop).
Context (HM : agent → auth.MultiWorkspace a = true).
Context (HK : ∀ pw ws, K pw → auth.WorkspaceForPassword a pw = Some ws → W ws) (HD : W defaultWorkspace).

(** The event brings only known commands; where the agent stores are looked
    at, it is no tool call. *)
Definition tame (e : event) : Prop :=
  match e with
  | Read _ s => ∀ args rest, ReadCommand s = Got args rest → known K agent args
  | Call _ => ¬ agent
  | _ => True
  end.
Record outsiders (P : process) : Prop := {
  ou_ok : process_ok P;
  ou_auth : Auth (shared P) = a;
  ou_client i c : clients P !! i = Some c → W (Workspace c) ∧ Forall (known K agent) (Queued c);
}.
(** Outside [W]: keys at most disappear, by eviction or because they expired;
    the agent stores are the same. *)
Definition apart (P P' : process) : Prop :=
  same_config (Engine (shared P)) (Engine (shared P')) ∧
  (∀ k, (∀ ws, W ws → ¬ in_workspace ws k) →
     entry_at (Engine (shared P')) k = entry_at (Engine (shared P)) k ∨
     entry_at (Engine (shared P')) k = None ∧
       (0 < maxEntries (Engine (shared P)) ∨
        ∃ e t, entry_at (Engine (shared P)) k = Some e ∧ expired e (clock t) = true)) ∧
  (agent → ∀ ws, ¬ W ws → agent_slice (shared P') ws = agent_slice (shared P) ws).

Lemma apart_refl P : apart P P.
Proof using Type. split; [by split|]. split; [by left|done]. Qed.
Lemma apart_trans P1 P2 P3 : apart P1 P2 → apart P2 P3 → apart P1 P3.
Proof using Type.
  intros (C1 & E1 & A1) (C2 & E2 & A2). split; [eapply same_config_trans; [exact C1|exact C2]|]. split.
  - intros k Hk. destruct C1 as (_ & Hm & _). destruct (E1 k Hk) as [Ee|[En Ex]]; [rewrite Hm in E2|].
    + destruct (E2 k Hk) as [Ee2|[En Ex]]; [left; congruence|]. right. split; [done|]. rewrite <- Ee. exact Ex.
    + destruct (E2 k Hk) as [Ee2|[En2 Ex2]]; right; (split; [congruence|done]).
  - intros Ha ws Hws. by rewrite A2, A1.
Qed.
Lemma apart_same P P' : Engine (shared P') = Engine (shared P) →
  (agent → ∀ ws, agent_slice (shared P') ws = agent_slice (shared P) ws) → apart P P'.
Proof using Type.
  intros E A. split; [rewrite E; by split|]. split; [intros k _; left; by rewrite E|]. intros Ha ws _. by apply A.
Qed.

Lemma serve_apart e P P' : outsiders P → event_ok e → tame e → serve e P = Some P' → outsiders P' ∧ apart P P'.
Proof using All.
  intros O He Ht HP. destruct (serve_ok e P (ou_ok _ O) He) as (P1 & E1 & I1). rewrite HP in E1. injection E1 as <-.
  destruct (serve_evolves e P P' (ou_ok _ O) He HP) as [_ HA]. rewrite (ou_auth _ O) in HA.
  assert (HO : (∀ i c, clients P' !! i = Some c → W (Workspace c) ∧ Forall (known K agent) (Queued c)) → outsiders P')
    by (intros Hc; by split).
  assert (HC := ou_client _ O).
  destruct e as [i|i s|i|i|c|order]; cbn [serve tame] in *.
  - injection HP as <-. split; [apply HO|unfold open; repeat case_match; by apply apart_same].
    intros j c. unfold open. repeat case_match; [apply HC|apply HC| ]. cbn.
    intros [[_ <-]|[_ ?]]%lookup_insert_Some; [by split|by eapply HC].
  - revert HP. unfold read, complete. destruct (clients P !! i) as [c|] eqn:Ec; [|intros [= <-]; split; [done|apply apart_refl]].
    destruct (ReadCommand s) as [args rest|err|] eqn:Es; [| |done].
    + destruct args as [|a0 args]; [intros [= <-]; split; [done|apply apart_refl]|].
      pose proof (Handle_iso W K a agent HM HK 2 (a0 :: args) (Ht _ _ eq_refl) (world P i c)) as HI.
      destruct (Handle 2 (a0 :: args) (world P i c)) as [[r|] w]; [|done]. cbv zeta.
      set (w2 := executed (a0 :: args) (clock (elapsed P)) w). cbn [snd] in HI.
      destruct HI as [[_ RW RQ _] [C A]].
      { split; [apply (po_store _ (ou_ok _ O))|by apply (HC i c)|by apply (HC i c)|apply (ou_auth _ O)]. }
      assert (AP : ∀ Q, Engine (shared Q) = Engine (deps w) → (∀ ws, agent_slice (shared Q) ws = agent_slice (deps w) ws) → apart P Q).
      { intros Q EQ AQ. split; [rewrite EQ; apply C|]. split.
        - intros k Hk. rewrite EQ. destruct (cf_frame _ _ _ C k Hk) as [?|[? ?]]; [by left|right; split; [done|by left]].
        - intros Ha ws Hws. rewrite AQ. by apply A. }
      intros [= HP]. split; [apply HO|rewrite <- HP; destruct (Quit _); by apply AP].
      intros j cj. rewrite <- HP. destruct (Quit _); cbn.
      * intros [_ [[_ <-]|[_ Hj]]%lookup_insert_Some]%lookup_delete_Some; [by split|by eapply HC].
      * intros [[_ <-]|[_ Hj]]%lookup_insert_Some; [by split|by eapply HC].
    + intros [= <-]. split; [apply HO|by apply apart_same]. intros j cj. cbn.
      intros [_ Hj]%lookup_delete_Some. by eapply HC.
  - injection HP as <-. split; [apply HO|destruct (clients P !! i); by apply apart_same].
    intros j cj. destruct (clients P !! i); cbn; [|by apply HC]. intros [_ Hj]%lookup_delete_Some. by eapply HC.
  - injection HP as <-. unfold forward in *. destruct (pubsub.receive i _) as [[m|] p]; [|split; [done|apply apart_refl]].
    cbn [clients] in *. destruct (clients P !! i); (split; [by apply HO|by apply apart_same]).
  - revert HP. unfold call. destruct (CallTool_framed c (world P (nobody P) NewClientState)) as (x & w & E & F). rewrite E.
    intros [= <-]. split; [by apply HO|]. apply apart_same; [apply (mf_engine _ _ F)|done].
  - injection HP as <-. split; [by apply HO|].
    destruct (tick_drops (clock (elapsed P), order) reaper (Engine (shared P)) (po_store _ (ou_ok _ O)) He) as [D _].
    split; [apply D|]. split; [|done]. intros k _. destruct (dr_key _ _ _ D k) as [[Ek _]|(en & Hen & Hx & Ek & _)]; [by left|].
    right. split; [done|]. right. eauto.
Qed.
Lemma run_apart es : ∀ P P', outsiders P → Forall event_ok es → Forall tame es → run es P = Some P' →
  outsiders P' ∧ apart P P'.
Proof using All.
  induction es as [|e es IH]; intros P P' O He Ht; cbn [run]; [intros [= <-]; split; [done|apply apart_refl]|].
  apply Forall_cons in He as [He Hes], Ht as [Ht Hts]. destruct (serve e P) as [P1|] eqn:E; [|done]. intros HP.
  destruct (serve_apart e P P1 O He Ht E) as [O1 A1]. destruct (IH P1 P' O1 Hes Hts HP) as [O2 A2].
  split; [done|by eapply apart_trans].
Qed.
End isolation.

(** Workspaces are isolated in the whole process.  As long as no client sends
    a password of a workspace (and none is in it already), no interleaving of
    connections, tool calls and sweeps changes one of its keys: each is as it
    was, or gone because the bound on entries evicted it or its time had come.
    With several workspaces configured, if moreover no MCP tool is called and
    no SUMMARY.CREATE sent, the vectors, memories, histories and graphs of the
    workspace are as they were. *)
Theorem process_isolation `{RuntimeLaws} `{FloatText} `{KeyCodec} `{ServicesLaws} `{Encoding} ws es P P' :
  let a := Auth (shared P) in
  let stranger args := ∀ pw, pw ∈ args → auth.WorkspaceForPassword a pw ≠ Some ws in
  let commands Q := ∀ i s args rest, Read i s ∈ es → ReadCommand s = Got args rest → Q args in
  process_ok P → has_NUL ws = false → ws ≠ defaultWorkspace →
  (∀ pw ws', auth.WorkspaceForPassword a pw = Some ws' → has_NUL ws' = false) →
  (∀ i c, clients P !! i = Some c → Workspace c ≠ ws ∧ has_NUL (Workspace c) = false ∧
     Forall (λ args, stranger args ∧ summary_free args) (Queued c)) →
  Forall event_ok es → commands stranger → run es P = Some P' →
  (∀ k, let ck := nsKey ws k in
     entry_at (Engine (shared P')) ck = entry_at (Engine (shared P)) ck ∨
     entry_at (Engine (shared P')) ck = None ∧
       (0 < maxEntries (Engine (shared P)) ∨
        ∃ e t, entry_at (Engine (shared P)) ck = Some e ∧ expired e (clock t) = true)) ∧
  (auth.MultiWorkspace a = true → (∀ c, Call c ∉ es) → commands summary_free →
     agent_slice (shared P') ws = agent_slice (shared P) ws).
Proof.
  intros a stranger commands I Hn Hd Hnul Hc He Hs HP.
  set (W ws' := ws' ≠ ws ∧ has_NUL ws' = false).
  set (K pw := auth.WorkspaceForPassword a pw ≠ Some ws).
  set (agent := auth.MultiWorkspace a = true ∧ (∀ c, Call c ∉ es) ∧ commands summary_free).
  destruct (run_apart W K a agent) with (es := es) (P := P) (P' := P') as [_ (_ & E & A)]; try done.
  - by intros [? _].
  - intros pw ws' Hpw Hw. split; [intros ->; by apply Hpw|by eapply Hnul].
  - split; [done|done|]. intros i c Hi. destruct (Hc i c Hi) as (V1 & V2 & V3). split; [done|].
    eapply Forall_impl; [exact V3|]. intros args [Hst Hsf]. split; [by apply Forall_forall|done].
  - apply Forall_forall. intros e Hin. destruct e as [i|i s|i|i|c|order]; cbn; try done.
    + intros args rest Hr. split; [apply Forall_forall; intros pw; by eapply Hs|].
      intros (_ & _ & Hsf). by eapply Hsf.
    + intros (_ & Hno & _). by apply (Hno c).
  - split.
    + intros k. cbv zeta. apply E. intros ws' [Hne Hnul'] Hin. apply in_workspace_nsKey in Hin; [congruence|done|done].
    + intros Hm Hno Hsf. apply A; [done|]. by intros [? _].
Qed.

(** ** Published messages *)

Definition buffered (i : pubsub.conn) (P : process) : list pubsub.Message :=
  match pubsub.subChs (PubSub_ (shared P)) !! i with Some c => pubsub.buf c | None => [] end.
(** What the forwarder of [i] takes at an event. *)
Definition pushed (i : pubsub.conn) (e : event) (P : process) : list pubsub.Message :=
  match e with
  | Forward j => if decide (j = i) then option_list (pubsub.receive i (PubSub_ (shared P))).1 else []
  | _ => []
  end.

Section arrivals.
Context `{Runtime} {HR : RuntimeLaws} `{FloatText} `{KeyCodec} `{Services} {HS : ServicesLaws} `{Encoding}.

(** What an event puts into the channel of [i]. *)
Definition arrived (i : pubsub.conn) (e : event) (P : process) : list pubsub.Message :=
  match serve e P with
  | Some P' => drop (length (buffered i P) - length (pushed i e P)) (buffered i P')
  | None => []
  end.
Fixpoint along (f : event → process → list pubsub.Message) (es : list event) (P : process) : list pubsub.Message :=
  match es with
  | [] => []
  | e :: es => f e P ++ match serve e P with Some P => along f es P | None => [] end
  end.

Definition has_channel (i : pubsub.conn) (P : process) : Prop := is_Some (pubsub.subChs (PubSub_ (shared P)) !! i).

Lemma leave_buffered i j c P : buffered i (leave j c P) = buffered i P ∧ (has_channel i P → has_channel i (leave j c P)).
Proof using Type.
  unfold buffered, has_channel, leave. cbn. unfold pubsub.cleanupSubscriptions.
  destruct (pubsub.subChs (PubSub_ (shared P)) !! j) as [cj|] eqn:E; [|done]. cbn.
  destruct (decide (i = j)) as [->|Hne]; [rewrite lookup_alter_eq, E; by split; cbn; eauto|by rewrite lookup_alter_ne].
Qed.
Lemma serve_buffered i e P P' : process_ok P → event_ok e → serve e P = Some P' → has_channel i P →
  has_channel i P' ∧ ∃ ms, buffered i P ++ ms = pushed i e P ++ buffered i P'.
Proof using HR HS.
  intros I He HP Hi. assert (Z0 : ∀ Q, PubSub_ (shared Q) = PubSub_ (shared P) →
    has_channel i Q ∧ ∃ ms, buffered i P ++ ms = [] ++ buffered i Q).
  { intros Q E. unfold has_channel, buffered. rewrite E. split; [done|]. exists []. by rewrite app_nil_r. }
  assert (ZL : ∀ j c Q, (has_channel i Q ∧ ∃ ms, buffered i P ++ ms = [] ++ buffered i Q) →
    has_channel i (leave j c Q) ∧ ∃ ms, buffered i P ++ ms = [] ++ buffered i (leave j c Q)).
  { intros j c Q [V1 V2]. destruct (leave_buffered i j c Q) as [-> V3]. auto. }
  destruct e as [j|j s|j|j|c|order]; cbn [serve pushed] in *.
  - injection HP as <-. unfold open. repeat case_match; by apply Z0.
  - revert HP. unfold read, complete. destruct (clients P !! j) as [c|] eqn:Ec; [|intros [= <-]; by apply Z0].
    destruct (ReadCommand s) as [args rest|err|]; [|intros [= <-]; by apply ZL, Z0|done].
    destruct args as [|a0 args]; [intros [= <-]; by apply Z0|].
    destruct (Handle_progress (a0 :: args) (world P j c) (world_queue_ok j c P I Ec)) as (n & _ & Hp).
    destruct (Handle 2 (a0 :: args) (world P j c)) as [[r|] w]; [|done]. cbn [snd] in Hp. cbv zeta.
    set (w2 := executed (a0 :: args) (clock (elapsed P)) w).
    assert (G : ∀ Q, PubSub_ (shared Q) = PubSub_ (deps w) → has_channel i Q ∧ ∃ ms, buffered i P ++ ms = [] ++ buffered i Q).
    { intros Q E. destruct (pr_extended _ _ _ Hp i) as [ms Hms]. unfold extended in Hms. cbn [deps world] in Hms.
      destruct Hi as [ch Hch]. unfold has_channel, buffered. rewrite E, Hch in *. rewrite Hms. split; [eauto|]. by exists ms. }
    intros [= <-]. destruct (Quit _); [apply ZL|]; by apply G.
  - injection HP as <-. destruct (clients P !! j); [by apply ZL, Z0|by apply Z0].
  - injection HP as <-. unfold forward. destruct Hi as [ch Hch].
    assert (G : ∀ Q, PubSub_ (shared Q) = (pubsub.receive j (PubSub_ (shared P))).2 →
      has_channel i Q ∧ ∃ ms, buffered i P ++ ms =
        (if decide (j = i) then option_list (pubsub.receive i (PubSub_ (shared P))).1 else []) ++ buffered i Q).
    { intros Q E. unfold has_channel, buffered. rewrite E. unfold pubsub.receive. destruct (decide (j = i)) as [->|Hne].
      - rewrite Hch. destruct ch as [[|m b] cl]; cbn [fst snd pubsub.subChs pubsub.buf option_list].
        + rewrite Hch. split; [eauto|]. by exists [].
        + rewrite lookup_insert_eq. split; [eauto|]. exists []. by rewrite app_nil_r.
      - destruct (pubsub.subChs (PubSub_ (shared P)) !! j) as [[[|m b] cl]|]; cbn [fst snd pubsub.subChs];
          rewrite ?lookup_insert_ne, Hch by done; (split; [eauto|]); exists []; by rewrite app_nil_r. }
    destruct (pubsub.receive j (PubSub_ (shared P))) as [[m|] p] eqn:ER; cbn [snd] in G; cbn [clients].
    + destruct (clients P !! j); by apply G.
    + apply G. revert ER. unfold pubsub.receive. repeat case_match; by intros [= <-].
  - revert HP. unfold call. destruct (CallTool_framed c (world P (nobody P) NewClientState)) as (x & w & E & F). rewrite E.
    intros [= <-]. apply Z0, (mf_broker _ _ F).
  - injection HP as <-. by apply Z0.
Qed.
Lemma serve_arrived i e P P' : process_ok P → event_ok e → serve e P = Some P' → has_channel i P →
  has_channel i P' ∧ buffered i P ++ arrived i e P = pushed i e P ++ buffered i P'.
Proof using HR HS.
  intros I He HP Hi. destruct (serve_buffered i e P P' I He HP Hi) as [V1 [ms Hms]]. split; [done|].
  unfold arrived. rewrite HP, <- Hms. f_equal.
  assert (HL : (length (pushed i e P) ≤ length (buffered i P))%nat).
  { destruct e as [j|j s|j|j|c|order]; cbn [pushed length]; try lia. case_decide; [|cbn; lia]. unfold buffered, pubsub.receive.
    destruct (pubsub.subChs (PubSub_ (shared P)) !! i) as [[[|m b] cl]|]; cbn; lia. }
  apply (f_equal (drop (length (buffered i P)))) in Hms. rewrite drop_app_length in Hms. rewrite Hms.
  rewrite drop_app. rewrite (drop_ge (pushed i e P)) by done. done.
Qed.
Lemma run_arrived i es : ∀ P P', process_ok P → Forall event_ok es → run es P = Some P' → has_channel i P →
  has_channel i P' ∧ buffered i P ++ along (arrived i) es P = along (pushed i) es P ++ buffered i P'.
Proof using HR HS.
  induction es as [|e es IH]; intros P P' I He; cbn [run along].
  - intros [= <-] Hi. split; [done|]. by rewrite app_nil_r.
  - apply Forall_cons in He as [He Hes]. destruct (serve_ok e P I He) as (P1 & E1 & I1). rewrite E1. intros HP Hi.
    destruct (serve_arrived i e P P1 I He E1 Hi) as [V1 A1]. destruct (IH P1 P' I1 Hes HP V1) as [V2 A2].
    split; [done|]. by rewrite (assoc_L (++)), A1, <- !(assoc_L (++)), A2.
Qed.

(** A PUBLISH command puts into every channel what it has room for. *)
Lemma publish_arrived i j c ch payload P : process_ok P → clients P !! j = Some c → InMulti c = false →
  admitted (Auth (shared P)) c → sendable ["PUBLISH"; ch; payload] → has_channel i P →
  ∃ ms, ms ≡ₚ expected (PubSub_ (shared P)) ch payload i ∧
    arrived i (Read j (encode ["PUBLISH"; ch; payload])) P =
      take (Z.to_nat (pubsub.subChCapacity - len (buffered i P))) ms.
Proof using HR HS.
  intros I Hc Hm Ha Hs [chan Hi]. set (w := world P j c). pose proof (po_broker _ I) as IB.
  pose proof (sub_orders_ok (elapsed P)) as Ho.
  destruct (deliver_spec ch payload (pubsub.targets (sub_orders (elapsed P)) ch (PubSub_ (shared P))) 0 _ IB
              (targets_issuing _ ch _ Ho IB)) as (n & p & E & _ & _ & _ & HC).
  assert (HP : Handle 2 ["PUBLISH"; ch; payload] w =
    (Some (Some (Int (0 + n))), mkWorld (set_PubSub p (shared P)) c j (S (elapsed P)))).
  { erewrite Handle_runs; [|reflexivity|done|by cbn; rewrite Hm|reflexivity]. cbn [Handler].
    unfold handlePublish, hbind, bind, broker, on. cbn [arg lookup list_lookup hret ret].
    unfold pubsub.Publish. cbn [deps world PubSub_ ticks me]. change (deps w) with (shared P). change (ticks w) with (elapsed P).
    rewrite E. reflexivity. }
  exists (messages ch payload (pubsub.targets (sub_orders (elapsed P)) ch (PubSub_ (shared P))) i).
  split; [by apply messages_expected|]. unfold arrived.
  rewrite (read_command j _ P c _ _ Hc Hs HP). cbn [pushed length cs]. rewrite Nat.sub_0_r.
  assert (EB : ∀ Q, PubSub_ (shared Q) = p → buffered i Q = buffered i P ++
    take (Z.to_nat (pubsub.subChCapacity - len (buffered i P)))
      (messages ch payload (pubsub.targets (sub_orders (elapsed P)) ch (PubSub_ (shared P))) i)).
  { intros Q EQ. unfold buffered. by rewrite EQ, HC, Hi. }
  destruct (Quit c); [rewrite (proj1 (leave_buffered i j _ _))|]; rewrite (EB (answered j _ _ _ P)) by done; by rewrite drop_app_length.
Qed.
End arrivals.

(** C10: subscribers are sent what is published, in order.  Along any run of the
    process, what has been pushed to a connection followed by what waits in its
    channel is exactly what waited at the start followed by what arrived since:
    nothing is lost, repeated or reordered between the channel and the
    connection, and at most 64 messages wait.  A PUBLISH by any client puts
    there one message per subscription of the connection that matches, as far
    as there is room, and each message taken is written whole behind what the
    connection was sent before. *)
Theorem pubsub_fifo `{RuntimeLaws} `{FloatText} `{KeyCodec} `{ServicesLaws} `{Encoding} i es P P' :
  process_ok P → has_channel i P → Forall event_ok es → run es P = Some P' →
  buffered i P ++ along (arrived i) es P = along (pushed i) es P ++ buffered i P' ∧
  len (buffered i P') ≤ pubsub.subChCapacity ∧
  (∀ es1 es2 Q c m, es = es1 ++ Forward i :: es2 → run es1 P = Some Q → clients Q !! i = Some c →
     pushed i (Forward i) Q = [m] →
     ∃ Q', serve (Forward i) Q = Some Q' ∧
       wires Q' !! i = Some (default "" (wires Q !! i) +:+ write (pubsub.push_reply m))) ∧
  (∀ es1 es2 Q j c ch payload, es = es1 ++ Read j (encode ["PUBLISH"; ch; payload]) :: es2 → run es1 P = Some Q →
     clients Q !! j = Some c → InMulti c = false → admitted (Auth (shared Q)) c → sendable ["PUBLISH"; ch; payload] →
     ∃ ms, ms ≡ₚ expected (PubSub_ (shared Q)) ch payload i ∧
       arrived i (Read j (encode ["PUBLISH"; ch; payload])) Q =
         take (Z.to_nat (pubsub.subChCapacity - len (buffered i Q))) ms).
Proof.
  intros I Hi He HP. destruct (run_arrived i es P P' I He HP Hi) as [Hi' HA]. split; [done|]. split.
  { destruct (run_evolves es P P' I He HP) as (_ & _ & I'). destruct Hi' as [c Hc]. unfold buffered. rewrite Hc.
    by apply (bk_cap _ (po_broker _ I') i). }
  split.
  - intros es1 es2 Q c m -> HQ Hc Hm. eexists. split; [reflexivity|]. cbn [pushed] in Hm. rewrite decide_True in Hm by done.
    unfold forward. destruct (pubsub.receive i (PubSub_ (shared Q))) as [[m'|] p]; [|done]. injection Hm as ->.
    cbn [clients]. rewrite Hc. cbn. by rewrite lookup_insert_eq.
  - intros es1 es2 Q j c ch payload -> HQ Hc Hm Ha Hs. apply Forall_app in He as [He1 _].
    destruct (run_evolves es1 P Q I He1 HQ) as (_ & _ & IQ). destruct (run_arrived i es1 P Q I He1 HQ Hi) as [HiQ _].
    by eapply publish_arrived.
Qed.

(** ** One connection alone *)

Section alone.
Context `{Runtime} {HR : RuntimeLaws} `{FloatText} `{KeyCodec} `{Services} {HS : ServicesLaws} `{Encoding}.

Definition script (i : pubsub.conn) (cmds : list (list string)) : list event :=
  ((λ args, Read i (encode args)) <$> cmds) ++ [Hangup i].

Lemma gone_script i cmds P : clients P !! i = None → run (script i cmds) P = Some P.
Proof using Type.
  intros Hi. unfold script. induction cmds as [|args cmds IH]; [cbn; by rewrite Hi|].
  rewrite fmap_cons. cbn [app run serve]. unfold read, complete. by rewrite Hi.
Qed.
Lemma answers_script i cmds : ∀ w P out w', process_ok P → Forall sendable cmds → clients P !! i = Some (cs w) →
  world P i (cs w) = w → is_Some (wires P !! i) → answers cmds w = Some (out, w') →
  ∃ P', run (script i cmds) P = Some P' ∧ shared P' = deps (teardown w') ∧ elapsed P' = ticks w' ∧
    wires P' !! i = Some (default "" (wires P !! i) +:+ out).
Proof using HR HS.
  induction cmds as [|args cmds IH]; intros w P out w' I Hs Hc Hw [s Hwi]; cbn [answers].
  - intros [= <- <-]. exists (leave i (cs w) P). split; [cbn; by rewrite Hc|]. unfold leave. rewrite Hw.
    split; [done|]. split; [done|]. cbn. rewrite Hwi. cbn. by rewrite str_app_nil_r.
  - apply Forall_cons in Hs as [Hs Hss]. destruct args as [|a0 args]; [by destruct Hs|].
    destruct (serve_ok _ P I (event_ok_encode i (a0 :: args) Hs)) as (P1 & E1 & I1).
    assert (Hq : queue_ok w) by (rewrite <- Hw; by apply world_queue_ok).
    destruct (Handle_2_replies a0 args w Hq) as (r & w1 & EH & _).
    destruct (Handle_progress (a0 :: args) w Hq) as (n & _ & Hp). rewrite EH in *. cbn [snd] in Hp. cbv zeta.
    assert (EH' : Handle 2 (a0 :: args) (world P i (cs w)) = (Some (Some r), w1)) by (by rewrite Hw).
    pose proof (read_command i _ P (cs w) r w1 Hc Hs EH') as ER. rewrite E1 in ER. injection ER as EP.
    assert (Et : elapsed P = ticks w) by (by rewrite <- Hw).
    set (w2 := executed (a0 :: args) (clock (ticks w)) w1) in *.
    assert (M2 : world (answered i (a0 :: args) r w1 P) i (cs w2) = w2).
    { assert (Em : me w1 = i) by (rewrite (pr_me _ _ _ Hp), <- Hw; done).
      unfold answered, world. cbn. rewrite Et. subst w2. unfold executed. by rewrite <- Em. }
    assert (W2 : wires (answered i (a0 :: args) r w1 P) !! i = Some (s +:+ write r)) by (cbn; by rewrite lookup_insert_eq, Hwi).
    unfold script. rewrite fmap_cons. cbn [app run]. rewrite E1. change (Quit (cs w2)) with (Quit (cs w1)).
    destruct (Quit (cs w1)).
    + intros [= <- <-]. exists P1. split; [apply gone_script; rewrite EP; cbn; by rewrite lookup_delete_eq|].
      rewrite EP. change (cs w1) with (cs w2). unfold leave. rewrite M2. split; [done|]. split; [done|]. cbn [wires from_world].
      by rewrite W2, Hwi.
    + destruct (answers cmds w2) as [[o2 w3]|] eqn:EA; [|done]. intros [= <- <-].
      destruct (IH w2 P1 o2 w3 I1 Hss) as (P' & RP & E2 & E3 & E4); [rewrite EP; cbn; by rewrite lookup_insert_eq| | |done|].
      * by rewrite EP.
      * rewrite EP, W2. eauto.
      * exists P'. split_and!; [exact RP|done|done|]. rewrite E4, EP, W2, Hwi. cbn. by rewrite str_app_assoc.
Qed.
End alone.

(** C9: the process refines the connection loop.  Opening a connection, reading
    its client's commands one at a time, with nobody else doing anything in
    between, and ending it, is what [HandleConn] does with the whole stream of
    bytes on a network that does not break: the same bytes reach the client and
    the server is left in the same state. *)
Theorem process_refines_connection `{RuntimeLaws} `{FloatText} `{KeyCodec} `{ServicesLaws} `{Encoding}
    `{Network} `{!NetworkLaws} i cmds P fuel :
  process_ok P → clients P !! i = None → pubsub.subChs (PubSub_ (shared P)) !! i = None → wires P !! i = None →
  Forall sendable cmds → (String.length (stream cmds) < fuel)%nat → (∀ s, broken s = None) →
  ∃ sent w P', HandleConn fuel (stream cmds) i (shared P) (elapsed P) = Closed sent w ∧
    run (Open i :: script i cmds) P = Some P' ∧ shared P' = deps w ∧ wires P' !! i = Some sent.
Proof.
  intros I Hc Hb Hw Hs Hl HB. set (w0 := accept_conn i (shared P) (elapsed P)).
  assert (Hq : queue_ok w0) by (apply fresh_conn_ok; split; [apply I|done]).
  pose proof (stream_length cmds) as HL.
  destruct (conn_loop_prefix cmds fuel w0 "" "" ltac:(lia) Hs Hq ltac:(done)) as (k & out & w' & sent & rest & _ & HC & Ho & Hn).
  destruct (Hn HB) as [HA ->]. rewrite !str_app_nil, str_app_nil_r in Ho. subst out.
  pose proof (open_ok i P I) as I1. unfold open in I1. rewrite Hc, Hb in I1.
  destruct (answers_script i cmds w0 _ sent w' I1 Hs) as (P' & RP & E1 & _ & E2); try done.
  - cbn. by rewrite lookup_insert_eq.
  - cbn. rewrite lookup_insert_eq. eauto.
  - exists sent, (teardown w'), P'. unfold HandleConn. fold w0. rewrite HC. split; [done|]. cbn [run serve]. unfold open.
    rewrite Hc, Hb. split; [done|]. split; [done|]. rewrite E2. cbn. rewrite lookup_insert_eq, Hw. done.
Qed.

(** ** Concrete runs *)

#[local] Instance cl_runtime : Runtime := plain_runtime Z.of_nat.
#[local] Instance cl_runtime_laws : RuntimeLaws := plain_runtime_laws Z.of_nat.
#[local] Instance cl_floats : FloatText := {| ParseFloat := λ _, None; FormatFloat := λ _, "" |}.
#[local] Existing Instance toy_codec.
#[local] Existing Instance no_encoding.
#[local] Existing Instance offline.
#[local] Existing Instance offline_laws.

Definition cl_boot : process := boot (newDeps (newStore 4 0 None) (auth.New "")).
(** Two clients. *)
Definition cl_two : process := open 2 (open 1 cl_boot).
Lemma cl_boot_ok : process_ok cl_boot.
Proof. apply boot_ok. by apply newStore_inv. Qed.
Lemma cl_two_ok : process_ok cl_two.
Proof. apply open_ok, open_ok, cl_boot_ok. Qed.
Definition says (i : pubsub.conn) (args : list string) : event := Read i (encode args).
(** What connection [i] was sent at the end of a run. *)
Definition wire_of (i : pubsub.conn) (es : list event) (P : process) : option string :=
  match run es P with Some P => wires P !! i | None => None end.

Ltac small_sendable := apply sendable_small; [discriminate|reflexivity|reflexivity].
Lemma sweep_elements_ok : event_ok (Sweep elements).
Proof. intros X. split; [apply NoDup_elements|]. intros k. apply elem_of_elements. Qed.
(** The events of the examples are as they should be. *)
Ltac events_ok :=
  repeat (apply Forall_cons; split); try apply Forall_nil_2;
  lazymatch goal with
  | |- event_ok (says _ _) => apply event_ok_encode; small_sendable
  | |- event_ok (Sweep elements) => apply sweep_elements_ok
  | |- event_ok (Read _ _) => vm_compute; discriminate
  | |- event_ok _ => exact Logic.I
  end.
Definition line (s : string) : string := s +:+ CRLF.
Definition tx_qs : list (list string) := [["SET"; "k"; "mine"]; ["GET"; "k"]].
Lemma tx_qs_queued : Forall queued_ok tx_qs.
Proof.
  repeat (apply Forall_cons; split); [| |by apply Forall_nil_2]; eexists _, _, _; (split; [reflexivity|]);
    (split; [reflexivity|]); split; reflexivity.
Qed.
Lemma tx_qs_sendable : Forall sendable tx_qs.
Proof. repeat (apply Forall_cons; split; [small_sendable|]). apply Forall_nil_2. Qed.
(** The other client writes the watched key, or another one. *)
Definition tx_other (key : string) : list event := [says 2 ["SET"; key; "theirs"]; Sweep elements].

Lemma optimistic_locking_witness :
  let watch := says 1 ["WATCH"; "k"] in
  let begin := says 1 ["MULTI"] :: (says 1 <$> tx_qs) in
  let exec := [says 1 ["EXEC"]] in
  let started := line "+OK" +:+ line "+OK" +:+ line "+QUEUED" +:+ line "+QUEUED" in
  wire_of 1 (watch :: tx_other "other" ++ begin ++ exec) cl_two =
    Some (started +:+ line "*2" +:+ line "+OK" +:+ line "$4" +:+ line "mine") ∧
  wire_of 1 (watch :: tx_other "k" ++ begin ++ exec) cl_two = Some (started +:+ line "*-1") ∧
  ∃ P1 P2 c1 rep, run (watch :: tx_other "k" ++ begin) cl_two = Some P1 ∧ clients P1 !! 1%nat = Some c1 ∧
    serve (says 1 ["EXEC"]) P1 = Some P2 ∧
    wires P2 !! 1%nat = Some (default "" (wires P1 !! 1%nat) +:+ write rep) ∧
    ((rep = NullArray ∧ Engine (shared P2) = Engine (shared P1)) ∨
     ((∀ k, k ∈ ["k"] → content_at (Engine (shared P1)) (nsKey "default" k) =
                        content_at (Engine (shared cl_two)) (nsKey "default" k)) ∧
      ∃ rs w, exec_loop (Handle 1) tx_qs (ended_tx (world P1 1%nat c1)) = (Some rs, w) ∧
        rep = ArraySlice rs ∧ Engine (shared P2) = Engine (deps w))).
Proof.
  cbv zeta. split; [vm_compute; reflexivity|]. split; [vm_compute; reflexivity|].
  refine (optimistic_locking 1%nat NewClientState ["k"] tx_qs (tx_other "k") (says 1 <$> tx_qs) cl_two cl_two_ok
            eq_refl eq_refl eq_refl eq_refl _ _ tx_qs_queued tx_qs_sendable _ _ eq_refl _).
  - discriminate.
  - small_sendable.
  - events_ok.
  - repeat (apply Forall_cons; split); try apply Forall_nil_2; cbn; [discriminate|intros []].
  - vm_compute. reflexivity.
Defined.

(** The environment wins over the .env file, the command line over both. *)
Definition cl_dotenv : option string := Some ("CACHEPOT_MCP_PORT=0" +:+ String "010" "CACHEPOT_MAX_ENTRIES=7").
Definition cl_flags : cachepotd.Flags :=
  cachepotd.mkFlags None None None (Some 3) None None None None None None None (Some "LRU").
Definition cl_env : gmap string string := {[ "CACHEPOT_MAX_ENTRIES" := "100" ]}.
Definition cl_started : cachepotd.exit_error + server.running := cachepotd.main (λ _ _, true) cl_dotenv cl_flags cl_env.
Definition cl_running : server.running :=
  match cl_started with
  | inr r => r
  | inl _ => server.mkRunning (newDeps (newStore 1 0 None) (auth.New "")) (server.EmbedMock 0) server.CompletionMock 0 false
  end.
(** Clients come and go, one subscribes, one sends nonsense; a tool is called;
    the reaper ticks. *)
Definition cl_events : list event :=
  [Open 1; Open 2; says 1 ["SUBSCRIBE"; "c"]; says 2 ["PUBLISH"; "c"; "m"]; Sweep elements; Forward 1;
   Call (mcp.Tool_cache_set (mcp.mkToolSet "t" "{}" "r" 0)); Read 2 "*x"; Forward 1; Hangup 1; Open 2].
Lemma server_never_crashes_witness :
  maxEntries (Engine (server.rn_deps cl_running)) = 100 ∧
  wire_of 1 cl_events (boot (server.rn_deps cl_running)) =
    Some (line "*3" +:+ line "$9" +:+ line "subscribe" +:+ line "$1" +:+ line "c" +:+ line ":1" +:+
          line "*3" +:+ line "$7" +:+ line "message" +:+ line "$1" +:+ line "c" +:+ line "$1" +:+ line "m") ∧
  ∃ P, run cl_events (boot (server.rn_deps cl_running)) = Some P ∧ process_ok P.
Proof.
  split; [vm_compute; reflexivity|]. split; [vm_compute; reflexivity|].
  apply (server_never_crashes (λ _ _, true) cl_dotenv cl_flags cl_env).
  - vm_compute. reflexivity.
  - events_ok.
Defined.

(** A client of workspace a, and the data of workspace b. *)
Definition cl_tenants : process := open 1 (boot (deps empty_world)).
Lemma cl_tenants_ok : process_ok cl_tenants.
Proof.
  apply open_ok, boot_ok. apply (run_impl (KSet (to_bytes "1") noOpts) (newStore 4 0 None) 0 map_to_list "b" "k").
  by apply newStore_inv.
Qed.
Lemma two_tenants_passwords pw ws : auth.WorkspaceForPassword two_tenants pw = Some ws →
  pw = "pb" ∧ ws = "b" ∨ pw = "pa" ∧ ws = "a".
Proof.
  change (auth.WorkspaceForPassword two_tenants pw) with
    ((<["pb" := "b"]> (<["pa" := "a"]> (∅ : gmap string string))) !! pw).
  intros [[<- <-]|[_ [[<- <-]|[_ E]]%lookup_insert_Some]]%lookup_insert_Some; [by left|by right|by rewrite lookup_empty in E].
Qed.
Definition cl_intruder : list event :=
  [says 1 ["AUTH"; "pa"]; says 1 ["SET"; "k"; "2"]; says 1 ["FLUSHALL"]; Sweep elements; says 1 ["GET"; "k"]].
Lemma process_isolation_witness :
  match run cl_intruder cl_tenants with
  | Some P => wires P !! 1%nat = Some (line "+OK" +:+ line "+OK" +:+ line "+OK" +:+ line "$-1") ∧
      entry_at (Engine (shared P)) (nsKey "b" "k") = entry_at (Engine (shared cl_tenants)) (nsKey "b" "k") ∧
      agent_slice (shared P) "b" = agent_slice (shared cl_tenants) "b"
  | None => False
  end.
Proof.
  pose proof (process_isolation "b" cl_intruder cl_tenants) as HI.
  assert (HW : match run cl_intruder cl_tenants with
    | Some P => wires P !! 1%nat = Some (line "+OK" +:+ line "+OK" +:+ line "+OK" +:+ line "$-1")
    | None => False end) by (vm_compute; reflexivity).
  destruct (run cl_intruder cl_tenants) as [P|]; [|exact HW]. split; [exact HW|].
  assert (HC : ∀ i s args rest, Read i s ∈ cl_intruder → ReadCommand s = Got args rest →
    "pb" ∉ args ∧ ToUpper (default "" (head args)) ≠ ToUpper "SUMMARY.CREATE").
  { intros i s args rest Hin Hr.
    assert (HF : Forall (λ e, match e with
      | Read _ s => match ReadCommand s with
          | Got args _ => "pb" ∉ args ∧ ToUpper (default "" (head args)) ≠ ToUpper "SUMMARY.CREATE"
          | _ => True end
      | _ => True end) cl_intruder).
    { repeat (apply Forall_cons; split); try apply Forall_nil_2; cbv beta iota delta [says];
        lazymatch goal with
        | |- True => exact Logic.I
        | _ => rewrite reads_encoded by small_sendable; split; [by apply (bool_decide_unpack _); vm_compute|vm_compute; discriminate]
        end. }
    rewrite Forall_forall in HF. specialize (HF _ Hin). cbv beta iota in HF. by rewrite Hr in HF. }
  destruct (HI P cl_tenants_ok) as [HE HA].
  - reflexivity.
  - discriminate.
  - intros pw ws Hpw. apply two_tenants_passwords in Hpw as [[_ ->]|[_ ->]]; reflexivity.
  - intros i c Hi. assert (Hc : c = NewClientState).
    { change (clients cl_tenants) with (<[1%nat := NewClientState]> (∅ : gmap nat ClientState)) in Hi.
      apply lookup_insert_Some in Hi as [[_ <-]|[_ Hi]]; [reflexivity|by rewrite lookup_empty in Hi]. }
    rewrite Hc. split; [discriminate|]. split; [reflexivity|]. apply Forall_nil_2.
  - events_ok.
  - intros i s args rest Hin Hr pw Hpw Hw. apply two_tenants_passwords in Hw as [[-> _]|[_ Hx]]; [|discriminate].
    by destruct (HC i s args rest Hin Hr) as [Ha _].
  - reflexivity.
  - split.
    + destruct (HE "k") as [E|(_ & [Hm|(e & t & E1 & E2)])]; [exact E|vm_compute in Hm; discriminate|].
      exfalso. vm_compute in E1. injection E1 as <-. vm_compute in E2. discriminate.
    + apply HA; [reflexivity| |].
      * intros c Hin. unfold cl_intruder, says in Hin. repeat (apply elem_of_cons in Hin as [Hin|Hin]; [discriminate|]).
        by apply elem_of_nil in Hin.
      * intros i s args rest Hin Hr a0 Ha0. destruct (HC i s args rest Hin Hr) as [_ Ha]. by rewrite Ha0 in Ha.
Defined.

(** Client 1 has subscribed to [c]. *)
Definition cl_subscribed : process :=
  match run [says 1 ["SUBSCRIBE"; "c"]] cl_two with Some P => P | None => cl_two end.
Lemma cl_subscribed_ok : process_ok cl_subscribed.
Proof.
  destruct (run_ok [says 1 ["SUBSCRIBE"; "c"]] cl_two cl_two_ok) as (P & E & I).
  - events_ok.
  - unfold cl_subscribed. by rewrite E.
Qed.
Definition cl_published : list event :=
  [says 2 ["PUBLISH"; "c"; "one"]; says 2 ["PUBLISH"; "c"; "two"]; Forward 1; says 1 ["PING"]].
Lemma pubsub_fifo_witness :
  let one := pubsub.mkMessage "c" "" "one" in let two := pubsub.mkMessage "c" "" "two" in
  match run cl_published cl_subscribed with
  | Some P => along (pushed 1) cl_published cl_subscribed = [one] ∧
      along (arrived 1) cl_published cl_subscribed = [one; two] ∧
      [] ++ along (arrived 1) cl_published cl_subscribed = along (pushed 1) cl_published cl_subscribed ++ buffered 1 P ∧
      len (buffered 1 P) ≤ pubsub.subChCapacity
  | None => False
  end.
Proof.
  cbv zeta. assert (EP : along (pushed 1) cl_published cl_subscribed = [pubsub.mkMessage "c" "" "one"]) by (vm_compute; reflexivity).
  assert (EA : along (arrived 1) cl_published cl_subscribed =
    [pubsub.mkMessage "c" "" "one"; pubsub.mkMessage "c" "" "two"]) by (vm_compute; reflexivity).
  assert (ER : match run cl_published cl_subscribed with Some _ => True | None => False end) by (vm_compute; exact Logic.I).
  pose proof (pubsub_fifo 1%nat cl_published cl_subscribed) as HF.
  destruct (run cl_published cl_subscribed) as [P|]; [|exact ER]. split; [exact EP|]. split; [exact EA|].
  destruct (HF P cl_subscribed_ok) as (H1 & H2 & _).
  - vm_compute. eauto.
  - events_ok.
  - reflexivity.
  - split; [|exact H2]. assert (EB : buffered 1 cl_subscribed = []) by (vm_compute; reflexivity). by rewrite EB in H1.
Defined.

#[local] Instance cl_network : Network := {| more := λ s, negb (String.eqb s ""); spill := λ _, 0%nat; broken := λ _, None |}.
Lemma process_refines_connection_witness :
  wire_of 1 (Open 1 :: script 1 run_batch) cl_boot =
    Some (line "+OK" +:+ line "$1" +:+ line "v" +:+ line ":1" +:+
          line "*3" +:+ line "$9" +:+ line "subscribe" +:+ line "$1" +:+ line "c" +:+ line ":1") ∧
  ∃ sent w P', HandleConn 200 (stream run_batch) 1 (shared cl_boot) (elapsed cl_boot) = Closed sent w ∧
    run (Open 1 :: script 1 run_batch) cl_boot = Some P' ∧ shared P' = deps w ∧ wires P' !! 1%nat = Some sent.
Proof.
  split; [vm_compute; reflexivity|].
  unshelve refine (process_refines_connection 1%nat run_batch cl_boot 200 cl_boot_ok eq_refl eq_refl eq_refl
                     run_batch_sendable _ _).
  - split. reflexivity.
  - vm_compute. repeat constructor.
  - reflexivity.
Defined.
