(* ===== verification/Interleave.v ===== *)
(** * Commands of different connections, call by call

    In Cluster.v a command is one event.  Here it is as many as its program
    (Programs.v) makes calls: the goroutines of the connections
    (internal/server/resp/conn.go) and of the MCP requests
    (internal/mcp/server.go) take turns between any two calls, and EXEC holds
    the store's transaction mutex (internal/storage/memstore/store.go, [Exec])
    while it runs the queue.  The granularity is the component call of
    [component]: for the engine, what is done under one lock; of the other
    components, a whole method, although PUBLISH sends after it has released
    the broker's lock (what can go wrong there is [PubSub.publish_close_race]).
    A tick of the reaper is one event. *)

From S2P Require Import Prelude.
From S2P Require Import GoStd.
From S2P Require Import Auth.
From S2P Require Import Similarity.
From S2P Require Import Caches.
From S2P Require Import Memory.
From S2P Require Import Graph.
From S2P Require Import Metrics.
From S2P Require Import Providers.
From S2P Require Import Shard.
From S2P Require Import Store.
From S2P Require Import ShardSpec.
From S2P Require Import StoreSpec.
From S2P Require Import KeySpace.
From S2P Require Import Ttl.
From S2P Require Import RespCodec.
From S2P Require Import PubSub.
From S2P Require Import Server.
From S2P Require Import HandlersKV.
From S2P Require Import HandlersData.
From S2P Require Import Mcp.
From S2P Require Import McpSpec.
From S2P Require Import Session.
From S2P Require Import SessionSpec.
From S2P Require Import Effects.
From S2P Require Import Programs.
From S2P Require Import Scripts.
From S2P Require Import Cluster.

Open Scope Z_scope.
Open Scope go_scope.

Import process.

Module interleaved.

(** A connection's goroutine in the middle of a command. *)
Record thread := mkThread { th_args : list string; th_start : time; th_prog : prog Reply }.

Record server := mkServer {
  base : process;
  threads : gmap pubsub.conn thread;
  tools : gmap nat (prog mcp.answer);     (** the MCP requests being served *)
  mutex : option (pubsub.conn + nat);     (** who holds [globalMu]: a connection or a request *)
}.

(** [Begin]: connection [i] reads a command.  [Step]: it makes its next call,
    or, when it has none left, writes its reply.  A connection that waits for
    the mutex steps in vain. *)
Inductive event :=
  | Open (i : pubsub.conn)
  | Begin (i : pubsub.conn) (s : string)
  | Step (i : pubsub.conn)
  | Hangup (i : pubsub.conn)
  | Forward (i : pubsub.conn)
  | Request (n : nat) (c : mcp.call)
  | Work (n : nat)
  | Sweep (order : gset string → list string).

Section interleaved.
Context `{Runtime} {HR : RuntimeLaws} `{FloatText} `{KeyCodec} `{Services} {HS : ServicesLaws} `{Encoding}.

Definition with_base (P : process) (V : server) : server := mkServer P (threads V) (tools V) (mutex V).
Definition with_thread (i : pubsub.conn) (t : thread) (V : server) : server :=
  mkServer (base V) (<[i := t]> (threads V)) (tools V) (mutex V).
Definition without_thread (i : pubsub.conn) (V : server) : server :=
  mkServer (base V) (delete i (threads V)) (tools V) (mutex V).
Definition with_mutex (m : option (pubsub.conn + nat)) (V : server) : server := mkServer (base V) (threads V) (tools V) m.
(** Nothing is running. *)
Definition idle (P : process) : server := mkServer P ∅ ∅ None.

Definition begin (i : pubsub.conn) (s : string) (V : server) : option server :=
  match threads V !! i, clients (base V) !! i with
  | None, Some c =>
      match ReadCommand s with
      | ReadErr _ => Some (with_base (leave i c (base V)) V)
      | ReadPanic => None
      | Got [] _ => Some V
      | Got args _ => Some (with_thread i (mkThread args (clock (elapsed (base V))) (program args)) V)
      end
  | _, _ => Some V
  end.
(** The next call of a program that has one, run as connection [i] with state
    [c], for the owner [o] of the mutex.  [None] is a panic of the goroutine,
    which ends the process. *)
Definition advance {A} (o : pubsub.conn + nat) (i : pubsub.conn) (c : ClientState) (p : prog A) (V : server)
    : option (prog A * ClientState * server) :=
  match p with
  | Done _ => Some (p, c, V)
  | Invoke m k =>
      match m (world (base V) i c) with
      | (None, _) => None
      | (Some x, w) => Some (k x, cs w, with_base (from_world w (base V)) V)
      end
  | Lock q => Some (match mutex V with None => (q, c, with_mutex (Some o) V) | Some _ => (p, c, V) end)
  | Unlock q => Some (q, c, with_mutex None V)
  end.
Definition step (i : pubsub.conn) (V : server) : option server :=
  match threads V !! i, clients (base V) !! i with
  | Some t, Some c =>
      match th_prog t with
      | Done None => None
      | Done (Some r) =>
          let P := complete i (th_args t) (th_start t) (writeReply (Some r)) (world (base V) i c) (base V) in
          Some (without_thread i (with_base P V))
      | p =>
          match advance (inl i) i c p V with
          | None => None
          | Some (p, c, V) =>
              Some (with_thread i (mkThread (th_args t) (th_start t) p) (with_base (with_client i c (base V)) V))
          end
      end
  | _, _ => Some V
  end.
(** A request that was answered is done with. *)
Definition work (n : nat) (V : server) : option server :=
  match tools V !! n with
  | None => Some V
  | Some (Done None) => None
  | Some (Done (Some _)) => Some (mkServer (base V) (threads V) (delete n (tools V)) (mutex V))
  | Some p =>
      match advance (inr n) (nobody (base V)) NewClientState p V with
      | None => None
      | Some (p, _, V) => Some (mkServer (base V) (threads V) (<[n := p]> (tools V)) (mutex V))
      end
  end.

Definition serve (e : event) (V : server) : option server :=
  match e with
  | Open i => Some (with_base (open i (base V)) V)
  | Begin i s => begin i s V
  | Step i => step i V
  | Hangup i =>
      Some (match threads V !! i, clients (base V) !! i with
            | None, Some c => with_base (leave i c (base V)) V
            | _, _ => V
            end)
  | Forward i => Some (with_base (forward i (base V)) V)
  | Request n c =>
      Some (match tools V !! n with
            | None => mkServer (base V) (threads V) (<[n := tool_program c]> (tools V)) (mutex V)
            | Some _ => V
            end)
  | Work n => work n V
  | Sweep order => Some (with_base (sweep order (base V)) V)
  end.
Fixpoint run (es : list event) (V : server) : option server :=
  match es with
  | [] => Some V
  | e :: es => match serve e V with Some V => run es V | None => None end
  end.
End interleaved.
End interleaved.

Import interleaved.

(** ** The invariant *)

(** A connection that runs a command is open, and what is left of its program
    is careful, given its subscriptions and whether it holds the mutex.  [K] is
    what the clients know. *)
Record server_ok `{Runtime} `{FloatText} `{KeyCodec} `{Services} `{Encoding} (K : string → Prop) (V : server) : Prop := {
  io_base : process_ok (base V);
  io_known i c : clients (base V) !! i = Some c → Forall (Forall K) (Queued c);
  io_thread i t : threads V !! i = Some t → ∃ c subscribed, clients (base V) !! i = Some c ∧
    (subscribed = true → live i (PubSub_ (shared (base V)))) ∧
    careful K any_step subscribed (bool_decide (mutex V = Some (inl i))) false (th_prog t);
  io_tool n p : tools V !! n = Some p → careful K tool_step false (bool_decide (mutex V = Some (inr n))) false p;
  io_mutex o : mutex V = Some o →
    match o with inl i => is_Some (threads V !! i) | inr n => is_Some (tools V !! n) end;
}.

(** Nothing is asked of what they know. *)
Definition interleaved_ok `{Runtime} `{FloatText} `{KeyCodec} `{Services} `{Encoding} : server → Prop := server_ok (λ _, True).

(** A client sends only what it knows. *)
Definition known_event `{UnicodeTables} (K : string → Prop) (e : event) : Prop :=
  match e with Begin _ s => ∀ args rest, ReadCommand s = Got args rest → Forall K args | _ => True end.
Definition event_ok `{UnicodeTables} (e : event) : Prop :=
  match e with
  | Begin _ s => ReadCommand s ≠ ReadPanic
  | Sweep order => range_order order
  | _ => True
  end.

Section invariant.
Context `{Runtime} {HR : RuntimeLaws} `{FloatText} `{KeyCodec} `{Services} {HS : ServicesLaws} `{Encoding}.
Context {K : string → Prop}.

Lemma from_here i c P : from_world (world P i c) P = P.
Proof using Type. by destruct P. Qed.

(** The base changes under the threads. *)
Lemma rebase_ok P V : server_ok K V → process_ok P →
  (∀ i c, clients P !! i = Some c → Forall (Forall K) (Queued c)) →
  (∀ i c, is_Some (threads V !! i) → clients (base V) !! i = Some c → is_Some (clients P !! i)) →
  (∀ i, is_Some (threads V !! i) → live i (PubSub_ (shared (base V))) → live i (PubSub_ (shared P))) →
  server_ok K (with_base P V).
Proof using Type.
  intros [I1 IQ I2 I3 I4] IP HQ Hc Hl. split; try done. intros i t Ht. cbn in Ht. destruct (I2 i t Ht) as (c & sub & Ec & Hs & Hp).
  destruct (Hc i c) as [c' Ec']; [by eauto|done|]. exists c', sub. split_and!; [done| |done]. intros E. apply Hl; [by eauto|auto].
Qed.

(** One call of a careful program, as whoever runs it. *)
Lemma advance_ok {A} R o i c sub (p : prog A) V : process_ok (base V) → (∀ w, R w w) → known_ok K (world (base V) i c) →
  (sub = true → live i (PubSub_ (shared (base V)))) → careful K R sub (bool_decide (mutex V = Some o)) false p →
  ∃ p' w n sub' m, advance o i c p V = Some (p', cs w, mkServer (from_world w (base V)) (threads V) (tools V) m) ∧
    progress (world (base V) i c) n w ∧ known_ok K w ∧ R (world (base V) i c) w ∧
    (sub' = true → live i (PubSub_ (deps w))) ∧ careful K R sub' (bool_decide (m = Some o)) false p' ∧
    (m = mutex V ∨ mutex V = None ∧ m = Some o ∨ mutex V = Some o ∧ m = None).
Proof using HR.
  intros IP HRr Hw Hl Hp. pose proof (known_session _ _ Hw) as Hs.
  assert (H00 : progress (world (base V) i c) 0 (world (base V) i c)) by (apply acts_progress; [done|apply acts_nil]).
  destruct p as [r|B m k|q|q]; cbn [advance careful] in *.
  - exists (Done r), (world (base V) i c), 0%nat, sub, (mutex V). rewrite from_here. split_and!; try done; [by destruct V|by left].
  - destruct Hp as [_ Hp]. destruct (Hp _ Hw Hl) as (x & w & n & sub' & E & Ha & Hw' & HRw & _ & Hl' & Hk). rewrite E.
    exists (k x), w, n, sub', (mutex V). pose proof (acts_progress _ _ _ Hs Ha) as Hpr.
    rewrite (pr_me _ _ _ Hpr) in Hl'. split_and!; try done. by left.
  - destruct Hp as [Hh Hq]. apply bool_decide_eq_false in Hh. destruct (mutex V) as [o'|] eqn:Em.
    + exists (Lock q), (world (base V) i c), 0%nat, sub, (Some o'). rewrite from_here. split_and!; try done.
      * f_equal. f_equal. destruct V; cbn in *. by subst.
      * by rewrite bool_decide_false.
      * by left.
    + exists q, (world (base V) i c), 0%nat, sub, (Some o). rewrite from_here. split_and!; try done.
      * by rewrite bool_decide_true.
      * right. by left.
  - destruct Hp as [Hh Hq]. apply bool_decide_eq_true in Hh.
    exists q, (world (base V) i c), 0%nat, sub, None. rewrite from_here. split_and!; try done. by do 2 right.
Qed.

(** What a progress of connection [i] leaves the others. *)
Lemma progress_live n w w' j : progress w n w' → live j (PubSub_ (deps w)) → live j (PubSub_ (deps w')).
Proof using Type.
  intros Hp Hl. pose proof (pr_issuing _ _ _ Hp j (live_issuing _ _ Hl)) as Hi. destruct Hl as (ch & Hch & Hcl).
  destruct (pr_extended _ _ _ Hp j) as [ms E]. unfold extended in E. rewrite Hch in E. eexists. split; [exact E|exact Hcl].
Qed.
(** The mutex of another owner. *)
Lemma other_mutex (o o' : pubsub.conn + nat) m m' : o' ≠ o → m = m' ∨ m' = None ∧ m = Some o ∨ m' = Some o ∧ m = None →
  bool_decide (m = Some o') = bool_decide (m' = Some o').
Proof using Type. intros Hne Hm. apply bool_decide_ext. destruct Hm as [->|[[-> ->]|[-> ->]]]; [done|split; congruence..]. Qed.

Lemma leave_live i j c P : j ≠ i → live j (PubSub_ (shared P)) → live j (PubSub_ (shared (leave i c P))).
Proof using Type.
  intros Hj (ch & Hch & Hcl). exists ch. split; [|done]. cbn. unfold pubsub.cleanupSubscriptions.
  destruct (pubsub.subChs (PubSub_ (shared P)) !! i); [|done]. cbn. by rewrite lookup_alter_ne.
Qed.

(** The connection made a call. *)
Lemma called_ok i V t c p' w n sub' m : server_ok K V → threads V !! i = Some t → clients (base V) !! i = Some c →
  progress (world (base V) i c) n w → known_ok K w → (sub' = true → live i (PubSub_ (deps w))) →
  careful K any_step sub' (bool_decide (m = Some (inl i))) false p' →
  (m = mutex V ∨ mutex V = None ∧ m = Some (inl i) ∨ mutex V = Some (inl i) ∧ m = None) →
  server_ok K (mkServer (with_client i (cs w) (from_world w (base V)))
                    (<[i := mkThread (th_args t) (th_start t) p']> (threads V)) (tools V) m).
Proof using All.
  intros I Et Ec Hpr Hw Hl Hp Hm. pose proof (io_base _ _ I) as IP. split; cbn.
  - eapply stepped_ok; eauto. apply Hw.
  - intros j cj [[<- <-]|[_ Hj]]%lookup_insert_Some; [apply Hw|by apply (io_known _ _ I j)].
  - intros j tj [[<- <-]|[Hne Hj]]%lookup_insert_Some.
    + exists (cs w), sub'. by rewrite lookup_insert_eq.
    + destruct (io_thread _ _ I j tj Hj) as (cj & sj & Ecj & Hlj & Hpj). exists cj, sj. rewrite lookup_insert_ne by done.
      split_and!; [done| |by rewrite (other_mutex (inl i) (inl j) m (mutex V)) by (congruence || done)].
      intros Es. eapply progress_live; [exact Hpr|by apply Hlj].
  - intros k q Hq. rewrite (other_mutex (inl i) (inr k) m (mutex V)) by (congruence || done). by apply (io_tool _ _ I).
  - intros o Ho. assert (o = inl i ∨ mutex V = Some o) as [->|Ho'] by (destruct Hm as [->|[[_ ->]|[_ ->]]]; naive_solver).
    + by rewrite lookup_insert_eq.
    + pose proof (io_mutex _ _ I o Ho') as HI. destruct o as [j|k]; [|done]. destruct (decide (i = j)) as [->|].
      * by rewrite lookup_insert_eq.
      * by rewrite lookup_insert_ne.
Qed.
(** The connection's command ended. *)
Lemma ended_thread_ok i V t c r : server_ok K V → threads V !! i = Some t → clients (base V) !! i = Some c →
  mutex V ≠ Some (inl i) →
  server_ok K (without_thread i (with_base (complete i (th_args t) (th_start t) r (world (base V) i c) (base V)) V)).
Proof using All.
  intros I Et Ec Hm. pose proof (io_base _ _ I) as IP. set (P := complete _ _ _ _ _ _).
  assert (HP : process_ok P).
  { apply complete_ok. replace (with_client i _ _) with (base V); [done|]. unfold with_client. cbn. rewrite insert_id by done.
    by destruct (base V). }
  assert (HC : ∀ j cj, j ≠ i → clients (base V) !! j = Some cj → clients P !! j = Some cj).
  { intros j cj Hj Hcj. subst P. unfold complete. cbv zeta. destruct (Quit _); cbn; rewrite ?lookup_delete_ne, lookup_insert_ne by done; done. }
  assert (HL : ∀ j, j ≠ i → live j (PubSub_ (shared (base V))) → live j (PubSub_ (shared P))).
  { intros j Hj Hl. subst P. unfold complete. cbv zeta. destruct (Quit _); [by apply leave_live|done]. }
  split; cbn; [done| | |apply (io_tool _ _ I)|].
  - intros j cj Hj. subst P. unfold complete in Hj. cbv zeta in Hj.
    destruct (Quit _); cbn in Hj; [apply lookup_delete_Some in Hj as [_ Hj]|];
      (apply lookup_insert_Some in Hj as [[<- <-]|[_ Hj]]; [by apply (io_known _ _ I i c)|by apply (io_known _ _ I j)]).
  - intros j tj [Hne Hj]%lookup_delete_Some. destruct (io_thread _ _ I j tj Hj) as (cj & sj & Ecj & Hlj & Hpj).
    exists cj, sj. split_and!; [by apply HC| |done]. intros Es. apply HL; auto.
  - intros o Ho. pose proof (io_mutex _ _ I o Ho) as HI. destruct o as [j|k]; [|done].
    rewrite lookup_delete_ne; [done|]. intros ->. done.
Qed.
Lemma world_known_ok i c V : server_ok K V → clients (base V) !! i = Some c → known_ok K (world (base V) i c).
Proof using All. intros I Ec. split; [by apply world_queue_ok; [apply (io_base _ _ I)|]|by apply (io_known _ _ I i)]. Qed.
Lemma nobody_known_ok V : server_ok K V → known_ok K (world (base V) (nobody (base V)) NewClientState).
Proof using All. intros I. split; [by apply nobody_ok, (io_base _ _ I)|constructor]. Qed.
Lemma thread_step_ok i V : server_ok K V → ∃ V', step i V = Some V' ∧ server_ok K V'.
Proof using All.
  intros I. unfold step. destruct (threads V !! i) as [t|] eqn:Et; [|by eauto].
  destruct (io_thread _ _ I i t Et) as (c & sub & Ec & Hl & Hp). rewrite Ec. pose proof (io_base _ _ I) as IP.
  pose proof (world_known_ok i c V I Ec) as Hw.
  destruct (advance_ok any_step (inl i) i c sub (th_prog t) V) as (p' & w & n & sub' & m & EA & Hpr & Hw' & _ & Hl' & Hp' & Hm); try done.
  pose proof (called_ok i V t c p' w n sub' m I Et Ec Hpr Hw' Hl' Hp' Hm) as HC.
  destruct (th_prog t) as [[r|]|B m' k|q|q]; [|by destruct Hp as [[? [=]] _]|..];
    [|rewrite EA; eexists; split; [reflexivity|exact HC]..].
  destruct Hp as [_ Hh]. eexists. split; [reflexivity|]. apply ended_thread_ok; try done. by apply bool_decide_eq_false in Hh.
Qed.
Lemma work_ok k V : server_ok K V → ∃ V', work k V = Some V' ∧ server_ok K V'.
Proof using All.
  intros I. unfold work. destruct (tools V !! k) as [p|] eqn:Ek; [|by eauto]. pose proof (io_base _ _ I) as IP.
  pose proof (io_tool _ _ I k p Ek) as Hp.
  destruct (advance_ok tool_step (inr k) (nobody (base V)) NewClientState false p V) as
    (p' & w & n & sub' & m & EA & Hpr & Hw' & [_ HB] & Hl' & Hp' & Hm); try done; [by apply nobody_known_ok|].
  cbn in HB. assert (sub' = false) as ->.
  { destruct sub'; [|done]. destruct (Hl' eq_refl) as (ch & Hch & _). rewrite HB in Hch. exfalso.
    apply (is_fresh (dom (pubsub.subChs (PubSub_ (shared (base V)))))). by apply elem_of_dom; exists ch. }
   assert (HC : server_ok K (mkServer (from_world w (base V)) (threads V) (<[k := p']> (tools V)) m)).
  { split; cbn.
    - by eapply beside_ok.
    - apply (io_known _ _ I).
    - intros j tj Hj. destruct (io_thread _ _ I j tj Hj) as (cj & sj & Ecj & Hlj & Hpj). exists cj, sj. rewrite HB.
      split_and!; [done|done|]. by rewrite (other_mutex (inr k) (inl j) m (mutex V)) by (congruence || done).
    - intros k' q [[<- <-]|[Hne Hq]]%lookup_insert_Some.
      + done.
      + rewrite (other_mutex (inr k) (inr k') m (mutex V)) by (congruence || done). by apply (io_tool _ _ I).
    - intros o Ho. assert (o = inr k ∨ mutex V = Some o) as [->|Ho'] by (destruct Hm as [->|[[_ ->]|[_ ->]]]; naive_solver).
      + by rewrite lookup_insert_eq.
      + pose proof (io_mutex _ _ I o Ho') as HI. destruct o as [j|k']; [done|]. destruct (decide (k = k')) as [->|].
        * by rewrite lookup_insert_eq.
        * by rewrite lookup_insert_ne. }
  destruct p as [[r|]|B m' q|q|q]; [|by destruct Hp as [[? [=]] _]|..];
    [|rewrite EA; eexists; split; [reflexivity|exact HC]..].
  destruct Hp as [_ Hh]. apply bool_decide_eq_false in Hh. eexists. split; [reflexivity|].
  destruct I as [I1 IQ I2 I3 I4]. split; cbn; try done.
  - intros k' q [_ Hq]%lookup_delete_Some. by apply I3.
  - intros o Ho. pose proof (I4 o Ho) as HI. destruct o as [j|k']; [done|]. rewrite lookup_delete_ne; [done|]. by intros ->.
Qed.

Lemma hangup_ok i c V : server_ok K V → threads V !! i = None → clients (base V) !! i = Some c →
  server_ok K (with_base (leave i c (base V)) V).
Proof using All.
  intros I Et Ec. assert (Hne : ∀ j, is_Some (threads V !! j) → j ≠ i) by (intros j [t Hj] ->; congruence).
  apply rebase_ok; [done|by apply leave_ok, Ec; apply I|by intros j cj Hj; cbn in Hj; apply lookup_delete_Some in Hj as [_ Hj]; apply (io_known _ _ I j)| |].
  - intros j cj Hj%Hne Hcj. cbn. rewrite lookup_delete_ne by done. by eauto.
  - intros j Hj%Hne. by apply leave_live.
Qed.
Lemma forward_live i j P : broker_ok (PubSub_ (shared P)) → live j (PubSub_ (shared P)) → live j (PubSub_ (shared (forward i P))).
Proof using Type.
  intros I (ch & Hch & Hcl). unfold forward, pubsub.receive.
  destruct (pubsub.subChs (PubSub_ (shared P)) !! i) as [[[|m b] cl]|] eqn:E; [by exists ch| |by exists ch].
  assert (HL : live j (pubsub.mkPubSub (pubsub.channels (PubSub_ (shared P))) (pubsub.patterns (PubSub_ (shared P)))
                 (<[i := pubsub.mkChan b cl]> (pubsub.subChs (PubSub_ (shared P)))))).
  { destruct (decide (i = j)) as [->|Hne].
    - exists (pubsub.mkChan b cl). cbn. rewrite lookup_insert_eq. split; [done|]. rewrite E in Hch. by injection Hch as <-.
    - exists ch. cbn. by rewrite lookup_insert_ne. }
  cbn [clients]. by destruct (clients P !! i).
Qed.
Lemma begin_known_ok i s V : server_ok K V → ReadCommand s ≠ ReadPanic → known_event K (Begin i s) → ∃ V', begin i s V = Some V' ∧ server_ok K V'.
Proof using All.
  intros I Hs HK. cbn in HK. unfold begin. destruct (threads V !! i) as [t|] eqn:Et; [by eauto|].
  destruct (clients (base V) !! i) as [c|] eqn:Ec; [|by eauto].
  destruct (ReadCommand s) as [args rest|e|]; [|eexists; split; [reflexivity|by apply hangup_ok]|done].
  destruct args as [|a0 args]; [by eauto|]. eexists. split; [reflexivity|].
  assert (Hm : mutex V ≠ Some (inl i)) by (intros Hm; destruct (io_mutex _ _ I _ Hm); congruence).
  destruct I as [I1 IQ I2 I3 I4]. split; cbn; try done.
  - intros j tj [[<- <-]|[Hne Hj]]%lookup_insert_Some; [|by apply I2]. exists c, false. rewrite bool_decide_false by done.
    split; [exact Ec|]. split; [done|]. exact (program_careful K a0 args (HK _ _ eq_refl)).
  - intros [j|k] Ho; [|by apply (I4 (inr k))]. destruct (decide (i = j)) as [->|]; [done|].
    rewrite lookup_insert_ne by done. by apply (I4 (inl j)).
Qed.
Lemma request_ok k c V : server_ok K V → tools V !! k = None →
  server_ok K (mkServer (base V) (threads V) (<[k := tool_program c]> (tools V)) (mutex V)).
Proof using All.
  intros I Ek. assert (Hm : mutex V ≠ Some (inr k)) by (intros Hm; destruct (io_mutex _ _ I _ Hm); congruence).
  destruct I as [I1 IQ I2 I3 I4]. split; cbn; try done.
  - intros k' q [[<- <-]|[Hne Hq]]%lookup_insert_Some; [|by apply I3]. rewrite bool_decide_false by done. exact (tool_program_careful K c).
  - intros [j|k'] Ho; [by apply (I4 (inl j))|]. destruct (decide (k = k')) as [->|]; [done|].
    rewrite lookup_insert_ne by done. by apply (I4 (inr k')).
Qed.
Lemma served_known_ok e V : server_ok K V → event_ok e → known_event K e → ∃ V', serve e V = Some V' ∧ server_ok K V'.
Proof using All.
  intros I He HK. pose proof (io_base _ _ I) as IP. destruct e as [i|i s|i|i|i|k c|k|order]; cbn [serve].
  - eexists. split; [reflexivity|]. apply rebase_ok; [done|by apply open_ok| | |].
    + intros j c. unfold open. repeat case_match; try apply (io_known _ _ I). cbn.
      intros [[_ <-]|[_ Hj]]%lookup_insert_Some; [constructor|by apply (io_known _ _ I j)].
    + intros j c _ Hc. unfold open. repeat case_match; try by eauto. cbn. rewrite lookup_insert_ne by congruence. by eauto.
    + intros j _. unfold open. by repeat case_match.
  - by apply begin_known_ok.
  - by apply thread_step_ok.
  - eexists. split; [reflexivity|]. destruct (threads V !! i) eqn:Et; [done|]. destruct (clients (base V) !! i) eqn:Ec; [|done].
    by apply hangup_ok.
  - eexists. split; [reflexivity|]. apply rebase_ok; [done|by apply forward_ok| | |].
    + intros j c. unfold forward. destruct (pubsub.receive i _) as [[m|] p]; [|apply (io_known _ _ I)]. cbn. case_match; apply (io_known _ _ I).
    + intros j c _ Hc. unfold forward. destruct (pubsub.receive i _) as [[m|] p]; [|by eauto]. cbn. case_match; by eauto.
    + intros j _. apply forward_live, IP.
  - eexists. split; [reflexivity|]. destruct (tools V !! k) eqn:Ek; [done|]. by apply request_ok.
  - by apply work_ok.
  - eexists. split; [reflexivity|]. apply rebase_ok; [done|by apply sweep_ok|apply (io_known _ _ I)|by eauto|done].
Qed.
Lemma run_known_ok es : ∀ V, server_ok K V → Forall event_ok es → Forall (known_event K) es → ∃ V', run es V = Some V' ∧ server_ok K V'.
Proof using All.
  induction es as [|e es IH]; intros V I He HK; cbn [run]; [by eauto|].
  apply Forall_cons in He as [He Hes]. apply Forall_cons in HK as [HK HKs].
  destruct (served_known_ok e V I He HK) as (V1 & -> & I1). by apply IH.
Qed.
Lemma idle_known_ok P : process_ok P → (∀ i c, clients P !! i = Some c → Forall (Forall K) (Queued c)) → server_ok K (idle P).
Proof using Type. intros I HQ. by split. Qed.
End invariant.

(** Without anything to know. *)
Section unknowing.
Context `{Runtime} {HR : RuntimeLaws} `{FloatText} `{KeyCodec} `{Services} {HS : ServicesLaws} `{Encoding}.

Lemma know_nothing (l : list string) : Forall (λ _, True) l.
Proof using Type. by apply Forall_true. Qed.
Lemma known_anything e : known_event (λ _, True) e.
Proof using Type. destruct e; try done. intros args rest _. apply know_nothing. Qed.
Lemma begin_ok i s V : interleaved_ok V → ReadCommand s ≠ ReadPanic → ∃ V', begin i s V = Some V' ∧ interleaved_ok V'.
Proof using All. intros I Hs. apply begin_known_ok; [done|done|apply known_anything]. Qed.
Lemma event_served_ok e V : interleaved_ok V → event_ok e → ∃ V', serve e V = Some V' ∧ interleaved_ok V'.
Proof using All. intros I He. apply served_known_ok; [done|done|apply known_anything]. Qed.
Lemma events_run_ok es V : interleaved_ok V → Forall event_ok es → ∃ V', run es V = Some V' ∧ interleaved_ok V'.
Proof using All. intros I He. apply run_known_ok; [done|done|apply Forall_true; apply known_anything]. Qed.
Lemma idle_ok P : process_ok P → interleaved_ok (idle P).
Proof using Type. intros I. apply idle_known_ok; [done|]. intros i c _. apply Forall_true. apply know_nothing. Qed.
End unknowing.
