(* ===== verification/InterleaveSpec.v ===== *)
(** * What holds between any two calls

    Properties of the runs of Interleave.v: no interleaving of component calls
    crashes the server or breaks its invariants; the coarse runs of Cluster.v
    are among them; the transaction mutex is never waited for in vain; a
    command that makes one call is linearizable; and the commands that make
    several are not. *)

From S2P Require Import Prelude.
From S2P Require Import GoStd.
From S2P Require Import Floats.
From S2P Require Import Auth.
From S2P Require Import Similarity.
From S2P Require Import Caches.
From S2P Require Import Memory.
From S2P Require Import Graph.
From S2P Require Import Metrics.
From S2P Require Import Providers.
From S2P Require Import Shard.
From S2P Require Import Store.
From S2P Require Import ShardSpec.
From S2P Require Import StoreSpec.
From S2P Require Import EngineMulti.
From S2P Require Import KeySpace.
From S2P Require Import KeyScan.
From S2P Require Import Engine.
From S2P Require Import RespCodec.
From S2P Require Import PubSub.
From S2P Require Import Server.
From S2P Require Import HandlersKV.
From S2P Require Import HandlersData.
From S2P Require Import HandlersPubSub.
From S2P Require Import Mcp.
From S2P Require Import McpSpec.
From S2P Require Import Session.
From S2P Require Import SessionSpec.
From S2P Require Import SessionRun.
From S2P Require Import TxSpec.
From S2P Require Import Confine.
From S2P Require Import TenantStores.
From S2P Require Import Isolation.
From S2P Require Import Effects.
From S2P Require Import Ttl.
From S2P Require Import Startup.
From S2P Require Import Cluster.
From S2P Require Import ClusterSpec.
From S2P Require Import Programs.
From S2P Require Import Scripts.
From S2P Require Import OneCall.
From S2P Require Import Interleave.

Open Scope Z_scope.
Open Scope go_scope.

Import process.
Import interleaved.

Section runs.
Context `{Runtime} {HR : RuntimeLaws} `{FloatText} `{KeyCodec} `{Services} {HS : ServicesLaws} `{Encoding}.

Lemma events_run_app es1 es2 V : run (es1 ++ es2) V = match run es1 V with Some V => run es2 V | None => None end.
Proof using Type. revert V. induction es1 as [|e es1 IH]; intros V; cbn [app run]; [done|]. by destruct (serve e V). Qed.

(** What a step of a running connection is. *)
Lemma step_cases i V V' t c : interleaved_ok V → threads V !! i = Some t → clients (base V) !! i = Some c →
  step i V = Some V' →
  (∃ r, th_prog t = Done (Some r) ∧
     V' = without_thread i (with_base (complete i (th_args t) (th_start t) (writeReply (Some r)) (world (base V) i c) (base V)) V)) ∨
  (∃ p w n m, advance (inl i) i c (th_prog t) V = Some (p, cs w, mkServer (from_world w (base V)) (threads V) (tools V) m) ∧
     progress (world (base V) i c) n w ∧ (∀ o, th_prog t ≠ Done o) ∧
     V' = mkServer (with_client i (cs w) (from_world w (base V)))
            (<[i := mkThread (th_args t) (th_start t) p]> (threads V)) (tools V) m).
Proof using All.
  intros I Et Ec. destruct (io_thread _ _ I i t Et) as (c' & sub & Ec' & Hl & Hp). rewrite Ec in Ec'. injection Ec' as <-.
  pose proof (io_base _ _ I) as IP. pose proof (world_known_ok i c V I Ec) as Hw.
  destruct (advance_ok (K := λ _, True) any_step (inl i) i c sub (th_prog t) V) as (p' & w & n & sub' & m & EA & Hpr & _); try done.
  unfold step. rewrite Et, Ec.
  destruct (th_prog t) as [[r|]|B k q|q|q]; [|done|rewrite EA..].
  - intros [= <-]. left. by exists r.
  - intros [= <-]. right. by exists p', w, n, m.
  - intros [= <-]. right. by exists p', w, n, m.
  - intros [= <-]. right. by exists p', w, n, m.
Qed.

Lemma invoke_step {B} i V t c (q : H B) k : interleaved_ok V → threads V !! i = Some t → clients (base V) !! i = Some c →
  th_prog t = Invoke q k → ∃ x w, q (world (base V) i c) = (Some x, w) ∧ me w = i ∧
  step i V = Some (mkServer (with_client i (cs w) (from_world w (base V)))
    (<[i := mkThread (th_args t) (th_start t) (k x)]> (threads V)) (tools V) (mutex V)).
Proof using All.
  intros I Et Ec Ep. destruct (io_thread _ _ I i t Et) as (c' & sub & Ec' & Hl & Hp). rewrite Ec in Ec'. injection Ec' as <-.
  pose proof (world_known_ok i c V I Ec) as Hw. rewrite Ep in Hp. destruct Hp as [_ Hp].
  destruct (Hp _ Hw Hl) as (x & w & n & sub' & E & Ha & _). exists x, w. split; [done|].
  split; [exact (pr_me _ _ _ (acts_progress _ _ _ (known_session _ _ Hw) Ha))|]. unfold step. rewrite Et, Ec, Ep. cbn [advance]. by rewrite E.
Qed.
Lemma done_answers i V t o : interleaved_ok V → threads V !! i = Some t → th_prog t = Done o → ∃ r, o = Some r.
Proof using Type. intros I Et Ep. destruct (io_thread _ _ I i t Et) as (c' & sub & _ & _ & Hp). rewrite Ep in Hp. by destruct Hp as [[r ->] _]; eexists. Qed.

Lemma open_auth i P : Auth (shared (open i P)) = Auth (shared P).
Proof using Type. unfold open. by repeat case_match. Qed.
Lemma forward_auth i P : Auth (shared (forward i P)) = Auth (shared P).
Proof using Type. unfold forward. destruct (pubsub.receive i _) as [[m|] p]; [|done]. cbn. by case_match. Qed.
Lemma complete_auth i args start r w P : Auth (shared (complete i args start r w P)) = Auth (deps w).
Proof using Type. unfold complete. cbv zeta. by destruct (Quit _). Qed.
Lemma begin_cases i s V V' : begin i s V = Some V' →
  V' = V ∨ (∃ c, clients (base V) !! i = Some c ∧ threads V !! i = None ∧ V' = with_base (leave i c (base V)) V) ∨
  (∃ t, threads V !! i = None ∧ V' = with_thread i t V).
Proof using Type.
  unfold begin. destruct (threads V !! i); [intros [= <-]; by left|]. destruct (clients (base V) !! i) as [c|]; [|intros [= <-]; by left].
  destruct (ReadCommand s) as [[|a0 args] rest|e|]; [intros [= <-]; by left|..|done].
  - intros [= <-]. right. right. by eexists.
  - intros [= <-]. right. left. by exists c.
Qed.
Lemma work_cases k V V' : interleaved_ok V → work k V = Some V' →
  threads V' = threads V ∧ clients (base V') = clients (base V) ∧ Auth (shared (base V')) = Auth (shared (base V)).
Proof using All.
  intros I. unfold work. destruct (tools V !! k) as [p|] eqn:Ek; [|by intros [= <-]].
  destruct (advance_ok (K := λ _, True) tool_step (inr k) (nobody (base V)) NewClientState false p V) as
    (p' & w & n & sub' & m & EA & Hpr & _); try done; [apply I|by apply nobody_known_ok|by apply (io_tool _ _ I)|].
  destruct p as [[r|]|B q k'|q|q]; [by intros [= <-]|done|rewrite EA; intros [= <-]; split_and!; try done; apply (pr_auth _ _ _ Hpr)..].
Qed.

(** Whatever happens beside it, a running connection stays where it is. *)
Lemma serve_auth e V V' : interleaved_ok V → serve e V = Some V' → Auth (shared (base V')) = Auth (shared (base V)).
Proof using All.
  intros I. destruct e as [i|i s|i|i|i|k c|k|order]; cbn [serve].
  - intros [= <-]. apply open_auth.
  - by intros [->|[(c & _ & _ & ->)|(t & _ & ->)]]%begin_cases.
  - destruct (threads V !! i) as [t|] eqn:Et; [|unfold step; rewrite Et; by intros [= <-]].
    destruct (io_thread _ _ I i t Et) as (c & sub & Ec & _).
    intros [(r & _ & ->)|(p & w & n & m & _ & Hpr & _ & ->)]%(step_cases i V V' t c); try done; cbn; [apply complete_auth|apply (pr_auth _ _ _ Hpr)].
  - intros [= <-]. by repeat case_match.
  - intros [= <-]. apply forward_auth.
  - intros [= <-]. by case_match.
  - by intros (_ & _ & ?)%work_cases.
  - by intros [= <-].
Qed.
Lemma serve_foreign i t c e V V' : interleaved_ok V → serve e V = Some V' → e ≠ Step i →
  threads V !! i = Some t → clients (base V) !! i = Some c →
  threads V' !! i = Some t ∧ clients (base V') !! i = Some c.
Proof using All.
  intros I Hs He Ht Hc. destruct e as [j|j s|j|j|j|k cl|k|order]; cbn [serve] in Hs.
  - injection Hs as <-. split; [done|]. cbn. unfold open. repeat case_match; try done. cbn. by rewrite lookup_insert_ne by congruence.
  - apply begin_cases in Hs as [->|[(c' & _ & Hn & ->)|(t' & Hn & ->)]]; [done|..]; cbn.
    + rewrite lookup_delete_ne by congruence. done.
    + rewrite lookup_insert_ne by congruence. done.
  - assert (Hij : j ≠ i) by congruence. destruct (threads V !! j) as [tj|] eqn:Ej; [|unfold step in Hs; rewrite Ej in Hs; by injection Hs as <-].
    destruct (io_thread _ _ I j tj Ej) as (cj & sub & Ecj & _).
    apply (step_cases j V V' tj cj) in Hs as [(r & _ & ->)|(p & w & n & m & _ & Hpr & _ & ->)]; try done; cbn.
    + rewrite lookup_delete_ne by done. split; [done|]. unfold complete. cbv zeta.
      destruct (Quit _); cbn; rewrite ?lookup_delete_ne, lookup_insert_ne by done; done.
    + by rewrite !lookup_insert_ne by done.
  - injection Hs as <-. destruct (threads V !! j) eqn:Ej; [done|]. destruct (clients (base V) !! j); [|done]. cbn.
    rewrite lookup_delete_ne by congruence. done.
  - injection Hs as <-. split; [done|]. cbn. unfold forward. destruct (pubsub.receive j _) as [[m|] p]; [|done]. cbn. by case_match.
  - injection Hs as <-. by case_match.
  - apply work_cases in Hs as (-> & -> & _); done.
  - by injection Hs as <-.
Qed.
End runs.

(** ** Linearizability *)

(** The steps of [i] among [es] change nothing. *)
Definition silent `{Runtime} {HR : RuntimeLaws} `{FloatText} `{KeyCodec} `{Services} {HS : ServicesLaws} `{Encoding}
    (i : pubsub.conn) (es : list event) (V : server) : Prop :=
  ∀ es1 es2 U U', es = es1 ++ Step i :: es2 → run es1 V = Some U → step i U = Some U' → base U' = base U.

Section linear.
Context `{Runtime} {HR : RuntimeLaws} `{FloatText} `{KeyCodec} `{Services} {HS : ServicesLaws} `{Encoding}.

Lemma silent_nil i V : silent i [] V.
Proof using Type. intros [|? ?] ? ? ? [=]. Qed.
Lemma silent_cons i e es V V1 : serve e V = Some V1 → (e = Step i → base V1 = base V) → silent i es V1 → silent i (e :: es) V.
Proof using Type.
  intros He Hb Hs es1 es2 U U' E HU Hst. destruct es1 as [|e1 es1]; cbn in E; injection E as -> E.
  - cbn in HU. injection HU as ->. cbn [serve] in He. rewrite Hst in He. injection He as ->. auto.
  - cbn [run] in HU. rewrite He in HU. by eapply Hs.
Qed.

Lemma step_or i (e : event) : e = Step i ∨ e ≠ Step i.
Proof using Type. destruct e as [j|j s|j|j|j|k c|k order|order]; try by right. destruct (decide (j = i)) as [->|Hne]; [by left|right; by intros [=]]. Qed.
(** The answer is there, and is sent when the connection's turn comes. *)
Lemma pending_answer i t c r es : ∀ V V', interleaved_ok V → Forall event_ok es → threads V !! i = Some t →
  clients (base V) !! i = Some c → th_prog t = Done (Some r) → run es V = Some V' → threads V' !! i = None →
  ∃ es2 es3 V3 V4, es = es2 ++ Step i :: es3 ∧ run es2 V = Some V3 ∧ silent i es2 V ∧ step i V3 = Some V4 ∧
    base V4 = complete i (th_args t) (th_start t) (writeReply (Some r)) (world (base V3) i c) (base V3).
Proof using All.
  induction es as [|e es IH]; intros V V' I He Ht Hc Hp Hr Hn; cbn [run] in Hr; [congruence|].
  apply Forall_cons in He as [He Hes]. destruct (event_served_ok e V I He) as (V1 & E1 & I1). rewrite E1 in Hr.
  destruct (step_or i e) as [->|Hne].
  - exists [], es, V, V1. split_and!; [done|done|apply silent_nil|exact E1|].
    apply (step_cases i V V1 t c) in E1 as [(r' & E & ->)|(p & w & n & m & _ & _ & Hno & _)]; try done; [|by edestruct Hno].
    cbn. congruence.
  - destruct (serve_foreign i t c e V V1 I E1 Hne Ht Hc) as [Ht1 Hc1].
    destruct (IH V1 V' I1 Hes Ht1 Hc1 Hp Hr Hn) as (es2 & es3 & V3 & V4 & -> & R2 & S2 & R3 & HB).
    exists (e :: es2), es3, V3, V4. split_and!; try done; [cbn [run]; by rewrite E1|]. by eapply silent_cons.
Qed.

(** The program's answer does not change as long as only others move. *)
Lemma reads_again {A B} (m : H B) (k : B → prog A) P P' i c x : reads m → m (world P i c) = (Some x, world P i c) →
  Auth (shared P') = Auth (shared P) → alone (Invoke m k) (world P' i c) = alone (k x) (world P' i c).
Proof using Type.
  intros Hm E HA. destruct (Hm (world P i c)) as [_ S1]. destruct (Hm (world P' i c)) as [S2 _].
  specialize (S1 (world P' i c) eq_refl HA). rewrite E in S1. cbn [alone]. unfold hbind, bind.
  destruct (m (world P' i c)) as [o w']. cbn in *. by subst.
Qed.
Lemma run_auth es : ∀ V V', interleaved_ok V → Forall event_ok es → run es V = Some V' →
  interleaved_ok V' ∧ Auth (shared (base V')) = Auth (shared (base V)).
Proof using All.
  induction es as [|e es IH]; intros V V' I He; cbn [run]; [by intros [= <-]|]. apply Forall_cons in He as [He Hes].
  destruct (event_served_ok e V I He) as (V1 & E1 & I1). rewrite E1. intros Hr. destruct (IH V1 V' I1 Hes Hr) as [I' A'].
  split; [done|]. rewrite A'. by eapply serve_auth.
Qed.

Definition linearized (i : pubsub.conn) (t : thread) (c : ClientState) (es : list event) (V : server) : Prop :=
  ∃ es1 point es2 es3 V1 V2 V3 V4 r w,
    es = es1 ++ point ++ es2 ++ Step i :: es3 ∧ (point = [] ∨ point = [Step i]) ∧
    run es1 V = Some V1 ∧ run point V1 = Some V2 ∧ run es2 V2 = Some V3 ∧ step i V3 = Some V4 ∧
    clients (base V1) !! i = Some c ∧ alone (th_prog t) (world (base V1) i c) = (Some r, w) ∧
    base V2 = with_client i (cs w) (from_world w (base V1)) ∧
    base V4 = complete i (th_args t) (th_start t) (writeReply (Some r)) (world (base V3) i (cs w)) (base V3) ∧
    silent i es1 V ∧ silent i es2 V2.

Lemma with_client_id i c P : clients P !! i = Some c → with_client i c P = P.
Proof using Type. intros Hc. unfold with_client. rewrite insert_id by done. by destruct P. Qed.
Lemma one_call_linearized i c es : ∀ V V' t, interleaved_ok V → Forall event_ok es → threads V !! i = Some t →
  clients (base V) !! i = Some c → one_call (th_prog t) → run es V = Some V' → threads V' !! i = None → linearized i t c es V.
Proof using All.
  induction es as [|e es IH]; intros V V' t I He Ht Hc Ho Hr Hn; cbn [run] in Hr; [congruence|].
  apply Forall_cons in He as [He Hes]. destruct (event_served_ok e V I He) as (V1 & E1 & I1). rewrite E1 in Hr.
  destruct (step_or i e) as [->|Hne].
  - destruct (th_prog t) as [o|B q k|q|q] eqn:Ep; [|..|done|done].
    + destruct (done_answers i V t o I Ht Ep) as [r ->]. cbn [serve] in E1. unfold step in E1. rewrite Ht, Hc, Ep in E1. injection E1 as EV.
      exists [], [], [], es, V, V, V, V1, r, (world (base V) i c). rewrite Ep.
      pose proof EV as EB. apply (f_equal base) in EB. cbn in EB.
      split_and!; try done; [by left|unfold step; rewrite Ht, Hc, Ep; by f_equal|cbn; by rewrite from_here, with_client_id|apply silent_nil..].
    + destruct (invoke_step i V t c q k I Ht Hc Ep) as (x & w & Eq & Em & ES). cbn [serve] in E1. rewrite ES in E1. injection E1 as EV.
      set (t1 := mkThread (th_args t) (th_start t) (k x)) in EV.
      assert (Ht1 : threads V1 !! i = Some t1) by (rewrite <- EV; apply lookup_insert_eq).
      assert (Hc1 : clients (base V1) !! i = Some (cs w)) by (rewrite <- EV; apply lookup_insert_eq).
      destruct Ho as [[Hrd Ho]|Hd].
      * assert (Ew : w = world (base V) i c) by (pose proof (proj1 (Hrd (world (base V) i c))) as E2; by rewrite Eq in E2). subst w. cbn [cs] in *.
        assert (HB : base V1 = base V) by (rewrite <- EV; cbn; by rewrite from_here, with_client_id).
        destruct (IH V1 V' t1 I1 Hes Ht1 Hc1 (Ho x) Hr Hn) as
          (es1 & point & es2 & es3 & U1 & U2 & U3 & U4 & r & w & -> & Hpt & R1 & R2 & R3 & R4 & C1 & HA & B2 & B4 & S1' & S2').
        exists (Step i :: es1), point, es2, es3, U1, U2, U3, U4, r, w. split_and!; try done.
        -- cbn [run serve]. rewrite ES. by rewrite <- EV in R1.
        -- rewrite Ep. rewrite (reads_again q k (base V) _ i c x Hrd Eq); [exact HA|].
           rewrite (proj2 (run_auth es1 V1 U1 I1 (proj1 (proj1 (Forall_app _ _ _) Hes)) R1)). by rewrite HB.
        -- eapply silent_cons; [cbn [serve]; rewrite ES; exact (f_equal Some EV)|intros _; exact HB|done].
      * destruct (Hd x) as [o Eo]. destruct (done_answers i V1 t1 o I1 Ht1 Eo) as [r ->].
        destruct (pending_answer i t1 (cs w) r es V1 V' I1 Hes Ht1 Hc1 Eo Hr Hn) as (es2 & es3 & V3 & V4 & -> & R2 & S2' & R3 & HB).
        exists [], [Step i], es2, es3, V, V1, V3, V4, r, w. split_and!; try done; [by right|cbn [run serve]; rewrite ES; exact (f_equal Some EV)| |by rewrite <- EV|apply silent_nil].
        rewrite Ep. cbn [alone]. unfold hbind, bind. by rewrite Eq, Eo.
  - destruct (serve_foreign i t c e V V1 I E1 Hne Ht Hc) as [Ht1 Hc1].
    destruct (IH V1 V' t I1 Hes Ht1 Hc1 Ho Hr Hn) as
      (es1 & point & es2 & es3 & U1 & U2 & U3 & U4 & r & w & -> & Hpt & R1 & R2 & R3 & R4 & C1 & HA & B2 & B4 & S1' & S2').
    exists (e :: es1), point, es2, es3, U1, U2, U3, U4, r, w. split_and!; try done; [cbn [run]; by rewrite E1|by eapply silent_cons].
Qed.
End linear.

(** ** Running to the end *)

Section ends.
Context `{Runtime} {HR : RuntimeLaws} `{FloatText} `{KeyCodec} `{Services} {HS : ServicesLaws} `{Encoding}.

Lemma with_client_again i c c' w P : with_client i c (from_world w (with_client i c' P)) = with_client i c (from_world w P).
Proof using Type. unfold with_client. cbn. by rewrite insert_insert_eq. Qed.
Lemma world_again i w P : me w = i → world (with_client i (cs w) (from_world w P)) i (cs w) = w.
Proof using Type. intros <-. by destruct w. Qed.

Definition after_calls (i : pubsub.conn) (t : thread) (c : ClientState) (w : World) (p : prog Reply) (m : option (pubsub.conn + nat))
    (V : server) : server :=
  mkServer (with_client i (cs w) (from_world w (base V))) (<[i := mkThread (th_args t) (th_start t) p]> (threads V)) (tools V) m.
Lemma thread_mutex i V t : interleaved_ok V → threads V !! i = Some t →
  match th_prog t with
  | Done _ | Lock _ => mutex V ≠ Some (inl i)
  | Unlock _ => mutex V = Some (inl i)
  | Invoke _ _ => True
  end.
Proof using Type.
  intros I Et. destruct (io_thread _ _ I i t Et) as (c & sub & _ & _ & Hp). destruct (th_prog t); [|done|..]; cbn in Hp.
  - destruct Hp as [_ Hh]. by apply bool_decide_eq_false in Hh.
  - destruct Hp as [Hh _]. by apply bool_decide_eq_false in Hh.
  - destruct Hp as [Hh _]. by apply bool_decide_eq_true in Hh.
Qed.

(** A connection that need not wait comes to its answer, which is the one it
    computes alone. *)
Lemma thread_ends i p : ∀ V t c, interleaved_ok V → threads V !! i = Some t → clients (base V) !! i = Some c →
  th_prog t = p → mutex V = None ∨ mutex V = Some (inl i) →
  ∃ n r w, me w = i ∧ alone p (world (base V) i c) = (Some r, w) ∧
    run (replicate n (Step i)) V = Some (after_calls i t c w (Done (Some r)) None V).
Proof using All.
  induction p as [o|B m k IH|p IH|p IH]; intros V t c I Et Ec Ep Hm; pose proof (thread_mutex i V t I Et) as Hh; rewrite Ep in Hh.
  - destruct (done_answers i V t o I Et Ep) as [r ->]. exists 0%nat, r, (world (base V) i c). split; [done|]. split; [done|].
    unfold after_calls. cbn. rewrite from_here, with_client_id, <- Ep, insert_id by (done || by destruct t).
    destruct Hm as [Hm|]; [rewrite <- Hm; by destruct V|done].
  - destruct (invoke_step i V t c m k I Et Ec Ep) as (x & w & Eq & Em & ES).
    destruct (thread_step_ok i V I) as (V1 & E1 & I1). rewrite ES in E1. injection E1 as E1.
    destruct (IH x V1 (mkThread (th_args t) (th_start t) (k x)) (cs w)) as (n & r & w' & Em' & HA & HR1);
      [done|subst V1; apply lookup_insert_eq|subst V1; apply lookup_insert_eq|done|by subst V1|].
    exists (S n), r, w'. split; [done|]. subst V1. cbn [base] in HA. rewrite world_again in HA by done. split.
    + cbn [alone]. unfold hbind, bind. by rewrite Eq.
    + cbn [replicate run serve]. rewrite ES. rewrite HR1. unfold after_calls. cbn. by rewrite with_client_again, insert_insert_eq.
  - destruct Hm as [Hm|]; [|done].
    destruct (thread_step_ok i V I) as (V1 & ES & I1). pose proof ES as E1. unfold step in E1. rewrite Et, Ec, Ep in E1. cbn [advance] in E1.
    rewrite Hm in E1. injection E1 as E1. cbn in E1. rewrite with_client_id in E1 by done.
    destruct (IH V1 (mkThread (th_args t) (th_start t) p) c) as (n & r & w' & Em' & HA & HR1);
      [done|subst V1; apply lookup_insert_eq|by subst V1|done|subst V1; by right|].
    exists (S n), r, w'. split; [done|]. subst V1. split; [exact HA|]. cbn [replicate run serve]. rewrite ES, HR1.
    unfold after_calls. cbn. by rewrite insert_insert_eq.
  - destruct (thread_step_ok i V I) as (V1 & ES & I1). pose proof ES as E1. unfold step in E1. rewrite Et, Ec, Ep in E1. cbn [advance] in E1.
    injection E1 as E1. cbn in E1. rewrite with_client_id in E1 by done.
    destruct (IH V1 (mkThread (th_args t) (th_start t) p) c) as (n & r & w' & Em' & HA & HR1);
      [done|subst V1; apply lookup_insert_eq|by subst V1|done|subst V1; by left|].
    exists (S n), r, w'. split; [done|]. subst V1. split; [exact HA|]. cbn [replicate run serve]. rewrite ES, HR1.
    unfold after_calls. cbn. by rewrite insert_insert_eq.
Qed.

Definition after_work (k : nat) (w : World) (p : prog mcp.answer) (m : option (pubsub.conn + nat)) (V : server) : server :=
  mkServer (from_world w (base V)) (threads V) (<[k := p]> (tools V)) m.
Lemma tool_ends k p : ∀ V, interleaved_ok V → tools V !! k = Some p → mutex V = None ∨ mutex V = Some (inr k) →
  ∃ n r w, alone p (world (base V) (nobody (base V)) NewClientState) = (Some r, w) ∧
    run (replicate n (Work k)) V = Some (after_work k w (Done (Some r)) None V).
Proof using All.
  induction p as [o|B m q IH|p IH|p IH]; intros V I Ek Hm; pose proof (io_tool _ _ I k _ Ek) as Hp; cbn [careful] in Hp;
    destruct (work_ok k V I) as (V1 & ES & I1); pose proof ES as E1; unfold work in E1; rewrite Ek in E1.
  - destruct Hp as [[r ->] Hh]. apply bool_decide_eq_false in Hh. exists 0%nat, r, (world (base V) (nobody (base V)) NewClientState).
    split; [done|]. unfold after_work. cbn. rewrite from_here, insert_id by done.
    destruct Hm as [Hm|]; [rewrite <- Hm; by destruct V|done].
  - destruct Hp as [_ Hp]. pose proof (nobody_known_ok V I) as Hw.
    destruct (Hp _ Hw ltac:(done)) as (x & w & n0 & sub' & Eq & Ha & _ & [HC HB] & _).
    pose proof (pr_me _ _ _ (acts_progress _ _ _ (known_session _ _ Hw) Ha)) as Em.
    cbn [advance] in E1. rewrite Eq in E1. injection E1 as E1. cbn in E1, HC, HB, Em.
    assert (EW : world (base V1) (nobody (base V1)) NewClientState = w).
    { subst V1. unfold nobody. cbn. rewrite HB. rewrite <- HC. destruct w. cbn in Em. by subst. }
    destruct (IH x V1) as (n & r & w' & HA & HR1); [done|subst V1; apply lookup_insert_eq|by subst V1|].
    exists (S n), r, w'. split.
    + cbn [alone]. unfold hbind, bind. by rewrite Eq, <- EW.
    + cbn [replicate run serve]. rewrite ES, HR1. unfold after_work. subst V1. cbn. by rewrite insert_insert_eq.
  - destruct Hp as [Hh _]. apply bool_decide_eq_false in Hh. destruct Hm as [Hm|]; [|done].
    cbn [advance] in E1. rewrite Hm in E1. injection E1 as E1. cbn in E1.
    destruct (IH V1) as (n & r & w' & HA & HR1); [done|subst V1; apply lookup_insert_eq|subst V1; by right|].
    exists (S n), r, w'. split; [by subst V1|]. cbn [replicate run serve]. rewrite ES, HR1. unfold after_work. subst V1. cbn. by rewrite insert_insert_eq.
  - cbn [advance] in E1. injection E1 as E1. cbn in E1.
    destruct (IH V1) as (n & r & w' & HA & HR1); [done|subst V1; apply lookup_insert_eq|subst V1; by left|].
    exists (S n), r, w'. split; [by subst V1|]. cbn [replicate run serve]. rewrite ES, HR1. unfold after_work. subst V1. cbn. by rewrite insert_insert_eq.
Qed.

(** Then the connection sends it, and the request is done with. *)
Lemma run_steps i n V V1 V' : run (replicate n (Step i)) V = Some V1 → step i V1 = Some V' → run (replicate (S n) (Step i)) V = Some V'.
Proof using Type. intros E1 E2. rewrite replicate_S_end, events_run_app, E1. cbn. by rewrite E2. Qed.
Lemma complete_again i args start r w P : me w = i →
  complete i args start r (world (with_client i (cs w) (from_world w P)) i (cs w)) (with_client i (cs w) (from_world w P)) =
  complete i args start r w P.
Proof using Type.
  intros Em. rewrite world_again by done. unfold complete. cbv zeta. by rewrite with_client_again.
Qed.
Lemma thread_finishes i V t c : interleaved_ok V → threads V !! i = Some t → clients (base V) !! i = Some c →
  mutex V = None ∨ mutex V = Some (inl i) →
  ∃ n r w, alone (th_prog t) (world (base V) i c) = (Some r, w) ∧
    run (replicate n (Step i)) V =
      Some (mkServer (complete i (th_args t) (th_start t) (writeReply (Some r)) w (base V)) (delete i (threads V)) (tools V) None).
Proof using All.
  intros I Et Ec Hm. destruct (thread_ends i _ V t c I Et Ec eq_refl Hm) as (n & r & w & Em & HA & HR1).
  exists (S n), r, w. split; [done|]. eapply run_steps; [exact HR1|]. unfold step, after_calls. cbn [threads base clients with_client].
  rewrite !lookup_insert_eq. cbn [th_prog th_args th_start]. unfold without_thread, with_base. cbn.
  rewrite complete_again by done. by rewrite delete_insert_eq.
Qed.
Lemma tool_finishes k p V : interleaved_ok V → tools V !! k = Some p → mutex V = None ∨ mutex V = Some (inr k) →
  ∃ n r w, alone p (world (base V) (nobody (base V)) NewClientState) = (Some r, w) ∧
    run (replicate n (Work k)) V = Some (mkServer (from_world w (base V)) (threads V) (delete k (tools V)) None).
Proof using All.
  intros I Ek Hm. destruct (tool_ends k p V I Ek Hm) as (n & r & w & HA & HR1).
  exists (S n), r, w. split; [done|]. rewrite replicate_S_end, events_run_app, HR1. cbn. unfold work, after_work. cbn.
  rewrite lookup_insert_eq. cbn. by rewrite delete_insert_eq.
Qed.
End ends.

(** ** Deadlock *)

Definition turn (e : event) : Prop := match e with Step _ | Work _ => True | _ => False end.
Definition running `{Runtime} `{FloatText} `{KeyCodec} `{Services} `{Encoding} (V : server) : nat :=
  (size (threads V) + size (tools V))%nat.

Section drain.
Context `{Runtime} {HR : RuntimeLaws} `{FloatText} `{KeyCodec} `{Services} {HS : ServicesLaws} `{Encoding}.

Lemma turns_ok es : Forall turn es → Forall event_ok es.
Proof using Type. intros HE. eapply Forall_impl; [exact HE|]. by intros []. Qed.
(** Somebody can finish: who holds the mutex, and anybody if nobody does. *)
Lemma one_finishes V : interleaved_ok V → running V ≠ 0%nat →
  ∃ es V', Forall turn es ∧ run es V = Some V' ∧ (running V' < running V)%nat.
Proof using All.
  intros I Hn.
  assert (HT : ∀ i t, threads V !! i = Some t → mutex V = None ∨ mutex V = Some (inl i) →
     ∃ es V', Forall turn es ∧ run es V = Some V' ∧ (running V' < running V)%nat).
  { intros i t Et Hm. destruct (io_thread _ _ I i t Et) as (c & sub & Ec & _).
    destruct (thread_finishes i V t c I Et Ec Hm) as (n & r & w & _ & E). exists (replicate n (Step i)). eexists. split; [|split; [exact E|]].
    - by apply Forall_replicate.
    - unfold running. cbn. pose proof (map_size_delete_Some i (threads V) (ltac:(eauto))). 
      assert (size (threads V) ≠ 0%nat) by (intros Z0%map_size_empty_iff; rewrite Z0 in Et; by rewrite lookup_empty in Et). lia. }
  assert (HK : ∀ k p, tools V !! k = Some p → mutex V = None ∨ mutex V = Some (inr k) →
     ∃ es V', Forall turn es ∧ run es V = Some V' ∧ (running V' < running V)%nat).
  { intros k p Ek Hm. destruct (tool_finishes k p V I Ek Hm) as (n & r & w & _ & E). exists (replicate n (Work k)). eexists. split; [|split; [exact E|]].
    - by apply Forall_replicate.
    - unfold running. cbn. pose proof (map_size_delete_Some k (tools V) (ltac:(eauto))).
      assert (size (tools V) ≠ 0%nat) by (intros Z0%map_size_empty_iff; rewrite Z0 in Ek; by rewrite lookup_empty in Ek). lia. }
  destruct (mutex V) as [[i|k]|] eqn:Em.
  - destruct (io_mutex _ _ I _ Em) as [t Et]. apply (HT i t); auto.
  - destruct (io_mutex _ _ I _ Em) as [p Ek]. apply (HK k p); auto.
  - destruct (map_choose_or_empty (threads V)) as [(i & t & Et)|ET]; [apply (HT i t); auto|].
    destruct (map_choose_or_empty (tools V)) as [(k & p & Ek)|EK]; [apply (HK k p); auto|].
    destruct Hn. unfold running. by rewrite ET, EK, !map_size_empty.
Qed.
Lemma drains n : ∀ V, running V = n → interleaved_ok V → ∃ es P, Forall turn es ∧ run es V = Some (idle P).
Proof using All.
  induction (lt_wf n) as [n _ IH]. intros V Hn I. destruct (decide (running V = 0%nat)) as [Z0|Hr].
  - exists [], (base V). split; [constructor|]. unfold running in Z0. cbn. f_equal.
    assert (ET : threads V = ∅) by (apply map_size_empty_iff; lia). assert (EK : tools V = ∅) by (apply map_size_empty_iff; lia).
    destruct V as [P ts ks m]. cbn in *. subst. unfold idle. f_equal. destruct m as [o|]; [|done].
    pose proof (io_mutex _ _ I o eq_refl) as HI. destruct o; destruct HI as [? HI]; cbn in HI; by rewrite lookup_empty in HI.
  - destruct (one_finishes V I Hr) as (es & V' & Ht & E & Hlt).
    destruct (events_run_ok es V I (turns_ok _ Ht)) as (V1 & E1 & I1). rewrite E in E1. injection E1 as <-.
    destruct (IH (running V') ltac:(lia) V' eq_refl I1) as (es' & P & Ht' & E').
    exists (es ++ es'), P. split; [by apply Forall_app_2|]. by rewrite events_run_app, E.
Qed.

(** A command in progress ends by being answered. *)
Lemma gone_answered i es : ∀ V V' t, interleaved_ok V → Forall event_ok es → threads V !! i = Some t →
  run es V = Some V' → threads V' !! i = None →
  ∃ es1 es2 V1 V2 c r, es = es1 ++ Step i :: es2 ∧ run es1 V = Some V1 ∧ step i V1 = Some V2 ∧
    base V2 = complete i (th_args t) (th_start t) (writeReply (Some r)) (world (base V1) i c) (base V1).
Proof using All.
  induction es as [|e es IH]; intros V V' t I He Et Hr Hn; cbn [run] in Hr; [congruence|].
  apply Forall_cons in He as [He Hes]. destruct (event_served_ok e V I He) as (V1 & E1 & I1). rewrite E1 in Hr.
  destruct (io_thread _ _ I i t Et) as (c & sub & Ec & _).
  assert (HI : ∀ p, threads V1 !! i = Some (mkThread (th_args t) (th_start t) p) →
    ∃ es1 es2 U1 U2 c r, e :: es = es1 ++ Step i :: es2 ∧ run es1 V = Some U1 ∧ step i U1 = Some U2 ∧
      base U2 = complete i (th_args t) (th_start t) (writeReply (Some r)) (world (base U1) i c) (base U1)).
  { intros p Ep. destruct (IH V1 V' _ I1 Hes Ep Hr Hn) as (es1 & es2 & U1 & U2 & c1 & r & -> & R1 & R2 & HB).
    exists (e :: es1), es2, U1, U2, c1, r. split_and!; try done. cbn [run]. by rewrite E1. }
  destruct (step_or i e) as [->|Hne].
  - pose proof E1 as ES. cbn [serve] in ES.
    apply (step_cases i V V1 t c) in ES as [(r & _ & EV)|(p & w & n & m & _ & _ & _ & EV)]; try done.
    + exists [], es, V, V1, c, r. split_and!; try done. by rewrite EV.
    + apply (HI p). rewrite EV. apply lookup_insert_eq.
  - destruct (serve_foreign i t c e V V1 I E1 Hne Et Ec) as [Ht1 _]. apply (HI (th_prog t)). rewrite Ht1. by destruct t.
Qed.
End drain.

(** ** The coarse runs *)

Section coarse.
Context `{Runtime} {HR : RuntimeLaws} `{FloatText} `{KeyCodec} `{Services} {HS : ServicesLaws} `{Encoding}.

(** A command, and a request, all at once. *)
Lemma read_is_steps i s P P' : process_ok P → ReadCommand s ≠ ReadPanic → read i s P = Some P' →
  ∃ n, run (Begin i s :: replicate n (Step i)) (idle P) = Some (idle P').
Proof using All.
  intros I Hs. unfold read. cbn [run serve].
  destruct (begin_ok i s (idle P) (idle_ok P I) Hs) as (V & EB & IV). rewrite EB.
  unfold begin in EB. cbn [threads idle base] in EB. rewrite lookup_empty in EB.
  destruct (clients P !! i) as [c|] eqn:Ec; [|injection EB as <-; intros [= <-]; by exists 0%nat].
  destruct (ReadCommand s) as [[|a0 args] rest|e|];
    [injection EB as <-; intros [= <-]; by exists 0%nat| |injection EB as <-; intros [= <-]; by exists 0%nat|done].
  destruct (Handle 2 (a0 :: args) (world P i c)) as [[r|] w] eqn:EH; [|done]. intros [= <-]. injection EB as EV.
  destruct (thread_finishes i V (mkThread (a0 :: args) (clock (elapsed P)) (program (a0 :: args))) c) as (n & r' & w' & EA & EN).
  { done. } { rewrite <- EV. apply lookup_insert_eq. } { by rewrite <- EV. } { rewrite <- EV. by left. }
  exists n. rewrite EN. rewrite <- EV in EA. cbn [th_prog base with_thread idle] in EA.
  rewrite (program_alone a0 args _ (world_queue_ok i c P I Ec)), EA in EH. injection EH as <- <-.
  rewrite <- EV. unfold idle. cbn. by rewrite delete_insert_id.
Qed.
Lemma call_is_work k c P P' : process_ok P → call c P = Some P' →
  ∃ n, run (Request k c :: replicate n (Work k)) (idle P) = Some (idle P').
Proof using All.
  intros I. unfold call. pose proof (tool_program_alone c (world P (nobody P) NewClientState)) as EA.
  pose proof (request_ok k c (idle P) (idle_ok P I) (lookup_empty k)) as I1.
  destruct (tool_finishes k (tool_program c) _ I1) as (n & r & w & EA' & EN); [apply lookup_insert_eq|by left|].
  cbn [base idle] in EA'. rewrite EA in EA'. rewrite EA'. intros [= <-]. exists n. cbn [run serve tools idle]. rewrite lookup_empty.
  refine (eq_trans EN _). unfold idle. cbn. by rewrite delete_insert_id.
Qed.
End coarse.

(** ** The theorems *)


(** C4: A command of [atomic_commands] is linearizable: from the moment it is
    read until its reply is sent other goroutines may make any number of calls,
    yet at one point in between the whole command happens as [Handle] has it
    with nothing running beside it, before that point and after it the
    connection's own steps change nothing, and the reply sent is the one
    [Handle] gives at that point. *)
Theorem linearizable `{RuntimeLaws} `{FloatText} `{KeyCodec} `{ServicesLaws} `{Encoding} i s a0 rest unread es V V' c :
  interleaved_ok V → Forall event_ok (Begin i s :: es) → threads V !! i = None → clients (base V) !! i = Some c →
  ReadCommand s = Got (a0 :: rest) unread → ToUpper a0 ∈ atomic_commands →
  run (Begin i s :: es) V = Some V' → threads V' !! i = None →
  ∃ es1 point es2 es3 V1 V2 V3 V4 r w,
    es = es1 ++ point ++ es2 ++ Step i :: es3 ∧ (point = [] ∨ point = [Step i]) ∧
    run (Begin i s :: es1) V = Some V1 ∧ run point V1 = Some V2 ∧ run es2 V2 = Some V3 ∧ step i V3 = Some V4 ∧
    Handle 2 (a0 :: rest) (world (base V1) i c) = (Some (Some r), w) ∧
    base V2 = with_client i (cs w) (from_world w (base V1)) ∧
    base V4 = complete i (a0 :: rest) (clock (elapsed (base V))) (writeReply (Some r)) (world (base V3) i (cs w)) (base V3) ∧
    silent i (Begin i s :: es1) V ∧ silent i es2 V2.
Proof.
  intros I He Ht Hc Hs Ha Hr Hn. apply Forall_cons in He as [He Hes].
  destruct (begin_ok i s V I He) as (V0 & EB & I0). cbn [run serve] in Hr. rewrite EB in Hr.
  assert (EV : V0 = with_thread i (mkThread (a0 :: rest) (clock (elapsed (base V))) (program (a0 :: rest))) V).
  { unfold begin in EB. rewrite Ht, Hc, Hs in EB. injection EB as EB. symmetry. exact EB. }
  destruct (one_call_linearized i c es V0 V' (mkThread (a0 :: rest) (clock (elapsed (base V))) (program (a0 :: rest)))) as
    (es1 & point & es2 & es3 & V1 & V2 & V3 & V4 & r & w & -> & Hp & R1 & R2 & R3 & R4 & C1 & HA & B2 & B4 & S1' & S2');
    [done|done|rewrite EV; apply lookup_insert_eq|by rewrite EV|by apply atomic_one_call|done|done|].
  destruct (run_auth es1 V0 V1 I0 (proj1 (proj1 (Forall_app _ _ _) Hes)) R1) as [IV1 _].
  cbn [th_prog th_args th_start] in HA, B4.
  exists es1, point, es2, es3, V1, V2, V3, V4, r, w. split; [done|]. split; [done|].
  split; [cbn [run serve]; by rewrite EB|]. split; [done|]. split; [done|]. split; [done|]. split.
  { rewrite (program_alone a0 rest _ (world_queue_ok i c _ (io_base _ _ IV1) C1)). by rewrite HA. }
  split; [done|]. split; [done|]. split; [|done]. eapply silent_cons; [exact EB|done|done].
Qed.



(** ** Concrete runs *)

#[local] Existing Instance cl_runtime.
#[local] Existing Instance cl_runtime_laws.
#[local] Existing Instance cl_floats.
#[local] Existing Instance toy_codec.
#[local] Existing Instance no_encoding.
#[local] Existing Instance offline.
#[local] Existing Instance offline_laws.

Definition il_two : server := idle cl_two.
Lemma il_two_ok : interleaved_ok il_two.
Proof. apply idle_ok, cl_two_ok. Qed.
(** Connection [i] reads a command; it makes [n] turns; it does both. *)
Definition asks (i : pubsub.conn) (args : list string) : event := Begin i (encode args).
Definition turns (n : nat) (i : pubsub.conn) : list event := replicate n (Step i).
Definition tells (i : pubsub.conn) (args : list string) (n : nat) : list event := asks i args :: turns n i.
(** What connection [i] was sent, if nothing is running any more. *)
Definition il_wire (i : pubsub.conn) (es : list event) (V : server) : option string :=
  match run es V with
  | Some V => if decide (running V = 0%nat) then wires (base V) !! i else None
  | None => None
  end.

(** Two connections increment a counter that is not there. *)
Definition il_incr : list event :=
  asks 1 ["INCR"; "n"] :: turns 3 1 ++ tells 2 ["INCR"; "n"] 6 ++ turns 4 1 ++ tells 1 ["GET"; "n"] 4.
Example increments_lost :
  il_wire 1 il_incr il_two = Some (line ":1" +:+ line "$1" +:+ line "1") ∧ il_wire 2 il_incr il_two = Some (line ":1").
Proof. split; vm_compute; reflexivity. Qed.
(** What MSET sets can be seen in part. *)
Example mset_torn :
  il_wire 2 (asks 1 ["MSET"; "a"; "1"; "b"; "1"] :: turns 3 1 ++ tells 2 ["MGET"; "a"; "b"] 9 ++ turns 9 1) il_two =
    Some (line "*2" +:+ line "$1" +:+ line "1" +:+ line "$-1").
Proof. vm_compute. reflexivity. Qed.
(** A transaction on a watched key, of connection 1, up to its EXEC. *)
Definition il_tx : list event :=
  tells 1 ["WATCH"; "k"] 9 ++ tells 1 ["MULTI"] 9 ++ tells 1 ["SET"; "k"; "mine"] 9 ++ tells 1 ["GET"; "k"] 9.
Definition il_queued : string := line "+OK" +:+ line "+OK" +:+ line "+QUEUED" +:+ line "+QUEUED".
(** The watched key is written after EXEC has compared the versions and before
    it has the mutex: the transaction runs and the other update is lost. *)
Example watched_write_lost :
  il_wire 1 (il_tx ++ asks 1 ["EXEC"] :: turns 5 1 ++ tells 2 ["SET"; "k"; "theirs"] 9 ++ turns 9 1) il_two =
    Some (il_queued +:+ line "*2" +:+ line "+OK" +:+ line "$4" +:+ line "mine").
Proof. vm_compute. reflexivity. Qed.
(** The mutex keeps out other transactions, not other commands ... *)
Example exec_lets_commands_in :
  il_wire 1 (il_tx ++ asks 1 ["EXEC"] :: turns 9 1 ++ tells 2 ["SET"; "k"; "theirs"] 9 ++ turns 9 1) il_two =
    Some (il_queued +:+ line "*2" +:+ line "+OK" +:+ line "$6" +:+ line "theirs").
Proof. vm_compute. reflexivity. Qed.
(** ... and a transaction that finds it taken waits. *)
Definition il_tx2 : list event := tells 2 ["MULTI"] 9 ++ tells 2 ["SET"; "k"; "theirs"] 9.
Definition il_waiting : list event := il_tx ++ il_tx2 ++ asks 1 ["EXEC"] :: turns 9 1 ++ tells 2 ["EXEC"] 9.
Example exec_waits :
  il_wire 1 (il_waiting ++ turns 9 1 ++ turns 9 2 ++ tells 1 ["GET"; "k"] 9) il_two =
    Some (il_queued +:+ line "*2" +:+ line "+OK" +:+ line "$4" +:+ line "mine" +:+ line "$6" +:+ line "theirs") ∧
  il_wire 2 (il_waiting ++ turns 9 1 ++ turns 9 2 ++ tells 1 ["GET"; "k"] 9) il_two =
    Some (line "+OK" +:+ line "+QUEUED" +:+ line "*1" +:+ line "+OK").
Proof. split; vm_compute; reflexivity. Qed.

Ltac small_sendable := apply sendable_small; [discriminate|reflexivity|reflexivity].
Lemma event_ok_asks i args : sendable args → event_ok (asks i args).
Proof. intros Hs. unfold asks. cbn [event_ok]. by rewrite reads_encoded. Qed.
Lemma turns_are_ok n i : Forall event_ok (turns n i).
Proof. by apply Forall_replicate. Qed.
Ltac events_ok :=
  repeat first [apply Forall_app_2 | apply turns_are_ok | apply Forall_nil_2 | (apply Forall_cons; split)];
  lazymatch goal with
  | |- event_ok (asks _ _) => apply event_ok_asks; small_sendable
  | |- event_ok (Sweep elements) => apply sweep_elements_ok
  | |- event_ok _ => exact Logic.I
  | |- _ => idtac
  end.

(** An INCR is overtaken by an INCR, a tool call and a sweep. *)
Definition il_events : list event :=
  [Open 1; Open 2; asks 1 ["INCR"; "n"]] ++ turns 3 1 ++ [Request 7 (mcp.Tool_cache_set (mcp.mkToolSet "t" "{}" "r" 0)); Work 7] ++
  tells 2 ["INCR"; "n"] 6 ++ [Sweep elements; Work 7; Hangup 2] ++ turns 4 1 ++ [Work 7; Work 7; Work 7].



(** A GET is overtaken by a SET, and answers what was set. *)
Definition il_overtaken : list event := turns 2 1 ++ tells 2 ["SET"; "k"; "v"] 9 ++ turns 9 1.
Lemma linearizable_witness :
  match run (asks 1 ["GET"; "k"] :: il_overtaken) il_two with
  | Some V' => wires (base V') !! 1%nat = Some (line "$1" +:+ line "v") ∧
      ∃ es1 point es2 es3 V1 r w, il_overtaken = es1 ++ point ++ es2 ++ Step 1 :: es3 ∧ (point = [] ∨ point = [Step 1%nat]) ∧
        run (asks 1 ["GET"; "k"] :: es1) il_two = Some V1 ∧
        Handle 2 ["GET"; "k"] (world (base V1) 1 NewClientState) = (Some (Some r), w)
  | None => False
  end.
Proof.
  assert (HV : match run (asks 1 ["GET"; "k"] :: il_overtaken) il_two with
    | Some V' => wires (base V') !! 1%nat = Some (line "$1" +:+ line "v") ∧ threads V' !! 1%nat = None | None => False end)
    by (vm_compute; split; reflexivity).
  pose proof (linearizable 1%nat (encode ["GET"; "k"]) "GET" ["k"] "" il_overtaken il_two) as HL.
  change (Begin 1 (encode ["GET"; "k"])) with (asks 1 ["GET"; "k"]) in HL.
  destruct (run (asks 1 ["GET"; "k"] :: il_overtaken) il_two) as [V'|]; [|exact HV]. destruct HV as [HV1 HV2].
  split; [exact HV1|].
  destruct (HL V' NewClientState il_two_ok) as
    (es1 & point & es2 & es3 & V1 & V2 & V3 & V4 & r & w & E & Hp & R1 & _ & _ & _ & HH & _).
  - unfold il_overtaken, tells. cbn [app]. events_ok.
  - reflexivity.
  - reflexivity.
  - apply reads_encoded. small_sendable.
  - apply (bool_decide_unpack _). vm_compute. exact Logic.I.
  - reflexivity.
  - exact HV2.
  - exists es1, point, es2, es3, V1, r, w. split; [exact E|]. split; [exact Hp|]. split; [exact R1|exact HH].
Defined.
