(* ===== verification/InterleaveIso.v ===== *)
(** * Workspaces, call by call

    [ClusterSpec.process_isolation] for the interleavings of Interleave.v: each
    single call of a command of a client, wherever it is made, changes keys of
    the client's own workspace only, so no interleaving of calls reaches a
    workspace whose passwords the clients do not know. *)

From S2P Require Import Prelude.
From S2P Require Import GoStd.
From S2P Require Import Floats.
From S2P Require Import Auth.
From S2P Require Import Similarity.
From S2P Require Import Caches.
From S2P Require Import Memory.
From S2P Require Import Graph.
From S2P Require Import Metrics.
From S2P Require Import Providers.
From S2P Require Import Shard.
From S2P Require Import Store.
From S2P Require Import ShardSpec.
From S2P Require Import StoreSpec.
From S2P Require Import EngineMulti.
From S2P Require Import KeySpace.
From S2P Require Import KeyScan.
From S2P Require Import Engine.
From S2P Require Import RespCodec.
From S2P Require Import PubSub.
From S2P Require Import Server.
From S2P Require Import HandlersKV.
From S2P Require Import HandlersData.
From S2P Require Import HandlersPubSub.
From S2P Require Import Mcp.
From S2P Require Import McpSpec.
From S2P Require Import Session.
From S2P Require Import SessionSpec.
From S2P Require Import SessionRun.
From S2P Require Import TxSpec.
From S2P Require Import Confine.
From S2P Require Import TenantStores.
From S2P Require Import Isolation.
From S2P Require Import Effects.
From S2P Require Import Ttl.
From S2P Require Import Startup.
From S2P Require Import Cluster.
From S2P Require Import ClusterSpec.
From S2P Require Import Regions.
From S2P Require Import Programs.
From S2P Require Import Scripts.
From S2P Require Import Interleave.
From S2P Require Import InterleaveSpec.

Open Scope Z_scope.
Open Scope go_scope.

Import process.
Import interleaved.

(** ** One call *)

Section calls.
Context `{Runtime} {HR : RuntimeLaws} `{FloatText} `{KeyCodec} `{Services} {HS : ServicesLaws} `{Encoding}.
Context (W K : string → Prop) (a : auth.Authenticator).
Context (HK : ∀ pw ws, K pw → auth.WorkspaceForPassword a pw = Some ws → W ws).
#[local] Abbreviation iso := (iso W K a False).

Lemma iso_elsewhere {A} (m : H A) :
  (∀ w, cs (m w).2 = cs w ∧ Engine (deps (m w).2) = Engine (deps w) ∧ Auth (deps (m w).2) = Auth (deps w)) → iso m.
Proof using Type. intros Hm. by apply iso_deps. Qed.
Lemma iso_framed {A} (m : H A) : framed m → iso m.
Proof using Type.
  intros Hm. apply iso_elsewhere. intros w. destruct (Hm w) as (x & w' & E & F). rewrite E. cbn.
  split_and!; [apply (mf_cs _ _ F)|apply (mf_engine _ _ F)|apply (mf_auth _ _ F)].
Qed.
Lemma iso_unsubscribing f g : (∀ c, Workspace (g c) = Workspace c ∧ Queued (g c) = Queued c) →
  iso (do! _ := put_cs g in do! live := has_subCh in if live : bool then broker_do f else hret tt).
Proof using Type.
  intros Hg. apply iso_bind; [apply iso_put_cs; intros c; destruct (Hg c); auto|intros _].
  apply iso_bind; [apply iso_broker|intros [|]]; [apply iso_broker|apply iso_ret].
Qed.
Lemma iso_queue args : Forall K args →
  iso (put_cs (λ c, set_Multi (InMulti c) (MultiError c) (Queued c ++ [args]) c)).
Proof using Type.
  intros Hl w [I HW HQ HA]. split; [|by apply within_refl]. split; try done. cbn.
  apply Forall_app_2; [done|]. apply Forall_singleton. by split.
Qed.
Lemma iso_subscribing f g : (∀ c, Workspace (g c) = Workspace c ∧ Queued (g c) = Queued c) →
  iso (do! _ := put_cs g in broker_do f).
Proof using Type. intros Hg. apply iso_bind; [apply iso_put_cs; intros c; destruct (Hg c); auto|intros _; apply iso_broker]. Qed.
Lemma call_iso {A} (m : H A) : component K m → iso m.
Proof using All.
  intros Hc. destruct Hc as [| |ws|f Hf|args Hl|pw Hpw|sel|args| | |B n f Hf|n|C B sel upd f Hu|C B sel upd f Hu|f|f|sys user
    |p mo te r ttl c|p mo te th|m ttl|ws q o| |ch|pat|ch|pat|ch payload].
  - apply iso_get_cs.
  - apply iso_get_Auth.
  - by apply iso_state.
  - by apply iso_put_cs.
  - by apply iso_queue.
  - by apply iso_authenticate.
  - apply iso_own_subscriptions.
  - apply iso_handleInfo.
  - apply iso_error_reply.
  - by apply iso_elsewhere.
  - apply iso_engineN. intros t ws. apply Hf.
  - by apply iso_elsewhere.
  - apply iso_elsewhere. intros w. unfold on. destruct (f _ _). cbn. by destruct (Hu c (deps w)).
  - apply iso_bind; [|intros; apply iso_check_panic].
    apply iso_elsewhere. intros w. unfold on. destruct (f _ _). cbn. by destruct (Hu c (deps w)).
  - apply iso_metric.
  - apply iso_analytic.
  - apply iso_completion.
  - apply iso_framed. auto with framed.
  - apply iso_framed. auto with framed.
  - apply iso_framed. auto with framed.
  - apply iso_framed. auto with framed.
  - apply iso_broker.
  - by apply iso_subscribing.
  - by apply iso_subscribing.
  - by apply iso_unsubscribing.
  - by apply iso_unsubscribing.
  - apply iso_bind; [apply iso_broker|intros o]. apply iso_bind; [apply iso_check_panic|intros [n|]]; [apply iso_ret|apply iso_panic].
Qed.
End calls.

(** ** Runs *)

Section runs.
Context `{Runtime} {HR : RuntimeLaws} `{FloatText} `{KeyCodec} `{Services} {HS : ServicesLaws} `{Encoding}.
Context (W K : string → Prop) (a : auth.Authenticator).
Context (HK : ∀ pw ws, K pw → auth.WorkspaceForPassword a pw = Some ws → W ws) (HD : W defaultWorkspace).
#[local] Abbreviation apart := (apart W False).

Record inside (V : server) : Prop := {
  in_ok : server_ok K V;
  in_auth : Auth (shared (base V)) = a;
  in_client i c : clients (base V) !! i = Some c → W (Workspace c);
}.

(** A call that is made for a client inside [W]. *)
Lemma call_inside {A} i c (m : H A) V : inside V → component K m → known_ok K (world (base V) i c) → W (Workspace c) →
  let w := (m (world (base V) i c)).2 in
  W (Workspace (cs w)) ∧ Auth (deps w) = a ∧ ∀ P, Engine (shared P) = Engine (deps w) → apart (base V) P.
Proof using HK HR HS.
  intros I Hm Hw Hc w. destruct (call_iso W K a HK m Hm (world (base V) i c)) as [[_ RW _ RA] [C _]].
  { split; [apply (po_store _ (io_base _ _ (in_ok _ I)))|done| |apply (in_auth _ I)].
    destruct Hw as [_ HQ]. eapply Forall_impl; [exact HQ|]. intros args Ha. by split. }
  split; [done|]. split; [done|]. intros P EP. split; [rewrite EP; apply C|]. split; [|done].
  intros k Hk. rewrite EP. destruct (cf_frame _ _ _ C k Hk) as [?|[? ?]]; [by left|right; split; [done|by left]].
Qed.
Lemma elsewhere_apart P P' : Engine (shared P') = Engine (shared P) → apart P P'.
Proof using Type. intros E. by apply apart_same. Qed.
Lemma complete_engine i args start r w P : Engine (shared (complete i args start r w P)) = Engine (deps w).
Proof using Type. unfold complete. cbv zeta. by destruct (Quit _). Qed.
Lemma complete_clients i args start r w P j c : clients (complete i args start r w P) !! j = Some c →
  c = cs w ∨ clients P !! j = Some c.
Proof using Type.
  unfold complete. cbv zeta. destruct (Quit _); cbn.
  - intros [_ [[_ <-]|[_ Hj]]%lookup_insert_Some]%lookup_delete_Some; auto.
  - intros [[_ <-]|[_ Hj]]%lookup_insert_Some; auto.
Qed.

Lemma step_inside i V V' : inside V → step i V = Some V' → inside V' ∧ apart (base V) (base V').
Proof using HK HR HS.
  intros I E. pose proof (in_ok _ I) as IV. destruct (thread_step_ok i V IV) as (V1 & E1 & IV'). rewrite E in E1. injection E1 as <-.
  unfold step in E. destruct (threads V !! i) as [t|] eqn:Et; [|injection E as <-; split; [done|by apply elsewhere_apart]].
  destruct (io_thread _ _ IV i t Et) as (c & sub & Ec & Hl & Hp). rewrite Ec in E.
  pose proof (world_known_ok i c V IV Ec) as Hw. pose proof (in_client _ I i c Ec) as Hc.
  assert (HI : ∀ P, base V' = P → Auth (shared P) = a → (∀ j cj, clients P !! j = Some cj → W (Workspace cj)) →
    apart (base V) P → inside V' ∧ apart (base V) (base V')) by (intros P <- EA EC AP; by split).
  destruct (th_prog t) as [[r|]|B m k|q|q]; cbn [advance] in E; [|done|..].
  - injection E as <-. eapply HI; [reflexivity| | |apply elsewhere_apart, complete_engine].
    + cbn. rewrite complete_auth. apply (in_auth _ I).
    + intros j cj. cbn. intros [->|Hj]%complete_clients; [done|by eapply in_client].
  - destruct Hp as [Hm Hp]. destruct (Hp _ Hw Hl) as (x & w & n & sub' & Eq & _).
    destruct (call_inside i c m V I Hm Hw Hc) as (RW & RA & AP). rewrite Eq in *. cbn [snd] in *. injection E as <-.
    eapply HI; [reflexivity|done| |by apply AP]. intros j cj. cbn.
    intros [[_ <-]|[_ Hj]]%lookup_insert_Some; [done|by eapply in_client].
  - assert (EB : base V' = base V) by (destruct (mutex V); injection E as <-; apply with_client_id, Ec).
    eapply HI; [exact EB|apply (in_auth _ I)|apply (in_client _ I)|by apply elsewhere_apart].
  - assert (EB : base V' = base V) by (injection E as <-; apply with_client_id, Ec).
    eapply HI; [exact EB|apply (in_auth _ I)|apply (in_client _ I)|by apply elsewhere_apart].
Qed.
Lemma work_inside k V V' : inside V → work k V = Some V' → inside V' ∧ apart (base V) (base V').
Proof using All.
  intros I E. pose proof (in_ok _ I) as IV. destruct (work_ok k V IV) as (V1 & E1 & IV'). rewrite E in E1. injection E1 as <-.
  unfold work in E. destruct (tools V !! k) as [p|] eqn:Ek; [|injection E as <-; split; [done|by apply elsewhere_apart]].
  pose proof (io_tool _ _ IV k p Ek) as Hp. pose proof (nobody_known_ok V IV) as Hw.
  assert (HI : ∀ P, base V' = P → Auth (shared P) = a → clients P = clients (base V) →
    apart (base V) P → inside V' ∧ apart (base V) (base V')).
  { intros P <- EA EC AP. split; [|done]. split; [done|done|]. rewrite EC. apply (in_client _ I). }
  destruct p as [[r|]|B m q|q|q]; cbn [advance] in E; [|done|..].
  2: { destruct Hp as [Hm Hp]. destruct (Hp _ Hw) as (x & w & n & sub' & Eq & _); [done|].
    destruct (call_inside (nobody (base V)) NewClientState m V I Hm Hw HD) as (RW & RA & AP). rewrite Eq in *. cbn [snd] in *.
    injection E as <-. eapply HI; [reflexivity|done|done|by apply AP]. }
  all: assert (EB : base V' = base V) by (try destruct (mutex V); by injection E as <-);
    eapply HI; [exact EB|apply (in_auth _ I)|done|by apply elsewhere_apart].
Qed.
Lemma begin_inside i s V V' : inside V → server_ok K V' → begin i s V = Some V' → inside V' ∧ apart (base V) (base V').
Proof using Type.
  intros I IV' [->|[(c & _ & _ & ->)|(t & _ & ->)]]%begin_cases.
  - split; [done|by apply elsewhere_apart].
  - split; [|by apply elsewhere_apart]. split; [done|apply (in_auth _ I)|]. intros j cj. cbn.
    intros [_ Hj]%lookup_delete_Some. by eapply in_client.
  - split; [|by apply elsewhere_apart]. split; [done|apply (in_auth _ I)|apply (in_client _ I)].
Qed.
Lemma serve_inside e V V' : inside V → event_ok e → known_event K e → serve e V = Some V' →
  inside V' ∧ apart (base V) (base V').
Proof using All.
  intros I He Hk E. destruct (served_known_ok e V (in_ok _ I) He Hk) as (V1 & E1 & IV'). rewrite E in E1. injection E1 as <-.
  assert (HI : Auth (shared (base V')) = a → (∀ j c, clients (base V') !! j = Some c → W (Workspace c)) →
    apart (base V) (base V') → inside V' ∧ apart (base V) (base V')) by (intros EA EC AP; by split).
  pose proof (in_auth _ I) as IA. pose proof (in_client _ I) as IC.
  destruct e as [i|i s|i|i|i|k c|k|order]; cbn [serve] in E.
  - injection E as <-. apply HI; [cbn; by rewrite open_auth| |apply elsewhere_apart; cbn; unfold open; by repeat case_match].
    intros j c. cbn. unfold open. repeat case_match; [apply IC|apply IC|]. cbn.
    intros [[_ <-]|[_ Hj]]%lookup_insert_Some; [done|by apply (IC j)].
  - by apply (begin_inside i s).
  - by apply (step_inside i).
  - injection E as <-. destruct (threads V !! i); [split; [done|by apply elsewhere_apart]|].
    destruct (clients (base V) !! i) as [c|]; [|split; [done|by apply elsewhere_apart]].
    apply HI; [done| |by apply elsewhere_apart]. intros j cj. cbn. intros [_ Hj]%lookup_delete_Some. by apply (IC j).
  - injection E as <-. apply HI; [cbn; by rewrite forward_auth| |]; cbn; unfold forward;
      (destruct (pubsub.receive i _) as [[m|] p]; [|first [exact IC|by apply elsewhere_apart]]); cbn [clients].
    + intros j c. case_match; apply IC.
    + apply elsewhere_apart. by case_match.
  - injection E as <-. destruct (tools V !! k); [split; [done|by apply elsewhere_apart]|]. apply HI; [done|done|by apply elsewhere_apart].
  - by apply (work_inside k).
  - injection E as <-. apply HI; [done|done|].
    destruct (tick_drops (clock (elapsed (base V)), order) reaper (Engine (shared (base V))) (po_store _ (io_base _ _ (in_ok _ I))) He) as [D _].
    split; [apply D|]. split; [|done]. intros k _. destruct (dr_key _ _ _ D k) as [[Ek _]|(en & Hen & Hx & Ek & _)]; [by left|].
    right. split; [done|]. right. eauto.
Qed.
Lemma run_inside es : ∀ V V', inside V → Forall event_ok es → Forall (known_event K) es → run es V = Some V' →
  inside V' ∧ apart (base V) (base V').
Proof using All.
  induction es as [|e es IH]; intros V V' I He Hk; cbn [run]; [intros [= <-]; split; [done|by apply elsewhere_apart]|].
  apply Forall_cons in He as [He Hes], Hk as [Hk Hks]. destruct (serve e V) as [V1|] eqn:E; [|done]. intros HV.
  destruct (serve_inside e V V1 I He Hk E) as [I1 A1]. destruct (IH V1 V' I1 Hes Hks HV) as [I2 A2].
  split; [done|by eapply apart_trans].
Qed.
End runs.

(** C7: Workspaces are isolated under any interleaving of calls.  As long as no
    client sends a password of a workspace (and none is in it already), whatever
    the goroutines of connections and tool calls do between each other's calls,
    and whenever the reaper sweeps, each key of the workspace is as it was, or
    gone because the bound on entries evicted it or its time had come. *)
Theorem interleaved_isolation `{RuntimeLaws} `{FloatText} `{KeyCodec} `{ServicesLaws} `{Encoding} ws es P V :
  let a := Auth (shared P) in
  let stranger args := ∀ pw, pw ∈ args → auth.WorkspaceForPassword a pw ≠ Some ws in
  process_ok P → has_NUL ws = false → ws ≠ defaultWorkspace →
  (∀ pw ws', auth.WorkspaceForPassword a pw = Some ws' → has_NUL ws' = false) →
  (∀ i c, clients P !! i = Some c → Workspace c ≠ ws ∧ has_NUL (Workspace c) = false ∧ Forall stranger (Queued c)) →
  Forall event_ok es → (∀ i s args rest, Begin i s ∈ es → ReadCommand s = Got args rest → stranger args) →
  run es (idle P) = Some V →
  ∀ k, let ck := nsKey ws k in
    entry_at (Engine (shared (base V))) ck = entry_at (Engine (shared P)) ck ∨
    entry_at (Engine (shared (base V))) ck = None ∧
      (0 < maxEntries (Engine (shared P)) ∨
       ∃ e t, entry_at (Engine (shared P)) ck = Some e ∧ expired e (clock t) = true).
Proof.
  intros a stranger I Hn Hd Hnul Hc He Hs HV k.
  set (W ws' := ws' ≠ ws ∧ has_NUL ws' = false). set (K pw := auth.WorkspaceForPassword a pw ≠ Some ws).
  destruct (run_inside W K a) with (es := es) (V := idle P) (V' := V) as [_ (_ & E & _)]; try done.
  - intros pw ws' Hpw Hw. split; [intros ->; by apply Hpw|by eapply Hnul].
  - split; [|done|intros i c Hi; destruct (Hc i c Hi) as (? & ? & _); by split]. apply idle_known_ok; [done|].
    intros i c Hi. destruct (Hc i c Hi) as (_ & _ & HQ). eapply Forall_impl; [exact HQ|]. intros args Hst. by apply Forall_forall.
  - apply Forall_forall. intros e Hin. destruct e as [i|i s|i|i|i|n c|n|order]; try done.
    intros args rest Hr. apply Forall_forall. intros pw. by eapply Hs.
  - apply E. intros ws' [Hne Hnul'] Hin. apply in_workspace_nsKey in Hin; [congruence|done|done].
Qed.

(** ** A concrete run *)

#[local] Existing Instance cl_runtime.
#[local] Existing Instance cl_runtime_laws.
#[local] Existing Instance cl_floats.
#[local] Existing Instance toy_codec.
#[local] Existing Instance no_encoding.
#[local] Existing Instance offline.
#[local] Existing Instance offline_laws.

(** Two clients of workspace a, one of which flushes it shard by shard while the
    other writes; and the data of workspace b. *)
Definition il_tenants : list event :=
  Open 2 :: tells 1 ["AUTH"; "pa"] 9 ++ asks 1 ["FLUSHALL"] :: turns 5 1 ++ tells 2 ["AUTH"; "pa"] 9 ++
  tells 2 ["SET"; "k"; "2"] 9 ++ Sweep elements :: turns 9 1 ++ tells 2 ["GET"; "k"] 9.
Ltac il_events_ok :=
  repeat first [apply Forall_app_2 | apply turns_are_ok | apply Forall_nil_2 | (apply Forall_cons; split)];
  lazymatch goal with
  | |- event_ok (asks _ _) => apply event_ok_asks; small_sendable
  | |- event_ok (Sweep elements) => apply sweep_elements_ok
  | |- event_ok _ => exact Logic.I
  end.
Lemma interleaved_isolation_witness :
  match run il_tenants (idle cl_tenants) with
  | Some V => wires (base V) !! 2%nat = Some (line "+OK" +:+ line "+OK" +:+ line "$-1") ∧
      entry_at (Engine (shared (base V))) (nsKey "b" "k") = entry_at (Engine (shared cl_tenants)) (nsKey "b" "k")
  | None => False
  end.
Proof.
  pose proof (interleaved_isolation "b" il_tenants cl_tenants) as HI.
  assert (HW : match run il_tenants (idle cl_tenants) with
    | Some V => wires (base V) !! 2%nat = Some (line "+OK" +:+ line "+OK" +:+ line "$-1")
    | None => False end) by (vm_compute; reflexivity).
  destruct (run il_tenants (idle cl_tenants)) as [V|]; [|exact HW]. split; [exact HW|].
  specialize (HI V cl_tenants_ok).
  destruct HI with (k := "k") as [E|(_ & [Hm|(e & t & E1 & E2)])].
  - reflexivity.
  - discriminate.
  - intros pw ws Hpw. apply two_tenants_passwords in Hpw as [[_ ->]|[_ ->]]; reflexivity.
  - intros i c Hi. assert (Hc : c = NewClientState).
    { change (clients cl_tenants) with (<[1%nat := NewClientState]> (∅ : gmap nat ClientState)) in Hi.
      apply lookup_insert_Some in Hi as [[_ <-]|[_ Hi]]; [reflexivity|by rewrite lookup_empty in Hi]. }
    rewrite Hc. split; [discriminate|]. split; [reflexivity|]. apply Forall_nil_2.
  - unfold il_tenants, tells. cbn [app]. il_events_ok.
  - intros i s args rest Hin Hr pw Hpw Hw. apply two_tenants_passwords in Hw as [[-> _]|[_ Hx]]; [|discriminate].
    assert (HF : Forall (λ e, match e with
      | Begin _ s => match ReadCommand s with Got args _ => "pb" ∉ args | _ => True end
      | _ => True end) il_tenants).
    { unfold il_tenants, tells, turns. cbn [app replicate]. repeat (apply Forall_cons; split); try apply Forall_nil_2; cbv beta iota delta [asks];
        lazymatch goal with
        | |- True => exact Logic.I
        | _ => rewrite reads_encoded by small_sendable; apply (bool_decide_unpack _); vm_compute; exact Logic.I
        end. }
    rewrite Forall_forall in HF. specialize (HF _ Hin). cbv beta iota in HF. by rewrite Hr in HF.
  - reflexivity.
  - exact E.
  - exfalso. vm_compute in Hm. discriminate.
  - exfalso. vm_compute in E1. injection E1 as <-. vm_compute in E2. discriminate.
Defined.
