(* ===== verification/Json.v ===== *)
(** * JSON documents (encoding/json)

    What the operator endpoints and the MCP tools use of Go's encoder: values
    as Go code builds them, with their text; and documents as a decoder sees
    them, with the Go types fields are read into. *)

From S2P Require Import Prelude.
From S2P Require Import GoStd.
From S2P Require Import GoStrings.
From S2P Require Import Floats.
From Stdlib Require Import SpecFloat.

Open Scope Z_scope.

(** ** Encoding *)

Inductive value :=
  | VInt (n : Z)
  | VFloat (f : float64)
  | VBool (b : bool)
  | VString (s : string)
  | VArray (l : list value)
  | VObject (fields : list (string * value)).

(** The texts of floats ([fmt]'s [%g] and [%.<n>f], encoding/json's format) and
    of strings that are not ASCII. *)
Class NumberText := {
  format_g : float64 → string;
  format_f : nat → float64 → string;
  json_number : float64 → string;
  json_uni : string → string;
}.

Definition is_finite (f : float64) : bool :=
  match f with S754_zero _ | S754_finite _ _ _ => true | _ => false end.

Section encode.
Context `{NumberText}.

(** The escapes of an ASCII byte; HTML's special characters are escaped too. *)
Definition json_char (c : ascii) : string :=
  let n := code c in
  let esc (e : ascii) := String "\"%char (String e "") in
  if (n =? 34) || (n =? 92) then esc c
  else if n =? 8 then esc "b"%char else if n =? 12 then esc "f"%char else if n =? 10 then esc "n"%char
  else if n =? 13 then esc "r"%char else if n =? 9 then esc "t"%char
  else if (n <? 32) || (n =? 60) || (n =? 62) || (n =? 38) then
    "\u00" +:+ String (hex_digit (n / 16)) (String (hex_digit (n `mod` 16)) "")
  else String c "".
Fixpoint json_chars (s : string) : string :=
  match s with EmptyString => "" | String c s => json_char c +:+ json_chars s end.
Definition json_string (s : string) : string :=
  String "034" ((if is_ascii s then json_chars s else json_uni s) +:+ String "034" "").

Definition member (key text : string) : string := json_string key +:+ ":" +:+ text.
Fixpoint collect (l : list (option string)) : option (list string) :=
  match l with
  | [] => Some []
  | x :: l => match x, collect l with Some s, Some ss => Some (s :: ss) | _, _ => None end
  end.
(** [None] is an [UnsupportedValueError]: JSON has no infinities and no NaN. *)
Fixpoint Encode (v : value) : option string :=
  match v with
  | VInt n => Some (FormatInt n)
  | VFloat f => if is_finite f then Some (json_number f) else None
  | VBool b => Some (if b then "true" else "false")
  | VString s => Some (json_string s)
  | VArray l =>
      match collect (List.map Encode l) with Some ss => Some ("[" +:+ String.concat "," ss +:+ "]") | None => None end
  | VObject fields =>
      match collect (List.map (λ kv, member kv.1 <$> Encode kv.2) fields) with
      | Some ss => Some ("{" +:+ String.concat "," ss +:+ "}")
      | None => None
      end
  end.
End encode.

(** A map is written with its keys sorted. *)
Definition VMap {A} (f : A → value) (m : gmap string A) : value :=
  VObject ((λ k, (k, match m !! k with Some a => f a | None => VObject [] end)) <$> sort_Strings (map_to_list m).*1).

(** ** Decoding

    A document as parsed: a number keeps its text, whose meaning depends on
    the field it is read into. *)

Inductive doc :=
  | DNull
  | DBool (b : bool)
  | DNumber (text : string)
  | DString (s : string)
  | DArray (l : list doc)
  | DObject (members : list (string * doc)).

(** The Go types of the fields that are decoded. *)
Inductive jtype := TString | TInt | TFloat | TBool | TVector | TStrings | TArray | TPointer (t : jtype).

(** [Field A]: how encoding/json reads a member into a field of type [A] that
    holds its zero value, what [omitempty] leaves out, and how the type's
    values are written. *)
Class Field (A : Type) := {
  field_type : jtype;
  field_zero : A;
  field_empty : A → bool;
  of_json : doc → option A;
  to_json : A → doc;
}.

(** The tags of a struct, field by field, in their order: [R] is the struct,
    [K] what remains of its constructor. *)
Record struct (R K : Type) := mkStruct {
  schema : list (string * bool * jtype);          (** name, required, type *)
  members : R → list (string * doc);
  read : list (string * doc) → option K;
}.
Arguments mkStruct {R K}.
Arguments schema {R K} _.
Arguments members {R K} _ _.
Arguments read {R K} _ _.

(** The last of several members of one name is what counts. *)
Definition member_of (name : string) (o : list (string * doc)) : option doc :=
  foldl (λ r kv, if String.eqb kv.1 name then Some kv.2 else r) None o.
Definition fields_of {R K} (k : K) : struct R K := mkStruct [] (λ _, []) (λ _, Some k).
Definition with_field {R A K} `{Field A} (s : struct R (A → K)) (name : string) (omitempty : bool) (get : R → A) :
    struct R K :=
  mkStruct (schema s ++ [(name, negb omitempty, field_type)])
    (λ r, members s r ++ if omitempty && field_empty (get r) then [] else [(name, to_json (get r))])
    (λ o, match read s o with
          | None => None
          | Some k =>
              match member_of name o with
              | None => Some (k field_zero)
              | Some j => match of_json j with Some a => Some (k a) | None => None end
              end
          end).
Definition MarshalStruct {R} (s : struct R R) (r : R) : doc := DObject (members s r).
Definition UnmarshalStruct {R} (s : struct R R) (j : doc) : option R :=
  match j with DObject o => read s o | _ => None end.

Declare Scope struct_scope.
Delimit Scope struct_scope with struct.
Notation "s & name 'as' get" := (with_field s name false get)
  (at level 50, left associativity, name at level 0, get at level 0) : struct_scope.
Notation "s & name 'omitempty' 'as' get" := (with_field s name true get)
  (at level 50, left associativity, name at level 0, get at level 0) : struct_scope.

(** *** The types *)

#[export] Instance string_field : Field string := {|
  field_type := TString; field_zero := ""; field_empty := λ s, String.eqb s "";
  of_json := λ j, match j with DString s => Some s | DNull => Some "" | _ => None end;
  to_json := DString |}.
#[export] Instance int_field : Field Z := {|
  field_type := TInt; field_zero := 0; field_empty := λ n, n =? 0;
  of_json := λ j, match j with DNumber t => ParseInt t | DNull => Some 0 | _ => None end;
  to_json := λ n, DNumber (FormatInt n) |}.
#[export] Instance pointer_field {A} `{Field A} : Field (option A) := {|
  field_type := TPointer field_type; field_zero := None; field_empty := λ o, negb (bool_decide (is_Some o));
  of_json := λ j, match j with DNull => Some None | _ => Some <$> of_json j end;
  to_json := λ o, match o with Some a => to_json a | None => DNull end |}.
(** A map[string]string. *)
Definition strings_of (o : list (string * doc)) : option (gmap string string) :=
  foldl (λ r kv, m ← r; v ← of_json kv.2; Some (<[kv.1 := v]> m)) (Some ∅) o.
#[export] Instance strings_field : Field (gmap string string) := {|
  field_type := TStrings; field_zero := ∅; field_empty := λ m, bool_decide (m = ∅);
  of_json := λ j, match j with DObject o => strings_of o | DNull => Some ∅ | _ => None end;
  to_json := λ m, DObject ((λ k, (k, DString (default "" (m !! k)))) <$> sort_Strings (map_to_list m).*1) |}.

#[export] Instance bool_field : Field bool := {|
  field_type := TBool; field_zero := false; field_empty := negb;
  of_json := λ j, match j with DBool b => Some b | DNull => Some false | _ => None end;
  to_json := DBool |}.
(** A slice of structs. *)
Definition slice_field {R} (s : struct R R) : Field (list R) := {|
  field_type := TArray; field_zero := []; field_empty := λ l, match l with [] => true | _ => false end;
  of_json := λ j, match j with DArray l => mapM (UnmarshalStruct s) l | DNull => Some [] | _ => None end;
  to_json := λ l, DArray (MarshalStruct s <$> l) |}.

(** *** Schemas

    What a schema inferred from the struct asks of a document: known names,
    each once, the required ones present, values of the types. *)
Fixpoint has_type (t : jtype) (j : doc) : bool :=
  match t, j with
  | TString, DString _ => true
  | TInt, DNumber text => bool_decide (is_Some (ParseInt text))
  | TFloat, DNumber _ => true
  | TBool, DBool _ => true
  | TArray, DArray _ => true
  | TVector, DArray l => forallb (λ j, match j with DNumber _ => true | _ => false end) l
  | TStrings, DObject o => forallb (λ kv, match kv.2 with DString _ => true | _ => false end) o
  | TPointer t, DNull => true
  | TPointer t, j => has_type t j
  | _, _ => false
  end.
Definition conforms (sc : list (string * bool * jtype)) (j : doc) : Prop :=
  match j with
  | DObject o => NoDup o.*1 ∧
      (∀ kv, kv ∈ o → ∃ f, f ∈ sc ∧ f.1.1 = kv.1 ∧ has_type f.2 kv.2 = true) ∧
      (∀ f, f ∈ sc → f.1.2 = true → f.1.1 ∈ o.*1)
  | _ => False
  end.

(** *** Round trips *)

(** A value that comes back from its text. *)
Record json_ok {A} `{Field A} (a : A) : Prop := {
  jo_back : of_json (to_json a) = Some a;
  jo_empty : field_empty a = true → a = field_zero;
  jo_type : has_type field_type (to_json a) = true;
}.

Lemma string_ok (s : string) : json_ok s.
Proof. split; [done|apply String.eqb_eq|done]. Qed.
Lemma int_ok n : int64_range n → json_ok n.
Proof.
  intros Hn. split; [by apply ParseInt_FormatInt|apply Z.eqb_eq|]. cbn. by rewrite ParseInt_FormatInt, bool_decide_eq_true_2.
Qed.
Lemma strings_of_spec (m : gmap string string) ks : ∀ m0 : gmap string string,
  ∃ r, foldl (λ r kv, m ← r; v ← of_json kv.2; Some (<[kv.1 := v]> m)) (Some m0)
    ((λ k, (k, DString (default "" (m !! k)))) <$> ks) = Some r ∧
  ∀ k, r !! k = if decide (k ∈ ks) then Some (default "" (m !! k)) else m0 !! k.
Proof.
  induction ks as [|k0 ks IH]; intros m0; cbn [fmap list_fmap foldl].
  - exists m0. split; [done|]. intros k. by rewrite decide_False by apply not_elem_of_nil.
  - cbn [fst snd mbind option_bind of_json string_field]. destruct (IH (<[k0:=default "" (m !! k0)]> m0)) as (r & E & Hr).
    exists r. split; [exact E|]. intros k. rewrite Hr. destruct (decide (k ∈ ks)) as [Hk|Hk].
    + by rewrite decide_True by (by right).
    + destruct (decide (k = k0)) as [->|Hne].
      * by rewrite decide_True, lookup_insert_eq by left.
      * rewrite lookup_insert_ne by done. rewrite decide_False; [done|]. by intros [|]%elem_of_cons.
Qed.
Lemma strings_ok (m : gmap string string) : json_ok m.
Proof.
  split; [|apply bool_decide_eq_true_1|].
  2:{ cbn. apply forallb_forall. intros kv Hkv%list_elem_of_In. by apply list_elem_of_fmap in Hkv as (? & -> & _). }
  cbn [of_json to_json strings_field]. unfold strings_of.
  destruct (strings_of_spec m (sort_Strings (map_to_list m).*1) ∅) as (r & -> & Hr). f_equal. apply map_eq. intros k.
  rewrite Hr. destruct (decide _) as [Hk|Hk].
  - rewrite sort_Strings_perm in Hk. apply list_elem_of_fmap in Hk as ([k' v] & -> & Hv%elem_of_map_to_list). cbn. by rewrite Hv.
  - rewrite lookup_empty. destruct (m !! k) as [v|] eqn:E; [|done]. destruct Hk. rewrite sort_Strings_perm.
    apply list_elem_of_fmap. exists (k, v). by rewrite elem_of_map_to_list.
Qed.
Lemma bool_ok (b : bool) : json_ok b.
Proof. split; [done| |done]. by destruct b. Qed.
Lemma pointer_ok {A} `{Field A} (o : option A) : (∀ a, o = Some a → json_ok a ∧ to_json a ≠ DNull) → json_ok o.
Proof.
  intros Ho. split; [|by destruct o|]; (destruct o as [a|]; [|done]); destruct (Ho a eq_refl) as [[E _ T] Hn].
  - cbn [of_json to_json pointer_field]. rewrite E. by destruct (to_json a).
  - cbn [to_json pointer_field field_type has_type]. by destruct (to_json a).
Qed.

(** The names of a struct's fields are read independently of each other. *)
Definition names {R K} (s : struct R K) : list string := (λ f, f.1.1) <$> schema s.
Record reads {R K} (s : struct R K) (r : R) (k : K) : Prop := {
  rd_conforms : conforms (schema s) (DObject (members s r));
  rd_reads o : (∀ n, n ∈ names s → member_of n o = member_of n (members s r)) → read s o = Some k;
}.

Lemma member_of_app n a b : member_of n (a ++ b) = match member_of n b with Some j => Some j | None => member_of n a end.
Proof.
  unfold member_of. rewrite foldl_app. generalize (foldl (λ r kv, if String.eqb kv.1 n then Some kv.2 else r) None a).
  induction b as [|[k j] b IH] using rev_ind; intros r; [done|]. rewrite !foldl_app. cbn. destruct (String.eqb k n); [done|apply IH].
Qed.
Lemma member_of_None n o : n ∉ o.*1 → member_of n o = None.
Proof.
  unfold member_of. induction o as [|[k j] o IH] using rev_ind; intros Ho; [done|].
  rewrite fmap_app, elem_of_app in Ho. rewrite foldl_app. cbn. destruct (String.eqb_spec k n) as [->|]; [|tauto].
  destruct Ho. right. by left.
Qed.
Lemma members_names {R K} (s : struct R K) r n : conforms (schema s) (DObject (members s r)) → n ∈ (members s r).*1 → n ∈ names s.
Proof.
  intros (_ & HT & _) (kv & -> & Hkv)%list_elem_of_fmap. destruct (HT kv Hkv) as (f & Hf & <- & _).
  unfold names. apply list_elem_of_fmap. eauto.
Qed.
Lemma reads_fields {R K} (r : R) (k : K) : reads (fields_of k) r k.
Proof. split; [|done]. split_and!; [constructor|by intros kv ?%not_elem_of_nil|by intros f ?%not_elem_of_nil]. Qed.

Section field.
Context {R A K} `{Field A} (s : struct R (A → K)) (name : string) (omit : bool) (get : R → A) (r : R) (k : A → K).
Context (HS : reads s r k) (Hj : json_ok (get r)) (Hn : name ∉ names s).
Let new : list (string * doc) := if omit && field_empty (get r) then [] else [(name, to_json (get r))].

Lemma new_fresh : name ∉ (members s r).*1.
Proof using HS Hn. intros Hin. apply Hn, (members_names s r); [apply HS|done]. Qed.
Lemma conforms_with_field : conforms (schema (with_field s name omit get)) (DObject (members (with_field s name omit get) r)).
Proof using HS Hj Hn.
  destruct (rd_conforms _ _ _ HS) as (H1 & H2 & H3). cbn [schema members with_field]. fold new.
  assert (HN : ∀ kv, kv ∈ new → kv = (name, to_json (get r))).
  { intros kv. unfold new. destruct (omit && field_empty (get r)); [by intros ?%not_elem_of_nil|]. by intros ?%list_elem_of_singleton. }
  split_and!.
  - rewrite fmap_app. apply NoDup_app. split_and!; [done| |].
    + intros x Hx (kv & -> & Hkv)%list_elem_of_fmap. apply HN in Hkv as ->. by apply new_fresh.
    + unfold new. destruct (omit && field_empty (get r)); [constructor|apply NoDup_singleton].
  - intros kv [Hkv|Hkv]%elem_of_app.
    + destruct (H2 kv Hkv) as (f & Hf & E). exists f. split; [rewrite elem_of_app; by left|done].
    + apply HN in Hkv as ->. exists (name, negb omit, field_type). split; [rewrite elem_of_app; right; by left|].
      split; [done|apply Hj].
  - intros f Hf Hq. rewrite fmap_app, elem_of_app. apply elem_of_app in Hf as [Hf| ->%list_elem_of_singleton].
    + left. by apply H3.
    + right. cbn in Hq. apply negb_true_iff in Hq as ->. unfold new. cbn. by left.
Qed.
Lemma reads_with_field : reads (with_field s name omit get) r (k (get r)).
Proof using HS Hj Hn.
  split; [apply conforms_with_field|]. intros o. unfold names. cbn [schema members with_field read]. fold new. rewrite fmap_app. intros Ho.
  assert (Hold : ∀ n, n ∈ names s → member_of n o = member_of n (members s r)).
  { intros n Hin. rewrite Ho by (rewrite elem_of_app; by left). rewrite member_of_app, (member_of_None n new); [done|].
    unfold new. destruct (omit && field_empty (get r)); [by intros ?%not_elem_of_nil|].
    cbn. intros ->%list_elem_of_singleton. done. }
  rewrite (rd_reads _ _ _ HS o Hold), Ho by (rewrite elem_of_app; right; by left).
  rewrite member_of_app, (member_of_None name (members s r)) by apply new_fresh.
  unfold new. destruct (omit && field_empty (get r)) eqn:E.
  - cbn. apply andb_true_iff in E as [_ E]. by rewrite (jo_empty _ Hj E).
  - cbn. rewrite String.eqb_refl. by rewrite (jo_back _ Hj).
Qed.
End field.
Lemma UnmarshalStruct_MarshalStruct {R} (s : struct R R) r : reads s r r → UnmarshalStruct s (MarshalStruct s r) = Some r ∧ conforms (schema s) (MarshalStruct s r).
Proof. intros [HC HR]. split; [by apply HR|done]. Qed.
Lemma slice_ok {R} (s : struct R R) l : Forall (λ r, reads s r r) l → json_ok (H := slice_field s) l.
Proof.
  intros Hl. split; [|by destruct l|done]. cbn [of_json to_json slice_field].
  induction Hl as [|r l Hr _ IH]; [done|]. cbn [fmap list_fmap mapM]. rewrite (proj1 (UnmarshalStruct_MarshalStruct s r Hr)). cbn. by rewrite IH.
Qed.
