(* ===== verification/McpTools.v ===== *)
(** * The MCP tools as clients call them (internal/mcp/server.go)

    The registration of the tools: each has a name, an input type whose struct
    tags spell its arguments and an output type whose tags spell its result.
    A call names a tool and gives a JSON document.  What the SDK does between
    the request and the handler, validating the document against the schema it
    infers from the input type, is the class [Validator]. *)

From S2P Require Import Prelude.
From S2P Require Import GoStd.
From S2P Require Import GoStrings.
From S2P Require Import Floats.
From S2P Require Import Auth.
From S2P Require Import Similarity.
From S2P Require Import Caches.
From S2P Require Import Providers.
From S2P Require Import Store.
From S2P Require Import RespCodec.
From S2P Require Import Server.
From S2P Require Import HandlersKV.
From S2P Require Import HandlersData.
From S2P Require Import Mcp.
From S2P Require Import McpSpec.
From S2P Require Import Json.

Open Scope Z_scope.
Open Scope go_scope.

(** The texts of a [float32]. *)
Class Float32Text := {
  ParseFloat32 : string → option float32;
  json_number32 : float32 → string;
}.
(** The SDK's check of arguments against a tool's schema. *)
Class Validator := accepts : list (string * bool * jtype) → doc → bool.
Class ValidatorLaws `{Validator} : Prop := {
  accepts_conforming sc j : conforms sc j → accepts sc j = true;
}.

#[export] Instance float64_field `{NumberText} `{FloatText} : Field float64 := {|
  field_type := TFloat; field_zero := f64_zero; field_empty := λ f, f64_eq f f64_zero;
  of_json := λ j, match j with DNumber t => ParseFloat t | DNull => Some f64_zero | _ => None end;
  to_json := λ f, DNumber (json_number f) |}.
#[export] Instance vector_field `{Float32Text} : Field vec := {|
  field_type := TVector; field_zero := []; field_empty := λ v, match v with [] => true | _ => false end;
  of_json := λ j, match j with
    | DArray l => mapM (λ j, match j with DNumber t => ParseFloat32 t | DNull => Some f64_zero | _ => None end) l
    | DNull => Some []
    | _ => None
    end;
  to_json := λ v, DArray ((λ f, DNumber (json_number32 f)) <$> v) |}.

Module tools.
Import mcp.

Section tools.
Context `{Runtime} `{FloatText} `{KeyCodec} `{Services} `{Encoding} `{NumberText} `{Float32Text} `{Validator}.

(** ** The struct tags *)

Open Scope struct_scope.
Definition CacheSemanticSetInput_tags : struct CacheSemanticSetInput CacheSemanticSetInput :=
  fields_of mkSemanticSet & "prompt" as css_Prompt & "response" as css_Response & "model" omitempty as css_Model
    & "temp" omitempty as css_Temp & "ttl_seconds" omitempty as css_TTLSeconds & "cost" omitempty as css_Cost.
Definition CacheSemanticGetInput_tags : struct CacheSemanticGetInput CacheSemanticGetInput :=
  fields_of mkSemanticGet & "prompt" as csg_Prompt & "model" omitempty as csg_Model & "temp" omitempty as csg_Temp
    & "threshold" omitempty as csg_Threshold.
Definition CachePromptSetInput_tags : struct CachePromptSetInput CachePromptSetInput :=
  fields_of mkPromptSet & "template" as cps_Template & "variables_json" as cps_VariablesJSON & "model" as cps_Model
    & "response" as cps_Response & "ttl_seconds" omitempty as cps_TTLSeconds & "cost" omitempty as cps_Cost.
Definition CachePromptGetInput_tags : struct CachePromptGetInput CachePromptGetInput :=
  fields_of mkPromptGet & "template" as cpg_Template & "variables_json" as cpg_VariablesJSON & "model" as cpg_Model.
Definition ToolCacheSetInput_tags : struct ToolCacheSetInput ToolCacheSetInput :=
  fields_of mkToolSet & "tool_name" as tcs_ToolName & "args_json" as tcs_ArgsJSON & "result" as tcs_Result
    & "ttl_seconds" omitempty as tcs_TTLSeconds.
Definition ToolCacheGetInput_tags : struct ToolCacheGetInput ToolCacheGetInput :=
  fields_of mkToolGet & "tool_name" as tcg_ToolName & "args_json" as tcg_ArgsJSON.
Definition StoreVectorInput_tags : struct StoreVectorInput StoreVectorInput :=
  fields_of mkStoreVector & "namespace" as sv_Namespace & "id" as sv_ID & "vector" as sv_Vector
    & "metadata" omitempty as sv_Metadata & "text" omitempty as sv_Text.
Definition FindSimilarInput_tags : struct FindSimilarInput FindSimilarInput :=
  fields_of mkFindSimilar & "namespace" as fs_Namespace & "vector" as fs_Vector & "k" omitempty as fs_K
    & "metric" omitempty as fs_Metric & "filter" omitempty as fs_Filter.
Definition DeleteVectorInput_tags : struct DeleteVectorInput DeleteVectorInput :=
  fields_of mkDeleteVector & "namespace" as dv_Namespace & "id" as dv_ID.
Definition RememberInput_tags : struct RememberInput RememberInput :=
  fields_of mkRemember & "agent_id" as rm_AgentID & "content" as rm_Content & "workspace" omitempty as rm_Workspace
    & "kind" omitempty as rm_Kind & "metadata" omitempty as rm_Metadata & "ttl_seconds" omitempty as rm_TTLSeconds.
Definition RecallInput_tags : struct RecallInput RecallInput :=
  fields_of mkRecall & "agent_id" as rc_AgentID & "query" as rc_Query & "workspace" omitempty as rc_Workspace
    & "kind" omitempty as rc_Kind & "k" omitempty as rc_K & "threshold" omitempty as rc_Threshold.
Definition MemoryHistoryInput_tags : struct MemoryHistoryInput MemoryHistoryInput :=
  fields_of mkHistory & "workspace" omitempty as mh_Workspace & "id" as mh_ID & "limit" omitempty as mh_Limit.
Definition ConsolidateInput_tags : struct ConsolidateInput ConsolidateInput :=
  fields_of mkConsolidate & "agent_id" as cn_AgentID & "workspace" omitempty as cn_Workspace
    & "kind" omitempty as cn_Kind & "dedup_threshold" omitempty as cn_DedupThreshold.
Definition ExtractEntitiesInput_tags : struct ExtractEntitiesInput ExtractEntitiesInput :=
  fields_of mkExtract & "workspace" omitempty as ee_Workspace & "memory_id" as ee_MemoryID.
Definition FindRelatedInput_tags : struct FindRelatedInput FindRelatedInput :=
  fields_of mkRelated & "workspace" omitempty as fr_Workspace & "node_id" as fr_NodeID & "depth" omitempty as fr_Depth.

(** The results; a constructor of [output] is the struct of its arguments. *)
Definition OKOutput : struct bool bool := fields_of (λ ok, ok) & "ok" as (λ ok : bool, ok).
Definition FoundOutput (text : string) : struct (bool * string) (bool * string) :=
  fields_of pair & "found" as fst & text omitempty as snd.
Definition Match : struct (string * float64) (string * float64) := fields_of pair & "id" as fst & "score" as snd.
Definition DeletedOutput : struct bool bool := fields_of (λ d, d) & "deleted" as (λ d : bool, d).
Definition RememberOutput : struct string string := fields_of (λ id, id) & "id" as (λ id : string, id).
Definition MemoryVersion_tags : struct MemoryVersion MemoryVersion :=
  fields_of mkVersion & "id" as mv_ID & "agent_id" as mv_AgentID & "kind" as mv_Kind & "content" as mv_Content
    & "metadata" omitempty as mv_Metadata & "created_at" as mv_CreatedAt & "version" as mv_Version.
Definition ConsolidateOutput : struct (string * Z * Z) (string * Z * Z) :=
  fields_of (λ s n d, (s, n, d)) & "summary_id" omitempty as (λ r, r.1.1) & "source_count" as (λ r, r.1.2)
    & "deduped_count" as (λ r, r.2).
Definition ExtractEntitiesOutput : struct (Z * Z) (Z * Z) :=
  fields_of pair & "entities_added" as fst & "relations_added" as snd.
Definition FindRelatedMatch : struct (string * string * Z) (string * string * Z) :=
  fields_of (λ i l h, (i, l, h)) & "id" as (λ r, r.1.1) & "label" as (λ r, r.1.2) & "hops" as (λ r, r.2).
(** The outputs that are one slice. *)
Definition slice_output {R} (name : string) (s : struct R R) : struct (list R) (list R) :=
  with_field (H := slice_field s) (fields_of (λ l, l)) name false (λ l, l).
Definition FindSimilarOutput : struct (list (string * float64)) (list (string * float64)) := slice_output "results" Match.
Definition RecallOutput : struct (list (string * float64)) (list (string * float64)) := slice_output "results" Match.
Definition MemoryHistoryOutput : struct (list MemoryVersion) (list MemoryVersion) := slice_output "versions" MemoryVersion_tags.
Definition FindRelatedOutput : struct (list (string * string * Z)) (list (string * string * Z)) :=
  slice_output "results" FindRelatedMatch.
Close Scope struct_scope.

(** A tool's output type: how its outputs are written and, for a client, read. *)
Record output_type := mkOutput { write_output : output → doc; read_output : doc → option output }.
Definition ok_type : output_type :=
  mkOutput (λ o, match o with OK => MarshalStruct OKOutput true | _ => DNull end)
    (λ j, match UnmarshalStruct OKOutput j with Some true => Some OK | _ => None end).
Definition found_type (text : string) : output_type :=
  mkOutput (λ o, match o with Found f t => MarshalStruct (FoundOutput text) (f, t) | _ => DNull end)
    (λ j, (λ r, Found r.1 r.2) <$> UnmarshalStruct (FoundOutput text) j).
Definition matches_type (s : struct (list (string * float64)) (list (string * float64))) : output_type :=
  mkOutput (λ o, match o with Matches l => MarshalStruct s l | _ => DNull end) (λ j, Matches <$> UnmarshalStruct s j).
Definition deleted_type : output_type :=
  mkOutput (λ o, match o with Deleted d => MarshalStruct DeletedOutput d | _ => DNull end) (λ j, Deleted <$> UnmarshalStruct DeletedOutput j).
Definition stored_type : output_type :=
  mkOutput (λ o, match o with Stored id => MarshalStruct RememberOutput id | _ => DNull end) (λ j, Stored <$> UnmarshalStruct RememberOutput j).
Definition versions_type : output_type :=
  mkOutput (λ o, match o with Versions l => MarshalStruct MemoryHistoryOutput l | _ => DNull end)
    (λ j, Versions <$> UnmarshalStruct MemoryHistoryOutput j).
Definition summary_type : output_type :=
  mkOutput (λ o, match o with Summary s n d => MarshalStruct ConsolidateOutput (s, n, d) | _ => DNull end)
    (λ j, (λ r, Summary r.1.1 r.1.2 r.2) <$> UnmarshalStruct ConsolidateOutput j).
Definition extracted_type : output_type :=
  mkOutput (λ o, match o with Extracted e r => MarshalStruct ExtractEntitiesOutput (e, r) | _ => DNull end)
    (λ j, (λ r, Extracted r.1 r.2) <$> UnmarshalStruct ExtractEntitiesOutput j).
Definition related_type : output_type :=
  mkOutput (λ o, match o with Related l => MarshalStruct FindRelatedOutput l | _ => DNull end)
    (λ j, Related <$> UnmarshalStruct FindRelatedOutput j).

(** ** Registration *)

(** What a call comes back with; the SDK turns a handler's error into a result
    that says so.  Scores that JSON cannot write do not marshal. *)
Inductive response :=
  | UnknownTool
  | InvalidArguments
  | ToolFailed (err : toolError)
  | MarshalFailed
  | Structured (result : doc).
Definition marshals (o : output) : bool :=
  match o with Matches l => forallb (λ m, is_finite m.2) l | _ => true end.
Definition respond (out : output_type) (a : answer) : response :=
  match a with
  | inl err => ToolFailed err
  | inr o => if marshals o then Structured (write_output out o) else MarshalFailed
  end.

Record Tool := mkTool { Name : string; InputSchema : list (string * bool * jtype); Serve : doc → H response; Output : output_type }.
Definition AddTool {R} (name : string) (input : struct R R) (out : output_type) (handler : R → H answer) : Tool :=
  mkTool name (schema input)
    (λ args,
      if accepts (schema input) args then
        match UnmarshalStruct input args with
        | None => hret InvalidArguments
        | Some i => do! a := handler i in hret (respond out a)
        end
      else hret InvalidArguments)
    out.

Definition registerCacheTools : list Tool := [
  AddTool "cache_semantic_set" CacheSemanticSetInput_tags ok_type cacheSemanticSet;
  AddTool "cache_semantic_get" CacheSemanticGetInput_tags (found_type "response") cacheSemanticGet;
  AddTool "cache_prompt_set" CachePromptSetInput_tags ok_type cachePromptSet;
  AddTool "cache_prompt_get" CachePromptGetInput_tags (found_type "response") cachePromptGet;
  AddTool "tool_cache_set" ToolCacheSetInput_tags ok_type toolCacheSet;
  AddTool "tool_cache_get" ToolCacheGetInput_tags (found_type "result") toolCacheGet].
Definition registerVectorTools : list Tool := [
  AddTool "store_vector" StoreVectorInput_tags ok_type storeVector;
  AddTool "find_similar" FindSimilarInput_tags (matches_type FindSimilarOutput) findSimilar;
  AddTool "delete_vector" DeleteVectorInput_tags deleted_type deleteVector].
Definition registerMemoryTools : list Tool := [
  AddTool "remember" RememberInput_tags stored_type remember;
  AddTool "recall" RecallInput_tags (matches_type RecallOutput) recall;
  AddTool "memory_history" MemoryHistoryInput_tags versions_type memoryHistory].
Definition registerConsolidateTools : list Tool := [
  AddTool "consolidate" ConsolidateInput_tags summary_type consolidate_].
Definition registerGraphTools : list Tool := [
  AddTool "extract_entities" ExtractEntitiesInput_tags extracted_type extractEntities;
  AddTool "find_related" FindRelatedInput_tags related_type findRelated].

(** The server that [New] builds, as it introduces itself, with its tools. *)
Definition serverName : string := "cachepot".
Definition serverVersion : string := "0.7.0".
Definition New : list Tool :=
  registerCacheTools ++ registerVectorTools ++ registerMemoryTools ++ registerConsolidateTools ++ registerGraphTools.

(** A request of the protocol's tools/call. *)
Definition tool_named (name : string) : option Tool := find (λ t, String.eqb (Name t) name) New.
Definition tools_call (name : string) (args : doc) : H response :=
  match tool_named name with None => hret UnknownTool | Some t => Serve t args end.
End tools.
End tools.

Import tools.

(** ** A client's side of a call *)

Section client.
Context `{Runtime} `{FloatText} `{KeyCodec} `{Services} `{Encoding} `{NumberText} `{Float32Text} `{Validator}.

(** The documents, by the documented names of their members; [may] is left
    out when it has the default. *)
Definition must {A} `{Field A} (name : string) (a : A) : list (string * doc) := [(name, to_json a)].
Definition may {A} `{Field A} (name : string) (a : A) : list (string * doc) := if field_empty a then [] else must name a.
Definition object (l : list (list (string * doc))) : doc := DObject (concat l).
Definition arguments (c : mcp.call) : doc :=
  match c with
  | mcp.Cache_semantic_set (mcp.mkSemanticSet prompt response model temp ttl cost) =>
      object [must "prompt" prompt; must "response" response; may "model" model; may "temp" temp; may "ttl_seconds" ttl; may "cost" cost]
  | mcp.Cache_semantic_get (mcp.mkSemanticGet prompt model temp threshold) =>
      object [must "prompt" prompt; may "model" model; may "temp" temp; may "threshold" threshold]
  | mcp.Cache_prompt_set (mcp.mkPromptSet template variables model response ttl cost) =>
      object [must "template" template; must "variables_json" variables; must "model" model; must "response" response;
              may "ttl_seconds" ttl; may "cost" cost]
  | mcp.Cache_prompt_get (mcp.mkPromptGet template variables model) =>
      object [must "template" template; must "variables_json" variables; must "model" model]
  | mcp.Tool_cache_set (mcp.mkToolSet tool args result ttl) =>
      object [must "tool_name" tool; must "args_json" args; must "result" result; may "ttl_seconds" ttl]
  | mcp.Tool_cache_get (mcp.mkToolGet tool args) => object [must "tool_name" tool; must "args_json" args]
  | mcp.Store_vector (mcp.mkStoreVector ns id v metadata text) =>
      object [must "namespace" ns; must "id" id; must "vector" (v : vec); may "metadata" metadata; may "text" text]
  | mcp.Find_similar (mcp.mkFindSimilar ns v k metric flt) =>
      object [must "namespace" ns; must "vector" (v : vec); may "k" k; may "metric" metric; may "filter" flt]
  | mcp.Delete_vector (mcp.mkDeleteVector ns id) => object [must "namespace" ns; must "id" id]
  | mcp.Remember (mcp.mkRemember agent content ws kind metadata ttl) =>
      object [must "agent_id" agent; must "content" content; may "workspace" ws; may "kind" kind; may "metadata" metadata;
              may "ttl_seconds" ttl]
  | mcp.Recall (mcp.mkRecall agent query ws kind k threshold) =>
      object [must "agent_id" agent; must "query" query; may "workspace" ws; may "kind" kind; may "k" k; may "threshold" threshold]
  | mcp.Memory_history (mcp.mkHistory ws id limit) => object [may "workspace" ws; must "id" id; may "limit" limit]
  | mcp.Consolidate_ (mcp.mkConsolidate agent ws kind threshold) =>
      object [must "agent_id" agent; may "workspace" ws; may "kind" kind; may "dedup_threshold" threshold]
  | mcp.Extract_entities (mcp.mkExtract ws id) => object [may "workspace" ws; must "memory_id" id]
  | mcp.Find_related (mcp.mkRelated ws id depth) => object [may "workspace" ws; must "node_id" id; may "depth" depth]
  end.
Definition version_doc (v : mcp.MemoryVersion) : doc :=
  object [must "id" (mcp.mv_ID v); must "agent_id" (mcp.mv_AgentID v); must "kind" (mcp.mv_Kind v);
          must "content" (mcp.mv_Content v); may "metadata" (mcp.mv_Metadata v); must "created_at" (mcp.mv_CreatedAt v);
          must "version" (mcp.mv_Version v)].
Definition result (c : mcp.call) (o : mcp.output) : doc :=
  match o with
  | mcp.OK => object [must "ok" true]
  | mcp.Found found text =>
      object [must "found" found; may (match c with mcp.Tool_cache_get _ => "result" | _ => "response" end) text]
  | mcp.Matches l => object [[("results", DArray ((λ m, object [must "id" m.1; must "score" m.2]) <$> l))]]
  | mcp.Deleted deleted => object [must "deleted" deleted]
  | mcp.Stored id => object [must "id" id]
  | mcp.Versions l => object [[("versions", DArray (version_doc <$> l))]]
  | mcp.Summary id sources deduped => object [may "summary_id" id; must "source_count" sources; must "deduped_count" deduped]
  | mcp.Extracted entities relations => object [must "entities_added" entities; must "relations_added" relations]
  | mcp.Related l =>
      object [[("results", DArray ((λ r, object [must "id" r.1.1; must "label" r.1.2; must "hops" r.2]) <$> l))]]
  end.
(** Integers of 64 bits, and numbers that survive their texts. *)
Definition call_ok (c : mcp.call) : Prop :=
  match c with
  | mcp.Cache_semantic_set i => int64_range (mcp.css_TTLSeconds i) ∧ json_ok (mcp.css_Cost i)
  | mcp.Cache_semantic_get i => ∀ t, mcp.csg_Threshold i = Some t → json_ok t
  | mcp.Cache_prompt_set i => int64_range (mcp.cps_TTLSeconds i) ∧ json_ok (mcp.cps_Cost i)
  | mcp.Tool_cache_set i => int64_range (mcp.tcs_TTLSeconds i)
  | mcp.Store_vector i => json_ok (A := vec) (mcp.sv_Vector i)
  | mcp.Find_similar i => json_ok (A := vec) (mcp.fs_Vector i) ∧ ∀ k, mcp.fs_K i = Some k → int64_range k
  | mcp.Remember i => int64_range (mcp.rm_TTLSeconds i)
  | mcp.Recall i => int64_range (mcp.rc_K i) ∧ ∀ t, mcp.rc_Threshold i = Some t → json_ok t
  | mcp.Memory_history i => int64_range (mcp.mh_Limit i)
  | mcp.Consolidate_ i => json_ok (mcp.cn_DedupThreshold i)
  | mcp.Find_related i => int64_range (mcp.fr_Depth i)
  | mcp.Cache_prompt_get _ | mcp.Tool_cache_get _ | mcp.Delete_vector _ | mcp.Extract_entities _ => True
  end.
Definition output_ok (o : mcp.output) : Prop :=
  match o with
  | mcp.Matches l => Forall (λ m, json_ok m.2) l
  | mcp.Versions l => Forall (λ v, int64_range (mcp.mv_Version v)) l
  | mcp.Summary _ n d => int64_range n ∧ int64_range d
  | mcp.Extracted e r => int64_range e ∧ int64_range r
  | mcp.Related l => Forall (λ r, int64_range r.2) l
  | _ => True
  end.

Lemma int_pointer_ok (o : option Z) : (∀ n, o = Some n → int64_range n) → json_ok o.
Proof. intros Ho. apply pointer_ok. intros n Hn. split; [by apply int_ok, Ho|done]. Qed.
Lemma float_pointer_ok (o : option float64) : (∀ f, o = Some f → json_ok f) → json_ok o.
Proof. intros Ho. apply pointer_ok. intros f Hf. split; [by apply Ho|done]. Qed.

(** A struct whose fields all survive; [k] is its constructor. *)
#[local] Ltac field_ok := first
  [assumption|apply string_ok|apply int_ok; assumption|apply strings_ok|apply bool_ok|
   apply int_pointer_ok; assumption|apply float_pointer_ok; assumption].
#[local] Ltac struct_ok := cbv zeta; repeat (refine (reads_with_field _ _ _ _ _ _ _ _ _);
  [|field_ok|apply (bool_decide_unpack _); vm_compute; reflexivity]); apply reads_fields.

Lemma arguments_read c : call_ok c →
  match c with
  | mcp.Cache_semantic_set i => reads CacheSemanticSetInput_tags i i
  | mcp.Cache_semantic_get i => reads CacheSemanticGetInput_tags i i
  | mcp.Cache_prompt_set i => reads CachePromptSetInput_tags i i
  | mcp.Cache_prompt_get i => reads CachePromptGetInput_tags i i
  | mcp.Tool_cache_set i => reads ToolCacheSetInput_tags i i
  | mcp.Tool_cache_get i => reads ToolCacheGetInput_tags i i
  | mcp.Store_vector i => reads StoreVectorInput_tags i i
  | mcp.Find_similar i => reads FindSimilarInput_tags i i
  | mcp.Delete_vector i => reads DeleteVectorInput_tags i i
  | mcp.Remember i => reads RememberInput_tags i i
  | mcp.Recall i => reads RecallInput_tags i i
  | mcp.Memory_history i => reads MemoryHistoryInput_tags i i
  | mcp.Consolidate_ i => reads ConsolidateInput_tags i i
  | mcp.Extract_entities i => reads ExtractEntitiesInput_tags i i
  | mcp.Find_related i => reads FindRelatedInput_tags i i
  end.
Proof.
  destruct c as [i|i|i|i|i|i|i|i|i|i|i|i|i|i|i]; cbn [call_ok]; intros Hok; destruct i; cbn in Hok;
    repeat match goal with H : _ ∧ _ |- _ => destruct H end; struct_ok.
Qed.

(** The tags spell the documents. *)
#[local] Ltac documents := unfold version_doc, object; cbn [concat app]; rewrite ?app_nil_r, ?app_assoc; reflexivity.
Lemma arguments_marshal c : arguments c =
  match c with
  | mcp.Cache_semantic_set i => MarshalStruct CacheSemanticSetInput_tags i
  | mcp.Cache_semantic_get i => MarshalStruct CacheSemanticGetInput_tags i
  | mcp.Cache_prompt_set i => MarshalStruct CachePromptSetInput_tags i
  | mcp.Cache_prompt_get i => MarshalStruct CachePromptGetInput_tags i
  | mcp.Tool_cache_set i => MarshalStruct ToolCacheSetInput_tags i
  | mcp.Tool_cache_get i => MarshalStruct ToolCacheGetInput_tags i
  | mcp.Store_vector i => MarshalStruct StoreVectorInput_tags i
  | mcp.Find_similar i => MarshalStruct FindSimilarInput_tags i
  | mcp.Delete_vector i => MarshalStruct DeleteVectorInput_tags i
  | mcp.Remember i => MarshalStruct RememberInput_tags i
  | mcp.Recall i => MarshalStruct RecallInput_tags i
  | mcp.Memory_history i => MarshalStruct MemoryHistoryInput_tags i
  | mcp.Consolidate_ i => MarshalStruct ConsolidateInput_tags i
  | mcp.Extract_entities i => MarshalStruct ExtractEntitiesInput_tags i
  | mcp.Find_related i => MarshalStruct FindRelatedInput_tags i
  end.
Proof. destruct c as [[]|[]|[]|[]|[]|[]|[]|[]|[]|[]|[]|[]|[]|[]|[]]; cbn [arguments]; documents. Qed.

Lemma AddTool_serves `{!ValidatorLaws} {R} name input out (handler : R → H mcp.answer) (i : R) w a w' :
  reads input i i → handler i w = (Some a, w') →
  Serve (AddTool name input out handler) (MarshalStruct input i) w = (Some (respond out a), w').
Proof.
  intros Hr Ha. destruct (UnmarshalStruct_MarshalStruct input i Hr) as [E HC]. cbn [Serve AddTool].
  rewrite (accepts_conforming _ _ HC), E. unfold hbind, bind. by rewrite Ha.
Qed.

(** What kind of output each handler answers with. *)
Definition output_of (c : mcp.call) (o : mcp.output) : bool :=
  match c, o with
  | (mcp.Cache_semantic_set _ | mcp.Cache_prompt_set _ | mcp.Tool_cache_set _ | mcp.Store_vector _), mcp.OK => true
  | (mcp.Cache_semantic_get _ | mcp.Cache_prompt_get _ | mcp.Tool_cache_get _), mcp.Found _ _ => true
  | (mcp.Find_similar _ | mcp.Recall _), mcp.Matches _ => true
  | mcp.Delete_vector _, mcp.Deleted _ => true
  | mcp.Remember _, mcp.Stored _ => true
  | mcp.Memory_history _, mcp.Versions _ => true
  | mcp.Consolidate_ _, mcp.Summary _ _ _ => true
  | mcp.Extract_entities _, mcp.Extracted _ _ => true
  | mcp.Find_related _, mcp.Related _ => true
  | _, _ => false
  end.
Definition yields (P : mcp.output → bool) (m : H mcp.answer) : Prop :=
  ∀ w o w', m w = (Some (inr o), w') → P o = true.
Lemma yields_bind {A} P (m : H A) k : (∀ x, yields P (k x)) → yields P (hbind m k).
Proof. intros Hk w o w'. unfold hbind, bind. destruct (m w) as [[x|] w1]; [apply Hk|done]. Qed.
Lemma yields_hret P a : match a with inl _ => True | inr o => P o = true end → yields P (hret a).
Proof. intros HP w o w' [= -> <-]. done. Qed.
Lemma yields_failure P : yields P mcp.failure.
Proof. by intros w o w'. Qed.
Lemma yields_panic P : yields P hpanic.
Proof. by intros w o w'. Qed.
Lemma CallTool_output c : yields (output_of c) (mcp.CallTool c).
Proof.
  destruct c as [i|i|i|i|i|i|i|i|i|i|i|i|i|i|i]; cbn [mcp.CallTool]; apply yields_bind; intros []; cbv zeta;
    repeat first [apply yields_failure | apply yields_panic | by apply yields_hret | apply yields_bind; intros ? | case_match].
Qed.

(** *** Reading a result back *)

Lemma slice_output_reads {R} name (s : struct R R) l : Forall (λ r, reads s r r) l → reads (slice_output name s) l l.
Proof.
  intros Hl. apply (reads_with_field (H := slice_field s) (fields_of (λ l, l)) name false (λ l, l) l (λ l, l));
    [apply reads_fields|by apply slice_ok|apply not_elem_of_nil].
Qed.
Lemma found_reads text r : text ≠ "found" → reads (FoundOutput text) r r.
Proof.
  intros Ht. destruct r as [f s]. refine (reads_with_field _ _ _ _ _ _ _ _ _); [|apply string_ok|].
  - struct_ok.
  - cbn. by intros ->%list_elem_of_singleton.
Qed.
Lemma match_reads m : json_ok m.2 → reads Match m m.
Proof. destruct m. intros ?. struct_ok. Qed.
Lemma version_reads v : int64_range (mcp.mv_Version v) → reads MemoryVersion_tags v v.
Proof. destruct v. cbn. intros ?. struct_ok. Qed.
Lemma related_reads r : int64_range r.2 → reads FindRelatedMatch r r.
Proof. destruct r as [[i l] h]. cbn. intros ?. struct_ok. Qed.
Lemma unmarshals {R} (s : struct R R) r : reads s r r → UnmarshalStruct s (MarshalStruct s r) = Some r.
Proof. apply UnmarshalStruct_MarshalStruct. Qed.
Lemma ok_reads b : reads OKOutput b b.
Proof. apply (reads_with_field _ _ _ (λ ok, ok) b (λ ok, ok)); [apply reads_fields|apply bool_ok|apply not_elem_of_nil]. Qed.
Lemma deleted_reads b : reads DeletedOutput b b.
Proof. apply (reads_with_field _ _ _ (λ ok, ok) b (λ ok, ok)); [apply reads_fields|apply bool_ok|apply not_elem_of_nil]. Qed.
Lemma stored_reads id : reads RememberOutput id id.
Proof. apply (reads_with_field _ _ _ (λ ok, ok) id (λ ok, ok)); [apply reads_fields|apply string_ok|apply not_elem_of_nil]. Qed.
Lemma summary_reads s n d : int64_range n → int64_range d → reads ConsolidateOutput (s, n, d) (s, n, d).
Proof. intros ? ?. struct_ok. Qed.
Lemma extracted_reads e r : int64_range e → int64_range r → reads ExtractEntitiesOutput (e, r) (e, r).
Proof. intros ? ?. struct_ok. Qed.

(** The tool of a call: its registration, with the output type it answers in. *)
Definition type_of (c : mcp.call) : output_type :=
  match c with
  | mcp.Cache_semantic_set _ | mcp.Cache_prompt_set _ | mcp.Tool_cache_set _ | mcp.Store_vector _ => ok_type
  | mcp.Cache_semantic_get _ | mcp.Cache_prompt_get _ => found_type "response"
  | mcp.Tool_cache_get _ => found_type "result"
  | mcp.Find_similar _ => matches_type FindSimilarOutput
  | mcp.Recall _ => matches_type RecallOutput
  | mcp.Delete_vector _ => deleted_type
  | mcp.Remember _ => stored_type
  | mcp.Memory_history _ => versions_type
  | mcp.Consolidate_ _ => summary_type
  | mcp.Extract_entities _ => extracted_type
  | mcp.Find_related _ => related_type
  end.
Lemma slice_written {R} name (s : struct R R) (f : R → doc) l : (∀ r, MarshalStruct s r = f r) →
  MarshalStruct (slice_output name s) l = object [[(name, DArray (f <$> l))]].
Proof.
  intros Hf. change (DObject [(name, DArray (MarshalStruct s <$> l))] = DObject [(name, DArray (f <$> l))]).
  do 4 f_equal. apply list_fmap_ext. intros i r _. apply Hf.
Qed.
Lemma result_written c o : output_of c o = true → write_output (type_of c) o = result c o.
Proof.
  intros Hs. destruct c, o; try discriminate Hs; cbn [type_of ok_type found_type matches_type deleted_type stored_type
    versions_type summary_type extracted_type related_type write_output result]; try (symmetry; documents).
  all: unfold FindSimilarOutput, RecallOutput, MemoryHistoryOutput, FindRelatedOutput; apply slice_written; intros r; symmetry; documents.
Qed.
Lemma result_reads c o : output_of c o = true → output_ok o → read_output (type_of c) (write_output (type_of c) o) = Some o.
Proof.
  intros Hs Ho. destruct c, o; try discriminate Hs; cbn [type_of ok_type found_type matches_type deleted_type stored_type
    versions_type summary_type extracted_type related_type read_output write_output output_ok] in *;
    unfold FindSimilarOutput, RecallOutput, MemoryHistoryOutput, FindRelatedOutput; rewrite unmarshals; try done;
    first [apply ok_reads|apply deleted_reads|apply stored_reads|by apply found_reads|
           by apply summary_reads; apply Ho|by apply extracted_reads; apply Ho|
           apply slice_output_reads; eapply Forall_impl; [exact Ho|]; intros ?; (apply match_reads || apply version_reads || apply related_reads)].
Qed.
Lemma tools_call_run `{!ValidatorLaws} {HS : ServicesLaws} c w : call_ok c →
  ∃ t a w', mcp.CallTool c w = (Some a, w') ∧ tool_named (tool_name c) = Some t ∧ Output t = type_of c ∧
    tools_call (tool_name c) (arguments c) w = (Some (respond (type_of c) a), w').
Proof.
  intros Hok. destruct (CallTool_framed c w) as (a & w' & E & _). pose proof (arguments_read c Hok) as Hr.
  unfold tools_call. rewrite arguments_marshal. destruct c; cbn [mcp.CallTool] in E; eexists _, a, w';
    (split; [exact E|]; split; [reflexivity|]; split; [reflexivity|]; exact (AddTool_serves _ _ _ _ _ _ _ _ Hr E)).
Qed.
End client.


(** ** A tool result, cached and looked up *)

#[local] Instance mt_runtime : Runtime := plain_runtime Z.of_nat.
#[local] Instance mt_floats : FloatText := {| ParseFloat := λ _, None; FormatFloat := λ _, "" |}.
#[local] Existing Instance toy_codec.
#[local] Existing Instance offline.
#[local] Existing Instance offline_laws.
#[local] Instance mt_encoding : Encoding := no_encoding.
#[local] Instance mt_numbers : NumberText := {| format_g := λ _, ""; format_f := λ _ _, ""; json_number := λ _, ""; json_uni := λ s, s |}.
#[local] Instance mt_float32 : Float32Text := {| ParseFloat32 := λ _, None; json_number32 := λ _, "" |}.
(** A validator that asks for the required members. *)
#[local] Instance mt_validator : Validator := λ sc j,
  match j with DObject o => forallb (λ f, negb f.1.2 || bool_decide (f.1.1 ∈ o.*1)) sc | _ => false end.
#[local] Instance mt_laws : ValidatorLaws.
Proof.
  split. intros sc [| | | | |o] HC; try done. destruct HC as (_ & _ & HR). apply forallb_forall. intros f Hf%list_elem_of_In.
  destruct f.1.2 eqn:E; [|done]. apply bool_decide_eq_true. by apply HR.
Qed.

Definition mt_set : mcp.call := mcp.Tool_cache_set (mcp.mkToolSet "weather" "{}" "rain" 60).
Definition mt_get : mcp.call := mcp.Tool_cache_get (mcp.mkToolGet "weather" "{}").
Definition mt_world : World :=
  (mcp.CallTool mt_set (mkWorld (newDeps (newStore 4 0 None) (auth.New "")) NewClientState 0 0)).2.
