(* ===== verification/Http.v ===== *)
(** * The operator endpoints (internal/observability/http.go)

    /metrics in Prometheus' text format, /stats as one JSON document with the
    cost figures, and the view behind /dashboard, whose page is in
    Dashboard.v.  The HTTP server is not modelled. *)

From S2P Require Import Prelude.
From S2P Require Import GoStd.
From S2P Require Import GoStrings.
From S2P Require Import Floats.
From S2P Require Import Metrics.
From S2P Require Import Analytics.
From S2P Require Import Providers.
From S2P Require Import Json.

Open Scope Z_scope.

Module observability.
Import metrics.

(** ** MetricsHandler *)

(** A metric with its samples: the labels and the printed value of each. *)
Record family := mkFamily { fam_name : string; fam_help : string; fam_type : string; fam_samples : list (string * string) }.
Definition counter (name help : string) (v : Z) : family := mkFamily name help "counter" [("", FormatInt v)].
Definition gauge (name help : string) (v : Z) : family := mkFamily name help "gauge" [("", FormatInt v)].

Definition print_sample (name : string) (s : string * string) : string := name +:+ s.1 +:+ " " +:+ s.2 +:+ LF.
Definition print_family (f : family) : string :=
  "# HELP " +:+ fam_name f +:+ " " +:+ fam_help f +:+ LF +:+
  "# TYPE " +:+ fam_name f +:+ " " +:+ fam_type f +:+ LF +:+
  String.concat "" (print_sample (fam_name f) <$> fam_samples f).

Section handlers.
Context `{UnicodeTables} `{NumberText}.

Definition label (key v : string) : string := "{" +:+ key +:+ "=" +:+ Quote v +:+ "}".
Definition seconds_of (nanos : Z) : float64 := f64_div (f64_of_Z nanos) (f64_of_Z 1000000000).

(** [tools] is the range order over the calls by tool. *)
Definition families (tools : gmap string Z → list (string * Z)) (snap : Snapshot_) : list family := [
  counter "cachepot_connections_total" "Total accepted connections." (ConnectionsTotal snap);
  gauge "cachepot_connections_active" "Currently open connections." (ConnectionsActive snap);
  counter "cachepot_connections_rejected_total" "Connections rejected (max-connections reached)." (ConnectionsRejected snap);
  counter "cachepot_commands_total" "Total dispatched RESP commands." (CommandsTotal snap);
  counter "cachepot_errors_total" "Total error replies sent to clients." (ErrorsTotal snap);
  counter "cachepot_semantic_cache_hits_total" "CACHE.SEMANTIC GET hits." (Hits (SemanticCache snap));
  counter "cachepot_semantic_cache_misses_total" "CACHE.SEMANTIC GET misses." (Misses (SemanticCache snap));
  counter "cachepot_prompt_cache_hits_total" "CACHE.PROMPT GET hits." (Hits (PromptCache snap));
  counter "cachepot_prompt_cache_misses_total" "CACHE.PROMPT GET misses." (Misses (PromptCache snap));
  counter "cachepot_tool_cache_hits_total" "TOOL.CACHE GET hits." (Hits (ToolCache snap));
  counter "cachepot_tool_cache_misses_total" "TOOL.CACHE GET misses." (Misses (ToolCache snap));
  counter "cachepot_vector_searches_total" "VECTOR.SEARCH invocations." (VectorSearchesTotal snap);
  counter "cachepot_memory_reads_total" "Agent-memory reads (MEMORY.GET/SEARCH, AGENT.RECALL)." (MemoryReadsTotal snap);
  counter "cachepot_memory_writes_total" "Agent-memory writes (MEMORY.PUT, AGENT.REMEMBER)." (MemoryWritesTotal snap);
  counter "cachepot_evictions_total" "Keys evicted by the maxmemory-style bounded-size trigger." (EvictionsTotal snap);
  counter "cachepot_consolidations_total" "SUMMARY.CREATE/consolidate invocations." (ConsolidationsTotal snap);
  counter "cachepot_memories_deduped_total" "Source memories dropped as near-duplicates during consolidation's dedup pass (excluded from summarization input, never deleted from the store)." (MemoriesDedupedTotal snap);
  counter "cachepot_graph_extractions_total" "GRAPH.EXTRACT/extract_entities invocations." (GraphExtractionsTotal snap);
  counter "cachepot_entities_extracted_total" "Entities added to the knowledge graph across all extractions (0 whenever the CompletionProvider's response wasn't valid JSON, e.g. the mock provider)." (EntitiesExtractedTotal snap);
  counter "cachepot_relations_extracted_total" "Relations added to the knowledge graph across all extractions." (RelationsExtractedTotal snap);
  counter "cachepot_mcp_calls_total" "Total MCP tool invocations." (MCPCallsTotal snap);
  mkFamily "cachepot_mcp_calls_by_tool_total" "Total MCP tool invocations, by tool name." "counter"
    ((λ tc, (label "tool" tc.1, FormatInt tc.2)) <$> tools (MCPCallsByTool snap));
  counter "cachepot_embedding_calls_total" "Total embedding-provider calls issued." (EmbeddingCallsTotal snap);
  counter "cachepot_embedding_calls_errors_total" "Embedding-provider calls that returned an error." (EmbeddingCallsErrors snap);
  gauge "cachepot_embedding_calls_in_flight" "Embedding-provider calls currently in flight." (EmbeddingCallsInFlight snap);
  counter "cachepot_completion_calls_total" "Total completion-provider calls issued." (CompletionCallsTotal snap);
  counter "cachepot_completion_calls_errors_total" "Completion-provider calls that returned an error." (CompletionCallsErrors snap);
  gauge "cachepot_completion_calls_in_flight" "Completion-provider calls currently in flight." (CompletionCallsInFlight snap);
  mkFamily "cachepot_command_latency_avg_seconds" "Average command latency, by command family." "gauge"
    ((λ l, (label "family" (Family l), format_g (seconds_of (AvgNanos l)))) <$> Latency snap);
  mkFamily "cachepot_command_latency_max_seconds" "Maximum observed command latency, by command family." "gauge"
    ((λ l, (label "family" (Family l), format_g (seconds_of (MaxNanos l)))) <$> Latency snap);
  mkFamily "cachepot_commands_by_family_total" "Total commands dispatched, by command family." "counter"
    ((λ l, (label "family" (Family l), FormatInt (Count l))) <$> Latency snap)].

Definition MetricsHandler (tools : gmap string Z → list (string * Z)) (snap : Snapshot_) : string :=
  String.concat "" (print_family <$> families tools snap).

(** ** StatsHandler *)

Record statsConnections := mkStatsConnections { sc_Total : Z; sc_Active : Z; sc_Rejected : Z }.
Record statsCache := mkStatsCache { st_Hits : Z; st_Misses : Z; st_HitRate : float64 }.
Definition statsCacheFrom (c : CacheStats) : statsCache := mkStatsCache (Hits c) (Misses c) (HitRate c).
Definition connections_of (snap : Snapshot_) : statsConnections :=
  mkStatsConnections (ConnectionsTotal snap) (ConnectionsActive snap) (ConnectionsRejected snap).

(** The JSON fields, in the order of the structs. *)
Definition stats_connections (c : statsConnections) : value :=
  VObject [("total", VInt (sc_Total c)); ("active", VInt (sc_Active c)); ("rejected", VInt (sc_Rejected c))].
Definition stats_cache (c : statsCache) : value :=
  VObject [("hits", VInt (st_Hits c)); ("misses", VInt (st_Misses c)); ("hit_rate", VFloat (st_HitRate c))].
Definition stats_model_usage (u : analytics.ModelUsage) : value :=
  VObject [("tokens", VInt (analytics.Tokens u)); ("cost_usd", VFloat (analytics.CostUSD u));
           ("pricing_known", VBool (analytics.PricingKnown u))].
Definition stats_entry (e : analytics.ExpensiveEntry) : value :=
  VObject [("cache_type", VString (analytics.CacheType e)); ("prompt", VString (analytics.Prompt e));
           ("cost_usd", VFloat (analytics.Cost e)); ("hits", VInt (analytics.Hits e))].
Definition statsAnalyticsFrom (snap : analytics.Snapshot_) : value :=
  VObject [("embedding_by_model", VMap stats_model_usage (analytics.EmbeddingByModel snap));
           ("completion_by_model", VMap stats_model_usage (analytics.CompletionByModel snap));
           ("money_saved_total_usd", VFloat (analytics.MoneySavedTotalUSD snap));
           ("top_expensive_entries", VArray (stats_entry <$> analytics.TopExpensiveEntries snap))].
Definition stats_calls (total errors inFlight : Z) : value :=
  VObject [("calls_total", VInt total); ("calls_errors", VInt errors); ("calls_in_flight", VInt inFlight)].
Definition stats_latency (l : LatencyStats) : value :=
  VObject [("Family", VString (Family l)); ("Count", VInt (Count l)); ("AvgNanos", VInt (AvgNanos l));
           ("MaxNanos", VInt (MaxNanos l))].

Definition statsResponse (snap : Snapshot_) (a : analytics.Snapshot_) : value := VObject [
  ("connections", stats_connections (connections_of snap));
  ("commands_total", VInt (CommandsTotal snap));
  ("errors_total", VInt (ErrorsTotal snap));
  ("caches", VMap stats_cache (list_to_map [
     ("semantic_cache", statsCacheFrom (SemanticCache snap)); ("prompt_cache", statsCacheFrom (PromptCache snap));
     ("tool_cache", statsCacheFrom (ToolCache snap))]));
  ("vector_searches_total", VInt (VectorSearchesTotal snap));
  ("memory_reads_total", VInt (MemoryReadsTotal snap));
  ("memory_writes_total", VInt (MemoryWritesTotal snap));
  ("evictions_total", VInt (EvictionsTotal snap));
  ("consolidations_total", VInt (ConsolidationsTotal snap));
  ("memories_deduped_total", VInt (MemoriesDedupedTotal snap));
  ("graph_extractions_total", VInt (GraphExtractionsTotal snap));
  ("entities_extracted_total", VInt (EntitiesExtractedTotal snap));
  ("relations_extracted_total", VInt (RelationsExtractedTotal snap));
  ("mcp", VObject [("calls_total", VInt (MCPCallsTotal snap)); ("calls_by_tool", VMap VInt (MCPCallsByTool snap))]);
  ("embedding", stats_calls (EmbeddingCallsTotal snap) (EmbeddingCallsErrors snap) (EmbeddingCallsInFlight snap));
  ("completion", stats_calls (CompletionCallsTotal snap) (CompletionCallsErrors snap) (CompletionCallsInFlight snap));
  ("latency_by_family", VArray (stats_latency <$> Latency snap));
  ("analytics", statsAnalyticsFrom a)].

(** [None] stands for a nil tracker. *)
Definition analyticsSnapshot (tracker : option analytics.Tracker) : analytics.Snapshot_ :=
  match tracker with
  | None => analytics.mkSnapshot ∅ ∅ f64_zero []
  | Some t => analytics.Snapshot t
  end.

(** The response's body: a document that does not encode is dropped, with its
    error. *)
Definition StatsHandler (snap : Snapshot_) (tracker : option analytics.Tracker) : string :=
  match Encode (statsResponse snap (analyticsSnapshot tracker)) with Some s => s +:+ LF | None => "" end.

(** ** DashboardHandler *)

Record dashboardView := mkView {
  Connections : statsConnections; v_CommandsTotal : Z; v_ErrorsTotal : Z;
  Caches : list (string * statsCache);
  v_Latency : list LatencyStats;
  Models : list (string * analytics.ModelUsage);
  MoneySavedUSD : float64;
  TopEntries : list analytics.ExpensiveEntry;
}.
(** [models] is the range order over the models. *)
Definition buildDashboardView (models : gmap string analytics.ModelUsage → list (string * analytics.ModelUsage))
    (snap : Snapshot_) (a : analytics.Snapshot_) : dashboardView :=
  mkView (connections_of snap) (CommandsTotal snap) (ErrorsTotal snap)
    [("semantic_cache", statsCacheFrom (SemanticCache snap)); ("prompt_cache", statsCacheFrom (PromptCache snap));
     ("tool_cache", statsCacheFrom (ToolCache snap))]
    (sort_Slice (λ i j, String.ltb (Family i) (Family j)) (Latency snap))
    (sort_Slice (λ i j, String.ltb i.1 j.1) (models (analytics.EmbeddingByModel a)))
    (analytics.MoneySavedTotalUSD a) (analytics.TopExpensiveEntries a).

Definition avgMillis (l : LatencyStats) : float64 := f64_div (f64_of_Z (AvgNanos l)) (f64_of_Z 1000000).
Definition maxMillis (l : LatencyStats) : float64 := f64_div (f64_of_Z (MaxNanos l)) (f64_of_Z 1000000).
Definition mulf (a b : float64) : float64 := f64_mul a b.
End handlers.
End observability.
