(* ===== verification/HttpSpec.v ===== *)
(** * What the operator endpoints promise

    A scraper reads back every figure of /metrics; /stats is one document or,
    once a cost that is no finite number was saved, nothing at all; the
    dashboard does not depend on the order maps are visited in. *)

From S2P Require Import Prelude.
From S2P Require Import GoStd.
From S2P Require Import GoStrings.
From S2P Require Import Floats.
From S2P Require Import Auth.
From S2P Require Import Metrics.
From S2P Require Import Analytics.
From S2P Require Import Caches.
From S2P Require Import Store.
From S2P Require Import RespCodec.
From S2P Require Import Server.
From S2P Require Import HandlersData.
From S2P Require Import Session.
From S2P Require Import SessionRun.
From S2P Require Import Providers.
From S2P Require Import Json.
From S2P Require Import Http.
From Stdlib Require Import SpecFloat.

Open Scope Z_scope.

Import observability.

(** ** Scraping *)

(** A reader of the text format: comment lines are skipped, a sample's value
    follows the last space of its line. *)
Fixpoint cut_last (sep : ascii) (s : string) : option (string * string) :=
  match s with
  | EmptyString => None
  | String c s =>
      match cut_last sep s with
      | Some (a, b) => Some (String c a, b)
      | None => if Ascii.eqb c sep then Some ("", s) else None
      end
  end.
Definition scrape_line (line : string) : option (string * string) :=
  match line with
  | EmptyString => None
  | String c _ => if Ascii.eqb c "#" then None else cut_last " " line
  end.
Definition scrape (text : string) : list (string * string) := omap scrape_line (Split newline text).
Definition samples (f : family) : list (string * string) := (λ s, (fam_name f +:+ s.1, s.2)) <$> fam_samples f.

(** Texts of numbers hold neither spaces nor line ends, quoted text no line
    ends. *)
Class TextLaws `{UnicodeTables} `{NumberText} : Prop := {
  format_g_line f : contains newline (format_g f) = false ∧ contains " " (format_g f) = false;
  uni_quote_line s : contains newline (uni_quote s) = false;
}.

Lemma cut_last_app sep a b : contains sep b = false → cut_last sep (a +:+ String sep b) = Some (a, b).
Proof.
  intros Hb. assert (N : cut_last sep b = None).
  { induction b as [|c b IH]; [done|]. cbn in Hb |- *. apply orb_false_iff in Hb as [-> Hb]. by rewrite IH. }
  induction a as [|c a IH]; autorewrite with go; cbn [cut_last]; [by rewrite N, Ascii.eqb_refl|]. by rewrite IH.
Qed.

Lemma scrape_cons line rest : contains newline line = false →
  scrape (line +:+ LF +:+ rest) = option_list (scrape_line line) ++ scrape rest.
Proof.
  intros Hl. unfold scrape. change (LF +:+ rest) with (String newline rest). rewrite Split_app by done. cbn [omap list_omap].
  by destruct (scrape_line line).
Qed.

Lemma concat_cons (x : string) (l : list string) : String.concat "" (x :: l) = x +:+ String.concat "" l.
Proof. destruct l; cbn; [by rewrite str_app_nil_r|]. by autorewrite with go. Qed.

Definition sample_ok (s : string * string) : Prop :=
  contains newline s.1 = false ∧ contains newline s.2 = false ∧ contains " " s.2 = false.
(** Everything printed stays on its line; no metric name starts a comment. *)
Definition family_ok (f : family) : Prop :=
  (∃ name, fam_name f = String "c" name) ∧
  contains newline (fam_name f) = false ∧ contains newline (fam_help f) = false ∧ contains newline (fam_type f) = false ∧
  Forall sample_ok (fam_samples f).

Lemma scrape_sample name s rest : (∃ n, name = String "c" n) → contains newline name = false → sample_ok s →
  scrape (print_sample name s +:+ rest) = (name +:+ s.1, s.2) :: scrape rest.
Proof.
  intros [n ->] Hn (H1 & H2 & H3). unfold print_sample.
  replace ((String "c" n +:+ s.1 +:+ " " +:+ s.2 +:+ LF) +:+ rest)
    with (((String "c" n +:+ s.1) +:+ String " " s.2) +:+ LF +:+ rest)
    by (rewrite !str_app_assoc; by autorewrite with go).
  rewrite scrape_cons by (rewrite !contains_app, Hn, H1; cbn [contains]; by rewrite H2).
  assert (E : scrape_line ((String "c" n +:+ s.1) +:+ String " " s.2) = Some (String "c" n +:+ s.1, s.2)).
  { rewrite <- (cut_last_app " " (String "c" n +:+ s.1) s.2 H3). by autorewrite with go. }
  by rewrite E.
Qed.
Lemma scrape_comment c line rest : contains newline line = false → c = "#"%char →
  scrape (String c line +:+ LF +:+ rest) = scrape rest.
Proof. intros Hl ->. rewrite scrape_cons by (cbn; by rewrite Hl). done. Qed.

Lemma scrape_family f rest : family_ok f → scrape (print_family f +:+ rest) = samples f ++ scrape rest.
Proof.
  intros (Hc & Hn & Hh & Ht & Hs). unfold print_family, samples.
  set (body := String.concat "" _).
  replace (_ +:+ rest) with
    (String "#" (" HELP " +:+ fam_name f +:+ " " +:+ fam_help f) +:+ LF +:+
     (String "#" (" TYPE " +:+ fam_name f +:+ " " +:+ fam_type f) +:+ LF +:+ (body +:+ rest)))
    by (rewrite ?str_app_assoc; autorewrite with go; rewrite ?str_app_assoc; by autorewrite with go).
  rewrite !scrape_comment by (try done; rewrite !contains_app, ?Hn, ?Hh, ?Ht; done). subst body.
  induction Hs as [|s l Hs _ IH]; [done|]. rewrite !fmap_cons, concat_cons, str_app_assoc.
  rewrite scrape_sample by done. by rewrite IH.
Qed.

Lemma scrape_families fs : Forall family_ok fs → scrape (String.concat "" (print_family <$> fs)) = fs ≫= samples.
Proof.
  induction 1 as [|f fs Hf _ IH]; [done|]. rewrite fmap_cons, concat_cons, scrape_family by done. by rewrite IH.
Qed.

(** *** The texts the handler prints *)

Lemma digit_plain d : 0 ≤ d < 10 → digit_char d ≠ newline ∧ digit_char d ≠ " "%char.
Proof.
  intros Hd. assert (d = 0 ∨ d = 1 ∨ d = 2 ∨ d = 3 ∨ d = 4 ∨ d = 5 ∨ d = 6 ∨ d = 7 ∨ d = 8 ∨ d = 9) as HC by lia.
  repeat destruct HC as [->|HC]; [..|subst d]; by split.
Qed.
Lemma format_digits_plain c fuel n acc : c = newline ∨ c = " "%char → contains c acc = false →
  contains c (format_digits fuel n acc) = false.
Proof.
  intros Hc. revert n acc. induction fuel as [|fuel IH]; intros n acc Ha; cbn [format_digits]; [done|].
  assert (contains c (String (digit_char (n `mod` 10)) acc) = false).
  { cbn [contains]. rewrite Ha, orb_false_r. apply Ascii.eqb_neq.
    destruct (digit_plain (n `mod` 10)) as [? ?]; [apply Z.mod_pos_bound; lia|]. by destruct Hc as [-> | ->]. }
  case_match; [done|by apply IH].
Qed.
Lemma FormatInt_plain c n : c = newline ∨ c = " "%char → contains c (FormatInt n) = false.
Proof.
  intros Hc. unfold FormatInt, FormatUint. case_match; [|by apply format_digits_plain].
  cbn [contains]. rewrite format_digits_plain by done. rewrite orb_false_r. apply Ascii.eqb_neq.
  by destruct Hc as [-> | ->].
Qed.
Lemma quote_char_line c : contains newline (quote_char c) = false.
Proof. destruct c as [[] [] [] [] [] [] [] []]; vm_compute; reflexivity. Qed.

Definition header_ok (name help ty : string) : bool :=
  match name with String c _ => Ascii.eqb c "c" | EmptyString => false end &&
  negb (contains newline name) && negb (contains newline help) && negb (contains newline ty).

Section exposition.
Context `{TextLaws}.

Lemma Quote_line s : contains newline (Quote s) = false.
Proof.
  unfold Quote. destruct (is_ascii s); [|apply uni_quote_line]. cbn [contains]. rewrite contains_app. cbn [contains].
  rewrite !orb_false_r. induction s as [|c s IH]; [done|]. cbn [quote_go]. by rewrite contains_app, quote_char_line.
Qed.
Lemma label_line key v : contains newline key = false → contains newline (label key v) = false.
Proof. intros Hk. unfold label. rewrite !contains_app, Hk, Quote_line. done. Qed.

Lemma counted_ok (s : string) n : contains newline s = false → sample_ok (s, FormatInt n).
Proof. intros Hs. split; [done|]. split; apply FormatInt_plain; auto. Qed.
Lemma gauged_ok (s : string) f : contains newline s = false → sample_ok (s, format_g f).
Proof. intros Hs. split; [done|]. split; apply format_g_line. Qed.

Lemma family_ok_intro f : header_ok (fam_name f) (fam_help f) (fam_type f) = true →
  Forall sample_ok (fam_samples f) → family_ok f.
Proof.
  intros [[[Hc Hn%negb_true_iff]%andb_true_iff Hh%negb_true_iff]%andb_true_iff Ht%negb_true_iff]%andb_true_iff Hs.
  split; [|done]. destruct (fam_name f) as [|c n]; [done|]. apply Ascii.eqb_eq in Hc as ->. by exists n.
Qed.
Lemma counter_ok name help v : header_ok name help "counter" = true → family_ok (counter name help v).
Proof. intros Hh. apply family_ok_intro; [exact Hh|]. constructor; [by apply counted_ok|constructor]. Qed.
Lemma gauge_ok name help v : header_ok name help "gauge" = true → family_ok (gauge name help v).
Proof. intros Hh. apply family_ok_intro; [exact Hh|]. constructor; [by apply counted_ok|constructor]. Qed.
Lemma labelled_ok {A} name help ty (f : A → string * string) l : header_ok name help ty = true →
  (∀ x, sample_ok (f x)) → family_ok (mkFamily name help ty (f <$> l)).
Proof. intros Hh Hf. apply family_ok_intro; [exact Hh|]. cbn [fam_samples]. rewrite Forall_fmap, Forall_forall. intros x _. apply Hf. Qed.

Lemma families_ok tools snap : Forall family_ok (families tools snap).
Proof.
  unfold families. repeat apply Forall_cons_2; [..|constructor].
  all: lazymatch goal with
       | |- family_ok (counter _ _ _) => apply counter_ok; reflexivity
       | |- family_ok (gauge _ _ _) => apply gauge_ok; reflexivity
       | |- family_ok (mkFamily _ _ _ _) => apply labelled_ok; [reflexivity|intros x]
       end.
  all: first [apply counted_ok | apply gauged_ok]; by apply label_line.
Qed.
End exposition.


(** ** The JSON document *)

(** The floats of a document. *)
Fixpoint floats (v : value) : list float64 :=
  match v with
  | VFloat f => [f]
  | VArray l => List.flat_map floats l
  | VObject fields => List.flat_map (λ kv, floats kv.2) fields
  | _ => []
  end.
Definition finite (f : float64) : Prop := is_finite f = true.

Lemma value_nested_ind (P : value → Prop) :
  (∀ n, P (VInt n)) → (∀ f, P (VFloat f)) → (∀ b, P (VBool b)) → (∀ s, P (VString s)) →
  (∀ l, Forall P l → P (VArray l)) → (∀ fields, Forall (λ kv, P kv.2) fields → P (VObject fields)) → ∀ v, P v.
Proof.
  intros HI HF HB HS HA HO. fix IH 1. intros [n|f|b|s|l|fields]; [apply HI|apply HF|apply HB|apply HS|apply HA|apply HO].
  - induction l as [|v l IHl]; constructor; [apply IH|exact IHl].
  - induction fields as [|[k v] fields IHl]; constructor; [apply IH|exact IHl].
Qed.

Section documents.
Context `{NumberText}.

Lemma collect_Some {A} (f : A → option string) (g : A → list float64) l :
  Forall (λ x, is_Some (f x) ↔ Forall finite (g x)) l →
  is_Some (collect (List.map f l)) ↔ Forall finite (List.flat_map g l).
Proof.
  induction 1 as [|x l Hx _ IH]; cbn; [split; [constructor|by eexists]|].
  rewrite Forall_app, <- IH, <- Hx. destruct (f x), (collect (List.map f l)).
  all: split; [intros [? HS]; try done; by split; eexists|intros [[? ?] [? ?]]; try done; by eexists].
Qed.
Lemma Encode_finite v : is_Some (Encode v) ↔ Forall finite (floats v).
Proof.
  induction v as [n|f|b|s|l IH|fields IH] using value_nested_ind; cbn [Encode floats]; try (split; [constructor|by eexists]).
  - unfold finite. destruct (is_finite f) eqn:E; rewrite Forall_singleton, E; split; intros HH; try done; by destruct HH.
  - rewrite <- (collect_Some Encode floats l IH). destruct (collect _); (split; intros [? HS]; try done; by eexists).
  - rewrite <- (collect_Some (λ kv, member kv.1 <$> Encode kv.2) (λ kv, floats kv.2) fields).
    + destruct (collect _); (split; intros [? HS]; try done; by eexists).
    + apply (Forall_impl _ _ _ IH). intros [k v]. cbn [fst snd]. by rewrite fmap_is_Some.
Qed.

Lemma StatsHandler_empty snap tracker :
  StatsHandler snap tracker = "" ↔ ¬ Forall finite (floats (statsResponse snap (analyticsSnapshot tracker))).
Proof.
  unfold StatsHandler. rewrite <- Encode_finite. destruct (Encode _) as [s|] eqn:E.
  - split; [intros Es; by destruct s|]. intros Hn. by destruct Hn.
  - split; [|done]. intros _ [? ?]. done.
Qed.
End documents.

(** What the rest of the server does to the tracker. *)
Inductive use :=
  | Saved (cacheType prompt : string) (cost : float64)
  | Embedded (model : string) (tokens : Z)
  | Completed (model : string) (tokens : Z).
Definition record_use (u : use) (t : analytics.Tracker) : analytics.Tracker :=
  match u with
  | Saved ct p c => analytics.RecordCacheHitSavings ct p c t
  | Embedded m n => analytics.RecordEmbeddingUsage m n t
  | Completed m n => analytics.RecordCompletionUsage m n t
  end.
Definition record_uses (us : list use) (t : analytics.Tracker) : analytics.Tracker := foldl (λ t u, record_use u t) t us.

Lemma f64_add_infinite a b : ¬ finite a → ¬ finite b ∨ is_finite b = true → ¬ finite (f64_add a b).
Proof. unfold finite, f64_add. destruct a as [[]|[]| |[]], b as [[]|[]| |[]]; cbn; intros; done || tauto. Qed.

Lemma record_use_infinite u t : ¬ finite (analytics.moneySavedTotalUSD t) →
  ¬ finite (analytics.moneySavedTotalUSD (record_use u t)).
Proof.
  intros Hm. destruct u; cbn [record_use].
  - unfold analytics.RecordCacheHitSavings. case_match; [done|]. cbn. apply f64_add_infinite; [done|].
    unfold finite. destruct (is_finite cost); auto.
  - unfold analytics.RecordEmbeddingUsage. by case_match.
  - unfold analytics.RecordCompletionUsage. by case_match.
Qed.

Lemma record_uses_infinite us : ∀ t, ¬ finite (analytics.moneySavedTotalUSD t) →
  ¬ finite (analytics.moneySavedTotalUSD (record_uses us t)).
Proof. induction us as [|u us IH]; intros t Ht; [done|]. by apply IH, record_use_infinite. Qed.

Lemma money_in_document `{NumberText} snap t :
  analytics.moneySavedTotalUSD t ∈ floats (statsResponse snap (analyticsSnapshot (Some t))).
Proof.
  apply list_elem_of_In. cbn [floats statsResponse]. apply List.in_flat_map.
  exists ("analytics", statsAnalyticsFrom (analyticsSnapshot (Some t))). split; [do 17 right; by left|].
  cbn [snd floats statsAnalyticsFrom]. apply List.in_flat_map.
  exists ("money_saved_total_usd", VFloat (analytics.moneySavedTotalUSD t)). split; [do 2 right; by left|by left].
Qed.

(** /stats answers its document exactly when every cost, total and hit rate
    in it is a finite number: a cost of infinity (which COST accepts, and
    which sums of large costs reach) makes the encoder fail, its error is
    ignored, and from the first such saving on the endpoint answers an empty
    body for ever, whatever is recorded later. *)
Theorem stats_lost `{NumberText} :
  (∀ snap tracker, StatsHandler snap tracker = "" ↔
     ¬ Forall finite (floats (statsResponse snap (analyticsSnapshot tracker)))) ∧
  (∀ cacheType prompt t us snap, finite (analytics.moneySavedTotalUSD t) →
     StatsHandler snap (Some (record_uses us (analytics.RecordCacheHitSavings cacheType prompt (f64_Inf false) t))) = "").
Proof.
  split; [apply StatsHandler_empty|]. intros ct p t us snap Hf.
  assert (Hm : ¬ finite (analytics.moneySavedTotalUSD (record_uses us (analytics.RecordCacheHitSavings ct p (f64_Inf false) t)))).
  { apply record_uses_infinite. unfold analytics.RecordCacheHitSavings. cbn. revert Hf. unfold finite.
    by destruct (analytics.moneySavedTotalUSD t) as [[]|[]| |[]]. }
  apply StatsHandler_empty. intros HF. apply Hm. rewrite Forall_forall in HF. apply HF, money_in_document.
Qed.

(** ** The dashboard *)

(** Sorting by a key that tells the elements apart forgets their order. *)
Lemma sort_by_key {A} (key : A → string) l1 l2 : l1 ≡ₚ l2 → NoDup (key <$> l1) →
  sort_Slice (λ i j, String.ltb (key i) (key j)) l1 = sort_Slice (λ i j, String.ltb (key i) (key j)) l2.
Proof.
  intros Hp Hnd. set (less := λ i j : A, String.ltb (key i) (key j)).
  assert (HS : ∀ l, StronglySorted (slice_le less) (sort_Slice less l)).
  { intros l. apply (sort_Slice_sorted less) with (P := λ _, True); [intros x y; apply ltb_asym| |by apply Forall_true].
    intros x y z _ _ _. apply ltb_negtrans. }
  apply (StronglySorted_unique_strong (slice_le less)); [|apply HS..|by rewrite !sort_Slice_perm].
  intros x y Hx Hy H1 H2. rewrite sort_Slice_perm in Hx, Hy. rewrite <- Hp in Hy.
  unfold slice_le, less in H1, H2. apply ltb_false in H1, H2. assert (E : key x = key y) by (by apply (anti_symm String.le)).
  apply list_elem_of_lookup in Hx as (i & Hi), Hy as (j & Hj).
  assert (i = j) as ->; [|congruence].
  apply (NoDup_lookup (key <$> l1) i j (key x) Hnd); rewrite list_lookup_fmap; [by rewrite Hi|]. rewrite Hj. cbn. by rewrite E.
Qed.
Lemma sort_by_key_sorted {A} (key : A → string) l :
  StronglySorted (λ i j, String.le (key i) (key j)) (sort_Slice (λ i j, String.ltb (key i) (key j)) l).
Proof.
  assert (HS : StronglySorted (slice_le (λ i j : A, String.ltb (key i) (key j))) (sort_Slice (λ i j, String.ltb (key i) (key j)) l)).
  { apply sort_Slice_sorted with (P := λ _, True); [intros x y; apply ltb_asym| |by apply Forall_true].
    intros x y z _ _ _. apply ltb_negtrans. }
  induction HS as [|x l' _ IH Hx]; [constructor|]. constructor; [done|]. rewrite Forall_forall in *.
  intros y Hy. apply ltb_false, (Hx y Hy).
Qed.

(** A range over a map: every entry once. *)
Definition ranges {A} (order : gmap string A → list (string * A)) : Prop := ∀ m, order m ≡ₚ map_to_list m.

(** The dashboard is deterministic: its view does not depend on the order in
    which the run-time visits the maps of families and models (which /metrics
    shows); every family's latency is listed once, by name, with its average
    and maximum, and so is every embedding model. *)
Theorem dashboard_deterministic o1 o2 mo1 mo2 m a :
  ranges o1 → ranges o2 → ranges mo1 → ranges mo2 →
  let view := buildDashboardView mo1 (metrics.Snapshot o1 m) a in
  view = buildDashboardView mo2 (metrics.Snapshot o2 m) a ∧
  v_Latency view ≡ₚ ((λ '(family, acc), metrics.latencyStats family acc) <$> map_to_list (metrics.latency m)) ∧
  StronglySorted (λ i j, String.le (metrics.Family i) (metrics.Family j)) (v_Latency view) ∧
  Models view ≡ₚ map_to_list (analytics.EmbeddingByModel a) ∧
  StronglySorted (λ i j, String.le i.1 j.1) (Models view).
Proof.
  intros H1 H2 H3 H4. cbv zeta. unfold buildDashboardView, metrics.Snapshot. cbn [v_Latency Models metrics.Latency].
  set (stats := λ '(family, acc), metrics.latencyStats family acc).
  assert (HL : sort_Slice (λ i j, String.ltb (metrics.Family i) (metrics.Family j)) (stats <$> o1 (metrics.latency m)) =
               sort_Slice (λ i j, String.ltb (metrics.Family i) (metrics.Family j)) (stats <$> o2 (metrics.latency m))).
  { apply sort_by_key; [by rewrite (H1 _), (H2 _)|]. rewrite (H1 _).
    rewrite <- list_fmap_compose. erewrite list_fmap_ext; [apply NoDup_fst_map_to_list|]. by intros ? [? ?] _. }
  assert (HM : sort_Slice (λ i j, String.ltb i.1 j.1) (mo1 (analytics.EmbeddingByModel a)) =
               sort_Slice (λ i j, String.ltb i.1 j.1) (mo2 (analytics.EmbeddingByModel a))).
  { apply (sort_by_key fst); [by rewrite (H3 _), (H4 _)|]. rewrite (H3 _). apply NoDup_fst_map_to_list. }
  split_and!; [|by rewrite sort_Slice_perm, (H1 _)|apply sort_by_key_sorted|by rewrite sort_Slice_perm, (H3 _)|
    apply (sort_by_key_sorted fst)].
  cbn [metrics.Latency]. by rewrite HL, HM.
Qed.

(** ** Concrete runs *)

#[local] Instance http_tables : UnicodeTables := {|
  uni_to_upper := λ s, s; uni_to_lower := λ s, s; uni_equal_fold := String.eqb; uni_fields := λ s, [s];
  uni_trim_space := λ s, s; uni_quote := λ s, "?" |}.
#[local] Instance http_numbers : NumberText := {| format_g := λ _, "0.5"; format_f := λ _ _, "0.5"; json_number := λ _, "0.5"; json_uni := λ s, "?" |}.
#[local] Instance http_laws : TextLaws.
Proof. split; [intros; split; reflexivity|reflexivity]. Defined.

Definition busy : metrics.Metrics :=
  metrics.RecordCommandLatency "strings" 7 (metrics.RecordCommandLatency "hash" 5
    (metrics.MCPCallRecorded "recall" (metrics.ConnectionOpened metrics.NewMetrics))).


Lemma dashboard_deterministic_witness :
  v_Latency (buildDashboardView (λ m, reverse (map_to_list m)) (metrics.Snapshot (λ m, reverse (map_to_list m)) busy)
    (analyticsSnapshot None)) = [metrics.mkLatencyStats "hash" 1 5 5; metrics.mkLatencyStats "strings" 1 7 7].
Proof.
  assert (R : ∀ A, ranges (λ m : gmap string A, reverse (map_to_list m))) by (intros A m; apply reverse_Permutation).
  assert (I : ∀ A, ranges (λ m : gmap string A, map_to_list m)) by (intros A m; done).
  destruct (dashboard_deterministic (λ m, reverse (map_to_list m)) map_to_list (λ m, reverse (map_to_list m)) map_to_list
    busy (analyticsSnapshot None) (R _) (I _) (R _) (I _)) as [-> _].
  vm_compute. reflexivity.
Defined.

(** A client stores a prompt whose COST is [inf], which [strconv.ParseFloat]
    reads as infinity, and reads it once. *)
#[local] Instance http_runtime : Runtime := plain_runtime Z.of_nat.
#[local] Instance http_floats : FloatText := {|
  ParseFloat := λ s, if String.eqb s "inf" then Some (f64_Inf false) else None; FormatFloat := λ _, "" |}.
#[local] Existing Instance toy_codec.
#[local] Instance http_services : Services := offline.
#[local] Instance http_encoding : Encoding := no_encoding.

Definition infinite_cost : list (list string) :=
  [["CACHE.PROMPT"; "SET"; "t"; "{}"; "m"; "answer"; "COST"; "inf"]; ["CACHE.PROMPT"; "GET"; "t"; "{}"; "m"]].
Definition http_world : World := mkWorld (newDeps (newStore 4 0 None) (auth.New "")) NewClientState 0 0.

Lemma stats_lost_witness :
  let '(r, w) := play infinite_cost None http_world in
  r = Some (Some (BulkString "answer")) ∧
  ∀ us snap, StatsHandler snap (Some (record_uses us (Analytics_ (deps w)))) = "".
Proof.
  destruct (play infinite_cost None http_world) as [r w] eqn:E.
  assert (Er : r = Some (Some (BulkString "answer"))).
  { change r with (r, w).1. rewrite <- E. vm_compute. reflexivity. }
  assert (Ea : Analytics_ (deps w) = analytics.RecordCacheHitSavings "prompt" "t" (f64_Inf false) analytics.New).
  { change w with (r, w).2. rewrite <- E. vm_compute. reflexivity. }
  split; [exact Er|]. intros us snap. rewrite Ea.
  apply (proj2 stats_lost "prompt" "t" analytics.New us snap). reflexivity.
Defined.

(** An error reply leaves the error counter of /metrics at zero. *)
Lemma errors_never_counted :
  let '(r, w) := play [["NOSUCH"]] None http_world in
  r = Some (Some (Err (ErrUnknownCommand "NOSUCH" []))) ∧
  ("cachepot_errors_total", "0") ∈ scrape (MetricsHandler map_to_list (metrics.Snapshot map_to_list (Metrics_ (deps w)))).
Proof.
  destruct (play [["NOSUCH"]] None http_world) as [r w] eqn:E. split.
  - change r with (r, w).1. rewrite <- E. vm_compute. reflexivity.
  - replace w with (play [["NOSUCH"]] None http_world).2 by (by rewrite E).
    apply (bool_decide_unpack _). vm_compute. reflexivity.
Qed.
