(* ===== verification/Dashboard.v ===== *)
(** * The dashboard page (internal/observability/http.go, [dashboardHTML])

    The template as html/template executes it: every interpolated value of
    this page is element text, so each goes through the HTML escaper.  Proved:
    whatever the cached prompts, models and families are called, the page has
    the tags of the template and nothing else, and its cells show the figures. *)

From S2P Require Import Prelude.
From S2P Require Import GoStd.
From S2P Require Import GoStrings.
From S2P Require Import Floats.
From S2P Require Import Metrics.
From S2P Require Import Analytics.
From S2P Require Import Providers.
From S2P Require Import Json.
From S2P Require Import Http.
From S2P Require Import HttpSpec.

Open Scope Z_scope.

Module dashboard.
Import metrics observability.

(** The template's literal text, its double quotes written as single ones,
    which it has none of. *)
Fixpoint html (s : string) : string :=
  match s with
  | EmptyString => ""
  | String c s => String (if Ascii.eqb c "'" then "034"%char else c) (html s)
  end.

(** html/template's escaper for element text. *)
Definition entities : list (ascii * string) :=
  [("034"%char, "&#34;"); ("&"%char, "&amp;"); ("'"%char, "&#39;"); ("+"%char, "&#43;"); ("<"%char, "&lt;"); (">"%char, "&gt;")].
Definition escape_char (c : ascii) : string :=
  if code c =? 0 then String "239" (String "191" (String "189" ""))
  else match find (λ e, Ascii.eqb e.1 c) entities with Some e => e.2 | None => String c "" end.
Fixpoint escape (s : string) : string :=
  match s with EmptyString => "" | String c s => escape_char c +:+ escape s end.

Section page.
Context `{NumberText}.

Definition head : string := html "<!doctype html>
<html>
<head>
<meta charset='utf-8'>
<title>Cache-Pot Dashboard</title>
<style>
  body { font-family: -apple-system, BlinkMacSystemFont, 'Segoe UI', sans-serif; margin: 2rem; color: #1a1a1a; background: #fafafa; }
  h1 { font-size: 1.4rem; }
  h2 { font-size: 1.1rem; margin-top: 2rem; border-bottom: 1px solid #ddd; padding-bottom: .25rem; }
  table { border-collapse: collapse; width: 100%; margin-top: .5rem; background: #fff; }
  th, td { text-align: left; padding: .4rem .6rem; border-bottom: 1px solid #eee; font-size: .9rem; }
  th { background: #f0f0f0; }
  .stat { display: inline-block; margin-right: 2rem; margin-top: .5rem; }
  .stat .value { font-size: 1.6rem; font-weight: 600; display: block; }
  .stat .label { font-size: .8rem; color: #666; }
  .muted { color: #888; font-size: .85rem; }
</style>
</head>
<body>
<h1>Cache-Pot Dashboard</h1>
<p class='muted'>Operator/debug view over live process state -- not a marketing surface. Refresh the page for updated figures.</p>

<div>
".

Definition stat (before value label : string) : string :=
  html "  <div class='stat'><span class='value'>" +:+ before +:+ escape value +:+
  html "</span><span class='label'>" +:+ label +:+ html "</span></div>
".
Definition totals (v : dashboardView) : string :=
  stat "$" (format_f 4 (MoneySavedUSD v)) "money saved (from caller-reported COST)" +:+
  stat "" (FormatInt (v_CommandsTotal v)) "commands total" +:+
  stat "" (FormatInt (v_ErrorsTotal v)) "errors total" +:+
  stat "" (FormatInt (sc_Active (Connections v))) "connections active".

Definition td (value : string) : string := "<td>" +:+ escape value +:+ "</td>".
Definition tr (cells : string) : string := "<tr>" +:+ cells +:+ "</tr>" +:+ LF.
(** [{{range}} ... {{else}} ... {{end}}] *)
Definition range {A} (row : A → string) (none : string) (l : list A) : string :=
  match l with [] => none | _ => String.concat "" (row <$> l) end.

Definition cache_row (c : string * statsCache) : string :=
  tr (td c.1 +:+ td (FormatInt (st_Hits c.2)) +:+ td (FormatInt (st_Misses c.2)) +:+
      td (format_f 1 (mulf (st_HitRate c.2) (f64_of_Z 100)) +:+ "%")).
Definition latency_row (l : LatencyStats) : string :=
  tr (td (Family l) +:+ td (FormatInt (Count l)) +:+ td (format_f 3 (avgMillis l)) +:+ td (format_f 3 (maxMillis l))).
Definition model_cost (u : analytics.ModelUsage) : string :=
  if analytics.PricingKnown u then escape ("$" +:+ format_f 6 (analytics.CostUSD u))
  else html "<span class='muted'>unknown model, cost not estimated</span>".
Definition model_row (m : string * analytics.ModelUsage) : string :=
  tr (td m.1 +:+ td (FormatInt (analytics.Tokens m.2)) +:+ "<td>" +:+ model_cost m.2 +:+ "</td>").
Definition entry_row (e : analytics.ExpensiveEntry) : string :=
  tr (td (analytics.CacheType e) +:+ td (analytics.Prompt e) +:+ td ("$" +:+ format_f 4 (analytics.Cost e)) +:+
      td (FormatInt (analytics.Hits e))).
Definition none_row (columns text : string) : string :=
  html "<tr><td colspan='" +:+ columns +:+ html "' class='muted'>" +:+ text +:+ "</td></tr>" +:+ LF.

Definition before_caches : string := "</div>

<h2>Cache hit rate</h2>
<table>
<tr><th>cache</th><th>hits</th><th>misses</th><th>hit rate</th></tr>
".
Definition before_latency : string := "
</table>

<h2>Latency by command family</h2>
<table>
<tr><th>family</th><th>count</th><th>avg (ms)</th><th>max (ms)</th></tr>
".
Definition before_models : string := "
</table>

<h2>Embedding tokens consumed, by model</h2>
<table>
<tr><th>model</th><th>tokens</th><th>estimated cost (USD)</th></tr>
".
Definition before_entries : string := "
</table>

<h2>Most expensive cached prompts (hit at least once)</h2>
<table>
<tr><th>cache</th><th>prompt / template</th><th>cost (USD)</th><th>hits</th></tr>
".
Definition tail : string := "
</table>

</body>
</html>
".

Definition dashboardHTML (v : dashboardView) : string :=
  head +:+ totals v +:+
  before_caches +:+ range cache_row "" (Caches v) +:+
  before_latency +:+ range latency_row "" (v_Latency v) +:+
  before_models +:+ range model_row (none_row "3" "no embedding usage recorded yet") (Models v) +:+
  before_entries +:+ range entry_row (none_row "4" "no COST-tagged cache hits recorded yet") (TopEntries v) +:+
  tail.

Definition DashboardHandler (models : gmap string analytics.ModelUsage → list (string * analytics.ModelUsage))
    (snap : Snapshot_) (tracker : option analytics.Tracker) : string :=
  dashboardHTML (buildDashboardView models snap (analyticsSnapshot tracker)).
End page.
End dashboard.

Import metrics observability dashboard.

(** ** What a browser makes of a page

    [tags] are the texts between angle brackets, in reverse; [cells] the raw
    contents of the table cells and of the totals; [open] is the tag being
    read, [cell] the content being read. *)

Record scanner := mkScanner { open : option string; cell : option string; tags : list string; cells : list string }.
Definition shows (tag : string) : bool := String.eqb tag "td" || String.eqb tag (html "span class='value'").
Definition scan_char (s : scanner) (c : ascii) : scanner :=
  match open s with
  | Some tag =>
      if Ascii.eqb c ">" then mkScanner None (if shows tag then Some "" else None) (tag :: tags s) (cells s)
      else mkScanner (Some (tag +:+ String c "")) (cell s) (tags s) (cells s)
  | None =>
      if Ascii.eqb c "<" then
        mkScanner (Some "") None (tags s) (match cell s with Some x => x :: cells s | None => cells s end)
      else mkScanner None (match cell s with Some x => Some (x +:+ String c "") | None => None end) (tags s) (cells s)
  end.
Fixpoint scan (text : string) (s : scanner) : scanner :=
  match text with EmptyString => s | String c text => scan text (scan_char s c) end.

(** The character references of the escaper. *)
Definition reference (s : string) : option (ascii * string) :=
  foldr (λ e r, match strip_prefix e.2 s with Some rest => Some (e.1, rest) | None => r end) None entities.
Fixpoint unescape (fuel : nat) (s : string) : string :=
  match fuel, s with
  | S fuel, String c rest =>
      match reference s with Some (c, rest) => String c (unescape fuel rest) | None => String c (unescape fuel rest) end
  | _, _ => s
  end.
Definition shown (raw : string) : string := unescape (String.length raw) raw.
Definition page_tags (page : string) : list string := reverse (tags (scan page (mkScanner None None [] []))).
Definition page_cells (page : string) : list string := shown <$> reverse (cells (scan page (mkScanner None None [] []))).

Definition plain_text (s : string) : Prop := contains "000" s = false.

(** ** Escaping *)

Lemma scan_app a b s : scan (a +:+ b) s = scan b (scan a s).
Proof. revert s. induction a as [|c a IH]; intros s; [done|]. cbn. apply IH. Qed.

Lemma escape_char_spec c : contains "<" (escape_char c) = false ∧ (1 ≤ String.length (escape_char c))%nat ∧
  (c ≠ "000"%char → ∀ fuel rest, unescape (S fuel) (escape_char c +:+ rest) = String c (unescape fuel rest)).
Proof.
  destruct c as [[] [] [] [] [] [] [] []]; (split_and!; [reflexivity|apply Nat.leb_le; reflexivity|]); intros Hc fuel rest;
    first [reflexivity|by destruct Hc].
Qed.
Lemma escape_no_tag s : contains "<" (escape s) = false.
Proof.
  induction s as [|c s IH]; [done|]. cbn [escape]. rewrite contains_app, IH.
  by destruct (escape_char_spec c) as [-> _].
Qed.
Lemma unescape_escape s : plain_text s → ∀ fuel, (String.length (escape s) ≤ fuel)%nat → unescape fuel (escape s) = s.
Proof.
  unfold plain_text. induction s as [|c s IH]; intros Hs fuel Hf; [by destruct fuel|].
  destruct (escape_char_spec c) as (_ & H1 & H2). cbn [escape] in *. rewrite length_app_str in Hf.
  cbn in Hs. destruct (Ascii.eqb_spec c "000"%char) as [->|Hc]; [done|].
  destruct fuel as [|fuel]; [lia|]. rewrite H2 by done. f_equal. apply IH; [done|lia].
Qed.
Lemma shown_escape s : plain_text s → shown (escape s) = s.
Proof. intros Hs. by apply unescape_escape. Qed.
Lemma escape_app a b : escape (a +:+ b) = escape a +:+ escape b.
Proof. induction a as [|c a IH]; [done|]. rewrite str_app_cons. cbn [escape]. by rewrite IH, str_app_assoc. Qed.

(** ** Scanning

    Content leaves the tags alone; the template's own text is computed. *)

Lemma scan_text text : contains "<" text = false → ∀ x ts cs,
  scan text (mkScanner None (Some x) ts cs) = mkScanner None (Some (x +:+ text)) ts cs.
Proof.
  induction text as [|c text IH]; intros Ht x ts cs; [by rewrite str_app_nil_r|].
  cbn in Ht. apply orb_false_iff in Ht as [Hc Ht]. cbn [scan]. unfold scan_char. cbn [open cell tags cells].
  rewrite Hc. rewrite IH by done. by rewrite str_app_assoc.
Qed.

(** Scanning a piece shows [cs] and passes the tags [ts], from between two
    contents to between two contents. *)
Definition pieces (text : string) (cs ts : list string) : Prop :=
  ∀ ts0 cs0, scan text (mkScanner None None ts0 cs0) = mkScanner None None (reverse ts ++ ts0) (reverse cs ++ cs0).

Lemma pieces_app a b cs cs' ts ts' : pieces a cs ts → pieces b cs' ts' → pieces (a +:+ b) (cs ++ cs') (ts ++ ts').
Proof. intros Ha Hb ts0 cs0. by rewrite scan_app, Ha, Hb, !reverse_app, !app_assoc. Qed.
Definition rows {A B} (f : A → list B) (none : list B) (l : list A) : list B := match l with [] => none | _ => l ≫= f end.
Lemma pieces_rows {A} (row : A → string) (cs ts : A → list string) none ts0 l :
  (∀ x, pieces (row x) (cs x) (ts x)) → pieces none [] ts0 →
  pieces (range row none l) (l ≫= cs) (rows ts ts0 l).
Proof.
  intros Hr Hn. destruct l as [|x l]; [done|]. unfold range, rows. generalize (x :: l) as l'. clear x l.
  induction l' as [|x l' IH]; [intros ??; reflexivity|].
  change (String.concat "" (row <$> x :: l')) with (String.concat "" (row x :: (row <$> l'))). rewrite concat_cons.
  exact (pieces_app (row x) _ (cs x) (l' ≫= cs) (ts x) (l' ≫= ts) (Hr x) IH).
Qed.

(** What was scanned before does not matter. *)
Lemma scan_base text : ∀ s ts cs, let r := scan text s in
  scan text (mkScanner (open s) (cell s) (tags s ++ ts) (cells s ++ cs)) =
    mkScanner (open r) (cell r) (tags r ++ ts) (cells r ++ cs).
Proof.
  induction text as [|c text IH]; intros [o x ts1 cs1] ts cs; [done|]. cbn [scan]. rewrite <- IH. f_equal.
  unfold scan_char. cbn [open cell tags cells]. by repeat case_match.
Qed.
Definition closed (text : string) : bool :=
  match scan text (mkScanner None None [] []) with mkScanner None None _ [] => true | _ => false end.
Lemma pieces_literal text : closed text = true → pieces text [] (page_tags text).
Proof.
  unfold closed, page_tags. intros Hc ts cs. pose proof (scan_base text (mkScanner None None [] []) ts cs) as E. cbn [open cell tags cells app] in E.
  rewrite E. destruct (scan text _) as [[|] [|] ? [|]]; try done. cbn [open cell tags cells app]. by rewrite reverse_involutive.
Qed.

Lemma td_pieces value : pieces (td value) [escape value] ["td"; "/td"].
Proof.
  intros ts cs. unfold td. rewrite !scan_app.
  change (scan "<td>" (mkScanner None None ts cs)) with (mkScanner None (Some "") ("td" :: ts) cs).
  by rewrite scan_text by apply escape_no_tag.
Qed.
Lemma tr_pieces cells cs ts : pieces cells cs ts → pieces (tr cells) cs ("tr" :: ts ++ ["/tr"]).
Proof.
  intros Hc. apply (pieces_app "<tr>" _ [] cs ["tr"]); [by intros ? ?|].
  rewrite <- (app_nil_r cs). by apply pieces_app.
Qed.

Section view.
Context `{NumberText}.

(** The figures, as the cells spell them. *)
Definition totals_cells (v : dashboardView) : list string :=
  ["$" +:+ format_f 4 (MoneySavedUSD v); FormatInt (v_CommandsTotal v); FormatInt (v_ErrorsTotal v);
   FormatInt (sc_Active (Connections v))].
Definition cache_cells (c : string * statsCache) : list string :=
  [c.1; FormatInt (st_Hits c.2); FormatInt (st_Misses c.2); format_f 1 (mulf (st_HitRate c.2) (f64_of_Z 100)) +:+ "%"].
Definition latency_cells (l : LatencyStats) : list string :=
  [Family l; FormatInt (Count l); format_f 3 (avgMillis l); format_f 3 (maxMillis l)].
Definition model_cells (m : string * analytics.ModelUsage) : list string :=
  [m.1; FormatInt (analytics.Tokens m.2);
   if analytics.PricingKnown m.2 then "$" +:+ format_f 6 (analytics.CostUSD m.2) else ""].
Definition entry_cells (e : analytics.ExpensiveEntry) : list string :=
  [analytics.CacheType e; analytics.Prompt e; "$" +:+ format_f 4 (analytics.Cost e); FormatInt (analytics.Hits e)].
Definition figures (v : dashboardView) : list string :=
  totals_cells v ++ (Caches v ≫= cache_cells) ++ (v_Latency v ≫= latency_cells) ++ (Models v ≫= model_cells) ++
  (TopEntries v ≫= entry_cells).

Definition row_tags (n : nat) : list string := "tr" :: concat (replicate n ["td"; "/td"]) ++ ["/tr"].
Definition model_tags (m : string * analytics.ModelUsage) : list string :=
  "tr" :: (["td"; "/td"; "td"; "/td"; "td"] ++
    (if analytics.PricingKnown m.2 then [] else [html "span class='muted'"; "/span"]) ++ ["/td"]) ++ ["/tr"].

#[local] Ltac cell := lazymatch goal with
  |- pieces (td ?v) _ _ => apply td_pieces | |- pieces (td ?v +:+ _) (_ :: ?cs) (_ :: _ :: ?ts) =>
    refine (pieces_app (td v) _ [_] cs ["td"; "/td"] ts (td_pieces v) _) end.
#[local] Ltac row := apply tr_pieces; cbn [fmap list_fmap concat replicate app cache_cells latency_cells entry_cells]; repeat cell.
Lemma cache_pieces c : pieces (cache_row c) (escape <$> cache_cells c) (row_tags 4).
Proof. row. Qed.
Lemma latency_pieces l : pieces (latency_row l) (escape <$> latency_cells l) (row_tags 4).
Proof. row. Qed.
Lemma entry_pieces e : pieces (entry_row e) (escape <$> entry_cells e) (row_tags 4).
Proof. row. Qed.
Lemma model_pieces m : pieces (model_row m) (escape <$> model_cells m) (model_tags m).
Proof.
  apply tr_pieces.
  cbn [fmap list_fmap app model_cells]. do 2 cell. unfold model_cost. destruct (analytics.PricingKnown m.2).
  - apply td_pieces.
  - intros ts cs. vm_compute. reflexivity.
Qed.

Definition stat_tags : list string :=
  [html "div class='stat'"; html "span class='value'"; "/span"; html "span class='label'"; "/span"; "/div"].
Lemma scan_outside text : contains "<" text = false → ∀ ts cs,
  scan text (mkScanner None None ts cs) = mkScanner None None ts cs.
Proof.
  induction text as [|c text IH]; intros Ht ts cs; [done|]. cbn in Ht. apply orb_false_iff in Ht as [Hc Ht].
  cbn [scan]. unfold scan_char. cbn [open cell tags cells]. rewrite Hc. by apply IH.
Qed.
Lemma stat_pieces before value label : contains "<" before = false → escape before = before → contains "<" label = false →
  pieces (stat before value label) [escape (before +:+ value)] stat_tags.
Proof.
  intros Hb Eb Hl ts cs. unfold stat. rewrite !scan_app, escape_app, Eb.
  change (scan (html "  <div class='stat'><span class='value'>") (mkScanner None None ts cs)) with
    (mkScanner None (Some "") (html "span class='value'" :: html "div class='stat'" :: ts) cs).
  rewrite (scan_text before Hb), scan_text by apply escape_no_tag. rewrite str_app_nil. generalize (before +:+ escape value) as x.
  intros x. change (scan (html "</span><span class='label'>") (mkScanner None (Some x)
      (html "span class='value'" :: html "div class='stat'" :: ts) cs)) with
    (mkScanner None None (html "span class='label'" :: "/span" :: html "span class='value'" :: html "div class='stat'" :: ts) (x :: cs)).
  rewrite (scan_outside label Hl). reflexivity.
Qed.
Lemma totals_pieces v : pieces (totals v) (escape <$> totals_cells v) (concat (replicate 4 stat_tags)).
Proof.
  unfold totals, totals_cells. cbn [fmap list_fmap concat replicate app].
  do 3 (eapply (pieces_app _ _ [_] _ stat_tags); [by apply stat_pieces|]). by apply stat_pieces.
Qed.

Lemma fmap_bind {A B C} (f : B → C) (g : A → list B) l : f <$> (l ≫= g) = l ≫= (λ x, f <$> g x).
Proof. induction l as [|x l IH]; [done|]. cbn [mbind list_bind]. by rewrite fmap_app, <- IH. Qed.

(** The page's tags, which know how many rows there are and which models are
    priced, but no text. *)
Definition skeleton (v : dashboardView) : list string :=
  page_tags head ++ concat (replicate 4 stat_tags) ++
  page_tags before_caches ++ rows (λ _, row_tags 4) [] (Caches v) ++
  page_tags before_latency ++ rows (λ _, row_tags 4) [] (v_Latency v) ++
  page_tags before_models ++ rows model_tags (page_tags (none_row "3" "")) (Models v) ++
  page_tags before_entries ++ rows (λ _, row_tags 4) (page_tags (none_row "4" "")) (TopEntries v) ++
  page_tags tail.

#[local] Ltac literal T := refine (pieces_app T _ [] _ (page_tags T) _ (pieces_literal T eq_refl) _).
Lemma none_literal columns text : closed (none_row columns text) = true →
  page_tags (none_row columns text) = page_tags (none_row columns "") →
  pieces (none_row columns text) [] (page_tags (none_row columns "")).
Proof. intros Hc <-. by apply pieces_literal. Qed.
Lemma page_pieces v : pieces (dashboardHTML v) (escape <$> figures v) (skeleton v).
Proof.
  unfold dashboardHTML, figures, skeleton. rewrite !fmap_app, !fmap_bind. literal head.
  refine (pieces_app _ _ _ _ _ _ (totals_pieces v) _). literal before_caches.
  refine (pieces_app _ _ _ _ _ _ (pieces_rows cache_row _ _ "" [] _ cache_pieces (λ _ _, eq_refl)) _). literal before_latency.
  refine (pieces_app _ _ _ _ _ _ (pieces_rows latency_row _ _ "" [] _ latency_pieces (λ _ _, eq_refl)) _). literal before_models.
  refine (pieces_app _ _ _ _ _ _ (pieces_rows model_row _ _ _ _ _ model_pieces _) _);
    [by apply none_literal|]. literal before_entries.
  rewrite <- (app_nil_r (list_bind _ _ _ (TopEntries v))).
  refine (pieces_app _ _ _ _ _ _ (pieces_rows entry_row _ _ _ _ _ entry_pieces _) (pieces_literal tail eq_refl)).
  by apply none_literal.
Qed.
End view.

(** Views with as many rows in each table, and the same models priced. *)
Definition same_shape (v v' : dashboardView) : Prop :=
  length (Caches v) = length (Caches v') ∧ length (v_Latency v) = length (v_Latency v') ∧
  (analytics.PricingKnown ∘ snd <$> Models v) = (analytics.PricingKnown ∘ snd <$> Models v') ∧
  length (TopEntries v) = length (TopEntries v').


Lemma rows_replicate {A} (ts none : list string) (l : list A) :
  rows (λ _, ts) none l = match length l with O => none | n => concat (replicate n ts) end.
Proof.
  assert (E : ∀ l : list A, (l ≫= λ _, ts) = concat (replicate (length l) ts)).
  { intros l'. induction l' as [|y l' IH]; [done|]. cbn [mbind list_bind length replicate concat]. by rewrite <- IH. }
  destruct l as [|x l]; [done|]. apply (E (x :: l)).
Qed.
Lemma same_rows {A} (ts none : list string) (l l' : list A) : length l = length l' →
  rows (λ _, ts) none l' = rows (λ _, ts) none l.
Proof. intros E. by rewrite !rows_replicate, E. Qed.
Lemma same_models ms ms' : (analytics.PricingKnown ∘ snd <$> ms) = (analytics.PricingKnown ∘ snd <$> ms') →
  rows model_tags (page_tags (none_row "3" "")) ms' = rows model_tags (page_tags (none_row "3" "")) ms.
Proof.
  intros E. destruct ms as [|m ms], ms' as [|m' ms']; try done. unfold rows. revert E. generalize (m :: ms) as l, (m' :: ms') as l'.
  induction l as [|x l IH]; intros [|x' l'] E; try done. injection E as E1 E2. cbn [mbind list_bind]. f_equal; [|by apply IH].
  unfold model_tags. by rewrite E1.
Qed.
Lemma page_scan `{NumberText} v : page_tags (dashboardHTML v) = skeleton v ∧
  page_cells (dashboardHTML v) = shown ∘ escape <$> figures v.
Proof.
  unfold page_tags, page_cells. rewrite (page_pieces v [] []). cbn [tags cells].
  by rewrite !app_nil_r, !reverse_involutive, list_fmap_compose.
Qed.

(** C35: nothing that clients put in can change the dashboard's markup, and it
    shows the figures.  The page has exactly the tags of its template, one row
    per cache, family, model and entry: two views with as many rows, and the
    same models priced, give the same tags, whatever the prompts, models and
    families are called and whatever the figures.  And what its totals and its
    tables' cells show, in order, is each figure's text as it is, markup
    characters included (but NUL, which is replaced). *)
Theorem dashboard_reads_back `{NumberText} v :
  (∀ v', same_shape v v' → page_tags (dashboardHTML v') = page_tags (dashboardHTML v)) ∧
  (Forall plain_text (figures v) → page_cells (dashboardHTML v) = figures v).
Proof.
  split.
  - intros v' (H1 & H2 & H3 & H4). rewrite !(proj1 (page_scan _)). unfold skeleton. by rewrite (same_rows _ _ _ _ H1), (same_rows _ _ _ _ H2), (same_rows _ _ _ _ H4), (same_models _ _ H3).
  - intros Hp. rewrite (proj2 (page_scan v)). rewrite <- (list_fmap_id (figures v)) at 2. apply list_fmap_ext.
    intros i s Hs. apply shown_escape. by eapply (Forall_lookup_1 _ _ _ _ Hp).
Qed.

(** A client caches a prompt that is a script, with a cost, and hits it. *)
#[local] Instance page_numbers : NumberText := {|
  format_g := λ _, "0.5"; format_f := λ n _, "0." +:+ String.concat "" (replicate n "5"); json_number := λ _, "0.5"; json_uni := λ s, "?" |}.
Definition script : string := "<script>alert('1'+1)</script>".
Definition attacked (prompt : string) : dashboardView :=
  buildDashboardView map_to_list (metrics.Snapshot map_to_list (metrics.PromptCacheHit metrics.NewMetrics))
    (analyticsSnapshot (Some (analytics.RecordCacheHitSavings "prompt" prompt f64_one analytics.New))).
Definition attacked_figures : list string := ["$0.5555"; "0"; "0"; "0"; "semantic_cache"; "0"; "0"; "0.5%";
  "prompt_cache"; "1"; "0"; "0.5%"; "tool_cache"; "0"; "0"; "0.5%"; "prompt"; script; "$0.5555"; "1"].
Lemma dashboard_reads_back_witness :
  page_cells (dashboardHTML (attacked script)) = attacked_figures ∧
  page_tags (dashboardHTML (attacked script)) = page_tags (dashboardHTML (attacked "hello")).
Proof.
  split.
  - assert (E : figures (attacked script) = attacked_figures) by (vm_compute; reflexivity).
    rewrite <- E. apply (proj2 (dashboard_reads_back (attacked script))). rewrite E. unfold attacked_figures, plain_text.
    repeat (apply Forall_cons; split; [reflexivity|]). apply Forall_nil_2.
  - assert (S : same_shape (attacked "hello") (attacked script)) by (split_and!; vm_compute; reflexivity).
    exact (proj1 (dashboard_reads_back (attacked "hello")) (attacked script) S).
Defined.
